(* ===== verification/_CoqProject ===== *)
-Q . S2P
Prelude.v
Float64.v
Fmt.v
Types.v
Cpu.v
Sizing.v
NodeState.v
Infeasibility.v
ComputeLayout.v
FdGroups.v
Placement.v
PoolPlan.v
ComputePlan.v
Planner.v
Scenarios.v
Correctness.v
Ports.v
Strategies.v
VirtualDrives.v
DriveSafety.v
Api.v
Nodes.v
Templates.v
Inventory.v
InventoryFacts.v
Upgrade.v
UpgradeFacts.v
Apply.v
ApplyFacts.v
Daemonset.v
DaemonsetFacts.v
Creation.v
SpecUpdate.v
CreationFacts.v
Allocation.v
AllocationFacts.v
Validation.v
ValidationFacts.v
Disruption.v
DisruptionFacts.v
Campaign.v
Migration.v
MigrationFacts.v
MigrationRuns.v
Rotation.v
RotationFacts.v
RotationRuns.v
VidSync.v
StaleDrives.v
StaleFacts.v
OwnedDrives.v
