(* ===== verification/Prelude.v ===== *)
(** * Weka operator: verification of the decisions the operator makes

    The operator turns a WekaCluster object into drive and compute containers on the nodes of a Kubernetes
    cluster, keeps them as the object changes, upgrades them, and runs long manual operations on them. This
    library models the parts that decide, as functions of what they read, and proves what they promise:

    - the _capacity planner_ (src/internal/capacityplanner), a pure function [PlanCapacity] from the desired
      capacity, the protection scheme, the existing containers and the node inventory to a plan (containers to
      grow, containers to create, the compute layout) or an explained refusal, and the _inventory builder_
      that prepares its input (capacityplanner/inventory);
    - the _allocator_ (src/internal/controllers/allocator): port ranges of a cluster; ports, whole drives or
      virtual drives of a container; templates and hugepages;
    - steps of the _cluster reconciler_ (controllers/wekacluster, controllers/upgrade): applying a plan,
      act-as-daemonset, building missing containers, the selector clean-up, propagating the spec, rolling
      image upgrade and pod rotation;
    - steps of the _container reconciler_ (controllers/wekacontainer): allocation under a lease, growth and
      replacement of drives, the virtual drives of a container on the ssdproxy of its node;
    - _manual operations_ (controllers/operations): the cross-cluster disruption gate, the migration to drive
      sharing, the rotation of the ssdproxy image and the clean-up of stale virtual drives, as campaigns of
      passes that may be cut short;
    - _admission_ (src/internal/validation, src/internal/admission): modes and policies, and the rules on
      capacity, protection, sizing modes, counts and cores.

    ** How the parts interact

    Admission lets a cluster spec in. The reconciler reads it through the templates; where the cluster is
    sized by capacity it collects the inventory, calls [PlanCapacity] and applies the plan by updating grown
    containers and building new ones, otherwise it builds containers by count or by node. Each container, once
    its node is known, takes its ports and drives under the lease of its node, from the node's annotations and
    from the allocations of the others there. The planner consumes a map of node states, one per inventory
    node; what the inventory charges to a node is what the allocator gave out there ([planned_within_physical]).
    Upgrades and pod rotations move the containers to a new image one at a time behind health checks; the
    manual operations do the same for the proxies ([EvaluateNodeDisruption] before, [VerifyNodeRecovered]
    after) and for the conversion of drive containers. A container creates its virtual drives on the proxy and
    stores the VIDs the proxy gives them ([AddVirtualDrives]); the clean-up removes what no stored allocation
    claims or may come to claim ([cleanup_spares_owned]).

    ** Files, in dependency order

    - Prelude: notation, tactics, the hint database [planner], Go's integer division (pkg/util/math.go),
      first-success loops, sums, sorting, even shares, [res] for functions that return an error.
    - Float64, Fmt: Go's float64 as IEEE 754 binary64 (the Standard Library's [SpecFloat], so every definition
      computes), [fmt.Sprintf] for the verbs the messages use, and what is used of package strings.
    - Types: the records of planner.go, nodecapacity.go, infeasibility.go and of the API package.
    - Cpu (cpu.go), Sizing (constraints.go, cores.go, hugepages.go, ratio.go, cluster_capacity.go),
      NodeState (the methods of [nodeState]), Infeasibility (infeasibility.go and the planner's messages),
      ComputeLayout (compute_layout.go), FdGroups (failure domains and the ways to choose among them),
      Placement ([placeUniform]), PoolPlan ([planPool]), ComputePlan ([planCompute]), Planner
      ([PlanCapacity]), Scenarios (cases of planner_test.go and findings), Correctness (the theorems).
    - Ports (ranges.go, allocator.go), Strategies (drive_allocation_strategies.go), VirtualDrives
      (container_allocator.go, errors.go), DriveSafety (their theorems).
    - Api (container_types.go, wekacluster_types.go), Nodes (what is read of a Kubernetes node), Templates
      (templates.go, hugepages.go).
    - Inventory, InventoryFacts (inventory/collect.go).
    - Upgrade, UpgradeFacts (upgrade.go, funcs_upgrade.go, funcs_pod_rotation.go).
    - Apply, ApplyFacts (funcs_fd_planning.go, steps_planner_apply.go), with the abstract application of a plan.
    - Daemonset, DaemonsetFacts (daemonset.go); Creation, CreationFacts (steps_cluster_creation.go);
      SpecUpdate (HandleSpecUpdates).
    - Allocation, AllocationFacts (funcs_allocate_resources.go, funcs_resources_allocation.go): the protocol
      of the containers of one node.
    - Validation, ValidationFacts.
    - Disruption, DisruptionFacts (proxy_disruption_gate.go, discovery.go).
    - Campaign: the common shape of the manual operations: stored results, calls, logs, passes cut short.
    - Migration, MigrationFacts, MigrationRuns (migrate_drive_sharing.go).
    - Rotation, RotationFacts, RotationRuns (rotate_ssdproxy.go).
    - VidSync (funcs_virtual_drives.go: adding and removing the virtual drives of a container), StaleDrives
      (stale_virtual_drives.go), StaleFacts (what a scan finds and when it removes), OwnedDrives (containers and
      clean-up side by side).

    ** Modelling conventions

    Go's int is Z: the quantities are GiB, MiB, cores, ports and bytes, far below 2^63. Division is [Z.quot].
    A map is a [gmap]; where the code iterates over one, either the result does not depend on the order (and
    this is proved, as for [orderFreshFdGroups]) or the order is a parameter ([DriveSort], the shuffles of the
    gate). Pointers into shared state ([nodeState], growth records, the entry a handler works on) are updates
    of the state that is threaded through.

    Kubernetes, weka and the node agent are outside: what they answer is an argument, of a function or
    gathered in a record ([answers], [gate_answers]), and so are fresh UUIDs, the clock, hashes and random
    names. Annotations are taken decoded: absent, malformed or a value. An update the API server refuses has
    changed nothing. A lease is state of the protocol, not its elector. A pass of a manual operation is the
    list of the calls it makes with their answers, and a crash of the operator is a prefix of that list; JSON
    keeps times to the second. Logging, events and metrics are left out. Messages are kept where the code tests
    them or stores them; the texts of the admission rules are left out.

    Loops are structural recursions over what they range over. The fuelled ones are [gcdInt_loop] (fuel above
    the second argument, which decreases), [round_robin] (one round per node, each of which emits a node),
    [split_loop] (exactly the turns the loop condition allows), and each is proved to finish its work.
    [retry.RetryOnConflict] is its five attempts.

    ** What the theorems show

    - The plan: no node is ever overdrawn; a feasible plan covers both pools over enough failure domains,
      fits the inventory node by node, honours pinned counts, supplies the compute cores, never shrinks a
      container, and is stable: planning again on the planned cluster changes nothing. A refusal always
      carries its report. The searches return the least or the best candidate of what they scan.
    - The inventory and the apply phase: what is planned fits beside what every container already holds; the
      reconciler's updates and creations refine the abstract application of the plan, whatever is refused on
      the way; the fast path skips the planner only where it would do nothing.
    - Creation, daemonset, spec updates: counts reached and never exceeded, nothing shrunk, passes that settle.
    - Upgrade: phases in order, one container at a time behind health checks, and completion.
    - Ports and drives: ranges never collide, no physical drive is given out beyond its capacity, and the
      containers of a node stay apart under any interleaving that respects the lease.
    - The gate is exact, before and after a restart.
    - Campaigns: an invariant of the stored result under any answers and any crash; every destructive call
      rests on an intent that was stored and on a gate that was open; forward progress only; completion in as
      many passes as there are steps left when the environment cooperates.
    - Virtual drives: a successful pass leaves every drive of an allocation on the proxy with its VID stored; the
      clean-up removes only what two scans found stale and what no allocation owns or comes to own, however its
      reads and the containers' calls interleave.
    - Admission: the rules agree with the planner or with a reference, sizing modes change one way.
    - Findings: closed theorems on inputs where the code departs from its comments or from what it means.

    ** What is not modelled, and why

    The other steps of the cluster and container reconcilers (forming the cluster, credentials, protocols,
    telemetry, metrics, deletion, pod construction, drives inside weka) are sequences of calls to Kubernetes
    and to the weka CLI with little decision of their own; the client controller, the node agent and the REST
    services are input and output; the other manual operations and policies, the capacity CLI and the rules of
    admission on URLs, pod specs, volumes, networks and certificates remain; the Python runtime, generated code
    and Helm charts are not Go code of this kind. *)

From stdpp Require Export base gmap strings list sorting numbers pretty.
From Stdlib Require Export ZArith Lia.

#[global] Open Scope Z_scope.

(** ** Notation and automation *)

Declare Scope go_scope.
Delimit Scope go_scope with go.

(** Go's [len]. *)
Notation "'len' l" := (Z.of_nat (length l)) (at level 10, l at level 9) : go_scope.
#[global] Open Scope go_scope.

Create HintDb planner discriminated.

(** Case analysis on every [if decide _] of the goal or of the context, then arithmetic. *)
Ltac split_decide :=
  repeat (case_decide || match goal with
  | H : context [decide ?P] |- _ => destruct (decide P)
  end).

(** Destructs the record-valued or pair-valued scrutinee of the goal. *)
Ltac split_match :=
  repeat match goal with
  | |- context [match ?x with _ => _ end] => destruct x eqn:?
  end.

(** ** Errors *)

(** A Go function that returns a value and an [error]. *)
Inductive res (E A : Type) : Type :=
  | Ok (a : A)
  | Err (e : E).
Arguments Ok {_ _} _.
Arguments Err {_ _} _.

(** [v, err := m; if err != nil { return ..., err }; k]. *)
Definition res_bind {E A B} (m : res E A) (k : A -> res E B) : res E B :=
  match m with Ok a => k a | Err e => Err e end.

Notation "'let?' x := m 'in' k" := (res_bind m (fun x => k))
  (at level 10, x name, m at level 100, k at level 200) : go_scope.

(** ** Integers: Go's truncating division (pkg/util/math.go) *)

(** [CeilDiv] of pkg/util/math.go. *)
Definition CeilDiv (a b : Z) : Z :=
  if decide (a <= 0 \/ b <= 0) then 0 else (a + b - 1) `quot` b.

(** [RoundDiv] of pkg/util/math.go. *)
Definition RoundDiv (a b : Z) : Z :=
  if decide (a <= 0 \/ b <= 0) then 0 else (a + b `quot` 2) `quot` b.

Lemma quot_pos_spec a b :
  0 <= a -> 0 < b -> 0 <= a `quot` b /\ b * (a `quot` b) <= a < b * (a `quot` b) + b.
Proof.
  intros Ha Hb.
  rewrite Z.quot_div_nonneg by lia.
  pose proof (Z.div_pos a b Ha Hb).
  pose proof (Z.mul_div_le a b Hb).
  pose proof (Z.mul_succ_div_gt a b Hb). lia.
Qed.

(** [n] units of [per] fit in [m] when [n] is at most the truncated quotient. *)
Lemma quot_fit n m per : 0 < n -> 0 < per -> n <= m `quot` per -> n * per <= m.
Proof.
  intros Hn Hp Hq. destruct (decide (0 <= m)).
  - pose proof (quot_pos_spec m per). nia.
  - pose proof (Z.quot_le_upper_bound m per 0). lia.
Qed.

Lemma CeilDiv_nonneg a b : 0 <= CeilDiv a b.
Proof.
  unfold CeilDiv. case_decide; [lia|].
  apply (quot_pos_spec (a + b - 1) b); lia.
Qed.

(** [CeilDiv a b] is the least multiplier of [b] that reaches [a]. *)
Lemma CeilDiv_spec a b :
  0 < b -> 0 < a -> b * CeilDiv a b - b < a <= b * CeilDiv a b.
Proof.
  intros Hb Ha. unfold CeilDiv. rewrite decide_False by lia.
  pose proof (quot_pos_spec (a + b - 1) b). lia.
Qed.

Lemma CeilDiv_cover a b : 0 < b -> a <= b * CeilDiv a b.
Proof.
  intros Hb. destruct (decide (0 < a)).
  - pose proof (CeilDiv_spec a b Hb). lia.
  - pose proof (CeilDiv_nonneg a b). nia.
Qed.

Lemma CeilDiv_le_iff a b q : 0 < b -> 0 <= q -> CeilDiv a b <= q <-> a <= b * q.
Proof.
  intros Hb Hq. destruct (decide (0 < a)) as [Ha|Ha].
  - pose proof (CeilDiv_spec a b Hb Ha). split; intros; nia.
  - unfold CeilDiv. rewrite decide_True by lia. split; intros; nia.
Qed.

Lemma CeilDiv_pos a b : 0 < b -> 0 < a -> 0 < CeilDiv a b.
Proof. intros Hb Ha. pose proof (CeilDiv_spec a b Hb Ha). nia. Qed.

#[export] Hint Resolve CeilDiv_nonneg CeilDiv_cover CeilDiv_pos : planner.

(** ** Lists *)

(** The first [Some] of a loop that returns on its first success. *)
Fixpoint first_some {A B} (f : A -> option B) (l : list A) : option B :=
  match l with
  | [] => None
  | x :: l => match f x with Some y => Some y | None => first_some f l end
  end.

Lemma first_some_Some {A B} (f : A -> option B) l y :
  first_some f l = Some y ->
  exists l1 x l2, l = l1 ++ x :: l2 /\ f x = Some y /\ Forall (fun z => f z = None) l1.
Proof.
  induction l as [|x l IH]; simpl; [done|].
  destruct (f x) eqn:Hx.
  - intros [= ->]. exists [], x, l. eauto.
  - intros (l1 & x' & l2 & -> & ? & ?)%IH. exists (x :: l1), x', l2. auto.
Qed.

Lemma first_some_None {A B} (f : A -> option B) l :
  first_some f l = None <-> Forall (fun x => f x = None) l.
Proof.
  induction l as [|x l IH]; simpl; [by split|].
  rewrite Forall_cons. destruct (f x) eqn:?; naive_solver.
Qed.

Lemma elem_of_concat {A} (x : A) (ls : list (list A)) : x ∈ concat ls <-> exists l, l ∈ ls /\ x ∈ l.
Proof.
  induction ls as [|l ls IH]; simpl; [set_solver|].
  rewrite elem_of_app, IH. set_solver.
Qed.

(** Elements of distinct images under [f] are told apart by it. *)
Lemma NoDup_fmap_eq {A B} (f : A -> B) l x y : NoDup (f <$> l) -> x ∈ l -> y ∈ l -> f x = f y -> x = y.
Proof.
  induction l as [|z l IH]; [set_solver|]. intros [Hz Hnd]%NoDup_cons [->|Hx]%elem_of_cons [->|Hy]%elem_of_cons E;
    [done| | |by apply IH].
  - destruct Hz. rewrite E. by apply list_elem_of_fmap_2.
  - destruct Hz. rewrite <- E. by apply list_elem_of_fmap_2.
Qed.

Lemma fmap_omap {A B C} (h : B -> C) (f : A -> option B) (l : list A) : h <$> omap f l = omap (fun x => h <$> f x) l.
Proof. induction l as [|x l IH]; [done|]. cbn [omap list_omap]. destruct (f x); [by rewrite fmap_cons, IH|done]. Qed.

Lemma omap_ext_in {A B} (f g : A -> option B) (l : list A) : (forall x, x ∈ l -> f x = g x) -> omap f l = omap g l.
Proof.
  induction l as [|x l IH]; [done|]. intros H. cbn [omap list_omap]. rewrite (H x) by (by left).
  rewrite IH; [done|]. intros y Hy. apply H. by right.
Qed.

Lemma filter_mono {A} (P Q : A -> Prop) `{!forall x, Decision (P x), !forall x, Decision (Q x)} (l : list A) :
  (forall x, P x -> Q x) -> filter P l `sublist_of` filter Q l.
Proof.
  intros HPQ. induction l as [|x l IH]; [done |]. rewrite !filter_cons.
  destruct (decide (P x)), (decide (Q x)); [by constructor | naive_solver | by constructor | done].
Qed.

Lemma fmap_filter_omap {A B} (f : A -> B) (b : A -> bool) (l : list A) :
  f <$> filter (fun x => b x = true) l = omap (fun x => if b x then Some (f x) else None) l.
Proof.
  induction l as [|x l IH]; [done |]. rewrite filter_cons. cbn.
  destruct (b x) eqn:E; [rewrite decide_True by done | rewrite decide_False by congruence]; cbn; by rewrite <- IH.
Qed.

Lemma omap_fmap {A B C} (f : B -> option C) (g : A -> B) (l : list A) : omap f (g <$> l) = omap (fun x => f (g x)) l.
Proof. induction l as [|x l IH]; [done|]. rewrite fmap_cons. cbn [omap list_omap]. by rewrite IH. Qed.

(** [for i := a; i <= b; i++]. *)
Definition loop_range (a b : Z) : list Z := seqZ a (b - a + 1).

Lemma elem_of_loop_range a b n : n ∈ loop_range a b <-> a <= n <= b.
Proof. unfold loop_range. rewrite elem_of_seqZ. lia. Qed.

(** The elements before an element of a [loop_range] are the smaller indices. *)
Lemma loop_range_split a b l1 x l2 :
  loop_range a b = l1 ++ x :: l2 -> forall n, a <= n < x -> n ∈ l1.
Proof.
  unfold loop_range. intros H n Hn.
  assert (Hx : seqZ a (b - a + 1) !! length l1 = Some x).
  { rewrite H. by rewrite lookup_app_r, Nat.sub_diag by lia. }
  apply lookup_seqZ in Hx as [-> Hlt].
  assert (Hn' : seqZ a (b - a + 1) !! Z.to_nat (n - a) = Some n).
  { apply lookup_seqZ. lia. }
  rewrite H, lookup_app_l in Hn' by lia.
  by apply list_elem_of_lookup_2 in Hn'.
Qed.

Definition sumZ (l : list Z) : Z := foldr Z.add 0 l.

Lemma sumZ_cons x l : sumZ (x :: l) = x + sumZ l.
Proof. done. Qed.

Lemma sumZ_app l1 l2 : sumZ (l1 ++ l2) = sumZ l1 + sumZ l2.
Proof. induction l1; simpl; lia. Qed.

#[export] Instance sumZ_perm : Proper ((≡ₚ) ==> (=)) sumZ.
Proof. induction 1; simpl; lia. Qed.

Lemma list_filter_all {A} (P : A -> Prop) `{!forall x, Decision (P x)} (l : list A) :
  Forall P l -> filter P l = l.
Proof. induction 1; [done|]. rewrite filter_cons, decide_True by done. by f_equal. Qed.

Lemma list_filter_none {A} (P : A -> Prop) `{!forall x, Decision (P x)} (l : list A) :
  Forall (fun x => ~ P x) l -> filter P l = [].
Proof. induction 1; [done|]. by rewrite filter_cons, decide_False. Qed.

(** Replacing the element at an index, up to order. *)
Lemma insert_delete_perm {A} (l : list A) i x y : l !! i = Some x -> <[i := y]> l ≡ₚ y :: delete i l.
Proof.
  intros Hi. rewrite insert_take_drop, delete_take_drop by (by eapply lookup_lt_Some).
  by rewrite Permutation_middle.
Qed.

(** Filtering by a boolean and its negation splits a list. *)
Lemma filter_split {A} (q : A -> bool) (l : list A) :
  filter (fun x => q x = true) l ++ filter (fun x => q x = false) l ≡ₚ l.
Proof.
  induction l as [|x l IH]; [done|]. rewrite !filter_cons.
  destruct (q x); simpl; rewrite ?decide_True, ?decide_False by done; [by f_equiv|].
  by rewrite <- Permutation_middle, IH.
Qed.

(** The change of a sum when one element is replaced. *)
Lemma sumZ_insert l i x y : l !! i = Some x -> sumZ (<[i := y]> l) = sumZ l - x + y.
Proof.
  revert i. induction l as [|z l IH]; intros [|i] H; simpl in *; [done..| |].
  - injection H as ->. lia.
  - rewrite (IH i) by done. lia.
Qed.

Lemma sumZ_fmap_insert {A} (v : A -> Z) l i x y :
  l !! i = Some x -> sumZ (v <$> <[i := y]> l) = sumZ (v <$> l) - v x + v y.
Proof. intros Hi. rewrite list_fmap_insert. apply sumZ_insert. by rewrite list_lookup_fmap, Hi. Qed.

Lemma sumZ_nonneg l : Forall (fun x => 0 <= x) l -> 0 <= sumZ l.
Proof. induction 1; simpl; lia. Qed.

(** A sum whose summands have distinct keys is bounded by a sum with a larger summand for each key. *)
Lemma sumZ_cover {A B K} (f : A -> K) (g : B -> K) (v : A -> Z) (w : B -> Z) la lb :
  NoDup (f <$> la) -> Forall (fun b => 0 <= w b) lb ->
  (forall a, a ∈ la -> exists b, b ∈ lb /\ g b = f a /\ v a <= w b) ->
  sumZ (v <$> la) <= sumZ (w <$> lb).
Proof.
  revert lb. induction la as [|a la IH]; intros lb Hnd Hpos Hc.
  { apply sumZ_nonneg. by rewrite Forall_fmap. }
  apply NoDup_cons in Hnd as [Ha Hnd]. destruct (Hc a) as (b & Hb & Hg & Hv); [by left|].
  apply list_elem_of_split in Hb as (l1 & l2 & ->).
  assert (Hle : sumZ (v <$> la) <= sumZ (w <$> l1 ++ l2)).
  { apply IH; [done| |].
    - rewrite Forall_app, Forall_cons in Hpos. rewrite Forall_app. tauto.
    - intros a' Ha'. destruct (Hc a') as (b' & Hb' & Hg' & Hv'); [by right|]. exists b'. split; [|done].
      apply elem_of_app in Hb' as [Hb'|[->|Hb']%elem_of_cons]; [by apply elem_of_app; left| |by apply elem_of_app; right].
      destruct Ha. rewrite <- Hg, Hg'. by apply list_elem_of_fmap_2. }
  rewrite fmap_cons, fmap_app, fmap_cons, sumZ_app, !sumZ_cons. rewrite fmap_app, sumZ_app in Hle. lia.
Qed.

Lemma sumZ_filter_split {A} (v : A -> Z) (P : A -> Prop) `{!forall x, Decision (P x)} l :
  sumZ (v <$> l) = sumZ (v <$> filter P l) + sumZ (v <$> filter (fun x => ~ P x) l).
Proof.
  induction l as [|x l IH]; [done|]. rewrite !filter_cons, fmap_cons, sumZ_cons, IH.
  destruct (decide (P x)), (decide (~ P x)); try tauto; rewrite fmap_cons, sumZ_cons; lia.
Qed.

Lemma sumZ_ge_const c l : Forall (fun x => c <= x) l -> len l * c <= sumZ l.
Proof. induction 1; simpl; lia. Qed.

Lemma sumZ_le_const c l : Forall (fun x => x <= c) l -> sumZ l <= len l * c.
Proof. induction 1; simpl; lia. Qed.

Lemma sumZ_replicate n c : sumZ (replicate n c) = Z.of_nat n * c.
Proof. induction n; simpl; lia. Qed.

(** ** Sorting: [sort.Slice], [sort.SliceStable] and [sort.Strings] *)

(** Stable insertion sort by a strict order [lt]. *)
Section sort_by.
Context {A : Type} (lt : A -> A -> bool).

Fixpoint insert_by (x : A) (l : list A) : list A :=
  match l with
  | [] => [x]
  | y :: l => if lt y x then y :: insert_by x l else x :: y :: l
  end.

Definition sort_by (l : list A) : list A := foldr insert_by [] l.

Lemma insert_by_perm x l : insert_by x l ≡ₚ x :: l.
Proof.
  induction l as [|y l IH]; simpl; [done|].
  destruct (lt y x); [|done]. rewrite IH. by rewrite Permutation_swap.
Qed.

Lemma sort_by_perm l : sort_by l ≡ₚ l.
Proof. induction l as [|x l IH]; simpl; [done|]. by rewrite insert_by_perm, IH. Qed.

Lemma length_sort_by l : length (sort_by l) = length l.
Proof. by rewrite sort_by_perm. Qed.

Lemma elem_of_sort_by x l : x ∈ sort_by l <-> x ∈ l.
Proof. by rewrite sort_by_perm. Qed.

(** [le x y]: [y] does not come before [x]. *)
Let le x y : Prop := lt y x = false.

Section weak_order.
Context (lt_asym : forall x y, lt x y = true -> lt y x = false).
Context (le_trans : forall x y z, lt y x = false -> lt z y = false -> lt z x = false).

Lemma insert_by_sorted x l : StronglySorted le l -> StronglySorted le (insert_by x l).
Proof using lt_asym le_trans.
  induction 1 as [|y l Hs IH Hy]; simpl; [by repeat constructor|].
  destruct (lt y x) eqn:Hyx.
  - constructor; [done|]. rewrite insert_by_perm. constructor; [|done]. by apply lt_asym.
  - constructor; [by constructor|]. constructor; [done|].
    eapply Forall_impl; [exact Hy|]. intros z Hz. by eapply le_trans.
Qed.

Lemma sort_by_sorted l : StronglySorted le (sort_by l).
Proof using lt_asym le_trans.
  induction l; simpl; [constructor|]. by apply insert_by_sorted.
Qed.
End weak_order.
End sort_by.

(** A sort by a strict order that is total on the sorted elements does not depend on the
    order the elements came in: this is what makes the code's sorts of map keys
    deterministic. *)
Lemma sort_by_det {A} (lt : A -> A -> bool) l1 l2 :
  (forall x y, lt x y = true -> lt y x = false) ->
  (forall x y z, lt y x = false -> lt z y = false -> lt z x = false) ->
  (forall x y, x ∈ l1 -> y ∈ l1 -> lt x y = false -> lt y x = false -> x = y) ->
  l1 ≡ₚ l2 -> sort_by lt l1 = sort_by lt l2.
Proof.
  intros Has Htr Htot Hp.
  assert (Hp' : sort_by lt l1 ≡ₚ sort_by lt l2) by by rewrite !sort_by_perm.
  pose proof (sort_by_sorted lt Has Htr l1) as S1.
  pose proof (sort_by_sorted lt Has Htr l2) as S2.
  assert (Hin : forall x, x ∈ sort_by lt l1 -> x ∈ l1) by (intros x; by rewrite sort_by_perm).
  clear Hp. revert S2 Hp' Hin. generalize (sort_by lt l2) as k2. revert S1.
  generalize (sort_by lt l1) as k1.
  induction k1 as [|x k1 IH]; intros S1 k2 S2 Hp Hin.
  { by apply Permutation_nil_l in Hp. }
  destruct k2 as [|y k2]; [by apply Permutation_nil_r in Hp|].
  assert (x = y) as ->.
  { inversion S1 as [|?? S1' F1]; inversion S2 as [|?? S2' F2]; subst.
    rewrite Forall_forall in F1, F2.
    assert (Hx : x ∈ y :: k2) by (rewrite <- Hp; by left).
    assert (Hy : y ∈ x :: k1) by (rewrite Hp; by left).
    apply elem_of_cons in Hx as [->|Hx]; [done|].
    pose proof Hy as Hy'.
    apply elem_of_cons in Hy as [->|Hy]; [done|].
    apply Htot; [apply Hin; by left|by apply Hin|by apply F2|by apply F1]. }
  f_equal. apply IH.
  - by inversion S1.
  - by inversion S2.
  - by apply Permutation_cons_inv in Hp.
  - intros z Hz. apply Hin. by right.
Qed.

(** ** Strings: Go's [<] on strings (bytewise) *)

Definition str_lt (a b : string) : bool :=
  match String.compare a b with Lt => true | _ => false end.

Lemma str_lt_asym a b : str_lt a b = true -> str_lt b a = false.
Proof.
  unfold str_lt. rewrite (String.compare_antisym b a).
  by destruct (String.compare a b).
Qed.

Lemma str_lt_total a b : str_lt a b = false -> str_lt b a = false -> a = b.
Proof.
  unfold str_lt. rewrite (String.compare_antisym b a).
  destruct (String.compare a b) eqn:E; try done. intros _ _.
  by apply String.compare_eq_iff.
Qed.

Lemma ascii_compare_N a b : Ascii.compare a b = (Ascii.N_of_ascii a ?= Ascii.N_of_ascii b)%N.
Proof. done. Qed.

Lemma str_compare_cons x a y b :
  str_lt (String x a) (String y b) =
  match (Ascii.N_of_ascii x ?= Ascii.N_of_ascii y)%N with
  | Lt => true | Gt => false | Eq => str_lt a b
  end.
Proof.
  unfold str_lt. simpl. rewrite ascii_compare_N.
  by destruct (Ascii.N_of_ascii x ?= Ascii.N_of_ascii y)%N.
Qed.

Lemma str_le_trans a b c : str_lt b a = false -> str_lt c b = false -> str_lt c a = false.
Proof.
  revert b c. induction a as [|x a IH]; intros [|y b] [|z c]; try done.
  rewrite !str_compare_cons.
  destruct (N.compare_spec (Ascii.N_of_ascii y) (Ascii.N_of_ascii x)) as [E1|E1|E1];
    destruct (N.compare_spec (Ascii.N_of_ascii z) (Ascii.N_of_ascii y)) as [E2|E2|E2]; try done;
    destruct (N.compare_spec (Ascii.N_of_ascii z) (Ascii.N_of_ascii x)); try lia; eauto.
Qed.

(** [sort.Strings]. *)
Definition sort_strings (l : list string) : list string := sort_by str_lt l.

Lemma sort_strings_det l1 l2 : l1 ≡ₚ l2 -> sort_strings l1 = sort_strings l2.
Proof.
  apply sort_by_det;
    eauto using str_lt_asym, str_le_trans, str_lt_total.
Qed.

(** ** Maps *)

(** Adds to the entry of a key that is missing or present, as [m[k] += v] does. *)
Definition map_add (m : gmap string Z) (k : string) (v : Z) : gmap string Z :=
  <[k := default 0 (m !! k) + v]> m.

(** ** Orders "by key descending, name ascending" of the planner's comparators *)

(** The comparator [hi != hj ? hi > hj : a.name < b.name]. *)
Definition desc_then_name {A} (key : A -> Z) (name : A -> string) (a b : A) : bool :=
  if decide (key a = key b) then str_lt (name a) (name b) else bool_decide (key a > key b).

Section desc_then_name.
Context {A : Type} (key : A -> Z) (name : A -> string).

Lemma desc_then_name_asym a b :
  desc_then_name key name a b = true -> desc_then_name key name b a = false.
Proof.
  unfold desc_then_name. intros H. split_decide; try lia; eauto using str_lt_asym.
Qed.

Lemma desc_then_name_le a b :
  desc_then_name key name b a = false <->
  key b < key a \/ key a = key b /\ str_lt (name b) (name a) = false.
Proof.
  unfold desc_then_name. case_decide.
  - split; [auto|]. intros [?|[??]]; [lia|done].
  - rewrite bool_decide_eq_false. lia.
Qed.

Lemma desc_then_name_trans a b c :
  desc_then_name key name b a = false -> desc_then_name key name c b = false ->
  desc_then_name key name c a = false.
Proof.
  rewrite !desc_then_name_le.
  intros [?|[??]] [?|[??]]; try (left; lia).
  right. split; [lia|]. eauto using str_le_trans.
Qed.

Lemma desc_then_name_total a b :
  desc_then_name key name a b = false -> desc_then_name key name b a = false ->
  key a = key b /\ name a = name b.
Proof.
  rewrite !desc_then_name_le. intros [?|[??]] [?|[??]]; try lia.
  split; [lia|]. by apply str_lt_total.
Qed.
End desc_then_name.

(** ** Even shares *)

(** The share of each host, as the split loops compute it: the first [rem] hosts get one more. *)
Fixpoint host_shares (base rem i : Z) (nodes : list string) : list (string * Z) :=
  match nodes with
  | [] => []
  | n :: nodes => (n, if decide (i < rem) then base + 1 else base) :: host_shares base rem (i + 1) nodes
  end.

Lemma sum_host_shares base rem i nodes :
  sumZ (host_shares base rem i nodes).*2 = len nodes * base + Z.min (len nodes) (Z.max 0 (rem - i)).
Proof.
  revert i. induction nodes as [|n nodes IH]; intros i; simpl host_shares.
  { simpl. lia. }
  rewrite fmap_cons, sumZ_cons, IH. simpl. case_decide; nia.
Qed.

(** An even split of a target over at least one host adds up to the target. *)
Lemma sum_even_shares target nodes :
  0 <= target -> nodes <> [] ->
  sumZ (host_shares (target `quot` len nodes) (target `rem` len nodes) 0 nodes).*2 = target.
Proof.
  intros Ht Hn. rewrite sum_host_shares. assert (0 < len nodes) by (destruct nodes; simpl; [done|lia]).
  pose proof (Z.quot_rem' target (len nodes)). pose proof (Z.rem_bound_pos target (len nodes)). lia.
Qed.

Lemma host_shares_nonneg base rem i nodes n s : 0 <= base -> (n, s) ∈ host_shares base rem i nodes -> 0 <= s.
Proof.
  intros Hb. revert i. induction nodes as [|n' nodes IH]; intros i; simpl; [set_solver|].
  rewrite elem_of_cons. intros [[= -> ->]|H]; [case_decide; lia|by eapply IH].
Qed.

Lemma host_shares_nodes base rem i nodes : (host_shares base rem i nodes).*1 = nodes.
Proof. revert i. induction nodes as [|n nodes IH]; intros i; simpl; [done|]. by rewrite IH. Qed.

Lemma length_host_shares base rem i nodes : length (host_shares base rem i nodes) = length nodes.
Proof. by rewrite <- (length_fmap fst), host_shares_nodes. Qed.

Lemma host_shares_elem base rem i nodes n s : (n, s) ∈ host_shares base rem i nodes -> n ∈ nodes.
Proof.
  intros H. rewrite <- (host_shares_nodes base rem i nodes). apply list_elem_of_fmap. by exists (n, s).
Qed.

(** No even share exceeds a bound whose multiple covers the target. *)
Lemma even_share_le target nodes c n s :
  0 <= target <= len nodes * c ->
  (n, s) ∈ host_shares (target `quot` len nodes) (target `rem` len nodes) 0 nodes -> 0 <= s <= c.
Proof.
  intros Ht Hin.
  assert (Hk : 0 < len nodes) by (destruct nodes; simpl in *; [set_solver|lia]).
  pose proof (Z.quot_rem' target (len nodes)). pose proof (Z.rem_bound_pos target (len nodes)).
  assert (0 <= target `quot` len nodes) by (apply Z.quot_pos; lia).
  enough (s = target `quot` len nodes \/ s = target `quot` len nodes + 1 /\ 0 < target `rem` len nodes) by nia.
  assert (Hi : 0 <= 0) by lia. revert Hin Hi. generalize 0 at 1 3 as i.
  generalize (target `quot` len nodes) as b, (target `rem` len nodes) as r. clear.
  intros b r. induction nodes as [|x nodes IH]; intros i; simpl; [set_solver|].
  rewrite elem_of_cons. intros [[= _ ->]|Hin] Hi; [case_decide; lia|]. apply (IH (i + 1)); [done|lia].
Qed.

Lemma sum_le_eq l1 l2 : Forall2 Z.le l1 l2 -> sumZ l2 <= sumZ l1 -> l1 = l2.
Proof.
  induction 1 as [|x y l1 l2 Hxy Hall IH]; [done|]. rewrite !sumZ_cons. intros Hs.
  assert (sumZ l1 <= sumZ l2) by (clear -Hall; induction Hall; simpl; lia).
  assert (x = y) as -> by lia. f_equal. apply IH. lia.
Qed.
