(* ===== verification/Float64.v ===== *)
(** * IEEE-754 binary64, as the planner uses it

    Go's [float64] is modelled by the Standard Library's executable specification of IEEE-754
    arithmetic ([spec_float] at precision 53 and [emax] 1024), rounding to nearest even after
    every operation. The compiler may fuse [x*y + z] on some targets; the model is the unfused
    amd64 evaluation. *)

From S2P Require Import Prelude.
From Stdlib Require Export SpecFloat.

Abbreviation float64 := spec_float.

(** The conversion [float64(z)]. *)
Definition f_of_int (z : Z) : float64 := binary_normalize 53 1024 z 0 false.

Definition f_add : float64 -> float64 -> float64 := SFadd 53 1024.
Definition f_mul : float64 -> float64 -> float64 := SFmul 53 1024.
Definition f_div : float64 -> float64 -> float64 := SFdiv 53 1024.

(** [x < y] and [x <= y]; both are false on NaN. *)
Definition f_lt (x y : float64) : bool := SFltb x y.
Definition f_le (x y : float64) : bool := SFleb x y.

Definition f_zero : float64 := S754_zero false.

(** A decimal constant [n/d] of the source (for instance [0.9] is [f_const 9 10]): both [n] and
    [d] are exact, so the quotient is the correctly rounded constant. *)
Definition f_const (n d : Z) : float64 := f_div (f_of_int n) (f_of_int d).

Definition min_int64 : Z := -2^63.
Definition max_int64 : Z := 2^63 - 1.

(** The integral part of a finite float, towards zero. *)
Definition f_trunc (x : float64) : Z :=
  match x with
  | S754_finite s m e =>
      let v := if decide (0 <= e) then Z.pos m * 2 ^ e else Z.pos m / 2 ^ (- e) in
      if s then - v else v
  | _ => 0
  end.

(** [int(x)]: truncation; a value that does not fit (or NaN, or an infinity) is the amd64
    "integer indefinite" value. *)
Definition int_of_float (x : float64) : Z :=
  match x with
  | S754_nan | S754_infinity _ => min_int64
  | _ =>
      let t := f_trunc x in
      if decide (min_int64 <= t <= max_int64) then t else min_int64
  end.

(** [math.Ceil]. *)
Definition math_Ceil (x : float64) : float64 :=
  match x with
  | S754_finite s m e =>
      if decide (0 <= e) then x
      else
        let z := if s then - (Z.pos m / 2 ^ (- e)) else - ((- Z.pos m) / 2 ^ (- e)) in
        if decide (z = 0) then S754_zero s else f_of_int z
  | _ => x
  end.

(** Round a finite float times [10^digits] to the nearest integer, ties to even, as the
    [%.<digits>f] verb does on the exact binary value. *)
Definition f_scaled (digits : Z) (m : positive) (e : Z) : Z :=
  if decide (0 <= e) then Z.pos m * 2 ^ e * 10 ^ digits
  else
    let n := Z.pos m * 10 ^ digits in
    let d := 2 ^ (- e) in
    let q := n / d in
    let r := n mod d in
    if decide (2 * r < d) then q
    else if decide (2 * r = d) then (if Z.even q then q else q + 1)
    else q + 1.

Example f_const_nine_tenths : f_const 9 10 = S754_finite false 8106479329266893 (-53).
Proof. vm_compute. reflexivity. Qed.

Example ceil_of_float_product :
  int_of_float (math_Ceil (f_mul (f_of_int 1000) (f_const 5 100))) = 50.
Proof. vm_compute. reflexivity. Qed.
