(* ===== verification/Fmt.v ===== *)
(** * [fmt.Sprintf] for the verbs the planner's messages use

    The planner reports infeasibility as text, and tests [plan.Infeasible == ""]. The messages
    are therefore kept as strings, built by an interpreter of format strings. *)

From S2P Require Import Prelude Float64.
From Stdlib Require Import Ascii.

(** The operand of a verb. *)
Inductive arg : Type :=
  | ArgD (z : Z)
  | ArgS (s : string)
  | ArgF (f : float64).

Definition show_int (z : Z) : string := pretty z.

(** Two decimal digits of [n mod 100]. *)
Definition show_cents (n : Z) : string :=
  if decide (n < 10) then String.append "0" (show_int n) else show_int n.

Definition show_float2 (f : float64) : string :=
  match f with
  | S754_nan => "NaN"
  | S754_infinity s => if s then "-Inf" else "+Inf"
  | S754_zero s => if s then "-0.00" else "0.00"
  | S754_finite s m e =>
      let c := f_scaled 2 m e in
      String.append (if s then "-" else "")
        (String.append (show_int (c / 100)) (String.append "." (show_cents (c mod 100))))
  end.

(** [%.1f]. *)
Definition show_float1 (f : float64) : string :=
  match f with
  | S754_nan => "NaN"
  | S754_infinity s => if s then "-Inf" else "+Inf"
  | S754_zero s => if s then "-0.0" else "0.0"
  | S754_finite s m e =>
      let c := f_scaled 1 m e in
      String.append (if s then "-" else "")
        (String.append (show_int (c / 10)) (String.append "." (show_int (c mod 10))))
  end.

(** [%q]: the operand between double quotes. Node and failure-domain names are label values, so
    no character of theirs is escaped. *)
Definition quote (s : string) : string :=
  let dq := String (ascii_of_nat 34) EmptyString in
  String.append dq (String.append s dq).

Definition show_verb_d (a : arg) : string :=
  match a with ArgD z => show_int z | ArgS s => String.append "%!d(string=" (String.append s ")")
             | ArgF _ => "%!d(float64)" end.
Definition show_verb_s (a : arg) : string :=
  match a with ArgS s => s | ArgD z => String.append "%!s(int=" (String.append (show_int z) ")")
             | ArgF _ => "%!s(float64)" end.
Definition show_verb_q (a : arg) : string :=
  match a with ArgS s => quote s | _ => "%!q" end.
Definition show_verb_f2 (a : arg) : string :=
  match a with ArgF f => show_float2 f | ArgD z => String.append "%!f(int=" (String.append (show_int z) ")")
             | ArgS s => String.append "%!f(string=" (String.append s ")") end.

(** Consumes the next operand. *)
Definition with_arg (show : arg -> string) (missing : string)
    (rest : list arg -> string) (args : list arg) : string :=
  match args with
  | a :: args => String.append (show a) (rest args)
  | [] => String.append missing (rest [])
  end.

Fixpoint Sprintf (format : string) (args : list arg) : string :=
  match format with
  | EmptyString => EmptyString
  | String "%" (String "d" f) => with_arg show_verb_d "%!d(MISSING)" (Sprintf f) args
  | String "%" (String "s" f) => with_arg show_verb_s "%!s(MISSING)" (Sprintf f) args
  | String "%" (String "q" f) => with_arg show_verb_q "%!q(MISSING)" (Sprintf f) args
  | String "%" (String "." (String "2" (String "f" f))) =>
      with_arg show_verb_f2 "%!f(MISSING)" (Sprintf f) args
  | String "%" (String "%" f) => String "%" (Sprintf f args)
  | String c f => String c (Sprintf f args)
  end.

(** [strings.Join]. *)
Fixpoint strings_Join (l : list string) (sep : string) : string :=
  match l with
  | [] => EmptyString
  | [s] => s
  | s :: l => String.append s (String.append sep (strings_Join l sep))
  end.

(** ** Package strings, on ASCII *)

(** The ASCII white space of [unicode.IsSpace]. *)
Definition is_space (c : ascii) : bool :=
  let n := nat_of_ascii c in bool_decide (n = 32%nat \/ (9 <= n <= 13)%nat).

Fixpoint trim_left (s : string) : string :=
  match s with
  | EmptyString => EmptyString
  | String c rest => if is_space c then trim_left rest else s
  end.

Definition reverse_string (s : string) : string := String.string_of_list_ascii (rev (String.list_ascii_of_string s)).

(** [strings.TrimSpace]. *)
Definition strings_TrimSpace (s : string) : string := reverse_string (trim_left (reverse_string (trim_left s))).

Definition lower_ascii (c : ascii) : ascii :=
  let n := nat_of_ascii c in if decide (65 <= n <= 90)%nat then ascii_of_nat (n + 32) else c.

(** [strings.ToLower]. *)
Definition strings_ToLower (s : string) : string :=
  String.string_of_list_ascii (map lower_ascii (String.list_ascii_of_string s)).

Definition strings_HasSuffix (s suffix : string) : bool :=
  String.prefix (reverse_string suffix) (reverse_string s).

Definition strings_TrimSuffix (s suffix : string) : string :=
  if strings_HasSuffix s suffix then String.substring 0 (String.length s - String.length suffix) s else s.

(** A message whose format starts with a verb followed by literal text is not empty. *)
Lemma append_nonempty a b : b <> EmptyString -> String.append a b <> EmptyString.
Proof. by destruct a. Qed.

Example Sprintf_mixed :
  Sprintf "%s: need +%d GiB (%.2f, %d%%) on %q" [ArgS "TLC"; ArgD (-5); ArgF (f_const 2 10); ArgD 7; ArgS "fd"]
  = String.append "TLC: need +-5 GiB (0.20, 7%) on " (quote "fd").
Proof. vm_compute. reflexivity. Qed.

(** A message that starts with literal text is not empty. *)
Lemma Sprintf_lit c f args : c <> "%"%char -> Sprintf (String c f) args <> EmptyString.
Proof.
  intros Hc. destruct c as [[] [] [] [] [] [] [] []]; try done.
Qed.

(** Nor is one that starts with an operand followed by literal text. *)
Lemma Sprintf_s_lit s c f args :
  c <> "%"%char -> Sprintf (String "%" (String "s" (String c f))) (ArgS s :: args) <> EmptyString.
Proof. intros Hc. apply append_nonempty. by apply Sprintf_lit. Qed.

(** Closes the goal that a formatted message is not empty. *)
Ltac fmt_nonempty :=
  first [ apply Sprintf_lit; discriminate | apply Sprintf_s_lit; discriminate | discriminate ].

Arguments Sprintf : simpl never.
