(* ===== verification/Types.v ===== *)
(** * Data types of the capacity planner

    The structs of internal/capacityplanner (planner.go, nodecapacity.go, infeasibility.go,
    cpu.go) and the fields of the API types they read. A record field carries the Go field name
    under a prefix naming its struct; [int] is [Z], [float64] is IEEE binary64, a pointer that may
    be nil is an [option], a map is a [gmap] and a set of strings a [gset]. *)

From S2P Require Import Prelude Float64.

(** ** API types *)

(** [CpuPolicy], a string type with these constants. *)
Definition CpuPolicyAuto : string := "auto".
Definition CpuPolicyShared : string := "shared".
Definition CpuPolicyDedicated : string := "dedicated".
Definition CpuPolicyDedicatedHT : string := "dedicated_ht".
Definition CpuPolicyManual : string := "manual".

Definition WekaContainerModeCompute : string := "compute".
Definition WekaContainerModeDrive : string := "drive".
Definition WekaContainerModeClient : string := "client".
Definition WekaContainerModeS3 : string := "s3".
Definition WekaContainerModeNfs : string := "nfs".
Definition WekaContainerModeSmbw : string := "smbw".
Definition WekaContainerModeDataServices : string := "data-services".
Definition WekaContainerModeEnvoy : string := "envoy".

(** A [DriveTypesRatio]. *)
Record DriveTypesRatio := { ratio_Tlc : Z; ratio_Qlc : Z }.

(** What cpu.go reads of a container's [Resources]: whether the CPU limit quantity is zero, and
    the CPU request quantity in milli-CPUs. *)
Record PodResources := {
  res_LimitsCpuIsZero : bool;
  res_RequestsCpuMilli : Z;
}.

(** What cpu.go reads of a [WekaContainerSpec]. *)
Record WekaContainerSpec := {
  spec_Mode : string;
  spec_CpuPolicy : string;
  spec_NumCores : Z;
  spec_ExtraCores : Z;
  spec_Resources : option PodResources;
}.

(** ** Planner inputs *)

Record NodeCPUTopology := { IsHt : bool; FullPcpusOnly : bool }.

Record ProtectionScheme := {
  StripeWidth : Z;
  RedundancyLevel : Z;
  HotSpare : Z;
}.

Record DesiredCapacity := {
  TlcRawGiB : Z;
  QlcRawGiB : Z;
  ComputeContainers : Z;
  ComputeCores : Z;
  DriveContainers : Z;
  DriveCores : Z;
}.

Record CapacityConstraints := {
  TlcCapacityPerCoreGiB : Z;
  QlcCapacityPerCoreGiB : Z;
  MinChunkSizeGiB : Z;
  ImbalanceFactor : float64;
  HugepagesPerCoreMiB : Z;
  MemoryBaseMiB : Z;
  MemoryPerCoreMiB : Z;
  DriveDpdkPerCoreMiB : Z;
  ComputeDpdkPerCoreMiB : Z;
  MaxCoresPerContainer : Z;
  ComputeHugepagesTlcRatio : Z;
  ComputeHugepagesQlcRatio : Z;
  ComputeMaxHugepagesMiB : Z;
  ComputeToTlcDriveCoreRatio : float64;
  ComputeToQlcDriveCoreRatio : float64;
  FullDrivesComputeToDriveCoreRatio : float64;
  AllowInPlaceGrowth : bool;
  MinGrowthFraction : float64;
  MaxOverProvisionFraction : float64;
  CapacityDeadbandFraction : float64;
  AllowSingleParity : bool;
  CpuPolicy : string;
}.

Record ExistingContainer := {
  ec_Name : string;
  ec_Node : string;
  ec_FDValue : string;
  ec_TlcGiB : Z;
  ec_QlcGiB : Z;
  ec_NumCores : Z;
  ec_Unscheduled : bool;
}.

Record ExistingComputeContainer := {
  ecc_Name : string;
  ecc_Node : string;
  ecc_NumCores : Z;
  ecc_HugepagesMiB : Z;
  ecc_Unscheduled : bool;
}.

Record NodeCapacity := {
  nc_NodeName : string;
  nc_TlcGiB : Z;
  nc_QlcGiB : Z;
  nc_AllocatableCPU : Z;
  nc_IsHt : bool;
  nc_FullPcpusOnly : bool;
  nc_AvailableHugepagesMiB : Z;
  nc_AvailableMemoryMiB : Z;
  nc_FDValue : string;
  nc_HasDeletingDriveContainer : bool;
  nc_IneligibleReason : string;
}.

(** ** Planner outputs *)

Record ContainerGrowth := {
  cg_Name : string;
  cg_NewTlcGiB : Z;
  cg_NewQlcGiB : Z;
  cg_NewCores : Z;
}.

Record NewContainer := {
  new_Node : string;
  new_FDValue : string;
  new_TlcGiB : Z;
  new_QlcGiB : Z;
  new_NumCores : Z;
  new_Ratio : option DriveTypesRatio;
  new_Type : string;
}.

Record ComputeContainerSpec := {
  ccs_Node : string;
  ccs_NumCores : Z;
  ccs_HugepagesMiB : Z;
}.

Record NodeRejection := {
  rj_Node : string;
  rj_Binding : string;
  rj_FreeGiB : Z;
  rj_NeededGiB : Z;
}.

Record InfeasibilityReport := {
  ir_Reason : string;
  ir_Pool : string;
  ir_Binding : string;
  ir_ShortfallGiB : Z;
  ir_RejectedNodes : list NodeRejection;
  ir_Fixes : list string;
}.

Record CapacityPlan := {
  Grow : list ContainerGrowth;
  Create : list NewContainer;
  TotalTlcDriveCores : Z;
  TotalQlcDriveCores : Z;
  plan_RequiredComputeCores : Z;
  plan_ComputeContainers : Z;
  plan_ComputeCores : Z;
  ComputeNodes : list string;
  ComputeLayout : list ComputeContainerSpec;
  Warnings : list string;
  ShrinkEvents : list string;
  OverProvisions : list string;
  Infeasible : string;
  Infeasibility : option InfeasibilityReport;
}.

(** The zero value [CapacityPlan{}]. *)
Definition empty_plan : CapacityPlan := {|
  Grow := []; Create := []; TotalTlcDriveCores := 0; TotalQlcDriveCores := 0;
  plan_RequiredComputeCores := 0; plan_ComputeContainers := 0; plan_ComputeCores := 0;
  ComputeNodes := []; ComputeLayout := []; Warnings := []; ShrinkEvents := [];
  OverProvisions := []; Infeasible := ""; Infeasibility := None |}.

(** Assignments to the plan's fields. *)
Definition plan_add_grow (g : ContainerGrowth) (q : CapacityPlan) : CapacityPlan := {|
  Grow := Grow q ++ [g]; Create := Create q; TotalTlcDriveCores := TotalTlcDriveCores q;
  TotalQlcDriveCores := TotalQlcDriveCores q; plan_RequiredComputeCores := plan_RequiredComputeCores q;
  plan_ComputeContainers := plan_ComputeContainers q; plan_ComputeCores := plan_ComputeCores q;
  ComputeNodes := ComputeNodes q; ComputeLayout := ComputeLayout q; Warnings := Warnings q;
  ShrinkEvents := ShrinkEvents q; OverProvisions := OverProvisions q; Infeasible := Infeasible q;
  Infeasibility := Infeasibility q |}.

Definition plan_add_create (n : NewContainer) (q : CapacityPlan) : CapacityPlan := {|
  Grow := Grow q; Create := Create q ++ [n]; TotalTlcDriveCores := TotalTlcDriveCores q;
  TotalQlcDriveCores := TotalQlcDriveCores q; plan_RequiredComputeCores := plan_RequiredComputeCores q;
  plan_ComputeContainers := plan_ComputeContainers q; plan_ComputeCores := plan_ComputeCores q;
  ComputeNodes := ComputeNodes q; ComputeLayout := ComputeLayout q; Warnings := Warnings q;
  ShrinkEvents := ShrinkEvents q; OverProvisions := OverProvisions q; Infeasible := Infeasible q;
  Infeasibility := Infeasibility q |}.

Definition plan_set_cores (tlc qlc req : Z) (q : CapacityPlan) : CapacityPlan := {|
  Grow := Grow q; Create := Create q; TotalTlcDriveCores := tlc;
  TotalQlcDriveCores := qlc; plan_RequiredComputeCores := req;
  plan_ComputeContainers := plan_ComputeContainers q; plan_ComputeCores := plan_ComputeCores q;
  ComputeNodes := ComputeNodes q; ComputeLayout := ComputeLayout q; Warnings := Warnings q;
  ShrinkEvents := ShrinkEvents q; OverProvisions := OverProvisions q; Infeasible := Infeasible q;
  Infeasibility := Infeasibility q |}.

Definition plan_set_compute (count cores : Z) (nodes : list string)
    (layout : list ComputeContainerSpec) (q : CapacityPlan) : CapacityPlan := {|
  Grow := Grow q; Create := Create q; TotalTlcDriveCores := TotalTlcDriveCores q;
  TotalQlcDriveCores := TotalQlcDriveCores q; plan_RequiredComputeCores := plan_RequiredComputeCores q;
  plan_ComputeContainers := count; plan_ComputeCores := cores;
  ComputeNodes := nodes; ComputeLayout := layout; Warnings := Warnings q;
  ShrinkEvents := ShrinkEvents q; OverProvisions := OverProvisions q; Infeasible := Infeasible q;
  Infeasibility := Infeasibility q |}.

Definition plan_add_warnings (l : list string) (q : CapacityPlan) : CapacityPlan := {|
  Grow := Grow q; Create := Create q; TotalTlcDriveCores := TotalTlcDriveCores q;
  TotalQlcDriveCores := TotalQlcDriveCores q; plan_RequiredComputeCores := plan_RequiredComputeCores q;
  plan_ComputeContainers := plan_ComputeContainers q; plan_ComputeCores := plan_ComputeCores q;
  ComputeNodes := ComputeNodes q; ComputeLayout := ComputeLayout q; Warnings := Warnings q ++ l;
  ShrinkEvents := ShrinkEvents q; OverProvisions := OverProvisions q; Infeasible := Infeasible q;
  Infeasibility := Infeasibility q |}.

Definition plan_add_shrink (s : string) (q : CapacityPlan) : CapacityPlan := {|
  Grow := Grow q; Create := Create q; TotalTlcDriveCores := TotalTlcDriveCores q;
  TotalQlcDriveCores := TotalQlcDriveCores q; plan_RequiredComputeCores := plan_RequiredComputeCores q;
  plan_ComputeContainers := plan_ComputeContainers q; plan_ComputeCores := plan_ComputeCores q;
  ComputeNodes := ComputeNodes q; ComputeLayout := ComputeLayout q; Warnings := Warnings q;
  ShrinkEvents := ShrinkEvents q ++ [s]; OverProvisions := OverProvisions q; Infeasible := Infeasible q;
  Infeasibility := Infeasibility q |}.

Definition plan_add_over (s : string) (q : CapacityPlan) : CapacityPlan := {|
  Grow := Grow q; Create := Create q; TotalTlcDriveCores := TotalTlcDriveCores q;
  TotalQlcDriveCores := TotalQlcDriveCores q; plan_RequiredComputeCores := plan_RequiredComputeCores q;
  plan_ComputeContainers := plan_ComputeContainers q; plan_ComputeCores := plan_ComputeCores q;
  ComputeNodes := ComputeNodes q; ComputeLayout := ComputeLayout q; Warnings := Warnings q;
  ShrinkEvents := ShrinkEvents q; OverProvisions := OverProvisions q ++ [s]; Infeasible := Infeasible q;
  Infeasibility := Infeasibility q |}.

(** ** Pools *)

Inductive poolKind := poolTLC | poolQLC.

#[export] Instance poolKind_eq_dec : EqDecision poolKind.
Proof. solve_decision. Defined.

Definition pool_String (p : poolKind) : string :=
  match p with poolQLC => "QLC" | poolTLC => "TLC" end.

Definition perCoreCap (p : poolKind) (cons : CapacityConstraints) : Z :=
  match p with poolTLC => TlcCapacityPerCoreGiB cons | poolQLC => QlcCapacityPerCoreGiB cons end.

Definition otherPool (p : poolKind) : poolKind :=
  match p with poolTLC => poolQLC | poolQLC => poolTLC end.

(** A container's capacity for a pool. *)
Definition poolCap (c : ExistingContainer) (p : poolKind) : Z :=
  match p with poolTLC => ec_TlcGiB c | poolQLC => ec_QlcGiB c end.

Definition poolCapNew (n : NewContainer) (p : poolKind) : Z :=
  match p with poolTLC => new_TlcGiB n | poolQLC => new_QlcGiB n end.

Definition poolCapGrowth (g : ContainerGrowth) (p : poolKind) : Z :=
  match p with poolTLC => cg_NewTlcGiB g | poolQLC => cg_NewQlcGiB g end.

(** [addPoolGrowth] and [addPoolNew] bump a record's capacity for a pool in place. *)
Definition addPoolGrowth (g : ContainerGrowth) (p : poolKind) (add : Z) : ContainerGrowth :=
  match p with
  | poolTLC => {| cg_Name := cg_Name g; cg_NewTlcGiB := cg_NewTlcGiB g + add;
                  cg_NewQlcGiB := cg_NewQlcGiB g; cg_NewCores := cg_NewCores g |}
  | poolQLC => {| cg_Name := cg_Name g; cg_NewTlcGiB := cg_NewTlcGiB g;
                  cg_NewQlcGiB := cg_NewQlcGiB g + add; cg_NewCores := cg_NewCores g |}
  end.

Definition addPoolNew (n : NewContainer) (p : poolKind) (add : Z) : NewContainer :=
  match p with
  | poolTLC => {| new_Node := new_Node n; new_FDValue := new_FDValue n;
                  new_TlcGiB := new_TlcGiB n + add; new_QlcGiB := new_QlcGiB n;
                  new_NumCores := new_NumCores n; new_Ratio := new_Ratio n; new_Type := new_Type n |}
  | poolQLC => {| new_Node := new_Node n; new_FDValue := new_FDValue n;
                  new_TlcGiB := new_TlcGiB n; new_QlcGiB := new_QlcGiB n + add;
                  new_NumCores := new_NumCores n; new_Ratio := new_Ratio n; new_Type := new_Type n |}
  end.

Lemma poolCapGrowth_add g p q add :
  poolCapGrowth (addPoolGrowth g p add) q = poolCapGrowth g q + (if decide (p = q) then add else 0).
Proof. by destruct p, q; simpl; try lia. Qed.

Lemma poolCapNew_add n p q add :
  poolCapNew (addPoolNew n p add) q = poolCapNew n q + (if decide (p = q) then add else 0).
Proof. by destruct p, q; simpl; try lia. Qed.

Lemma new_FDValue_add n p add : new_FDValue (addPoolNew n p add) = new_FDValue n.
Proof. by destruct p. Qed.

Lemma new_Node_add n p add : new_Node (addPoolNew n p add) = new_Node n.
Proof. by destruct p. Qed.

Lemma cg_Name_add g p add : cg_Name (addPoolGrowth g p add) = cg_Name g.
Proof. by destruct p. Qed.

Lemma addPoolNew_cancel n p a : addPoolNew (addPoolNew n p a) p (- a) = n.
Proof. destruct p, n; unfold addPoolNew; simpl; f_equal; lia. Qed.

Lemma addPoolGrowth_cancel g p a : addPoolGrowth (addPoolGrowth g p a) p (- a) = g.
Proof. destruct p, g; unfold addPoolGrowth; simpl; f_equal; lia. Qed.

(** ** Per-node headroom *)

(** A node's remaining headroom as the planner consumes it across both pools. *)
Record nodeState := {
  nc : NodeCapacity;
  tlcFree : Z;
  qlcFree : Z;
  coresFree : Z;
  hugepagesMiB : Z;
  memoryMiB : Z;
  hasDeletingDriveContainer : bool;
}.

#[export] Instance NodeCapacity_inhabited : Inhabited NodeCapacity :=
  populate {| nc_NodeName := ""; nc_TlcGiB := 0; nc_QlcGiB := 0; nc_AllocatableCPU := 0;
    nc_IsHt := false; nc_FullPcpusOnly := false; nc_AvailableHugepagesMiB := 0;
    nc_AvailableMemoryMiB := 0; nc_FDValue := ""; nc_HasDeletingDriveContainer := false;
    nc_IneligibleReason := "" |}.

#[export] Instance nodeState_inhabited : Inhabited nodeState :=
  populate {| nc := inhabitant; tlcFree := 0; qlcFree := 0; coresFree := 0; hugepagesMiB := 0;
    memoryMiB := 0; hasDeletingDriveContainer := false |}.

(** The node states the planner mutates, by node name. The code shares one [*nodeState] per node
    between the map and the failure-domain groups; here a group holds the node's name and every
    access goes through this store. *)
Abbreviation nodeStates := (gmap string nodeState).

(** A failure domain's candidate nodes for new-container placement. *)
Record fdGroup := {
  g_nodes : list string;
  g_headroom : Z;
  g_hasDeleting : bool;
  g_colocated : bool;
}.

#[export] Instance fdGroup_inhabited : Inhabited fdGroup :=
  populate {| g_nodes := []; g_headroom := 0; g_hasDeleting := false; g_colocated := false |}.
