(* ===== verification/Cpu.v ===== *)
(** * Physical CPU of a container (internal/capacityplanner/cpu.go)

    [CPURequestCores] is the CPU count the pod of a container reserves; [cpuModel] is the linear
    projection the planner charges for a container that has no spec yet, sampled from it. *)

From S2P Require Import Prelude Types.

(** [resolveCPUPolicy] *)
Definition resolveCPUPolicy (policy : string) (isHt : bool) : string :=
  if decide (policy <> CpuPolicyAuto /\ policy <> "") then policy
  else if isHt then CpuPolicyDedicatedHT else CpuPolicyDedicated.

(** [IsDataCoreMode] *)
Definition IsDataCoreMode (mode : string) : bool :=
  bool_decide (mode ∈ [WekaContainerModeCompute; WekaContainerModeDrive; WekaContainerModeS3;
                       WekaContainerModeNfs; WekaContainerModeSmbw; WekaContainerModeDataServices]).

(** [SupportsExtraCores] *)
Definition SupportsExtraCores (mode : string) : bool :=
  IsDataCoreMode mode || bool_decide (mode = WekaContainerModeClient).

(** [roundFullPcpus] *)
Definition roundFullPcpus (total : Z) (topo : NodeCPUTopology) : Z :=
  if IsHt topo && FullPcpusOnly topo && bool_decide (total `rem` 2 <> 0) then total + 1 else total.

(** [CPURequestCores] *)
Definition CPURequestCores (spec : WekaContainerSpec) (topo : NodeCPUTopology) : Z :=
  let totalNumCores :=
    if SupportsExtraCores (spec_Mode spec) then spec_NumCores spec + spec_ExtraCores spec
    else spec_NumCores spec in
  let policy := resolveCPUPolicy (spec_CpuPolicy spec) (IsHt topo) in
  if decide (policy = CpuPolicyDedicatedHT) then
    let total := totalNumCores * 2 + 1 in
    let total :=
      if decide (spec_Mode spec = WekaContainerModeEnvoy) then totalNumCores
      else if SupportsExtraCores (spec_Mode spec) then total - spec_ExtraCores spec
      else total in
    roundFullPcpus total topo
  else if decide (policy = CpuPolicyDedicated) then
    let total := totalNumCores + 1 in
    let total := if decide (spec_Mode spec = WekaContainerModeEnvoy) then totalNumCores else total in
    roundFullPcpus total topo
  else if decide (policy = CpuPolicyManual) then
    match spec_Resources spec with
    | Some r => if res_LimitsCpuIsZero r then totalNumCores + 1
                else CeilDiv (res_RequestsCpuMilli r) 1000
    | None => totalNumCores + 1
    end
  else if decide (policy = CpuPolicyShared) then
    match spec_Resources spec with
    | Some r => CeilDiv (res_RequestsCpuMilli r) 1000
    | None => 0
    end
  else totalNumCores.

(** The spec [cpuModel] samples: a drive container with a policy and a core count only. *)
Definition sample_spec (policy : string) (cores : Z) : WekaContainerSpec := {|
  spec_Mode := WekaContainerModeDrive; spec_CpuPolicy := policy; spec_NumCores := cores;
  spec_ExtraCores := 0; spec_Resources := None |}.

(** [cpuModel] *)
Definition cpuModel (policy : string) (topo : NodeCPUTopology) : Z * Z :=
  let t := {| IsHt := IsHt topo; FullPcpusOnly := false |} in
  let c1 := CPURequestCores (sample_spec policy 1) t in
  let c2 := CPURequestCores (sample_spec policy 2) t in
  let perCore := c2 - c1 in
  if decide (perCore <= 0) then (1, 1) else (perCore, c1 - perCore).

(** ** The request of a drive container is affine in its cores *)

(** The policies whose request grows with the core count, and the resulting coefficients. *)
Definition request_slope (policy : string) (isHt : bool) : option (Z * Z) :=
  let policy := resolveCPUPolicy policy isHt in
  if decide (policy = CpuPolicyDedicatedHT) then Some (2, 1)
  else if decide (policy = CpuPolicyDedicated) then Some (1, 1)
  else if decide (policy = CpuPolicyManual) then Some (1, 1)
  else if decide (policy = CpuPolicyShared) then None
  else Some (1, 0).

Lemma roundFullPcpus_off total topo : FullPcpusOnly topo = false -> roundFullPcpus total topo = total.
Proof. unfold roundFullPcpus. intros ->. by destruct (IsHt topo). Qed.

Lemma roundFullPcpus_bounds total topo : total <= roundFullPcpus total topo <= total + 1.
Proof. unfold roundFullPcpus. case_match; lia. Qed.

Lemma drive_mode_extra : SupportsExtraCores WekaContainerModeDrive = true.
Proof. vm_compute. reflexivity. Qed.

Lemma drive_mode_not_envoy : WekaContainerModeDrive <> WekaContainerModeEnvoy.
Proof. vm_compute. discriminate. Qed.

Lemma CPURequestCores_sample policy topo n :
  CPURequestCores (sample_spec policy n) topo =
  match request_slope policy (IsHt topo) with
  | Some (s, b) =>
      if decide (resolveCPUPolicy policy (IsHt topo) = CpuPolicyDedicatedHT \/
                 resolveCPUPolicy policy (IsHt topo) = CpuPolicyDedicated)
      then roundFullPcpus (s * n + b) topo else s * n + b
  | None => 0
  end.
Proof.
  unfold CPURequestCores, request_slope. cbn [sample_spec spec_Mode spec_CpuPolicy spec_NumCores
    spec_ExtraCores spec_Resources].
  rewrite drive_mode_extra, !(decide_False (P := WekaContainerModeDrive = WekaContainerModeEnvoy))
    by apply drive_mode_not_envoy.
  set (q := resolveCPUPolicy policy (IsHt topo)).
  destruct (decide (q = CpuPolicyDedicatedHT)) as [->|].
  { rewrite decide_True by naive_solver. f_equal. lia. }
  destruct (decide (q = CpuPolicyDedicated)) as [->|].
  { rewrite decide_True by naive_solver. f_equal. lia. }
  destruct (decide (q = CpuPolicyManual)); [|destruct (decide (q = CpuPolicyShared))]; try done;
    rewrite decide_False by naive_solver; lia.
Qed.

(** The coefficients the planner uses are those of the request. *)
Lemma cpuModel_slope policy topo :
  cpuModel policy topo = default (1, 1) (request_slope policy (IsHt topo)).
Proof.
  unfold cpuModel. rewrite !CPURequestCores_sample. cbn [IsHt].
  destruct (request_slope policy (IsHt topo)) as [[s b]|] eqn:E; [|done]. simpl.
  rewrite !roundFullPcpus_off by done.
  assert (0 < s) by (unfold request_slope in E; split_decide; simplify_eq; lia).
  split_decide; try lia; f_equal; lia.
Qed.

Lemma cpuModel_pos policy topo : 0 < (cpuModel policy topo).1 /\ 0 <= (cpuModel policy topo).2.
Proof.
  rewrite cpuModel_slope. unfold request_slope. split_decide; simpl; lia.
Qed.
#[export] Hint Resolve cpuModel_pos : planner.

(** The planner's CPU projection of a fresh drive container agrees with the CPU request of
    its pod for every core count and every policy whose request depends on the cores: exactly when
    full-pcpus-only is off, and within the one CPU of SMT rounding when it is on. *)
Theorem cpuModel_agrees policy topo n :
  resolveCPUPolicy policy (IsHt topo) <> CpuPolicyShared ->
  let '(perCore, base) := cpuModel policy topo in
  let request := CPURequestCores (sample_spec policy n) topo in
  perCore * n + base <= request <= perCore * n + base + 1 /\
  (FullPcpusOnly topo = false -> request = perCore * n + base).
Proof.
  intros Hs. rewrite cpuModel_slope, CPURequestCores_sample.
  destruct (request_slope policy (IsHt topo)) as [[s b]|] eqn:E; simpl.
  - split; [|intros]; case_decide; try lia.
    + apply roundFullPcpus_bounds.
    + by apply roundFullPcpus_off.
  - exfalso. unfold request_slope in E. split_decide; by simplify_eq.
Qed.

Lemma cpuModel_agrees_witness :
  let topo := {| IsHt := true; FullPcpusOnly := false |} in
  resolveCPUPolicy CpuPolicyAuto true <> CpuPolicyShared /\
  cpuModel CpuPolicyAuto topo = (2, 1) /\
  CPURequestCores (sample_spec CpuPolicyAuto 7) topo = 15.
Proof.
  split; [vm_compute; discriminate|]. split; [vm_compute; reflexivity|].
  pose proof (cpuModel_agrees CpuPolicyAuto {| IsHt := true; FullPcpusOnly := false |} 7) as H.
  destruct H as [_ H]; [vm_compute; discriminate|]. exact (H eq_refl).
Defined.
