(* ===== verification/Sizing.v ===== *)
(** * Sizing arithmetic (constraints.go, cores.go, hugepages.go, ratio.go)

    The pure helpers of the planner: raw capacity, the relative deadband, drive and compute core
    counts, hugepages and memory footprints, the gcd-reduced type ratio, and the adapters that
    build [CapacityConstraints] from the operator configuration. *)

From S2P Require Import Prelude Float64 Types.

(** ** Protection *)

(** [ProtectionScheme.MinFdNum] *)
Definition MinFdNum (p : ProtectionScheme) : Z := StripeWidth p + RedundancyLevel p + HotSpare p.

(** [MinProtectionFloor] *)
Definition MinProtectionFloor (allowSingleParity : bool) : Z * Z * Z :=
  if allowSingleParity then (2, 1, 0) else (3, 2, 0).

(** [DriveSharingConfig.EffectiveProtection], over the three Helm-level defaults. *)
Definition EffectiveProtection (defSW defRL defHS specSW specRL specHS : Z) : Z * Z * Z :=
  (if decide (specSW = 0) then defSW else specSW,
   if decide (specRL = 0) then defRL else specRL,
   if decide (specHS = 0) then defHS else specHS).

(** ** Capacity (constraints.go) *)

(** [RawCapacityGiB] *)
Definition RawCapacityGiB (clusterCapGiB sw rl hs : Z) : Z :=
  if decide (sw <= 0) then 0
  else int_of_float
    (f_div (f_div (f_mul (f_of_int clusterCapGiB) (f_of_int (sw + rl + hs))) (f_of_int sw))
       (f_const 9 10)).

Definition deadband (desired : Z) (cons : CapacityConstraints) : Z :=
  int_of_float (math_Ceil (f_mul (f_of_int desired) (CapacityDeadbandFraction cons))).

(** [CapacityShort] *)
Definition CapacityShort (current desired : Z) (cons : CapacityConstraints) : bool :=
  if f_le (CapacityDeadbandFraction cons) f_zero then bool_decide (current < desired)
  else bool_decide (desired - current > deadband desired cons).

(** [CapacityCoverTarget] *)
Definition CapacityCoverTarget (desired : Z) (cons : CapacityConstraints) : Z :=
  if f_le (CapacityDeadbandFraction cons) f_zero then desired
  else desired - deadband desired cons.

(** [OverProvisionCapGiB] *)
Definition OverProvisionCapGiB (desiredRaw : Z) (cons : CapacityConstraints) : Z :=
  if decide (desiredRaw <= 0) then 0
  else int_of_float (f_mul (MaxOverProvisionFraction cons) (f_of_int desiredRaw)).

(** [detectImbalance] *)
Definition detectImbalance (newPerFD existingAvg : Z) (cons : CapacityConstraints) : bool :=
  if decide (existingAvg <= 0) then false
  else if f_le (ImbalanceFactor cons) f_zero then false
  else f_le (f_mul (f_of_int existingAvg) (ImbalanceFactor cons)) (f_of_int newPerFD).

(** [growChunk] *)
Definition growChunk (delta minFd : Z) (cons : CapacityConstraints) : Z :=
  Z.max (MinChunkSizeGiB cons) (CeilDiv delta minFd).

(** ** Drive cores (cores.go) *)

(** [RequiredDriveCores] *)
Definition RequiredDriveCores (tlcGiB qlcGiB : Z) (cons : CapacityConstraints) : Z :=
  let cores :=
    if decide (tlcGiB > 0 /\ TlcCapacityPerCoreGiB cons > 0)
    then CeilDiv tlcGiB (TlcCapacityPerCoreGiB cons) else 0 in
  let cores :=
    if decide (qlcGiB > 0 /\ QlcCapacityPerCoreGiB cons > 0)
    then cores + CeilDiv qlcGiB (QlcCapacityPerCoreGiB cons) else cores in
  Z.max 1 cores.

(** [TlcDriveCores] *)
Definition TlcDriveCores (tlcGiB : Z) (cons : CapacityConstraints) : Z :=
  if decide (tlcGiB <= 0 \/ TlcCapacityPerCoreGiB cons <= 0) then 0
  else Z.max 1 (CeilDiv tlcGiB (TlcCapacityPerCoreGiB cons)).

(** [QlcDriveCores] *)
Definition QlcDriveCores (qlcGiB : Z) (cons : CapacityConstraints) : Z :=
  if decide (qlcGiB <= 0 \/ QlcCapacityPerCoreGiB cons <= 0) then 0
  else Z.max 1 (CeilDiv qlcGiB (QlcCapacityPerCoreGiB cons)).

(** [FullDriveCores]; the constraints pointer may be nil. *)
Definition FullDriveCores (numDrives : Z) (cons : option CapacityConstraints) : Z :=
  if decide (numDrives <= 0) then 0
  else match cons with
       | Some c => if decide (MaxCoresPerContainer c > 0)
                   then Z.min numDrives (MaxCoresPerContainer c) else numDrives
       | None => numDrives
       end.

(** [RequiredComputeCores]; the constraints pointer may be nil. *)
Definition RequiredComputeCores (tlcDriveCores qlcDriveCores : Z) (fullDrives : bool)
    (cons : option CapacityConstraints) : Z :=
  let total := Z.max tlcDriveCores 0 + Z.max qlcDriveCores 0 in
  match cons with
  | None => total
  | Some c =>
      let '(tlcRatio, qlcRatio) :=
        if fullDrives then (FullDrivesComputeToDriveCoreRatio c, f_zero)
        else (ComputeToTlcDriveCoreRatio c, ComputeToQlcDriveCoreRatio c) in
      let ratioed := int_of_float (math_Ceil
        (f_add (f_mul tlcRatio (f_of_int tlcDriveCores)) (f_mul qlcRatio (f_of_int qlcDriveCores)))) in
      Z.max total ratioed
  end.

(** [finalPoolCap]: an existing container's post-growth capacity for a pool. *)
Definition finalPoolCap (c : ExistingContainer) (growth : gmap string ContainerGrowth)
    (p : poolKind) : Z :=
  match growth !! ec_Name c with
  | Some g => poolCapGrowth g p
  | None => poolCap c p
  end.

(** [finalCores] *)
Definition finalCores (c : ExistingContainer) (growth : gmap string ContainerGrowth) : Z :=
  match growth !! ec_Name c with Some g => cg_NewCores g | None => ec_NumCores c end.

(** [tlcDriveCoresForContainer] *)
Definition tlcDriveCoresForContainer (tlcGiB qlcGiB assignedCores : Z)
    (cons : CapacityConstraints) : Z :=
  if decide (qlcGiB <= 0 /\ assignedCores > 0) then assignedCores
  else if decide (tlcGiB <= 0) then 0
  else
    let tlc := TlcDriveCores tlcGiB cons in
    if decide (assignedCores > 0) then Z.min tlc assignedCores else tlc.

(** [qlcDriveCoresForContainer] *)
Definition qlcDriveCoresForContainer (tlcGiB qlcGiB assignedCores : Z)
    (cons : CapacityConstraints) : Z :=
  if decide (qlcGiB <= 0) then 0
  else
    let tlc := TlcDriveCores tlcGiB cons in
    if decide (assignedCores > 0) then Z.max (assignedCores - tlc) 0
    else QlcDriveCores qlcGiB cons.

(** The loops of [totalTlcDriveCores] and [totalQlcDriveCores], which differ in the per-container
    attribution only. *)
Definition totalDriveCores (attribute : Z -> Z -> Z -> CapacityConstraints -> Z)
    (existingDrives : list ExistingContainer) (growth : gmap string ContainerGrowth)
    (newByNode : gmap string NewContainer) (cons : CapacityConstraints) : Z :=
  sumZ ((fun c => attribute (finalPoolCap c growth poolTLC) (finalPoolCap c growth poolQLC)
                    (finalCores c growth) cons) <$> existingDrives) +
  sumZ ((fun kn => attribute (new_TlcGiB kn.2) (new_QlcGiB kn.2) (new_NumCores kn.2) cons)
          <$> map_to_list newByNode).

(** [totalTlcDriveCores] *)
Definition totalTlcDriveCores := totalDriveCores tlcDriveCoresForContainer.

(** [totalQlcDriveCores] *)
Definition totalQlcDriveCores := totalDriveCores qlcDriveCoresForContainer.

(** ** Hugepages and memory (hugepages.go) *)

Definition default_HugepagesPerCoreMiB : Z := 1600.
Definition default_MemoryBaseMiB : Z := 8000.
Definition default_MemoryPerCoreMiB : Z := 3000.
Definition DriveHugepagesPerCoreMiB : Z := 1400.
Definition DriveHugepagesPerDriveMiB : Z := 200.

(** [CapacityConstraints.driveHugepagesPerCoreMiB] *)
Definition driveHugepagesPerCoreMiB (cons : CapacityConstraints) : Z :=
  HugepagesPerCoreMiB cons + DriveDpdkPerCoreMiB cons.

(** [DriveContainerHugepagesMiB] *)
Definition DriveContainerHugepagesMiB (cores drives : Z) (cons : CapacityConstraints) : Z :=
  if decide (drives > 0)
  then cores * (DriveHugepagesPerCoreMiB + DriveDpdkPerCoreMiB cons) + drives * DriveHugepagesPerDriveMiB
  else cores * driveHugepagesPerCoreMiB cons.

(** [DriveContainerHugepagesOffsetMiB] *)
Definition DriveContainerHugepagesOffsetMiB (cores drives : Z) (cons : CapacityConstraints) : Z :=
  if decide (drives > 0)
  then cores * DriveDpdkPerCoreMiB cons + drives * DriveHugepagesPerDriveMiB
  else cores * (DriveHugepagesPerDriveMiB + DriveDpdkPerCoreMiB cons).

(** [ComputeMemoryFootprintMiB] *)
Definition ComputeMemoryFootprintMiB (cores : Z) (cons : CapacityConstraints) : Z :=
  MemoryBaseMiB cons + cores * MemoryPerCoreMiB cons.

(** [RequiredDriveResources] *)
Definition RequiredDriveResources (tlcGiB qlcGiB numDrives : Z) (cons : CapacityConstraints) : Z * Z :=
  let cores := RequiredDriveCores tlcGiB qlcGiB cons in
  (DriveContainerHugepagesMiB cores numDrives cons, ComputeMemoryFootprintMiB cores cons).

(** The round-up to an even number of MiB and the cap, the tail of
    [ComputeContainerHugepagesMiB]. *)
Definition cap_even (maxMiB hp : Z) : Z :=
  let hp := if decide (hp `rem` 2 <> 0) then hp + 1 else hp in
  if decide (maxMiB > 0 /\ hp > maxMiB) then maxMiB else hp.

(** [ComputeContainerHugepagesMiB] *)
Definition ComputeContainerHugepagesMiB (tlcRawGiB qlcRawGiB count cores : Z)
    (cons : CapacityConstraints) : Z :=
  let capacityBased :=
    if decide (count > 0) then
      let clusterMiB :=
        (if decide (ComputeHugepagesTlcRatio cons > 0)
         then (tlcRawGiB * 1024) `quot` ComputeHugepagesTlcRatio cons else 0) +
        (if decide (ComputeHugepagesQlcRatio cons > 0)
         then (qlcRawGiB * 1024) `quot` ComputeHugepagesQlcRatio cons else 0) in
      clusterMiB `quot` count
    else 0 in
  let hp := Z.max (capacityBased + 1700 * cores) (3000 * cores) in
  cap_even (ComputeMaxHugepagesMiB cons) hp + ComputeDpdkPerCoreMiB cons * cores.

(** ** Drive-type ratio (ratio.go) *)

Definition DriveTypeTLC : string := "tlc".
Definition DriveTypeQLC : string := "qlc".
Definition DriveTypeMixed : string := "mixed".

(** The loop of [gcdInt]; every step shrinks [|b|]. *)
Fixpoint gcdInt_loop (fuel : nat) (a b : Z) : Z :=
  match fuel with
  | O => a
  | S fuel => if decide (b = 0) then a else gcdInt_loop fuel b (a `rem` b)
  end.

(** [gcdInt] *)
Definition gcdInt (a b : Z) : Z :=
  let a := gcdInt_loop (S (Z.abs_nat b)) a b in
  if decide (a < 0) then - a else a.

(** [RatioFromCaps] *)
Definition RatioFromCaps (tlcGiB qlcGiB : Z) : DriveTypesRatio :=
  let g := gcdInt tlcGiB qlcGiB in
  if decide (g = 0) then {| ratio_Tlc := 0; ratio_Qlc := 0 |}
  else {| ratio_Tlc := tlcGiB `quot` g; ratio_Qlc := qlcGiB `quot` g |}.

(** [GetTlcQlcCapacity] of the API package. *)
Definition GetTlcQlcCapacity (totalCapacity : Z) (ratio : option DriveTypesRatio) : Z * Z :=
  match ratio with
  | None => (totalCapacity, 0)
  | Some r =>
      if decide (ratio_Tlc r + ratio_Qlc r = 0) then (totalCapacity, 0)
      else
        let totalParts := ratio_Tlc r + ratio_Qlc r in
        let tlc := (totalCapacity * ratio_Tlc r) `quot` totalParts in
        (tlc, totalCapacity - tlc)
  end.

(** [ratioTypeFromCaps] *)
Definition ratioTypeFromCaps (tlcGiB qlcGiB : Z) : string :=
  if decide (tlcGiB > 0 /\ qlcGiB > 0) then DriveTypeMixed
  else if decide (qlcGiB > 0) then DriveTypeQLC
  else DriveTypeTLC.

(** [SortDriveCapacitiesDesc] of nodecapacity.go. *)
Definition SortDriveCapacitiesDesc (capacities : list Z) : list Z :=
  sort_by (fun a b => bool_decide (a > b)) capacities.

(** ** Constraints from the operator configuration (allocator/cluster_capacity.go) *)

(** The fields of the global configuration that [CapacityConstraintsFromConfig] reads. *)
Record CapacityConfig := {
  cfg_TlcCapacityPerCoreGiB : Z;
  cfg_QlcCapacityPerCoreGiB : Z;
  cfg_ImbalanceFactor : float64;
  cfg_CapacityDeadbandFraction : float64;
  cfg_MaxCoresPerContainer : Z;
  cfg_ComputeToTlcDriveCoreRatio : float64;
  cfg_ComputeToQlcDriveCoreRatio : float64;
  cfg_FullDrivesComputeToDriveCoreRatio : float64;
  cfg_HugepagesTlcRatio : Z;
  cfg_HugepagesQlcRatio : Z;
  cfg_EnableDynamicDriveScaling : bool;
  cfg_MinGrowthFraction : float64;
  cfg_MaxOverProvisionFraction : float64;
  cfg_AllowSingleParity : bool;
  cfg_ComputeMaxHugepagesMiB : Z;
}.

(** [LoadCapacityEnv] with no environment variable set. *)
Definition default_config : CapacityConfig := {|
  cfg_TlcCapacityPerCoreGiB := 5 * 1024;
  cfg_QlcCapacityPerCoreGiB := 50 * 1024;
  cfg_ImbalanceFactor := f_of_int 8;
  cfg_CapacityDeadbandFraction := f_const 5 100;
  cfg_MaxCoresPerContainer := 19;
  cfg_ComputeToTlcDriveCoreRatio := f_of_int 1;
  cfg_ComputeToQlcDriveCoreRatio := f_zero;
  cfg_FullDrivesComputeToDriveCoreRatio := f_of_int 2;
  cfg_HugepagesTlcRatio := 1000;
  cfg_HugepagesQlcRatio := 6000;
  cfg_EnableDynamicDriveScaling := false;
  cfg_MinGrowthFraction := f_const 2 10;
  cfg_MaxOverProvisionFraction := f_const 2 10;
  cfg_AllowSingleParity := false;
  cfg_ComputeMaxHugepagesMiB := 360000 |}.

(** The constant [MinChunkSizeGiB] of constraints.go. *)
Definition const_MinChunkSizeGiB : Z := 128 * 3.

(** [CapacityConstraintsFromConfig] *)
Definition CapacityConstraintsFromConfig (cfg : CapacityConfig) : CapacityConstraints := {|
  TlcCapacityPerCoreGiB := cfg_TlcCapacityPerCoreGiB cfg;
  QlcCapacityPerCoreGiB := cfg_QlcCapacityPerCoreGiB cfg;
  MinChunkSizeGiB := const_MinChunkSizeGiB;
  ImbalanceFactor := cfg_ImbalanceFactor cfg;
  HugepagesPerCoreMiB := default_HugepagesPerCoreMiB;
  MemoryBaseMiB := default_MemoryBaseMiB;
  MemoryPerCoreMiB := default_MemoryPerCoreMiB;
  DriveDpdkPerCoreMiB := 0;
  ComputeDpdkPerCoreMiB := 0;
  MaxCoresPerContainer := cfg_MaxCoresPerContainer cfg;
  ComputeHugepagesTlcRatio :=
    if decide (cfg_HugepagesTlcRatio cfg = 0) then 1000 else cfg_HugepagesTlcRatio cfg;
  ComputeHugepagesQlcRatio :=
    if decide (cfg_HugepagesQlcRatio cfg = 0) then 6000 else cfg_HugepagesQlcRatio cfg;
  ComputeMaxHugepagesMiB := cfg_ComputeMaxHugepagesMiB cfg;
  ComputeToTlcDriveCoreRatio :=
    if f_lt (cfg_ComputeToTlcDriveCoreRatio cfg) f_zero then f_of_int 1
    else cfg_ComputeToTlcDriveCoreRatio cfg;
  ComputeToQlcDriveCoreRatio :=
    if f_lt (cfg_ComputeToQlcDriveCoreRatio cfg) f_zero then f_zero
    else cfg_ComputeToQlcDriveCoreRatio cfg;
  FullDrivesComputeToDriveCoreRatio := cfg_FullDrivesComputeToDriveCoreRatio cfg;
  AllowInPlaceGrowth := cfg_EnableDynamicDriveScaling cfg;
  MinGrowthFraction := cfg_MinGrowthFraction cfg;
  MaxOverProvisionFraction := cfg_MaxOverProvisionFraction cfg;
  CapacityDeadbandFraction := cfg_CapacityDeadbandFraction cfg;
  AllowSingleParity := cfg_AllowSingleParity cfg;
  CpuPolicy := "" |}.

(** [ApplyClusterSpecOverrides]: the per-role DPDK base memory and the cluster's CPU policy. *)
Definition ApplyClusterSpecOverrides (cons : CapacityConstraints) (driveDpdk computeDpdk : Z)
    (policy : string) : CapacityConstraints := {|
  TlcCapacityPerCoreGiB := TlcCapacityPerCoreGiB cons;
  QlcCapacityPerCoreGiB := QlcCapacityPerCoreGiB cons;
  MinChunkSizeGiB := MinChunkSizeGiB cons;
  ImbalanceFactor := ImbalanceFactor cons;
  HugepagesPerCoreMiB := HugepagesPerCoreMiB cons;
  MemoryBaseMiB := MemoryBaseMiB cons;
  MemoryPerCoreMiB := MemoryPerCoreMiB cons;
  DriveDpdkPerCoreMiB := driveDpdk;
  ComputeDpdkPerCoreMiB := computeDpdk;
  MaxCoresPerContainer := MaxCoresPerContainer cons;
  ComputeHugepagesTlcRatio := ComputeHugepagesTlcRatio cons;
  ComputeHugepagesQlcRatio := ComputeHugepagesQlcRatio cons;
  ComputeMaxHugepagesMiB := ComputeMaxHugepagesMiB cons;
  ComputeToTlcDriveCoreRatio := ComputeToTlcDriveCoreRatio cons;
  ComputeToQlcDriveCoreRatio := ComputeToQlcDriveCoreRatio cons;
  FullDrivesComputeToDriveCoreRatio := FullDrivesComputeToDriveCoreRatio cons;
  AllowInPlaceGrowth := AllowInPlaceGrowth cons;
  MinGrowthFraction := MinGrowthFraction cons;
  MaxOverProvisionFraction := MaxOverProvisionFraction cons;
  CapacityDeadbandFraction := CapacityDeadbandFraction cons;
  AllowSingleParity := AllowSingleParity cons;
  CpuPolicy := policy |}.

(** The constraints of an operator with the built-in defaults, and the same with in-place growth
    enabled. *)
Definition default_cons : CapacityConstraints := CapacityConstraintsFromConfig default_config.

(** ** Lemmas *)

Lemma RequiredDriveCores_pos tlc qlc cons : 1 <= RequiredDriveCores tlc qlc cons.
Proof. unfold RequiredDriveCores. lia. Qed.
#[export] Hint Resolve RequiredDriveCores_pos : planner.

Lemma gcdInt_loop_spec fuel a b :
  (Z.abs_nat b < fuel)%nat -> Z.abs (gcdInt_loop fuel a b) = Z.gcd a b.
Proof.
  revert a b. induction fuel as [|fuel IH]; intros a b Hf; [lia|].
  simpl. case_decide as Hb; [subst; by rewrite Z.gcd_0_r|].
  pose proof (Z.rem_bound_abs a b Hb).
  rewrite IH by lia.
  rewrite (Z.quot_rem' a b) at 2.
  rewrite (Z.gcd_comm _ b), (Z.add_comm _ (Z.rem a b)), (Z.mul_comm b).
  by rewrite Z.gcd_add_mult_diag_r.
Qed.

Lemma gcdInt_spec a b : gcdInt a b = Z.gcd a b.
Proof.
  unfold gcdInt. pose proof (gcdInt_loop_spec (S (Z.abs_nat b)) a b). case_decide; lia.
Qed.

Lemma cap_even_mono maxMiB a b : 0 <= a <= b -> cap_even maxMiB a <= cap_even maxMiB b.
Proof.
  intros Hab. unfold cap_even.
  rewrite !Z.rem_mod_nonneg by lia.
  assert ((if decide (a mod 2 ≠ 0) then a + 1 else a) <= (if decide (b mod 2 ≠ 0) then b + 1 else b)).
  { pose proof (Z.div_mod a 2). pose proof (Z.div_mod b 2).
    pose proof (Z.mod_pos_bound a 2). pose proof (Z.mod_pos_bound b 2). split_decide; lia. }
  split_decide; lia.
Qed.

Lemma quot_le_mono_denom a b c : 0 <= a -> 0 < b <= c -> a `quot` c <= a `quot` b.
Proof.
  intros. rewrite !Z.quot_div_nonneg by lia. by apply Z.div_le_compat_l.
Qed.

(** More containers with no more cores each need no more hugepages each. *)
Lemma computeHugepages_mono tlc qlc n1 n2 c1 c2 cons :
  0 <= tlc -> 0 <= qlc -> 0 <= ComputeDpdkPerCoreMiB cons ->
  0 < n1 <= n2 -> 0 <= c2 <= c1 ->
  ComputeContainerHugepagesMiB tlc qlc n2 c2 cons <= ComputeContainerHugepagesMiB tlc qlc n1 c1 cons.
Proof.
  intros Ht Hq Hd Hn Hc. unfold ComputeContainerHugepagesMiB.
  rewrite (decide_True (P := n1 > 0)), (decide_True (P := n2 > 0)) by lia.
  set (M := (if decide (ComputeHugepagesTlcRatio cons > 0) then _ else 0) +
            (if decide (ComputeHugepagesQlcRatio cons > 0) then _ else 0)).
  assert (0 <= M).
  { unfold M. pose proof (quot_pos_spec (tlc * 1024) (ComputeHugepagesTlcRatio cons)).
    pose proof (quot_pos_spec (qlc * 1024) (ComputeHugepagesQlcRatio cons)). split_decide; lia. }
  assert (M `quot` n2 <= M `quot` n1) by (apply quot_le_mono_denom; lia).
  assert (0 <= M `quot` n2) by (apply quot_pos_spec; lia).
  apply Z.add_le_mono; [|apply Z.mul_le_mono_nonneg_l; lia].
  apply cap_even_mono. lia.
Qed.

Lemma CapacityShort_false current desired cons :
  CapacityShort current desired cons = false <-> CapacityCoverTarget desired cons <= current.
Proof.
  unfold CapacityShort, CapacityCoverTarget.
  destruct (f_le _ _); rewrite bool_decide_eq_false; lia.
Qed.

(** ** Properties *)

(** The relative deadband is used consistently: a pool is not short exactly when its capacity
    reaches the cover target, so the target is the least capacity that is not short. *)
Theorem CapacityShort_cover current desired cons :
  CapacityShort current desired cons = false <-> CapacityCoverTarget desired cons <= current.
Proof. apply CapacityShort_false. Qed.

(** The drive cores attributed to the two pools of a container sum to exactly its assigned
    cores, whatever its capacities, so a pinned driveCores is never double-counted. *)
Theorem driveCores_attribution tlc qlc assigned cons :
  0 < assigned ->
  tlcDriveCoresForContainer tlc qlc assigned cons +
  qlcDriveCoresForContainer tlc qlc assigned cons = assigned.
Proof.
  intros Ha. unfold tlcDriveCoresForContainer, qlcDriveCoresForContainer, TlcDriveCores.
  split_decide; lia.
Qed.

Lemma driveCores_attribution_witness :
  0 < 7 /\
  tlcDriveCoresForContainer 10240 51200 7 default_cons +
  qlcDriveCoresForContainer 10240 51200 7 default_cons = 7.
Proof. split; [lia|]. apply (driveCores_attribution 10240 51200 7 default_cons). lia. Defined.

(** Splitting a total by the ratio of its parts gives the parts back. *)
Lemma ratio_split tlc qlc :
  0 <= tlc -> 0 <= qlc ->
  GetTlcQlcCapacity (tlc + qlc) (Some (RatioFromCaps tlc qlc)) = (tlc, qlc) /\
  (0 < tlc + qlc -> Z.gcd (ratio_Tlc (RatioFromCaps tlc qlc)) (ratio_Qlc (RatioFromCaps tlc qlc)) = 1).
Proof.
  intros Ht Hq. unfold RatioFromCaps. rewrite gcdInt_spec.
  pose proof (Z.gcd_nonneg tlc qlc) as Hg.
  case_decide as E.
  { apply Z.gcd_eq_0 in E as [-> ->]. simpl. split; [done|lia]. }
  destruct (Z.gcd_divide_l tlc qlc) as [a Ha]. destruct (Z.gcd_divide_r tlc qlc) as [b Hb].
  set (g := Z.gcd tlc qlc) in *.
  assert (Hgcd : Z.gcd a b = 1).
  { assert (g * Z.gcd a b = g * 1); [|nia].
    rewrite <- (Z.gcd_mul_mono_l_nonneg a b g) by lia.
    rewrite (Z.mul_comm g a), (Z.mul_comm g b), <- Ha, <- Hb. lia. }
  assert (0 <= a /\ 0 <= b) by nia.
  unfold GetTlcQlcCapacity. cbn [ratio_Tlc ratio_Qlc].
  assert (tlc `quot` g = a) as -> by (rewrite Ha; apply Z.quot_mul; lia).
  assert (qlc `quot` g = b) as -> by (rewrite Hb; apply Z.quot_mul; lia).
  split; [|done].
  rewrite decide_False.
  2:{ intros Hz. assert (a = 0) as -> by lia. assert (b = 0) as -> by lia. done. }
  assert (((tlc + qlc) * a) `quot` (a + b) = tlc) as ->.
  { replace ((tlc + qlc) * a) with (tlc * (a + b)) by (rewrite Ha, Hb; ring).
    apply Z.quot_mul. intros Hz.
    assert (a = 0) as Ez by lia. assert (b = 0) as Ez' by lia. rewrite Ez, Ez' in Hgcd. done. }
  f_equal. lia.
Qed.

(** C36: the ratio stored on a container is gcd-reduced, and splitting the container's total
    capacity by that ratio gives back exactly its TLC and QLC capacities. *)
Theorem RatioFromCaps_roundtrip tlc qlc :
  0 <= tlc -> 0 <= qlc ->
  GetTlcQlcCapacity (tlc + qlc) (Some (RatioFromCaps tlc qlc)) = (tlc, qlc) /\
  (0 < tlc + qlc -> Z.gcd (ratio_Tlc (RatioFromCaps tlc qlc)) (ratio_Qlc (RatioFromCaps tlc qlc)) = 1).
Proof. apply ratio_split. Qed.

Lemma RatioFromCaps_roundtrip_witness :
  GetTlcQlcCapacity (1152 + 4608) (Some (RatioFromCaps 1152 4608)) = (1152, 4608) /\
  RatioFromCaps 1152 4608 = {| ratio_Tlc := 1; ratio_Qlc := 4 |}.
Proof.
  split; [|vm_compute; reflexivity].
  refine (proj1 (RatioFromCaps_roundtrip 1152 4608 _ _)); lia.
Defined.

(** A compute container's hugepages do not increase when the cluster has more containers and
    each has no more cores, which is what lets the layout search prefer more, smaller containers
    whenever a layout fails its hugepages gate. *)
Theorem ComputeContainerHugepagesMiB_antitone tlc qlc n1 n2 c1 c2 cons :
  0 <= tlc -> 0 <= qlc -> 0 <= ComputeDpdkPerCoreMiB cons ->
  0 < n1 <= n2 -> 0 <= c2 <= c1 ->
  ComputeContainerHugepagesMiB tlc qlc n2 c2 cons <= ComputeContainerHugepagesMiB tlc qlc n1 c1 cons.
Proof. apply computeHugepages_mono. Qed.

Lemma ComputeContainerHugepagesMiB_antitone_witness :
  0 < 5 <= 8 /\
  ComputeContainerHugepagesMiB 500000 2000000 8 2 default_cons <=
  ComputeContainerHugepagesMiB 500000 2000000 5 3 default_cons.
Proof.
  split; [lia|].
  apply (ComputeContainerHugepagesMiB_antitone 500000 2000000 5 8 3 2 default_cons); try lia.
  vm_compute. discriminate.
Defined.
