(* ===== verification/NodeState.v ===== *)
(** * Per-node headroom (the [nodeState] methods of planner.go)

    [consume] and [unconsume] charge and release the budgets of one placement, [nodeHeadroom] is
    the capacity of a pool a node can still host, and [reserveCores] charges extra pinned cores. The
    invariant [node_ok] says that no budget of a node is overdrawn. *)

From S2P Require Import Prelude Float64 Types Cpu Sizing.

(** [nodeState.topo] *)
Definition topo (ns : nodeState) : NodeCPUTopology :=
  {| IsHt := nc_IsHt (nc ns); FullPcpusOnly := nc_FullPcpusOnly (nc ns) |}.

(** [nodeState.cpuCost] *)
Definition cpuCost (ns : nodeState) (policy : string) (dataCores : Z) (includeBase : bool) : Z :=
  let '(perCore, base) := cpuModel policy (topo ns) in
  let c := perCore * dataCores in
  if includeBase then c + base else c.

(** [nodeState.dataCoresCapacity] *)
Definition dataCoresCapacity (ns : nodeState) (policy : string) (extraCPU : Z) (includeBase : bool) : Z :=
  let '(perCore, base) := cpuModel policy (topo ns) in
  let avail := coresFree ns + extraCPU in
  let avail := if includeBase then avail - base else avail in
  if decide (avail < 0 \/ perCore <= 0) then 0 else avail `quot` perCore.

(** [nodeState.dataCoresFit] *)
Definition dataCoresFit (ns : nodeState) (policy : string) (includeBase : bool) : Z :=
  dataCoresCapacity ns policy 0 includeBase.

(** [nodeState.poolFree] *)
Definition poolFree (ns : nodeState) (p : poolKind) : Z :=
  match p with poolTLC => tlcFree ns | poolQLC => qlcFree ns end.

(** One [if cap < headroom { headroom, binding = cap, name }] of [nodeHeadroomBinding]. *)
Definition tighten (cap : Z) (name : string) (hb : Z * string) : Z * string :=
  if decide (cap < hb.1) then (cap, name) else hb.

(** [nodeState.nodeHeadroomBinding] *)
Definition nodeHeadroomBinding (ns : nodeState) (p : poolKind) (cons : CapacityConstraints)
    (includeBase : bool) : Z * string :=
  let perCap := perCoreCap p cons in
  if decide (perCap <= 0) then (0, "pool disabled")
  else
    let hb := (poolFree ns p, "drive capacity") in
    let hb := tighten (dataCoresFit ns (CpuPolicy cons) includeBase * perCap) "cores" hb in
    let hpPerCore := driveHugepagesPerCoreMiB cons in
    let hb := if decide (hpPerCore > 0)
              then tighten ((hugepagesMiB ns `quot` hpPerCore) * perCap) "hugepages" hb else hb in
    let hb := if decide (MemoryPerCoreMiB cons > 0)
              then
                let mem := if includeBase then memoryMiB ns - MemoryBaseMiB cons else memoryMiB ns in
                tighten ((mem `quot` MemoryPerCoreMiB cons) * perCap) "memory" hb
              else hb in
    (if decide (hb.1 < 0) then 0 else hb.1, hb.2).

(** [nodeState.nodeHeadroom] *)
Definition nodeHeadroom (ns : nodeState) (p : poolKind) (cons : CapacityConstraints)
    (includeBase : bool) : Z :=
  (nodeHeadroomBinding ns p cons includeBase).1.

(** The budgets of a node after subtracting the given amounts. *)
Definition charge (ns : nodeState) (p : poolKind) (cap cpu hp mem : Z) : nodeState := {|
  nc := nc ns;
  tlcFree := match p with poolTLC => tlcFree ns - cap | poolQLC => tlcFree ns end;
  qlcFree := match p with poolTLC => qlcFree ns | poolQLC => qlcFree ns - cap end;
  coresFree := coresFree ns - cpu;
  hugepagesMiB := hugepagesMiB ns - hp;
  memoryMiB := memoryMiB ns - mem;
  hasDeletingDriveContainer := hasDeletingDriveContainer ns |}.

(** [nodeState.consume] *)
Definition consume (ns : nodeState) (p : poolKind) (gGiB : Z) (cons : CapacityConstraints)
    (includeBase : bool) : nodeState :=
  let cores := CeilDiv gGiB (perCoreCap p cons) in
  charge ns p gGiB
    (cpuCost ns (CpuPolicy cons) cores includeBase)
    (cores * driveHugepagesPerCoreMiB cons)
    (cores * MemoryPerCoreMiB cons + (if includeBase then MemoryBaseMiB cons else 0)).

(** [nodeState.unconsume] *)
Definition unconsume (ns : nodeState) (p : poolKind) (gGiB : Z) (cons : CapacityConstraints)
    (includeBase : bool) : nodeState :=
  let cores := CeilDiv gGiB (perCoreCap p cons) in
  charge ns p (- gGiB)
    (- cpuCost ns (CpuPolicy cons) cores includeBase)
    (- (cores * driveHugepagesPerCoreMiB cons))
    (- (cores * MemoryPerCoreMiB cons + (if includeBase then MemoryBaseMiB cons else 0))).

(** [nodeState.reserveCores]: [None] stands for the result [false], which changes nothing. *)
Definition reserveCores (ns : nodeState) (cores : Z) (cons : CapacityConstraints) : option nodeState :=
  if decide (cores <= 0) then Some ns
  else
    let hpPerCore := driveHugepagesPerCoreMiB cons in
    let cpuNeed := cpuCost ns (CpuPolicy cons) cores false in
    if decide (coresFree ns < cpuNeed \/
               (hpPerCore > 0 /\ hugepagesMiB ns < cores * hpPerCore) \/
               (MemoryPerCoreMiB cons > 0 /\ memoryMiB ns < cores * MemoryPerCoreMiB cons))
    then None
    else Some (charge ns poolTLC 0 cpuNeed (cores * hpPerCore) (cores * MemoryPerCoreMiB cons)).

(** ** The budget invariant *)

(** No budget is overdrawn. *)
Definition node_ok (ns : nodeState) : Prop :=
  0 <= tlcFree ns /\ 0 <= qlcFree ns /\ 0 <= coresFree ns /\ 0 <= hugepagesMiB ns /\
  0 <= memoryMiB ns.

(** The resource coefficients are sensible: hugepages per core and base memory are not negative,
    and memory is accounted for. *)
Definition cons_ok (cons : CapacityConstraints) : Prop :=
  0 <= driveHugepagesPerCoreMiB cons /\ 0 < MemoryPerCoreMiB cons /\ 0 <= MemoryBaseMiB cons.

#[export] Instance node_ok_dec ns : Decision (node_ok ns).
Proof. unfold node_ok. apply _. Defined.
#[export] Instance cons_ok_dec cons : Decision (cons_ok cons).
Proof. unfold cons_ok. apply _. Defined.

Lemma default_cons_ok : cons_ok default_cons.
Proof. vm_compute. naive_solver. Qed.

Lemma nc_charge ns p a b c d : nc (charge ns p a b c d) = nc ns.
Proof. done. Qed.

Lemma nc_consume ns p g cons b : nc (consume ns p g cons b) = nc ns.
Proof. done. Qed.

Lemma nc_unconsume ns p g cons b : nc (unconsume ns p g cons b) = nc ns.
Proof. done. Qed.

Lemma cpuCost_nc ns ns' policy n b : nc ns = nc ns' -> cpuCost ns policy n b = cpuCost ns' policy n b.
Proof. unfold cpuCost, topo. by intros ->. Qed.

Lemma cpuCost_nonneg ns policy n b : 0 <= n -> 0 <= cpuCost ns policy n b.
Proof.
  intros. unfold cpuCost. pose proof (cpuModel_pos policy (topo ns)).
  destruct (cpuModel policy (topo ns)) as [s m]. simpl in *. destruct b; nia.
Qed.
#[export] Hint Resolve cpuCost_nonneg : planner.

(** The data cores that fit are exactly those whose CPU cost fits. *)
Lemma dataCoresCapacity_spec ns policy extra b n :
  0 < n ->
  n <= dataCoresCapacity ns policy extra b <-> cpuCost ns policy n b <= coresFree ns + extra.
Proof.
  intros Hn. unfold dataCoresCapacity, cpuCost.
  pose proof (cpuModel_pos policy (topo ns)) as Hp.
  destruct (cpuModel policy (topo ns)) as [s m]. simpl in Hp.
  case_decide as Ha.
  - destruct b; split; nia.
  - pose proof (quot_pos_spec (if b then coresFree ns + extra - m else coresFree ns + extra) s).
    destruct b; split; nia.
Qed.

Lemma tighten_le cap name hb : (tighten cap name hb).1 <= cap /\ (tighten cap name hb).1 <= hb.1.
Proof. unfold tighten. case_decide; simpl; lia. Qed.

Lemma nodeHeadroom_nonneg ns p cons b : 0 <= nodeHeadroom ns p cons b.
Proof. unfold nodeHeadroom, nodeHeadroomBinding. case_decide; simpl; [lia|]. case_decide; lia. Qed.
#[export] Hint Resolve nodeHeadroom_nonneg : planner.

(** A positive headroom bounds every budget it is derived from. *)
Lemma nodeHeadroom_bound ns p cons b g :
  0 < g <= nodeHeadroom ns p cons b ->
  let cap := perCoreCap p cons in
  let cores := CeilDiv g cap in
  0 < cap /\ g <= poolFree ns p /\
  cpuCost ns (CpuPolicy cons) cores b <= coresFree ns /\
  (driveHugepagesPerCoreMiB cons > 0 -> cores * driveHugepagesPerCoreMiB cons <= hugepagesMiB ns) /\
  (MemoryPerCoreMiB cons > 0 ->
   cores * MemoryPerCoreMiB cons + (if b then MemoryBaseMiB cons else 0) <= memoryMiB ns).
Proof.
  intros [Hg Hh] cap cores. unfold nodeHeadroom, nodeHeadroomBinding in Hh.
  fold cap in Hh.
  destruct (decide (cap <= 0)) as [|Hcap]; [simpl in Hh; lia|].
  set (hb0 := tighten (dataCoresFit _ _ _ * cap) _ _) in Hh.
  set (hb1 := if decide (driveHugepagesPerCoreMiB cons > 0) then _ else hb0) in Hh.
  set (hb2 := if decide (MemoryPerCoreMiB cons > 0) then _ else hb1) in Hh.
  simpl in Hh. destruct (decide (hb2.1 < 0)); [lia|].
  assert (H0 : hb0.1 <= dataCoresFit ns (CpuPolicy cons) b * cap /\ hb0.1 <= poolFree ns p).
  { apply (tighten_le _ _ (poolFree ns p, _)). }
  assert (H1 : hb1.1 <= hb0.1 /\ (driveHugepagesPerCoreMiB cons > 0 ->
    hb1.1 <= (hugepagesMiB ns `quot` driveHugepagesPerCoreMiB cons) * cap)).
  { unfold hb1. case_decide; [|lia]. pose proof (tighten_le ((hugepagesMiB ns `quot` driveHugepagesPerCoreMiB cons) * cap) "hugepages" hb0). tauto. }
  set (mem := if b then memoryMiB ns - MemoryBaseMiB cons else memoryMiB ns) in *.
  assert (H2 : hb2.1 <= hb1.1 /\ (MemoryPerCoreMiB cons > 0 ->
    hb2.1 <= (mem `quot` MemoryPerCoreMiB cons) * cap)).
  { unfold hb2. case_decide; [|lia]. pose proof (tighten_le ((mem `quot` MemoryPerCoreMiB cons) * cap) "memory" hb1). tauto. }
  assert (Hc : 0 < cores) by (apply CeilDiv_pos; lia).
  assert (Hfit : forall q, g <= q * cap -> cores <= q).
  { intros q Hq. destruct (decide (0 <= q)); [|nia].
    apply CeilDiv_le_iff; lia. }
  split; [lia|]. split; [lia|]. split.
  { rewrite <- (Z.add_0_r (coresFree ns)). apply dataCoresCapacity_spec; [lia|].
    apply Hfit. unfold dataCoresFit in *. lia. }
  destruct H1 as [H1 H1'], H2 as [H2 H2'].
  split; intros Hp.
  - apply quot_fit; [lia..|]. apply Hfit. specialize (H1' Hp). lia.
  - assert (cores * MemoryPerCoreMiB cons <= mem); [|unfold mem in *; destruct b; lia].
    apply quot_fit; [lia..|]. apply Hfit. specialize (H2' Hp). lia.
Qed.

Lemma poolFree_charge ns p q cap cpu hp mem :
  poolFree (charge ns p cap cpu hp mem) q = poolFree ns q - (if decide (p = q) then cap else 0).
Proof. destruct p, q; simpl; lia. Qed.

Lemma node_ok_charge ns p cap cpu hp mem :
  node_ok ns -> cap <= poolFree ns p -> cpu <= coresFree ns -> hp <= hugepagesMiB ns ->
  mem <= memoryMiB ns -> node_ok (charge ns p cap cpu hp mem).
Proof. unfold node_ok. destruct p; simpl; lia. Qed.

Lemma node_ok_consume ns p g cons b :
  cons_ok cons -> node_ok ns -> 0 < g <= nodeHeadroom ns p cons b -> node_ok (consume ns p g cons b).
Proof.
  intros (Hhp & Hmem & Hbase) Hok Hg.
  pose proof (nodeHeadroom_bound ns p cons b g Hg) as (Hcap & Hfree & Hcpu & Hh & Hm).
  unfold consume. apply node_ok_charge; auto; [|apply Hm; lia].
  destruct (decide (driveHugepagesPerCoreMiB cons > 0)) as [Hp|Hp]; [by apply Hh|].
  destruct Hok as (_ & _ & _ & Hok & _).
  assert (driveHugepagesPerCoreMiB cons = 0) as -> by lia. lia.
Qed.
#[export] Hint Resolve node_ok_consume : planner.

Lemma unconsume_consume ns p g cons b : unconsume (consume ns p g cons b) p g cons b = ns.
Proof.
  unfold unconsume, consume.
  rewrite (cpuCost_nc (charge _ _ _ _ _ _) ns) by done.
  destruct ns, p; unfold charge; simpl; f_equal; lia.
Qed.

Lemma reserveCores_nc ns cores cons ns' : reserveCores ns cores cons = Some ns' -> nc ns' = nc ns.
Proof. unfold reserveCores. intros. split_decide; simplify_eq; done. Qed.

Lemma node_ok_reserveCores ns cores cons ns' :
  cons_ok cons -> node_ok ns -> reserveCores ns cores cons = Some ns' -> node_ok ns'.
Proof.
  intros (Hhp & Hmem & Hbase) Hok. unfold reserveCores.
  case_decide; [by intros [= <-]|]. case_decide as Hr; [done|]. intros [= <-].
  destruct Hok as (? & ? & ? & ? & ?). apply node_ok_charge; [done|..]; simpl; try lia.
Qed.

(** *** The node states of the planner *)

(** No node is overdrawn. *)
Definition states_ok (states : nodeStates) : Prop := map_Forall (fun _ ns => node_ok ns) states.

#[export] Instance states_ok_dec states : Decision (states_ok states).
Proof. unfold states_ok. apply _. Defined.

Lemma node_ok_inhabitant : node_ok inhabitant.
Proof. vm_compute. repeat split; discriminate. Qed.

Lemma states_ok_total states n : states_ok states -> node_ok (states !!! n).
Proof.
  intros H. rewrite lookup_total_alt. destruct (states !! n) eqn:E; [by apply (H n)|apply node_ok_inhabitant].
Qed.

(** ** Properties *)

(** Placing any positive amount within a node's headroom never overdraws the node: its drive
    capacity, physical CPU, hugepages and memory all stay non-negative. *)
Theorem consume_within_headroom ns p g cons includeBase :
  cons_ok cons -> node_ok ns -> 0 < g <= nodeHeadroom ns p cons includeBase ->
  node_ok (consume ns p g cons includeBase).
Proof. apply node_ok_consume. Qed.

(** A 4-CPU hyper-threaded node with 6 TiB of TLC, for the witnesses. *)
Definition witness_node : nodeState := {|
  nc := {| nc_NodeName := "n1"; nc_TlcGiB := 6144; nc_QlcGiB := 0; nc_AllocatableCPU := 4;
           nc_IsHt := true; nc_FullPcpusOnly := false; nc_AvailableHugepagesMiB := 4000;
           nc_AvailableMemoryMiB := 12000; nc_FDValue := "n1"; nc_HasDeletingDriveContainer := false;
           nc_IneligibleReason := "" |};
  tlcFree := 6144; qlcFree := 0; coresFree := 4; hugepagesMiB := 4000; memoryMiB := 12000;
  hasDeletingDriveContainer := false |}.

Lemma consume_within_headroom_witness :
  nodeHeadroom witness_node poolTLC default_cons true = 5120 /\
  node_ok (consume witness_node poolTLC 5120 default_cons true).
Proof.
  split; [vm_compute; reflexivity|].
  apply (consume_within_headroom witness_node poolTLC 5120 default_cons true).
  - apply default_cons_ok.
  - vm_compute. repeat split; discriminate.
  - vm_compute. split; [reflexivity|discriminate].
Defined.

(** [unconsume] reverses [consume] exactly, on every budget, so rolling a placement back
    restores the node. *)
Theorem consume_rollback ns p g cons includeBase :
  unconsume (consume ns p g cons includeBase) p g cons includeBase = ns.
Proof. apply unconsume_consume. Qed.
