(* ===== verification/Infeasibility.v ===== *)
(** * Infeasibility reports (infeasibility.go, and the breakdown messages of planner.go)

    The structured report a plan carries when it is infeasible, the catalog of fixes, and the
    per-node explanation of why a node is no failure-domain candidate. *)

From S2P Require Import Prelude Float64 Fmt Types Cpu Sizing NodeState.

(** [poolKind.tag] *)
Definition pool_tag (p : poolKind) : string :=
  match p with poolQLC => DriveTypeQLC | poolTLC => DriveTypeTLC end.

(** [setInfeasible] *)
Definition setInfeasible (report : InfeasibilityReport) (q : CapacityPlan) : CapacityPlan := {|
  Grow := Grow q; Create := Create q; TotalTlcDriveCores := TotalTlcDriveCores q;
  TotalQlcDriveCores := TotalQlcDriveCores q; plan_RequiredComputeCores := plan_RequiredComputeCores q;
  plan_ComputeContainers := plan_ComputeContainers q; plan_ComputeCores := plan_ComputeCores q;
  ComputeNodes := ComputeNodes q; ComputeLayout := ComputeLayout q; Warnings := Warnings q;
  ShrinkEvents := ShrinkEvents q; OverProvisions := OverProvisions q;
  Infeasible := ir_Reason report; Infeasibility := Some report |}.

(** ** The catalog of fixes *)

Definition fixesProtection (minSW minRL minHS : Z) : list string :=
  [Sprintf "raise stripeWidth to >=%d and redundancyLevel to >=%d (hotSpare >=%d)"
     [ArgD minSW; ArgD minRL; ArgD minHS]].

Definition fixesDriveContainers (resolved : Z) : list string :=
  if decide (resolved > 0) then
    [Sprintf "unset driveContainers (auto) or set it to %d — the count the plan resolves to" [ArgD resolved]]
  else ["unset driveContainers (auto) or set it to a value the plan can resolve to"].

Definition fixesDriveCores (needed : Z) : list string :=
  [Sprintf "raise driveCores to >=%d, or unset it to auto-size from capacity" [ArgD needed]].

Definition fixesMaxCoresPerContainer (limit : Z) : list string :=
  [Sprintf "raise driveContainers so each container holds less capacity and needs at most %d cores" [ArgD limit];
   "or lower clusterCapacity so the same container count suffices";
   Sprintf "driveCores, when pinned, must itself be <=%d — weka allows no more cores in one container" [ArgD limit]].

Definition fixesCapacity (p : poolKind) (allowInPlaceGrowth : bool) : list string :=
  ["shift driveTypesRatio toward the abundant type (e.g. 1:N)";
   Sprintf "add drives or nodes of the short type (%s)" [ArgS (pool_String p)]] ++
  (if allowInPlaceGrowth then []
   else ["enable enableDynamicDriveScalingForSharedDrives to grow existing containers in place"]).

Definition fixesFailureDomains (p : poolKind) (minFd : Z) : list string :=
  [Sprintf "add nodes / failure domains that can host a %s drive container (need minFdNum = stripeWidth+redundancyLevel+hotSpare = %d)"
     [ArgS (pool_String p); ArgD minFd]].

Definition fixesGrowthDisabledFDs (extraNodes : Z) : list string :=
  [Sprintf "add %d more node(s) not already running this pool's drive container" [ArgD extraNodes];
   "or enable enableDynamicDriveScalingForSharedDrives to grow the existing containers in place"].

Definition fixesGrowthDisabledOverProvision (t0 : Z) : list string :=
  ["enable enableDynamicDriveScalingForSharedDrives to grow existing containers in place";
   Sprintf "or set clusterCapacity to a value the %d GiB failure-domain size divides evenly" [ArgD t0]].

Definition fixesGrowTooSmall (extraNodes t0 : Z) (minGrowthFraction : float64) : list string :=
  [Sprintf "add %d more node(s) not already running this pool's drive container" [ArgD extraNodes];
   Sprintf "raise clusterCapacity by at least one %d GiB failure-domain chunk" [ArgD t0];
   Sprintf "or lower minGrowthFraction (currently %.2f)" [ArgF minGrowthFraction]].

Definition fixesAddCapacity (p : poolKind) : list string :=
  [Sprintf "add more nodes (or nodes with more free capacity/cores/hugepages/memory) that can host a %s drive container"
     [ArgS (pool_String p)];
   "or lower clusterCapacity"].

Definition fixesCompute : list string :=
  ["add compute-eligible nodes (matching the cluster's compute role selector) with free cores + hugepages";
   "or lower computeContainers / computeCores, or reduce clusterCapacity so fewer TLC drive cores are needed"].

(** ** Rejected nodes *)

(** The keys of a map, sorted. *)
Definition sorted_keys {A} (m : gmap string A) : list string := sort_strings (map_to_list m).*1.

(** [rejectedNodes] *)
Definition rejectedNodes (p : poolKind) (states : nodeStates) (poolUsed : gset string)
    (cons : CapacityConstraints) : list NodeRejection :=
  omap (fun name =>
    let ns := states !!! name in
    if decide (name ∈ poolUsed) then
      Some {| rj_Node := name; rj_Binding := Sprintf "already hosts a %s container" [ArgS (pool_String p)];
              rj_FreeGiB := 0; rj_NeededGiB := 0 |}
    else if decide (nc_IneligibleReason (nc ns) <> "") then
      Some {| rj_Node := name; rj_Binding := Sprintf "ineligible (%s)" [ArgS (nc_IneligibleReason (nc ns))];
              rj_FreeGiB := 0; rj_NeededGiB := 0 |}
    else
      let '(h, binding) := nodeHeadroomBinding ns p cons true in
      if decide (h >= MinChunkSizeGiB cons) then None
      else Some {| rj_Node := name; rj_Binding := binding; rj_FreeGiB := h;
                   rj_NeededGiB := MinChunkSizeGiB cons |})
    (sorted_keys states).

(** A bucket of [rejectedNodesBreakdown]: the reason, its first member names and their number. *)
Record reasonGroup := { rg_reason : string; rg_nodes : list string; rg_total : Z }.

(** The closure [add] of [rejectedNodesBreakdown], over the buckets in first-seen order. *)
Fixpoint add_reason (node reason : string) (l : list reasonGroup) : list reasonGroup :=
  match l with
  | [] => [{| rg_reason := reason; rg_nodes := [node]; rg_total := 1 |}]
  | g :: l =>
      if decide (rg_reason g = reason) then
        {| rg_reason := reason;
           rg_nodes := if decide (len (rg_nodes g) < 6) then rg_nodes g ++ [node] else rg_nodes g;
           rg_total := rg_total g + 1 |} :: l
      else g :: add_reason node reason l
  end.

(** [strings.HasPrefix] *)
Definition HasPrefix (s prefix : string) : bool := String.prefix prefix s.

Definition rejection_reason (p : poolKind) (rj : NodeRejection) : string :=
  if HasPrefix (rj_Binding rj) "already hosts" then rj_Binding rj
  else if decide (rj_Binding rj = "drive capacity" /\ rj_FreeGiB rj = 0) then
    Sprintf "no %s drive capacity" [ArgS (pool_String p)]
  else Sprintf "%s limits usable %s to %d GiB (below the %d GiB minimum chunk)"
         [ArgS (rj_Binding rj); ArgS (pool_String p); ArgD (rj_FreeGiB rj); ArgD (rj_NeededGiB rj)].

(** [rejectedNodesBreakdown] *)
Definition rejectedNodesBreakdown (p : poolKind) (states : nodeStates) (poolUsed : gset string)
    (cons : CapacityConstraints) : string :=
  let rejects := rejectedNodes p states poolUsed cons in
  let order := fold_left (fun l rj => add_reason (rj_Node rj) (rejection_reason p rj) l) rejects [] in
  if decide (len rejects = 0) then ""
  else
    let show g :=
      let list := strings_Join (rg_nodes g) ", " in
      let list := if decide (rg_total g > len (rg_nodes g))
                  then String.append list (Sprintf " (+%d more)" [ArgD (rg_total g - len (rg_nodes g))])
                  else list in
      Sprintf "%s: %s" [ArgS list; ArgS (rg_reason g)] in
    let parts := (show <$> take 8 order) ++
      (if decide (len order > 8) then [Sprintf "(+%d more reason(s))" [ArgD (len order - 8)]] else []) in
    Sprintf "%d node(s) cannot host a %s failure domain: %s"
      [ArgD (len rejects); ArgS (pool_String p); ArgS (strings_Join parts "; ")].

(** [uniformInfeasibleMsg]: the message, the binding dimension and the shortfall. *)
Definition uniformInfeasibleMsg (p : poolKind) (desiredRaw minFd : Z) (candidates : list fdGroup)
    (states : nodeStates) (poolUsed : gset string) (cons : CapacityConstraints) : string * string * Z :=
  if decide (len candidates < minFd) then
    let msg := Sprintf "%s: only %d of %d required failure domains have capacity (need at least stripeWidth+redundancyLevel+hotSpare)"
      [ArgS (pool_String p); ArgD (len candidates); ArgD minFd] in
    let breakdown := rejectedNodesBreakdown p states poolUsed cons in
    let msg := if decide (breakdown <> "") then String.append msg (String.append " — " breakdown) else msg in
    (msg, "failure domains", 0)
  else
    let N := len candidates in
    let T := Z.max (MinChunkSizeGiB cons) (CeilDiv desiredRaw N) in
    let smallest := g_headroom (candidates !!! Z.to_nat (N - 1)) in
    (Sprintf "%s: cannot place %d GiB uniformly across %d failure domains — the smallest usable FD holds %d GiB, below the %d GiB per-FD share; add capacity or lower clusterCapacity"
       [ArgS (pool_String p); ArgD desiredRaw; ArgD N; ArgD smallest; ArgD T],
     "drive capacity", Z.max 0 (T - smallest)).

(** ** Lemmas *)

Lemma elem_of_sorted_keys {A} (m : gmap string A) k : k ∈ sorted_keys m <-> is_Some (m !! k).
Proof.
  unfold sorted_keys, sort_strings. rewrite elem_of_sort_by, list_elem_of_fmap. split.
  - intros ([k' v] & -> & Hin). apply elem_of_map_to_list in Hin. eauto.
  - intros [v Hv]. exists (k, v). by rewrite elem_of_map_to_list.
Qed.

(** A message built by [uniformInfeasibleMsg] is never empty. *)
Lemma uniformInfeasibleMsg_nonempty p d m l states used cons :
  (uniformInfeasibleMsg p d m l states used cons).1.1 <> "".
Proof.
  unfold uniformInfeasibleMsg. case_decide; simpl; [case_decide|]; by destruct p.
Qed.

(** ** Lemmas: the plan and its report *)

(** An infeasible plan carries the report of its reason, and a feasible one carries none. *)
Definition plan_consistent (q : CapacityPlan) : Prop :=
  match Infeasibility q with
  | Some r => Infeasible q = ir_Reason r /\ ir_Reason r <> ""
  | None => Infeasible q = ""
  end.

(** [plan_notes q q']: [q'] has the containers of [q], and more notes or reports. *)
Definition plan_notes (q q' : CapacityPlan) : Prop :=
  Grow q' = Grow q /\ Create q' = Create q /\ (plan_consistent q -> plan_consistent q') /\
  (Infeasible q' = "" -> Infeasible q = "").

#[export] Instance plan_notes_preorder : PreOrder plan_notes.
Proof.
  split; [by intros q|]. intros q1 q2 q3 (? & ? & ? & ?) (? & ? & ? & ?).
  repeat split; [congruence|congruence|auto|auto].
Qed.

Lemma plan_notes_infeasible r q : ir_Reason r <> "" -> plan_notes q (setInfeasible r q).
Proof. intros Hr. by repeat split. Qed.

Lemma plan_notes_over s q : plan_notes q (plan_add_over s q).
Proof. done. Qed.
Lemma plan_notes_shrink s q : plan_notes q (plan_add_shrink s q).
Proof. done. Qed.
Lemma plan_notes_warnings l q : plan_notes q (plan_add_warnings l q).
Proof. done. Qed.
Lemma plan_notes_cores tlc qlc req q : plan_notes q (plan_set_cores tlc qlc req q).
Proof. done. Qed.
Lemma plan_notes_compute count cores nodes layout q : plan_notes q (plan_set_compute count cores nodes layout q).
Proof. done. Qed.

#[export] Hint Resolve plan_notes_infeasible plan_notes_over plan_notes_shrink plan_notes_warnings
  plan_notes_cores plan_notes_compute : planner.
