(* ===== verification/ComputeLayout.v ===== *)
(** * Compute sizing and ordering (compute_layout.go)

    [deriveComputeLayout] picks the number and size of the compute containers from per-node
    headroom, and [orderNodesByFDSpread] orders nodes so that every prefix spans as many failure
    domains as it can. Both speak lists and functions only, so that either planner can feed them. *)

From S2P Require Import Prelude Float64 Fmt Types.

(** ** Headroom of the best nodes *)

Definition desc_Z (a b : Z) : bool := bool_decide (a > b).

(** [topNMinSorted] *)
Definition topNMinSorted (sorted : list Z) (n maxCoresPerContainer : Z) : Z :=
  if decide (n <= 0 \/ n > len sorted) then 0
  else
    let capVal := sorted !!! Z.to_nat (n - 1) in
    if decide (maxCoresPerContainer > 0 /\ maxCoresPerContainer < capVal)
    then maxCoresPerContainer else capVal.

(** [topNMin] *)
Definition topNMin (nodeHeadroom : list Z) (n maxCoresPerContainer : Z) : Z :=
  if decide (n <= 0 \/ n > len nodeHeadroom) then 0
  else topNMinSorted (sort_by desc_Z nodeHeadroom) n maxCoresPerContainer.

(** One node's test in [nodesFitting]; the hugepages of a node beyond the end of the hugepages
    list are not tested. *)
Definition node_fits (h : Z) (hp : option Z) (cores hpMiB maxCoresPerContainer : Z) : bool :=
  let eff := if decide (maxCoresPerContainer > 0 /\ maxCoresPerContainer < h)
             then maxCoresPerContainer else h in
  if decide (eff < cores) then false
  else match hp with Some a => negb (bool_decide (a < hpMiB)) | None => true end.

(** The loop of [nodesFitting] over the two lists. *)
Fixpoint nodesFitting_loop (nodeHeadroom nodeHugepagesMiB : list Z)
    (cores hpMiB maxCoresPerContainer : Z) : Z :=
  match nodeHeadroom with
  | [] => 0
  | h :: hs =>
      (if node_fits h (head nodeHugepagesMiB) cores hpMiB maxCoresPerContainer then 1 else 0) +
      nodesFitting_loop hs (tail nodeHugepagesMiB) cores hpMiB maxCoresPerContainer
  end.

(** [nodesFitting]; a nil slice has no elements. *)
Definition nodesFitting (nodeHeadroom : list Z) (nodeHugepagesMiB : option (list Z))
    (cores hpMiB maxCoresPerContainer : Z) : Z :=
  nodesFitting_loop nodeHeadroom (default [] nodeHugepagesMiB) cores hpMiB maxCoresPerContainer.

(** The number of hugepages entries that meet the bar alone (messages only). *)
Definition hp_fit_alone (nodeHugepagesMiB : list Z) (hp : Z) : Z :=
  len (filter (fun a => a >= hp) nodeHugepagesMiB).

(** [hugepagesFitCheck] *)
Definition hugepagesFitCheck (nodeHeadroom : list Z) (nodeHugepagesMiB : option (list Z))
    (count cores maxCoresPerContainer : Z) (hugepagesFor : option (Z -> Z -> Z)) : string :=
  match hugepagesFor with
  | None => ""
  | Some hugepagesFor =>
      let hp := hugepagesFor count cores in
      if decide (nodesFitting nodeHeadroom nodeHugepagesMiB cores hp maxCoresPerContainer >= count)
      then ""
      else
        let hpFit := match nodeHugepagesMiB with
                     | Some l => hp_fit_alone l hp
                     | None => len nodeHeadroom
                     end in
        Sprintf "computeCores=%d needs %d MiB hugepages per container, but only %d of %d compute node(s) have that much free after drive placement"
          [ArgD cores; ArgD hp; ArgD hpFit; ArgD (len nodeHeadroom)]
  end.

Arguments hugepagesFitCheck : simpl never.

(** ** [deriveComputeLayout] *)

Definition bindingCores : string := "cores".
Definition bindingHugepages : string := "hugepages".

(** The five results of [deriveComputeLayout]. *)
Record layoutResult := {
  lr_count : Z;
  lr_cores : Z;
  lr_infeasible : string;
  lr_binding : string;
  lr_warnings : list string;
}.

Definition layout_ok (count cores : Z) : layoutResult :=
  {| lr_count := count; lr_cores := cores; lr_infeasible := ""; lr_binding := ""; lr_warnings := [] |}.

Definition layout_fail (reason binding : string) : layoutResult :=
  {| lr_count := 0; lr_cores := 0; lr_infeasible := reason; lr_binding := binding; lr_warnings := [] |}.

Definition no_headroom_msg : string :=
  "no compute core headroom on the compute nodes after drive placement".

Definition exceeds_headroom_msg (cores perContainerCap : Z) : string :=
  Sprintf "computeCores=%d exceeds the per-node compute core headroom (%d) after drive placement"
    [ArgD cores; ArgD perContainerCap].

(** The branch [specCount != 0]. *)
Definition derive_spec_count (specCount specCores t maxCores : Z) (nodeHeadroom : list Z)
    (nodeHugepagesMiB : option (list Z)) (hugepagesFor : option (Z -> Z -> Z)) : layoutResult :=
  let d := len nodeHeadroom in
  let count := specCount in
  if decide (count > d) then
    layout_fail (Sprintf "computeContainers=%d exceeds the %d compute nodes; compute spreads one-per-node"
                   [ArgD count; ArgD d]) ""
  else
    let cores := if decide (specCores = 0) then Z.max 1 (CeilDiv t count) else specCores in
    let perContainerCap := topNMin nodeHeadroom count maxCores in
    if decide (perContainerCap > 0 /\ cores > perContainerCap) then
      layout_fail (exceeds_headroom_msg cores perContainerCap) bindingCores
    else
      let reason := hugepagesFitCheck nodeHeadroom nodeHugepagesMiB count cores maxCores hugepagesFor in
      if decide (reason <> "") then layout_fail reason bindingHugepages
      else if decide (count * cores < t) then
        layout_fail (Sprintf "compute:drive core ratio not met: %d compute containers × %d cores = %d compute cores < the %d compute core(s) required by the compute:drive ratio (at least 1 per drive core); increase computeContainers or computeCores, or remove them to enable auto-derivation"
          [ArgD count; ArgD cores; ArgD (count * cores); ArgD t]) bindingCores
      else layout_ok count cores.

(** The branch [specCores != 0]. *)
Definition derive_spec_cores (specCores t floor maxCores : Z) (nodeHeadroom : list Z)
    (nodeHugepagesMiB : option (list Z)) (hugepagesFor : option (Z -> Z -> Z)) : layoutResult :=
  let d := len nodeHeadroom in
  let cores := specCores in
  if decide (cores <= 0) then layout_fail no_headroom_msg bindingCores
  else
    let count := Z.max floor (CeilDiv t cores) in
    if decide (count > d) then
      layout_fail (Sprintf "cannot satisfy the compute:drive ratio: need %d compute containers of %d cores but only %d compute nodes"
        [ArgD count; ArgD cores; ArgD d]) bindingCores
    else
      let perContainerCap := topNMin nodeHeadroom count maxCores in
      if decide (perContainerCap <= 0) then layout_fail no_headroom_msg bindingCores
      else if decide (cores > perContainerCap) then
        layout_fail (exceeds_headroom_msg cores perContainerCap) bindingCores
      else
        let reason := hugepagesFitCheck nodeHeadroom nodeHugepagesMiB count cores maxCores hugepagesFor in
        if decide (reason <> "") then layout_fail reason bindingHugepages
        else layout_ok count cores.

(** One candidate of the scan of the default branch: [n] containers of [ceil(t/n)] cores. *)
Definition try_count (t maxCores : Z) (nodeHeadroom : list Z) (nodeHugepagesMiB : option (list Z))
    (hugepagesFor : option (Z -> Z -> Z)) (sortedHeadroom : list Z) (n : Z) : option (Z * Z) :=
  let c := Z.max 1 (CeilDiv t n) in
  let capVal := topNMinSorted sortedHeadroom n maxCores in
  if decide (capVal < c) then None
  else match hugepagesFor with
       | Some f =>
           if decide (nodesFitting nodeHeadroom nodeHugepagesMiB c (f n c) maxCores < n) then None
           else Some (n, c)
       | None => Some (n, c)
       end.

(** The diagnosis of the default branch when no candidate fits. *)
Definition derive_auto_fail (t maxCores : Z) (nodeHeadroom : list Z)
    (nodeHugepagesMiB : option (list Z)) (hugepagesFor : option (Z -> Z -> Z))
    (sortedHeadroom : list Z) : layoutResult :=
  let d := len nodeHeadroom in
  if decide (d = 0 \/ topNMinSorted sortedHeadroom d maxCores <= 0) then
    layout_fail no_headroom_msg bindingCores
  else
    let capAll := topNMinSorted sortedHeadroom d maxCores in
    let cAtD := Z.max 1 (CeilDiv t d) in
    let neededContainers := CeilDiv t (Z.max capAll 1) in
    let coresFit := bool_decide (capAll >= cAtD) in
    match hugepagesFor with
    | None =>
        layout_fail (Sprintf "cannot satisfy the compute:drive ratio: need %d compute containers but only %d compute nodes (max %d compute cores < the %d required compute core(s))"
          [ArgD neededContainers; ArgD d; ArgD (d * capAll); ArgD t]) bindingCores
    | Some f =>
        let '(hugepagesFit, hpFitAlone, hpAtD) :=
          match nodeHugepagesMiB with
          | None => (true, d, 0)
          | Some l => let hp := f d cAtD in
                      let k := hp_fit_alone l hp in
                      (bool_decide (k >= d), k, hp)
          end in
        match coresFit, hugepagesFit with
        | false, false =>
            layout_fail (Sprintf "cannot satisfy the compute:drive ratio: neither compute cores nor hugepages suffice for %d compute containers across %d compute nodes (max %d compute cores < the %d required compute core(s); only %d of %d nodes meet the %d MiB/container hugepages bar)"
              [ArgD d; ArgD d; ArgD (d * capAll); ArgD t; ArgD hpFitAlone; ArgD d; ArgD hpAtD]) bindingCores
        | false, true =>
            layout_fail (Sprintf "cannot satisfy the compute:drive ratio: need %d compute containers but only %d compute nodes (max %d compute cores < the %d required compute core(s); hugepages are sufficient)"
              [ArgD neededContainers; ArgD d; ArgD (d * capAll); ArgD t]) bindingCores
        | true, false =>
            layout_fail (Sprintf "cannot satisfy the compute:drive ratio: hugepages insufficient for %d compute containers across %d compute nodes (only %d of %d nodes meet the %d MiB/container bar at %d cores/container; compute cores are sufficient)"
              [ArgD d; ArgD d; ArgD hpFitAlone; ArgD d; ArgD hpAtD; ArgD cAtD]) bindingHugepages
        | true, true =>
            layout_fail (Sprintf "cannot satisfy the compute:drive ratio: need %d compute containers but only %d compute nodes (max %d compute cores < the %d required compute core(s)) [unexpected: cores and hugepages both fit at n=%d]"
              [ArgD neededContainers; ArgD d; ArgD (d * capAll); ArgD t; ArgD d]) ""
        end
    end.

(** The default branch: the least count whose containers fit. *)
Definition derive_auto (t floor maxCores : Z) (nodeHeadroom : list Z)
    (nodeHugepagesMiB : option (list Z)) (hugepagesFor : option (Z -> Z -> Z)) : layoutResult :=
  let d := len nodeHeadroom in
  let sortedHeadroom := sort_by desc_Z nodeHeadroom in
  match first_some (try_count t maxCores nodeHeadroom nodeHugepagesMiB hugepagesFor sortedHeadroom)
          (loop_range (Z.max floor 1) d) with
  | Some (count, cores) => layout_ok count cores
  | None => derive_auto_fail t maxCores nodeHeadroom nodeHugepagesMiB hugepagesFor sortedHeadroom
  end.

(** [deriveComputeLayout] *)
Definition deriveComputeLayout (specCount specCores requiredComputeCores floor maxCoresPerContainer : Z)
    (nodeHeadroom : list Z) (nodeHugepagesMiB : option (list Z))
    (hugepagesFor : option (Z -> Z -> Z)) : layoutResult :=
  if decide (specCount <> 0) then
    derive_spec_count specCount specCores requiredComputeCores maxCoresPerContainer
      nodeHeadroom nodeHugepagesMiB hugepagesFor
  else if decide (specCores <> 0) then
    derive_spec_cores specCores requiredComputeCores floor maxCoresPerContainer
      nodeHeadroom nodeHugepagesMiB hugepagesFor
  else
    derive_auto requiredComputeCores floor maxCoresPerContainer
      nodeHeadroom nodeHugepagesMiB hugepagesFor.

(** [computeFDFeasibility] *)
Definition computeFDFeasibility (minFds : Z) (coveredFDs : gset string) (newNodes : list string)
    (fdOf : string -> string) : string :=
  let fds := coveredFDs ∪ list_to_set (fdOf <$> newNodes) in
  if decide (Z.of_nat (size fds) < minFds) then
    Sprintf "compute spans only %d of %d required failure domains (minFdNum = stripeWidth+redundancyLevel+hotSpare); add compute-eligible nodes in more distinct failure domains"
      [ArgD (Z.of_nat (size fds)); ArgD minFds]
  else "".

Definition unboundedComputeHeadroom : Z := Z.shiftl 1 30.

(** [ComputeLayoutWouldGrow] *)
Definition ComputeLayoutWouldGrow (specCount specCores requiredComputeCores floor
    maxCoresPerContainer curCount curMinCores curTotalCores : Z) : bool :=
  if decide (curCount <= 0) then true
  else
    let headroom := replicate (Z.to_nat curCount) unboundedComputeHeadroom in
    let r := deriveComputeLayout specCount specCores requiredComputeCores floor
               maxCoresPerContainer headroom None None in
    if decide (lr_infeasible r <> "") then true
    else if decide (lr_count r > curCount) then true
    else if decide (lr_cores r > curMinCores) then
      if decide (specCores = 0) then bool_decide (curTotalCores < requiredComputeCores) else true
    else false.

(** ** [orderNodesByFDSpread] *)

(** A group: its failure domain and its members. *)
Abbreviation spreadGroup := (string * list string)%type.

(** Appends a node to the group of its failure domain, which is created at the end when new. *)
Fixpoint add_to_group (fd n : string) (groups : list spreadGroup) : list spreadGroup :=
  match groups with
  | [] => [(fd, [n])]
  | (fd', ns) :: groups =>
      if decide (fd = fd') then (fd', ns ++ [n]) :: groups
      else (fd', ns) :: add_to_group fd n groups
  end.

Definition group_by_fd (fdOf : string -> string) (nodes : list string) : list spreadGroup :=
  fold_left (fun groups n => add_to_group (fdOf n) n groups) nodes [].

(** Members by headroom descending, then name; groups by their best member, then failure domain. *)
Definition sort_members (headroom : string -> Z) (g : spreadGroup) : spreadGroup :=
  (g.1, sort_by (desc_then_name headroom id) g.2).

Definition sort_groups (headroom : string -> Z) (groups : list spreadGroup) : list spreadGroup :=
  sort_by (desc_then_name (fun g => headroom (default EmptyString (head g.2))) fst) groups.

(** The members picked in one round. *)
Definition round_pick (groups : list spreadGroup) (round : nat) : list string :=
  omap (fun g => g.2 !! round) groups.

(** The loop [for round := 0; len(out) < len(nodes); round++]. *)
Fixpoint round_robin (fuel : nat) (groups : list spreadGroup) (total : nat) (round : nat)
    (out : list string) : list string :=
  match fuel with
  | O => out
  | S fuel =>
      if decide (length out < total)%nat
      then round_robin fuel groups total (S round) (out ++ round_pick groups round)
      else out
  end.

(** [orderNodesByFDSpread]; every round picks at least one node, so [length nodes] rounds are
    enough. *)
Definition orderNodesByFDSpread (nodes : list string) (headroom : string -> Z)
    (fdOf : string -> string) : list string :=
  let groups := sort_groups headroom (sort_members headroom <$> group_by_fd fdOf nodes) in
  round_robin (length nodes) groups (length nodes) 0 [].

(** ** Lemmas: counting fitting nodes *)

(** Positions [idx] are [n] distinct nodes that can each host a [cores]-core container needing
    [hp] MiB of hugepages. *)
Definition fitting_set (nodeHeadroom nodeHugepagesMiB : list Z) (cores hp maxCores : Z)
    (idx : list nat) : Prop :=
  NoDup idx /\ Forall (fun i => exists h, nodeHeadroom !! i = Some h /\ cores <= h /\
    (0 < maxCores -> cores <= maxCores) /\
    (forall a, nodeHugepagesMiB !! i = Some a -> hp <= a)) idx.

Lemma node_fits_spec h a cores hp maxCores :
  node_fits h a cores hp maxCores = true <->
  cores <= h /\ (0 < maxCores -> cores <= maxCores) /\ (forall x, a = Some x -> hp <= x).
Proof.
  unfold node_fits.
  assert (Ha : match a with Some x => negb (bool_decide (x < hp)) | None => true end = true <->
               forall x, a = Some x -> hp <= x).
  { destruct a; [|by split]. rewrite negb_true_iff, bool_decide_eq_false.
    split; [intros ? ? [= <-]; lia|]. intros H. specialize (H _ eq_refl). lia. }
  split_decide; rewrite ?Ha; split; try lia; intros (? & ? & ?) || intros ?; try lia; auto with lia.
Qed.

Lemma nodesFitting_loop_nonneg hs hps c hp m : 0 <= nodesFitting_loop hs hps c hp m.
Proof. revert hps. induction hs as [|h hs IH]; intros hps; simpl; [lia|]. specialize (IH (tail hps)). case_match; lia. Qed.

Lemma fitting_set_shift h hs hps cores hp maxCores idx :
  fitting_set hs (tail hps) cores hp maxCores idx ->
  fitting_set (h :: hs) hps cores hp maxCores (S <$> idx).
Proof.
  intros [Hnd Hall]. split; [by apply NoDup_fmap_2; [apply _|]|].
  rewrite Forall_fmap. eapply Forall_impl; [exact Hall|].
  intros i (h' & ? & ? & ? & Ha). exists h'. repeat split; auto.
  intros a. destruct hps; [done|]. apply Ha.
Qed.

(** [nodesFitting] counts a set of distinct fitting nodes. *)
Lemma nodesFitting_set hs hps cores hp maxCores :
  exists idx, fitting_set hs hps cores hp maxCores idx /\
    len idx = nodesFitting_loop hs hps cores hp maxCores.
Proof.
  revert hps. induction hs as [|h hs IH]; intros hps; simpl.
  { exists []. repeat split; constructor. }
  destruct (IH (tail hps)) as (idx & Hset & Hlen).
  destruct (node_fits h (head hps) cores hp maxCores) eqn:Hf.
  - exists (0%nat :: (S <$> idx)). rewrite <- Hlen. split; [|simpl; rewrite length_fmap; lia].
    destruct (fitting_set_shift h hs hps cores hp maxCores idx Hset) as [Hnd Hall].
    apply node_fits_spec in Hf as (? & ? & Ha).
    split; constructor; auto.
    + rewrite list_elem_of_fmap. naive_solver.
    + exists h. repeat split; auto. intros a. destruct hps; naive_solver.
  - exists (S <$> idx). split; [by apply fitting_set_shift|]. rewrite length_fmap. lia.
Qed.

Lemma nodesFitting_take hs hps cores hp maxCores n :
  0 <= n <= nodesFitting_loop hs hps cores hp maxCores ->
  exists idx, fitting_set hs hps cores hp maxCores idx /\ len idx = n.
Proof.
  intros Hn. destruct (nodesFitting_set hs hps cores hp maxCores) as (idx & [Hnd Hall] & Hlen).
  exists (take (Z.to_nat n) idx). split; [split|].
  - eapply sublist_NoDup; [exact Hnd|]. apply sublist_take.
  - by apply Forall_take.
  - rewrite length_take. lia.
Qed.

(** No more nodes fit than have the cores. *)
Lemma nodesFitting_cores hs hps cores hp maxCores :
  nodesFitting_loop hs hps cores hp maxCores <= len (filter (fun h => cores <= h) hs).
Proof.
  revert hps. induction hs as [|h hs IH]; intros hps; simpl; [lia|].
  specialize (IH (tail hps)). rewrite filter_cons.
  destruct (node_fits _ _ _ _ _) eqn:Hf.
  - apply node_fits_spec in Hf as [? _]. rewrite decide_True by done. simpl. lia.
  - case_decide; simpl; lia.
Qed.

Lemma desc_Z_asym x y : desc_Z x y = true -> desc_Z y x = false.
Proof. unfold desc_Z. rewrite bool_decide_eq_true, bool_decide_eq_false. lia. Qed.
Lemma desc_Z_trans x y z : desc_Z y x = false -> desc_Z z y = false -> desc_Z z x = false.
Proof. unfold desc_Z. rewrite !bool_decide_eq_false. lia. Qed.

(** In a descending list with [n] elements of at least [c], the [n]-th is at least [c]. *)
Lemma sorted_desc_nth l c n :
  0 < n <= len (filter (fun h => c <= h) (sort_by desc_Z l)) ->
  c <= sort_by desc_Z l !!! Z.to_nat (n - 1).
Proof.
  pose proof (sort_by_sorted desc_Z desc_Z_asym desc_Z_trans l) as Hs.
  revert Hs. generalize (sort_by desc_Z l) as k. clear l. intros k Hs. revert n.
  induction Hs as [|x k Hs IH Hx]; intros n Hn; [simpl in Hn; lia|].
  rewrite filter_cons in Hn. case_decide as Hc.
  - simpl in Hn. destruct (decide (n = 1)) as [->|]; [done|].
    replace (Z.to_nat (n - 1)) with (S (Z.to_nat ((n - 1) - 1))) by lia. simpl. apply IH. lia.
  - exfalso. assert (Hnil : filter (fun h => c <= h) k = []); [|rewrite Hnil in Hn; simpl in Hn; lia].
    apply elem_of_nil_inv. intros y [Hcy Hy]%list_elem_of_filter. rewrite Forall_forall in Hx. specialize (Hx y Hy).
    simpl in Hx. unfold desc_Z in Hx. apply bool_decide_eq_false in Hx. lia.
Qed.

(** When the hugepages gate is on, the core gate of the scan is implied by it. *)
Lemma try_count_iff t maxCores hs hps f n :
  0 < n <= len hs ->
  try_count t maxCores hs hps (Some f) (sort_by desc_Z hs) n =
  if decide (n <= nodesFitting hs hps (Z.max 1 (CeilDiv t n)) (f n (Z.max 1 (CeilDiv t n))) maxCores)
  then Some (n, Z.max 1 (CeilDiv t n)) else None.
Proof.
  intros Hn. unfold try_count. set (c := Z.max 1 (CeilDiv t n)).
  destruct (decide (n <= nodesFitting hs hps c (f n c) maxCores)) as [Hfit|Hfit];
    case_decide as Hcap; try done.
  2: { by rewrite decide_False by lia. }
  2: { by rewrite decide_True by lia. }
  exfalso. unfold nodesFitting in Hfit.
  destruct (nodesFitting_take hs (default [] hps) c (f n c) maxCores n) as (idx & [_ Hall] & Hlen); [lia|].
  destruct idx as [|i idx]; [simpl in Hlen; lia|].
  apply Forall_inv in Hall as (h & _ & _ & Hmax & _).
  pose proof (nodesFitting_cores hs (default [] hps) c (f n c) maxCores).
  assert (Hnth : c <= sort_by desc_Z hs !!! Z.to_nat (n - 1)).
  { apply sorted_desc_nth. split; [lia|]. rewrite (sort_by_perm desc_Z hs). lia. }
  unfold topNMinSorted in Hcap. rewrite length_sort_by in Hcap.
  rewrite (decide_False (P := n <= 0 \/ _)) in Hcap by lia.
  case_decide; lia.
Qed.

Lemma hugepagesFitCheck_ok hs hps count cores maxCores f :
  hugepagesFitCheck hs hps count cores maxCores (Some f) = "" <->
  count <= nodesFitting hs hps cores (f count cores) maxCores.
Proof.
  unfold hugepagesFitCheck. case_decide; [split; [lia|done]|].
  split; [|lia]. intros E. exfalso. revert E. fmt_nonempty.
Qed.

(** Every failing exit of the default branch carries a reason. *)
Lemma derive_auto_fail_reason t maxCores hs hps f sorted :
  lr_infeasible (derive_auto_fail t maxCores hs hps f sorted) <> "".
Proof.
  unfold derive_auto_fail. case_decide; [done|].
  destruct f as [f|]; [|cbn [lr_infeasible layout_fail]; fmt_nonempty].
  destruct hps as [l|]; cbv zeta.
  - do 2 case_match; cbn [lr_infeasible layout_fail]; fmt_nonempty.
  - case_match; cbn [lr_infeasible layout_fail]; fmt_nonempty.
Qed.

(** ** Lemmas: the round-robin order *)

(** What grouping keeps: distinct failure domains, non-empty groups of their own members, and the
    nodes themselves. *)
Record groups_ok (fdOf : string -> string) (nodes : list string) (groups : list spreadGroup) : Prop := {
  gok_nodup : NoDup groups.*1;
  gok_members : Forall (fun g => g.2 <> [] /\ Forall (fun n => fdOf n = g.1) g.2) groups;
  gok_perm : concat groups.*2 ≡ₚ nodes;
}.

Lemma add_to_group_fst fd n groups x :
  x ∈ (add_to_group fd n groups).*1 <-> x = fd \/ x ∈ groups.*1.
Proof.
  induction groups as [|[fd' ns] groups IH]; simpl.
  - rewrite list_elem_of_singleton, elem_of_nil. tauto.
  - case_decide; subst; simpl; rewrite !elem_of_cons; [tauto|]. rewrite IH. tauto.
Qed.

Lemma add_to_group_ok fdOf nodes n groups :
  groups_ok fdOf nodes groups -> groups_ok fdOf (nodes ++ [n]) (add_to_group (fdOf n) n groups).
Proof.
  intros [Hnd Hm Hp]. split.
  - clear Hm Hp. induction groups as [|[fd ns] groups IH]; simpl.
    { apply NoDup_singleton. }
    apply NoDup_cons in Hnd as [Hn Hnd]. case_decide as Hfd; simpl; apply NoDup_cons; auto.
    split; auto. rewrite add_to_group_fst. naive_solver.
  - clear Hnd Hp. induction groups as [|[fd ns] groups IH]; simpl.
    { repeat constructor; done. }
    apply Forall_cons in Hm as [[Hne Hall] Hm]. case_decide as Hfd.
    + constructor; [|done]. split; simpl in *; [by destruct ns|].
      apply Forall_app. split; [done|]. by constructor.
    + constructor; auto.
  - clear Hnd Hm. rewrite <- Hp. clear Hp.
    induction groups as [|[fd ns] groups IH]; simpl; [done|]. case_decide; simpl.
    + rewrite <- !app_assoc. f_equiv. apply Permutation_app_comm.
    + rewrite <- app_assoc. by f_equiv.
Qed.

Lemma group_by_fd_ok fdOf nodes : groups_ok fdOf nodes (group_by_fd fdOf nodes).
Proof.
  unfold group_by_fd.
  assert (H : groups_ok fdOf [] []) by (split; constructor).
  change nodes with ([] ++ nodes) at 1. revert H. generalize (@nil spreadGroup) as gs, (@nil string) as pre.
  induction nodes as [|n nodes IH]; intros gs pre H; simpl.
  - by rewrite app_nil_r.
  - rewrite (cons_middle n pre nodes), app_assoc. apply IH. by apply add_to_group_ok.
Qed.

Lemma sort_members_ok fdOf headroom nodes groups :
  groups_ok fdOf nodes groups -> groups_ok fdOf nodes (sort_members headroom <$> groups).
Proof.
  intros [Hnd Hm Hp]. split.
  - by rewrite <- list_fmap_compose.
  - apply Forall_fmap. eapply Forall_impl; [exact Hm|]. intros [fd ns] [Hne Hall]. simpl in *. split.
    + intros E. apply Hne. apply Permutation_nil_r. by rewrite <- E, sort_by_perm.
    + by rewrite sort_by_perm.
  - rewrite <- Hp. clear. induction groups as [|[fd ns] gs IH]; simpl; [done|].
    by rewrite sort_by_perm, IH.
Qed.

Lemma sort_groups_ok fdOf headroom nodes groups :
  groups_ok fdOf nodes groups -> groups_ok fdOf nodes (sort_groups headroom groups).
Proof.
  intros [Hnd Hm Hp]. unfold sort_groups. set (lt := desc_then_name _ _).
  pose proof (sort_by_perm lt groups) as P. split; by rewrite P.
Qed.

Lemma round_pick_rounds groups (r m : nat) :
  Forall (fun g => length g.2 <= m)%nat groups ->
  concat (round_pick groups <$> seq r (m - r)) ≡ₚ concat ((fun g : spreadGroup => drop r g.2) <$> groups).
Proof.
  intros Hm. induction groups as [|[fd ns] groups IH]; simpl.
  - clear. induction (seq r (m - r)); simpl; done.
  - apply Forall_cons in Hm as [Hns Hm]. simpl in Hns. rewrite <- (IH Hm). clear IH Hm.
    rewrite <- (Permutation_app_comm (concat _)).
    assert (H : forall k, (length ns <= m)%nat -> (k = m - r)%nat -> concat (round_pick ((fd, ns) :: groups) <$> seq r k) ≡ₚ
       concat (round_pick groups <$> seq r k) ++ drop r ns).
    { clear Hns. intros k. revert r. induction k as [|k IHk]; intros r Hns Hk; simpl.
      - by rewrite drop_ge by lia.
      - rewrite IHk by lia. unfold round_pick at 1. simpl.
        fold (round_pick groups r).
        destruct (ns !! r) as [x|] eqn:Hx.
        + rewrite (drop_S ns x r Hx). simpl.
          rewrite <- !app_assoc. rewrite <- Permutation_middle, <- Permutation_middle. done.
        + rewrite !drop_ge by (apply lookup_ge_None in Hx; lia). by rewrite !app_nil_r. }
    by apply H.
Qed.

(** The picks of the first [m] rounds. *)
Definition picks (groups : list spreadGroup) (m : nat) : list string :=
  concat (round_pick groups <$> seq 0 m).

Lemma picks_S groups m : picks groups (S m) = picks groups m ++ round_pick groups m.
Proof. unfold picks. by rewrite seq_S, fmap_app, concat_app; simpl; rewrite app_nil_r. Qed.

Lemma picks_add groups m k : exists rest, picks groups (m + k) = picks groups m ++ rest.
Proof.
  unfold picks. rewrite seq_app, fmap_app, concat_app. eauto.
Qed.

(** Enough rounds pick every member exactly once. *)
Lemma picks_all groups : exists M, forall m, (M <= m)%nat -> picks groups m ≡ₚ concat groups.*2.
Proof.
  exists (max_list (length ∘ snd <$> groups)). intros m Hm.
  pose proof (round_pick_rounds groups 0 m) as H. rewrite Nat.sub_0_r in H. unfold picks.
  rewrite H; [done|]. apply Forall_forall. intros g Hg.
  etrans; [|exact Hm]. apply max_list_elem_of_le. apply list_elem_of_fmap. eauto.
Qed.

Lemma picks_complete groups m :
  (length (concat groups.*2) <= length (picks groups m))%nat -> picks groups m ≡ₚ concat groups.*2.
Proof.
  intros Hlen. destruct (picks_all groups) as [M HM].
  destruct (picks_add groups m M) as [rest Hr].
  assert (Hp : picks groups (m + M) ≡ₚ concat groups.*2) by (apply HM; lia).
  assert (rest = []) as ->.
  { apply nil_length_inv. apply Permutation_length in Hp. rewrite Hr, length_app in Hp. lia. }
  by rewrite Hr, app_nil_r in Hp.
Qed.

(** A round that picks nothing comes only after every member has been picked. *)
Lemma round_pick_empty groups r :
  round_pick groups r = [] -> picks groups r ≡ₚ concat groups.*2.
Proof.
  intros Hr. pose proof (round_pick_rounds groups 0 r) as H. rewrite Nat.sub_0_r in H.
  unfold picks. rewrite H; [done|]. clear H.
  induction groups as [|[fd ns] groups IH]; [constructor|].
  unfold round_pick in Hr. simpl in Hr. destruct (ns !! r) eqn:E; [done|].
  constructor; [by apply lookup_ge_None in E|]. by apply IH.
Qed.

Lemma round_robin_spec groups fuel r :
  (length (concat groups.*2) - length (picks groups r) <= fuel)%nat ->
  exists m, (r <= m)%nat /\ round_robin fuel groups (length (concat groups.*2)) r (picks groups r) = picks groups m /\
    picks groups m ≡ₚ concat groups.*2.
Proof.
  revert r. induction fuel as [|fuel IH]; intros r Hf; simpl.
  - exists r. split; [done|]. split; [done|]. apply picks_complete. lia.
  - case_decide as Hlt.
    + rewrite <- picks_S. destruct (IH (S r)) as (m & Hm & Heq & Hp); [|exists m; split; [lia|done]].
      rewrite picks_S, length_app. destruct (round_pick groups r) eqn:E; [|simpl; lia].
      apply round_pick_empty, Permutation_length in E. lia.
    + exists r. split; [done|]. split; [done|]. apply picks_complete. lia.
Qed.

Lemma round_pick_heads fdOf nodes groups :
  groups_ok fdOf nodes groups -> fdOf <$> round_pick groups 0 = groups.*1.
Proof.
  intros [_ Hm _]. induction Hm as [|[fd ns] groups [Hne Hall] Hm IH]; [done|].
  destruct ns as [|n ns]; [done|]. simpl in *. apply Forall_cons in Hall as [-> _].
  f_equal. apply IH.
Qed.

Lemma groups_fds fdOf nodes groups :
  groups_ok fdOf nodes groups -> list_to_set (C := gset string) (fdOf <$> nodes) = list_to_set groups.*1.
Proof.
  intros [_ Hm Hp]. rewrite <- Hp. clear Hp nodes. apply set_eq. intros x.
  rewrite !elem_of_list_to_set. induction Hm as [|[fd ns] groups [Hne Hall] Hm IH]; [done|].
  simpl in *. rewrite fmap_app, elem_of_app, elem_of_cons, IH.
  split; intros [H|H]; auto; left.
  - apply list_elem_of_fmap in H as (n & -> & Hn). rewrite Forall_forall in Hall. by apply Hall.
  - subst. destruct ns as [|n ns]; [done|]. apply Forall_cons in Hall as [<- _]. simpl. by left.
Qed.

Lemma size_list_to_set_NoDup (l : list string) :
  NoDup l -> size (list_to_set l : gset string) = length l.
Proof. apply size_list_to_set. Qed.

(** The order is a permutation whose first picks are one member of each failure domain. *)
Lemma orderNodesByFDSpread_shape nodes headroom fdOf :
  let out := orderNodesByFDSpread nodes headroom fdOf in
  out ≡ₚ nodes /\
  exists heads rest, out = heads ++ rest /\ NoDup (fdOf <$> heads) /\
    list_to_set (C := gset string) (fdOf <$> nodes) = list_to_set (fdOf <$> heads).
Proof.
  unfold orderNodesByFDSpread. set (groups := sort_groups _ _).
  assert (Hok : groups_ok fdOf nodes groups) by (apply sort_groups_ok, sort_members_ok, group_by_fd_ok).
  pose proof (gok_perm _ _ _ Hok) as Hp. rewrite <- (Permutation_length Hp).
  destruct (round_robin_spec groups (length (concat groups.*2)) 0) as (m & _ & Hm & Hpm); [lia|].
  change (picks groups 0) with (@nil string) in Hm. cbv zeta. rewrite Hm. split; [by rewrite Hpm|].
  destruct m as [|m].
  - assert (Hnil : concat groups.*2 = []) by (apply Permutation_nil_r; by rewrite <- Hpm).
    exists [], []. rewrite Hnil in Hp. apply Permutation_nil_l in Hp. subst nodes.
    repeat split; constructor.
  - change (S m) with (1 + m)%nat. destruct (picks_add groups 1 m) as [rest Hr].
    exists (picks groups 1), rest. split; [done|].
    assert (picks groups 1 = round_pick groups 0) as -> by (unfold picks; simpl; by rewrite app_nil_r).
    rewrite (round_pick_heads fdOf nodes groups Hok). split; [apply Hok|]. by apply groups_fds.
Qed.

(** ** Properties *)

(** The compute layout search is sound. Whenever it reports no infeasibility (with the
    hugepages gate on), the containers number between one and the compute nodes, supply the required
    cores, respect every pinned value and, when the count is not pinned, the floor; and there are that
    many distinct nodes each with the cores and the hugepages of one container. *)
Theorem deriveComputeLayout_sound specCount specCores t floor maxCores hs hps f :
  0 <= specCount -> 0 <= specCores ->
  let r := deriveComputeLayout specCount specCores t floor maxCores hs hps (Some f) in
  lr_infeasible r = "" ->
  1 <= lr_count r <= len hs /\ t <= lr_count r * lr_cores r /\
  (specCount <> 0 -> lr_count r = specCount) /\ (specCores <> 0 -> lr_cores r = specCores) /\
  (specCount = 0 -> floor <= lr_count r) /\
  exists idx, fitting_set hs (default [] hps) (lr_cores r) (f (lr_count r) (lr_cores r)) maxCores idx /\
    len idx = lr_count r.
Proof.
  intros Hsc Hso r Hr. subst r. unfold deriveComputeLayout in *.
  case_decide as H1; [|case_decide as H2].
  - unfold derive_spec_count in *. case_decide; [exfalso; revert Hr; fmt_nonempty|]. cbv zeta in *.
    set (cores := if decide (specCores = 0) then _ else _) in *.
    case_decide; [exfalso; revert Hr; fmt_nonempty|].
    case_decide as Hfit; [done|]. case_decide; [exfalso; revert Hr; fmt_nonempty|]. simpl in *.
    apply hugepagesFitCheck_ok in Hfit. unfold nodesFitting in Hfit.
    repeat split; try lia; [unfold cores; case_decide; done|].
    apply nodesFitting_take. lia.
  - unfold derive_spec_cores in *. cbv zeta in *.
    case_decide; [done|]. case_decide; [exfalso; revert Hr; fmt_nonempty|].
    case_decide as Htop; [done|]. case_decide; [exfalso; revert Hr; fmt_nonempty|].
    case_decide as Hfit; [done|]. simpl in *.
    apply hugepagesFitCheck_ok in Hfit. unfold nodesFitting in Hfit.
    assert (1 <= Z.max floor (CeilDiv t specCores)).
    { unfold topNMin in Htop. case_decide; lia. }
    pose proof (CeilDiv_cover t specCores).
    repeat split; try lia; [nia|]. apply nodesFitting_take. lia.
  - unfold derive_auto in *. cbv zeta in *.
    destruct (first_some _ _) as [[count cores]|] eqn:E; [|exfalso; by eapply derive_auto_fail_reason].
    apply first_some_Some in E as (l1 & n & l2 & Hl & Ht & _).
    assert (Hn : n ∈ loop_range (Z.max floor 1) (len hs)) by (rewrite Hl; set_solver).
    apply elem_of_loop_range in Hn. rewrite try_count_iff in Ht by lia.
    case_decide as Hfit; [|done]. simplify_eq. simpl in *. unfold nodesFitting in Hfit.
    pose proof (CeilDiv_cover t count).
    repeat split; try lia; [nia|]. apply nodesFitting_take. lia.
Qed.

Lemma deriveComputeLayout_sound_witness :
  let r := deriveComputeLayout 0 0 20 5 19 [3; 8; 4; 8; 4; 4; 4]
             (Some [9000; 9000; 9000; 20000; 20000; 20000; 20000]) (Some (fun n c => 3000 * c)) in
  lr_infeasible r = "" /\ lr_count r = 7 /\ lr_cores r = 3 /\ 20 <= lr_count r * lr_cores r.
Proof.
  split; [vm_compute; reflexivity|]. split; [vm_compute; reflexivity|]. split; [vm_compute; reflexivity|].
  refine (proj1 (proj2 (deriveComputeLayout_sound 0 0 20 5 19 [3; 8; 4; 8; 4; 4; 4]
    (Some [9000; 9000; 9000; 20000; 20000; 20000; 20000]) (fun n c => 3000 * c) _ _ _)));
    [lia|lia|vm_compute; reflexivity].
Defined.

(** The automatic compute layout search is complete and minimal. If for some count [n] between
    the floor and the number of compute nodes there are [n] distinct nodes that can each host
    [ceil(t/n)] cores with their hugepages, the search succeeds with a count of at most [n]. *)
Theorem deriveComputeLayout_complete t floor maxCores hs hps f n :
  let c := Z.max 1 (CeilDiv t n) in
  Z.max floor 1 <= n <= len hs ->
  n <= nodesFitting hs hps c (f n c) maxCores ->
  let r := deriveComputeLayout 0 0 t floor maxCores hs hps (Some f) in
  lr_infeasible r = "" /\ lr_count r <= n.
Proof.
  intros c Hn Hfit. unfold deriveComputeLayout.
  rewrite (decide_False (P := 0 <> 0)) by lia. cbv zeta. unfold derive_auto.
  destruct (first_some _ _) as [[count cores]|] eqn:E.
  - apply first_some_Some in E as (l1 & m & l2 & Hl & Ht & Hnone). split; [done|].
    assert (Hm : m ∈ loop_range (Z.max floor 1) (len hs)) by (rewrite Hl; set_solver).
    apply elem_of_loop_range in Hm. rewrite try_count_iff in Ht by lia.
    case_decide; [|done]. simplify_eq. simpl.
    destruct (decide (count <= n)) as [|Hgt]; [done|]. exfalso.
    assert (Hin : n ∈ l1) by (eapply loop_range_split; [exact Hl|lia]).
    rewrite Forall_forall in Hnone. apply Hnone in Hin. rewrite try_count_iff in Hin by lia.
    by rewrite decide_True in Hin.
  - exfalso. rewrite first_some_None, Forall_forall in E.
    specialize (E n). rewrite elem_of_loop_range, try_count_iff in E by lia.
    rewrite decide_True in E by done. by discriminate E.
Qed.

Lemma deriveComputeLayout_complete_witness :
  7 <= nodesFitting [3; 8; 4; 8; 4; 4; 4] (Some [9000; 9000; 9000; 20000; 20000; 20000; 20000]) 3 9000 19 /\
  lr_count (deriveComputeLayout 0 0 20 5 19 [3; 8; 4; 8; 4; 4; 4]
    (Some [9000; 9000; 9000; 20000; 20000; 20000; 20000]) (Some (fun n c => 3000 * c))) <= 7.
Proof.
  split; [vm_compute; discriminate|].
  refine (proj2 (deriveComputeLayout_complete 20 5 19 [3; 8; 4; 8; 4; 4; 4]
    (Some [9000; 9000; 9000; 20000; 20000; 20000; 20000]) (fun n c => 3000 * c) 7 _ _)).
  - vm_compute. split; discriminate.
  - vm_compute. discriminate.
Defined.

(** Any feasible layout supplies the required cores on the nodes it was given, with or without the
    hugepages gate. *)
Lemma deriveComputeLayout_cover specCount specCores t floor maxCores hs hps f :
  0 <= specCount -> 0 <= specCores ->
  let r := deriveComputeLayout specCount specCores t floor maxCores hs hps f in
  lr_infeasible r = "" ->
  t <= lr_count r * lr_cores r /\ 1 <= lr_count r <= len hs /\ 1 <= lr_cores r /\
  (specCount = 0 -> floor <= lr_count r).
Proof.
  intros Hsc Hso r Hr. subst r. unfold deriveComputeLayout in *.
  case_decide as H1; [|case_decide as H2].
  - unfold derive_spec_count in *. cbv zeta in *.
    do 2 (case_decide; [exfalso; revert Hr; fmt_nonempty|]).
    case_decide; [done|]. case_decide; [exfalso; revert Hr; fmt_nonempty|]. simpl. repeat split; try lia.
    case_decide; lia.
  - unfold derive_spec_cores in *. cbv zeta in *.
    case_decide; [done|]. case_decide; [exfalso; revert Hr; fmt_nonempty|].
    case_decide as Htop; [done|]. case_decide; [exfalso; revert Hr; fmt_nonempty|].
    case_decide; [done|]. simpl. unfold topNMin in Htop. case_decide; [lia|]. pose proof (CeilDiv_cover t specCores).
    pose proof (CeilDiv_nonneg t specCores). nia.
  - unfold derive_auto in *. cbv zeta in *.
    destruct (first_some _ _) as [[count cores]|] eqn:E; [|exfalso; by eapply derive_auto_fail_reason].
    apply first_some_Some in E as (l1 & n & l2 & Hl & Ht & _).
    assert (Hn : n ∈ loop_range (Z.max floor 1) (len hs)) by (rewrite Hl; set_solver).
    apply elem_of_loop_range in Hn. unfold try_count in Ht.
    case_decide; [done|]. assert (count = n /\ cores = Z.max 1 (CeilDiv t n)) as [-> ->].
    { destruct f; [case_decide|]; by simplify_eq. }
    simpl. pose proof (CeilDiv_cover t n). nia.
Qed.

(** The steady-state gate never skips a needed compute re-plan: when it answers "no growth",
    the current containers (whose total is at least count times minimum) already supply the required
    cores, and, unless the count is pinned, number at least the floor. *)
Theorem ComputeLayoutWouldGrow_safe specCount specCores t floor maxCores curCount curMin curTotal :
  0 <= specCount -> 0 <= specCores -> 0 <= curMin -> curCount * curMin <= curTotal ->
  ComputeLayoutWouldGrow specCount specCores t floor maxCores curCount curMin curTotal = false ->
  t <= curTotal /\ (specCount = 0 -> floor <= curCount).
Proof.
  intros Hsc Hso Hmin Htot. unfold ComputeLayoutWouldGrow.
  case_decide as Hc; [done|]. cbv zeta.
  set (r := deriveComputeLayout _ _ _ _ _ _ _ _).
  case_decide as Hr; [done|]. case_decide as Hcnt; [done|].
  pose proof (deriveComputeLayout_cover specCount specCores t floor maxCores
    (replicate (Z.to_nat curCount) unboundedComputeHeadroom) None None Hsc Hso Hr) as (Hcov & Hpos & _ & Hfl).
  fold r in Hcov, Hpos, Hfl. intros Hg. split; [|intros; specialize (Hfl ltac:(done)); lia].
  case_decide as Hco; [case_decide; [|done]; apply bool_decide_eq_false in Hg; lia|].
  assert (lr_count r * lr_cores r <= lr_count r * curMin) by (apply Z.mul_le_mono_nonneg_l; lia).
  assert (lr_count r * curMin <= curCount * curMin) by (apply Z.mul_le_mono_nonneg_r; lia). lia.
Qed.

Lemma ComputeLayoutWouldGrow_safe_witness :
  ComputeLayoutWouldGrow 0 0 24 6 19 6 3 24 = false /\ 24 <= 24 /\ (0 = 0 -> 6 <= 6).
Proof.
  split; [vm_compute; reflexivity|].
  apply (ComputeLayoutWouldGrow_safe 0 0 24 6 19 6 3 24); try lia. vm_compute. reflexivity.
Defined.

(** [orderNodesByFDSpread] returns the same nodes, and its first [k] of them span as many
    distinct failure domains as [k] nodes possibly can: [k], or all failure domains when there are
    fewer. *)
Theorem orderNodesByFDSpread_spread nodes headroom fdOf k :
  let out := orderNodesByFDSpread nodes headroom fdOf in
  out ≡ₚ nodes /\
  ((k <= length nodes)%nat ->
   size (list_to_set (C := gset string) (fdOf <$> take k out)) =
   Nat.min k (size (list_to_set (C := gset string) (fdOf <$> nodes)))).
Proof.
  intros out. subst out.
  destruct (orderNodesByFDSpread_shape nodes headroom fdOf) as (Hp & heads & rest & Hout & Hnd & Hset).
  split; [done|]. intros Hk. rewrite Hset, (size_list_to_set (fdOf <$> heads)), length_fmap by done.
  rewrite Hout. destruct (decide (k <= length heads)%nat).
  - rewrite take_app_le by lia. rewrite size_list_to_set.
    + rewrite length_fmap, length_take. lia.
    + rewrite fmap_take. eapply sublist_NoDup; [exact Hnd|]. apply sublist_take.
  - rewrite Nat.min_r by lia.
    assert (length heads = size (list_to_set (C := gset string) (fdOf <$> heads))) as ->
      by by rewrite size_list_to_set, length_fmap.
    f_equal. apply (anti_symm (⊆)).
    + rewrite <- Hset. rewrite <- Hp, Hout. intros x. rewrite !elem_of_list_to_set, !list_elem_of_fmap.
      intros (y & -> & Hy). exists y. split; [done|]. by eapply elem_of_sublist, sublist_take.
    + rewrite take_app_ge by lia. rewrite fmap_app, list_to_set_app_L. set_solver.
Qed.

Lemma orderNodesByFDSpread_spread_witness :
  let fdOf := fun n => String.substring 0 1 n in
  let nodes := ["a1"; "a2"; "a3"; "b1"; "c1"; "c2"] in
  (3 <= length nodes)%nat /\
  size (list_to_set (C := gset string) (fdOf <$> take 3 (orderNodesByFDSpread nodes (fun _ => 5) fdOf))) = 3%nat.
Proof.
  split; [simpl; lia|].
  refine (proj2 (orderNodesByFDSpread_spread ["a1"; "a2"; "a3"; "b1"; "c1"; "c2"] (fun _ => 5)
    (fun n => String.substring 0 1 n) 3) _).
  simpl; lia.
Defined.
