(* ===== verification/FdGroups.v ===== *)
(** * Failure-domain groups and their selection (planner.go)

    Which nodes may start a new failure domain for a pool, how they are grouped and ordered, and how
    a uniform set of failure domains is chosen from them. *)

From S2P Require Import Prelude Float64 Fmt Types Cpu Sizing NodeState Infeasibility.

(** ** Summaries of the existing containers *)

(** [poolAvg] *)
Definition poolAvg (existingDrives : list ExistingContainer) (p : poolKind) : Z :=
  let l := filter (fun v => v > 0) ((fun c => poolCap c p) <$> existingDrives) in
  if decide (len l = 0) then 0 else sumZ l `quot` len l.

(** [poolExistingFds] *)
Definition poolExistingFds (p : poolKind) (existingDrives : list ExistingContainer) : Z :=
  Z.of_nat (size (list_to_set (C := gset string)
    (ec_FDValue <$> filter (fun c => poolCap c p > 0 /\ ec_FDValue c <> "") existingDrives))).

(** [poolCurrent] *)
Definition poolCurrent (existingDrives : list ExistingContainer) (p : poolKind) : Z :=
  sumZ ((fun c => poolCap c p) <$> existingDrives).

(** [poolNodeUsed] *)
Definition poolNodeUsed (existingDrives : list ExistingContainer) (p : poolKind) : gset string :=
  list_to_set (ec_Node <$> filter (fun c => poolCap c p > 0 /\ ec_Node c <> "") existingDrives).

(** [allDriveNodes] *)
Definition allDriveNodes (existingDrives : list ExistingContainer) : gset string :=
  list_to_set (ec_Node <$>
    filter (fun c => ec_Node c <> "" /\ (ec_TlcGiB c > 0 \/ ec_QlcGiB c > 0)) existingDrives).

(** [freshExclusion] *)
Definition freshExclusion (existingDrives : list ExistingContainer) (p : poolKind)
    (cons : CapacityConstraints) : gset string :=
  if AllowInPlaceGrowth cons then poolNodeUsed existingDrives p else allDriveNodes existingDrives.

(** [otherPoolPreferNodes] *)
Definition otherPoolPreferNodes (p : poolKind) (newByNode : gmap string NewContainer) : gset string :=
  list_to_set (fst <$> filter (fun kn => poolCapNew kn.2 (otherPool p) > 0 /\ poolCapNew kn.2 p = 0)
                 (map_to_list newByNode)).

(** [countPoolCapableNodes] *)
Definition countPoolCapableNodes (states : nodeStates) (poolUsed : gset string) (p : poolKind) : Z :=
  len (filter (fun kns =>
         (match p with poolTLC => nc_TlcGiB (nc kns.2) | poolQLC => nc_QlcGiB (nc kns.2) end) > 0 /\
         (nc_IneligibleReason (nc kns.2) = "" \/ kns.1 ∈ poolUsed))
         (map_to_list states)).

(** [distinctDriveFds] *)
Definition distinctDriveFds (existingDrives : list ExistingContainer)
    (newByNode : gmap string NewContainer) : Z :=
  Z.of_nat (size (list_to_set (C := gset string)
    (filter (fun fd => fd <> "") ((ec_FDValue <$> existingDrives) ++
                                  ((fun kn => new_FDValue kn.2) <$> map_to_list newByNode))))).

(** [finalPerFD] *)
Definition finalPerFD (p : poolKind) (existingDrives : list ExistingContainer)
    (growth : gmap string ContainerGrowth) (newByNode : gmap string NewContainer) : gmap string Z :=
  let perFD := fold_left (fun m c =>
    let v := finalPoolCap c growth p in
    if decide (v > 0 /\ ec_FDValue c <> "") then map_add m (ec_FDValue c) v else m) existingDrives ∅ in
  fold_left (fun m kn =>
    let v := poolCapNew kn.2 p in
    if decide (v > 0 /\ new_FDValue kn.2 <> "") then map_add m (new_FDValue kn.2) v else m)
    (map_to_list newByNode) perFD.

(** ** Fresh candidates *)

(** The candidates of [orderFreshFdGroups], from the node states in any order. *)
Definition fresh_candidate (p : poolKind) (used : gset string) (cons : CapacityConstraints)
    (ns : nodeState) : Prop :=
  (nc_NodeName (nc ns) ∉ used) /\ nc_IneligibleReason (nc ns) = "" /\
  nodeHeadroom ns p cons true >= MinChunkSizeGiB cons.

#[export] Instance fresh_candidate_dec p used cons ns : Decision (fresh_candidate p used cons ns).
Proof. unfold fresh_candidate. apply _. Defined.

Definition fresh_cands (p : poolKind) (used : gset string) (cons : CapacityConstraints)
    (l : list nodeState) : list nodeState :=
  sort_by (desc_then_name (fun ns => nodeHeadroom ns p cons true) (fun ns => nc_NodeName (nc ns)))
    (filter (fresh_candidate p used cons) l).

(** Adds a candidate to the group of its failure domain, which is created at the end when new. *)
Fixpoint add_cand (p : poolKind) (cons : CapacityConstraints) (ns : nodeState)
    (groups : list (string * fdGroup)) : list (string * fdGroup) :=
  match groups with
  | [] => [(nc_FDValue (nc ns),
            {| g_nodes := [nc_NodeName (nc ns)]; g_headroom := nodeHeadroom ns p cons true;
               g_hasDeleting := hasDeletingDriveContainer ns; g_colocated := false |})]
  | (fd, g) :: groups =>
      if decide (fd = nc_FDValue (nc ns)) then
        (fd, {| g_nodes := g_nodes g ++ [nc_NodeName (nc ns)];
                g_headroom := g_headroom g + nodeHeadroom ns p cons true;
                g_hasDeleting := g_hasDeleting g || hasDeletingDriveContainer ns;
                g_colocated := g_colocated g |}) :: groups
      else (fd, g) :: add_cand p cons ns groups
  end.

Definition fd_groups (p : poolKind) (cons : CapacityConstraints) (cands : list nodeState) : list fdGroup :=
  (fold_left (fun groups ns => add_cand p cons ns groups) cands []).*2.

(** [orderFreshFdGroups] *)
Definition orderFreshFdGroups (p : poolKind) (states : nodeStates) (used : gset string)
    (cons : CapacityConstraints) : list fdGroup :=
  fd_groups p cons (fresh_cands p used cons (map_to_list states).*2).

(** [sortNodesByHeadroomDesc], on the names of the nodes. *)
Definition sortNodesByHeadroomDesc (nodes : list string) (states : nodeStates) (p : poolKind)
    (cons : CapacityConstraints) : list string :=
  sort_by (desc_then_name (fun n => nodeHeadroom (states !!! n) p cons false) id) nodes.

(** The state of the first loop of [existingFdsAsChosen]: groups by failure domain, in first-seen
    order, and the nodes already seen. *)
Fixpoint add_existing (fd node : string) (dup : bool) (groups : list (string * list string)) :
    list (string * list string) :=
  match groups with
  | [] => [(fd, if dup then [] else [node])]
  | (fd', ns) :: groups =>
      if decide (fd = fd') then (fd', if dup then ns else ns ++ [node]) :: groups
      else (fd', ns) :: add_existing fd node dup groups
  end.

(** [existingFdsAsChosen] *)
Definition existingFdsAsChosen (p : poolKind) (existingDrives : list ExistingContainer)
    (states : nodeStates) (cons : CapacityConstraints) : list fdGroup :=
  let step := fun '(groups, seen) c =>
    if decide (ec_FDValue c = "" \/ ec_Unscheduled c = true \/ ec_Node c = "" \/
               states !! ec_Node c = None) then (groups, seen)
    else if decide (poolExistingFds p [c] = 0) then (groups, seen)
    else (add_existing (ec_FDValue c) (ec_Node c) (bool_decide (ec_Node c ∈ seen)) groups,
          {[ec_Node c]} ∪ seen) in
  let '(groups, _) := fold_left step existingDrives ([], ∅ : gset string) in
  (fun g => {| g_nodes := sortNodesByHeadroomDesc g.2 states p cons; g_headroom := 0;
               g_hasDeleting := false; g_colocated := false |}) <$> groups.

(** ** Selection *)

(** Whether a group has a member among the preferred nodes. *)
Definition colocated_with (preferNodes : gset string) (g : fdGroup) : bool :=
  existsb (fun n => bool_decide (n ∈ preferNodes)) (g_nodes g).

(** One pass of a tiered pick: takes the groups that qualify while fewer than [k] are taken. *)
Fixpoint take_tier (k : Z) (qualifies : fdGroup -> bool) (out groups : list fdGroup) : list fdGroup :=
  match groups with
  | [] => out
  | g :: groups =>
      if decide (len out >= k) then out
      else take_tier k qualifies (if qualifies g then out ++ [g] else out) groups
  end.

(** [pickPreferringColocated] *)
Definition pickPreferringColocated (candidates : list fdGroup) (n target : Z)
    (preferNodes : gset string) : list fdGroup :=
  fold_left (fun out wantColocated =>
    take_tier n (fun g => bool_decide (g_headroom g >= target) &&
                          eqb (colocated_with preferNodes g) wantColocated) out candidates)
    [true; false] [].

(** [selectUniform] *)
Definition selectUniform (desiredRaw minFd : Z) (candidates : list fdGroup) (preferNodes : gset string)
    (cons : CapacityConstraints) : option (list fdGroup * Z) :=
  first_some (fun N =>
    let target := Z.max (MinChunkSizeGiB cons) (CeilDiv desiredRaw N) in
    if forallb (fun g => negb (bool_decide (g_headroom g < target))) (take (Z.to_nat N) candidates)
    then Some (pickPreferringColocated candidates N target preferNodes, target)
    else None)
    (loop_range (Z.max minFd 1) (len candidates)).

(** [takeFreshAtLevel] *)
Definition takeFreshAtLevel (fresh : list fdGroup) (k level : Z) : list fdGroup :=
  fold_left (fun out '(wantColocated, wantDeleting) =>
    take_tier k (fun g => bool_decide (g_headroom g >= level) && eqb (g_colocated g) wantColocated &&
                          eqb (g_hasDeleting g) wantDeleting) out fresh)
    [(true, false); (true, true); (false, false); (false, true)] [].

(** [colocatedFirst] *)
Definition colocatedFirst (groups : list fdGroup) (preferNodes : gset string) : list fdGroup :=
  if decide (size preferNodes = 0%nat) then groups
  else
    ((fun g => {| g_nodes := g_nodes g; g_headroom := g_headroom g; g_hasDeleting := g_hasDeleting g;
                  g_colocated := true |})
       <$> filter (fun g => colocated_with preferNodes g = true) groups) ++
    filter (fun g => colocated_with preferNodes g = false) groups.

(** ** Explicit driveContainers *)

(** [resolveExactNewFds]: the number of new failure domains and an error message. *)
Definition resolveExactNewFds (p : poolKind) (targetFds : Z) (existingDrives : list ExistingContainer)
    (delta : Z) (cons : CapacityConstraints) : Z * string :=
  if decide (targetFds <= 0) then (-1, "")
  else
    let existingFds := poolExistingFds p existingDrives in
    let exactNewFds := targetFds - existingFds in
    if decide (exactNewFds < 0) then
      (0, Sprintf "%s: driveContainers requires %d failure domains for this pool but %d already exist; the operator never removes containers — delete them manually to reduce the count"
            [ArgS (pool_String p); ArgD targetFds; ArgD existingFds])
    else if decide (delta > 0 /\ exactNewFds = 0) then
      (0, Sprintf "%s: cannot place %d GiB without new failure domains, but driveContainers caps this pool at %d (already reached)"
            [ArgS (pool_String p); ArgD delta; ArgD targetFds])
    else if decide (exactNewFds > 0 /\ delta `quot` exactNewFds < MinChunkSizeGiB cons) then
      (0, Sprintf "%s: driveContainers=%d makes the per-container share %d GiB, below the %d GiB minimum chunk; reduce driveContainers or raise clusterCapacity"
            [ArgS (pool_String p); ArgD targetFds; ArgD (delta `quot` exactNewFds); ArgD (MinChunkSizeGiB cons)])
    else (exactNewFds, "").

(** [splitDriveContainers] *)
Definition splitDriveContainers (d : DesiredCapacity) (minFd : Z) : Z * Z * string :=
  let total := DriveContainers d in
  if decide (total < minFd) then
    (0, 0, Sprintf "driveContainers=%d is below the required %d failure domains (stripeWidth+redundancyLevel+hotSpare)"
             [ArgD total; ArgD minFd])
  else
    let tlcActive := bool_decide (TlcRawGiB d > 0) in
    let qlcActive := bool_decide (QlcRawGiB d > 0) in
    if tlcActive && qlcActive then
      let tlcN := RoundDiv (total * TlcRawGiB d) (TlcRawGiB d + QlcRawGiB d) in
      let qlcN := total - tlcN in
      if decide (tlcN < minFd \/ qlcN < minFd) then
        (0, 0, Sprintf "driveContainers=%d split by ratio (TLC %d, QLC %d) puts a pool below the %d-failure-domain minimum; increase driveContainers or adjust driveTypesRatio"
                 [ArgD total; ArgD tlcN; ArgD qlcN; ArgD minFd])
      else (tlcN, qlcN, "")
    else if tlcActive then (total, 0, "")
    else if qlcActive then (0, total, "")
    else (0, 0, "").

(** ** Lemmas: tiered picks *)

Lemma take_tier_eq k q out groups :
  take_tier k q out groups = out ++ take (Z.to_nat k - length out) (filter (fun g => q g = true) groups).
Proof.
  revert out. induction groups as [|g groups IH]; intros out; simpl.
  { by rewrite filter_nil, take_nil, app_nil_r. }
  case_decide as Hk.
  { replace (Z.to_nat k - length out)%nat with 0%nat by lia. by rewrite app_nil_r. }
  rewrite IH, filter_cons. destruct (q g); simpl; [|done].
  rewrite length_app. simpl.
  destruct (Z.to_nat k - length out)%nat as [|n] eqn:Hn; [lia|].
  replace (Z.to_nat k - (length out + 1))%nat with n by lia. simpl. by rewrite <- app_assoc.
Qed.

(** A pick in tiers takes a prefix of the tiers, one after the other. *)
Lemma take_tiers_eq {T} k (q : T -> fdGroup -> bool) tiers out groups :
  fold_left (fun out t => take_tier k (q t) out groups) tiers out =
  out ++ take (Z.to_nat k - length out)
           (concat ((fun t => filter (fun g => q t g = true) groups) <$> tiers)).
Proof.
  revert out. induction tiers as [|t tiers IH]; intros out; simpl.
  { by rewrite take_nil, app_nil_r. }
  rewrite IH, take_tier_eq, <- app_assoc, take_app, length_app, length_take.
  do 3 f_equal. lia.
Qed.

Lemma filter_andb {A} (q r : A -> bool) (l : list A) :
  filter (fun x => q x && r x = true) l = filter (fun x => r x = true) (filter (fun x => q x = true) l).
Proof.
  rewrite list_filter_filter. apply list_filter_iff. intros x. rewrite andb_true_iff. tauto.
Qed.

Lemma eqb_true_r b : eqb b true = b. Proof. by destruct b. Qed.
Lemma eqb_false_r b : eqb b false = negb b. Proof. by destruct b. Qed.

(** The two tiers of a boolean key, on the elements that qualify. *)
Lemma tiers_perm {A} (q r : A -> bool) (l : list A) :
  filter (fun x => q x && eqb (r x) true = true) l ++ filter (fun x => q x && eqb (r x) false = true) l
  ≡ₚ filter (fun x => q x = true) l.
Proof.
  rewrite (filter_andb q (fun x => eqb (r x) true)), (filter_andb q (fun x => eqb (r x) false)).
  rewrite <- (filter_split r (filter (fun x => q x = true) l)) at 3.
  apply Permutation_app; apply reflexive_eq; apply list_filter_iff; intros x; by destruct (r x).
Qed.

(** Groups that can host a level. *)
Definition hosting (level : Z) (groups : list fdGroup) : list fdGroup :=
  filter (fun g => bool_decide (g_headroom g >= level) = true) groups.

Definition colocated_tiers (candidates : list fdGroup) (target : Z) (preferNodes : gset string) : list fdGroup :=
  filter (fun g => colocated_with preferNodes g = true) (hosting target candidates) ++
  filter (fun g => colocated_with preferNodes g = false) (hosting target candidates).

Lemma pickPreferringColocated_eq candidates n target prefer :
  pickPreferringColocated candidates n target prefer =
  take (Z.to_nat n) (colocated_tiers candidates target prefer).
Proof.
  unfold pickPreferringColocated. rewrite take_tiers_eq. simpl.
  rewrite Nat.sub_0_r, app_nil_r. unfold colocated_tiers, hosting. f_equal. f_equal.
  - rewrite filter_andb. apply list_filter_iff. intros g. by rewrite eqb_true_r.
  - rewrite filter_andb. apply list_filter_iff. intros g. rewrite eqb_false_r. apply negb_true_iff.
Qed.

Lemma colocated_tiers_perm candidates target prefer :
  colocated_tiers candidates target prefer ≡ₚ hosting target candidates.
Proof. apply filter_split. Qed.

Definition fresh_tiers (fresh : list fdGroup) (level : Z) : list fdGroup :=
  concat ((fun '(wantColocated, wantDeleting) =>
    filter (fun g => bool_decide (g_headroom g >= level) && eqb (g_colocated g) wantColocated &&
                     eqb (g_hasDeleting g) wantDeleting = true) fresh) <$>
    [(true, false); (true, true); (false, false); (false, true)]).

Lemma takeFreshAtLevel_eq fresh k level :
  takeFreshAtLevel fresh k level = take (Z.to_nat k) (fresh_tiers fresh level).
Proof.
  unfold takeFreshAtLevel, fresh_tiers.
  pose proof (take_tiers_eq k (fun '(c, d) g => bool_decide (g_headroom g >= level) &&
    eqb (g_colocated g) c && eqb (g_hasDeleting g) d)
    [(true, false); (true, true); (false, false); (false, true)] [] fresh) as H.
  simpl in *. by rewrite Nat.sub_0_r in H.
Qed.

Lemma fresh_tiers_perm fresh level : fresh_tiers fresh level ≡ₚ hosting level fresh.
Proof.
  unfold fresh_tiers, hosting. simpl. rewrite app_nil_r.
  set (q := fun g => bool_decide (g_headroom g >= level)).
  etrans; [|apply (tiers_perm q g_colocated fresh)]. rewrite app_assoc.
  apply Permutation_app.
  - etrans; [|apply (tiers_perm (fun x => q x && eqb (g_colocated x) true) g_hasDeleting)].
    apply Permutation_app_comm.
  - etrans; [|apply (tiers_perm (fun x => q x && eqb (g_colocated x) false) g_hasDeleting)].
    apply Permutation_app_comm.
Qed.

(** ** Lemmas: groups by failure domain *)

(** The distinct elements of a list, in the order they are first seen. *)
Definition first_seen (l : list string) : list string :=
  fold_left (fun acc x => if decide (x ∈ acc) then acc else acc ++ [x]) l [].

Lemma first_seen_snoc l x :
  first_seen (l ++ [x]) = if decide (x ∈ first_seen l) then first_seen l else first_seen l ++ [x].
Proof. unfold first_seen. by rewrite fold_left_app. Qed.

Lemma elem_of_first_seen l x : x ∈ first_seen l <-> x ∈ l.
Proof.
  induction l as [|y l IH] using rev_ind; [done|].
  rewrite first_seen_snoc. case_decide; set_solver.
Qed.

Lemma NoDup_first_seen l : NoDup (first_seen l).
Proof.
  induction l as [|y l IH] using rev_ind; [constructor|].
  rewrite first_seen_snoc. case_decide; [done|].
  apply NoDup_app. split; [done|]. split; [set_solver|]. apply NoDup_singleton.
Qed.

(** The group of a failure domain, from the candidates in order. *)
Definition fd_members (cands : list nodeState) (fd : string) : list nodeState :=
  filter (fun ns => nc_FDValue (nc ns) = fd) cands.

Definition group_of (p : poolKind) (cons : CapacityConstraints) (cands : list nodeState) (fd : string) :
    fdGroup := {|
  g_nodes := (fun ns => nc_NodeName (nc ns)) <$> fd_members cands fd;
  g_headroom := sumZ ((fun ns => nodeHeadroom ns p cons true) <$> fd_members cands fd);
  g_hasDeleting := existsb hasDeletingDriveContainer (fd_members cands fd);
  g_colocated := false |}.

Lemma fd_members_snoc cands ns fd :
  fd_members (cands ++ [ns]) fd =
  fd_members cands fd ++ (if decide (nc_FDValue (nc ns) = fd) then [ns] else []).
Proof. unfold fd_members. by rewrite filter_app. Qed.

Lemma group_of_snoc p cons cands ns fd :
  group_of p cons (cands ++ [ns]) fd =
  if decide (nc_FDValue (nc ns) = fd) then
    {| g_nodes := g_nodes (group_of p cons cands fd) ++ [nc_NodeName (nc ns)];
       g_headroom := g_headroom (group_of p cons cands fd) + nodeHeadroom ns p cons true;
       g_hasDeleting := g_hasDeleting (group_of p cons cands fd) || hasDeletingDriveContainer ns;
       g_colocated := false |}
  else group_of p cons cands fd.
Proof.
  unfold group_of. rewrite fd_members_snoc. case_decide; simpl; [|by rewrite app_nil_r].
  simpl. rewrite !fmap_app, sumZ_app, existsb_app. simpl. by rewrite Z.add_0_r, orb_false_r.
Qed.

Lemma add_cand_eq p cons cands ns fds :
  NoDup fds -> (nc_FDValue (nc ns) ∉ fds -> fd_members cands (nc_FDValue (nc ns)) = []) ->
  add_cand p cons ns ((fun fd => (fd, group_of p cons cands fd)) <$> fds) =
  (fun fd => (fd, group_of p cons (cands ++ [ns]) fd)) <$>
    (if decide (nc_FDValue (nc ns) ∈ fds) then fds else fds ++ [nc_FDValue (nc ns)]).
Proof.
  induction fds as [|fd fds IH]; intros Hnd Hnew.
  { simpl. rewrite group_of_snoc, decide_True by done.
    unfold group_of. by rewrite Hnew by set_solver. }
  rewrite !fmap_cons. simpl add_cand. apply NoDup_cons in Hnd as [Hfd Hnd].
  assert (Hother : forall l, Forall (fun fd => nc_FDValue (nc ns) <> fd) l ->
    (fun fd => (fd, group_of p cons cands fd)) <$> l =
    (fun fd => (fd, group_of p cons (cands ++ [ns]) fd)) <$> l).
  { intros l Hl. apply list_fmap_ext. intros i x Hx. apply list_elem_of_lookup_2 in Hx.
    rewrite Forall_forall in Hl. rewrite group_of_snoc. by rewrite decide_False by auto. }
  destruct (decide (fd = nc_FDValue (nc ns))) as [->|Hne].
  - rewrite (decide_True (P := _ ∈ _ :: _)) by set_solver. simpl. f_equal.
    + by rewrite group_of_snoc, decide_True by done.
    + apply Hother. apply Forall_forall. by intros x Hx <-.
  - rewrite IH by (auto; intros; apply Hnew; set_solver).
    assert (Hiff : nc_FDValue (nc ns) ∈ fd :: fds <-> nc_FDValue (nc ns) ∈ fds) by set_solver.
    rewrite (decide_ext _ _ _ _ Hiff).
    case_decide; simpl; by rewrite group_of_snoc, decide_False by done.
Qed.

(** The incremental grouping is the grouping by first-seen failure domain. *)
Lemma fd_groups_eq p cons cands :
  fd_groups p cons cands =
  group_of p cons cands <$> first_seen ((fun ns => nc_FDValue (nc ns)) <$> cands).
Proof.
  unfold fd_groups.
  enough (fold_left (fun groups ns => add_cand p cons ns groups) cands [] =
    (fun fd => (fd, group_of p cons cands fd)) <$>
      first_seen ((fun ns => nc_FDValue (nc ns)) <$> cands)) as ->.
  { by rewrite <- list_fmap_compose. }
  induction cands as [|ns cands IH] using rev_ind; [done|].
  rewrite fold_left_app, fmap_app. simpl. rewrite IH, first_seen_snoc.
  apply add_cand_eq; [apply NoDup_first_seen|].
  rewrite elem_of_first_seen. intros Hn. unfold fd_members.
  destruct (filter _ cands) as [|x l] eqn:Hf; [done|]. exfalso. apply Hn.
  assert (Hx : x ∈ x :: l) by set_solver. rewrite <- Hf in Hx.
  apply list_elem_of_filter in Hx as [Hfd Hx]. apply list_elem_of_fmap. eauto.
Qed.

(** The map of node states is keyed by node name. *)
Definition states_named (states : nodeStates) : Prop :=
  map_Forall (fun k ns => nc_NodeName (nc ns) = k) states.

#[export] Instance states_named_dec states : Decision (states_named states).
Proof. unfold states_named. apply _. Defined.

Definition node_name (ns : nodeState) : string := nc_NodeName (nc ns).
Definition node_fd (ns : nodeState) : string := nc_FDValue (nc ns).

Lemma states_named_NoDup states : states_named states -> NoDup (node_name <$> (map_to_list states).*2).
Proof.
  intros Hn. enough (node_name <$> (map_to_list states).*2 = (map_to_list states).*1) as ->
    by apply NoDup_fst_map_to_list.
  rewrite <- list_fmap_compose. apply list_fmap_ext. intros i [k ns] Hi.
  apply list_elem_of_lookup_2, elem_of_map_to_list in Hi. simpl. by apply (Hn k ns).
Qed.

(** Sorting the candidates does not depend on the order they are met in. *)
Lemma fresh_cands_det p used cons l1 l2 :
  NoDup (node_name <$> l1) -> l1 ≡ₚ l2 -> fresh_cands p used cons l1 = fresh_cands p used cons l2.
Proof.
  intros Hnd Hp. unfold fresh_cands. apply sort_by_det.
  - intros ??. apply desc_then_name_asym.
  - intros ???. apply desc_then_name_trans.
  - intros x y Hx Hy Hxy Hyx. apply list_elem_of_filter in Hx as [_ Hx], Hy as [_ Hy].
    destruct (desc_then_name_total _ _ _ _ Hxy Hyx) as [_ Hname].
    apply list_elem_of_lookup_1 in Hx as [i Hi], Hy as [j Hj].
    assert (i = j) as ->; [|congruence].
    eapply (NoDup_lookup (node_name <$> l1)); [done|rewrite list_lookup_fmap, Hi; simpl; reflexivity|].
    rewrite list_lookup_fmap, Hj. simpl. by unfold node_name; rewrite Hname.
  - by rewrite Hp.
Qed.

Lemma elem_of_fresh_cands p used cons l ns :
  ns ∈ fresh_cands p used cons l <-> fresh_candidate p used cons ns /\ ns ∈ l.
Proof. unfold fresh_cands. by rewrite elem_of_sort_by, list_elem_of_filter. Qed.

(** The nodes of the groups are the candidates. *)
Lemma elem_of_orderFreshFdGroups p states used cons g n :
  states_named states -> g ∈ orderFreshFdGroups p states used cons -> n ∈ g_nodes g ->
  exists ns, states !! n = Some ns /\ fresh_candidate p used cons ns.
Proof.
  intros Hn. unfold orderFreshFdGroups. rewrite fd_groups_eq.
  intros (fd & -> & _)%list_elem_of_fmap. simpl.
  intros (ns & -> & Hin)%list_elem_of_fmap.
  apply list_elem_of_filter in Hin as [_ Hin]. apply elem_of_fresh_cands in Hin as [Hc Hin].
  apply list_elem_of_fmap in Hin as ([k ns'] & -> & Hin). apply elem_of_map_to_list in Hin.
  simpl in *. exists ns'. split; [|done]. by rewrite (Hn _ _ Hin).
Qed.

Lemma concat_fd_members cands fds :
  NoDup fds -> concat (fd_members cands <$> fds) ≡ₚ filter (fun ns => node_fd ns ∈ fds) cands.
Proof.
  induction fds as [|fd fds IH]; intros Hnd.
  { simpl. induction cands as [|x cands IH']; [done|]. rewrite filter_cons, decide_False by set_solver. done. }
  apply NoDup_cons in Hnd as [Hfd Hnd]. simpl. rewrite IH by done. clear IH.
  induction cands as [|x cands IH]; [done|].
  change (fd_members (x :: cands) fd) with (filter (fun ns => nc_FDValue (nc ns) = fd) (x :: cands)).
  rewrite !filter_cons. destruct (decide (nc_FDValue (nc x) = fd)) as [<-|Hne].
  - rewrite (decide_False (P := node_fd x ∈ fds)) by done.
    rewrite (decide_True (P := node_fd x ∈ _ :: _)) by set_solver. simpl. by f_equiv.
  - destruct (decide (node_fd x ∈ fds)).
    + rewrite (decide_True (P := node_fd x ∈ _ :: _)) by set_solver.
      rewrite <- Permutation_middle. by f_equiv.
    + rewrite (decide_False (P := node_fd x ∈ _ :: _)) by (unfold node_fd in *; set_solver). done.
Qed.

(** The groups partition the candidate nodes. *)
Lemma fd_groups_nodes p cons cands :
  concat (g_nodes <$> fd_groups p cons cands) ≡ₚ node_name <$> cands.
Proof.
  rewrite fd_groups_eq, <- list_fmap_compose.
  set (fds := first_seen _).
  assert (concat ((g_nodes ∘ group_of p cons cands) <$> fds) =
          node_name <$> concat (fd_members cands <$> fds)) as ->.
  { generalize fds. clear. intros fds. induction fds as [|fd fds IH]; [done|].
    rewrite !fmap_cons. simpl. rewrite fmap_app, IH. done. }
  rewrite concat_fd_members by apply NoDup_first_seen. f_equiv.
  apply reflexive_eq, list_filter_all, Forall_forall.
  intros ns Hns. apply elem_of_first_seen, list_elem_of_fmap. by exists ns.
Qed.


Lemma StronglySorted_const {A} (rank : A -> nat) k l :
  Forall (fun x => rank x = k) l -> StronglySorted (fun a b => (rank a <= rank b)%nat) l.
Proof.
  induction 1 as [|x l Hx Hl IH]; constructor; [done|].
  eapply Forall_impl; [exact Hl|]. simpl. lia.
Qed.

Lemma StronglySorted_app_2 {A} (R : A -> A -> Prop) l1 l2 :
  StronglySorted R l1 -> StronglySorted R l2 -> (forall x y, x ∈ l1 -> y ∈ l2 -> R x y) ->
  StronglySorted R (l1 ++ l2).
Proof.
  induction 1 as [|x l1 H1 IH Hx]; intros H2 Hc; [done|]. simpl. constructor.
  - apply IH; [done|]. intros. apply Hc; set_solver.
  - apply Forall_app. split; [done|]. apply Forall_forall. intros. apply Hc; set_solver.
Qed.

(** A prefix of a list sorted by rank has every element of a rank below one of its own. *)
Lemma take_sorted_closed {A} (rank : A -> nat) l n x y :
  StronglySorted (fun a b => (rank a <= rank b)%nat) l ->
  x ∈ take n l -> y ∈ l -> (rank y < rank x)%nat -> y ∈ take n l.
Proof.
  intros Hs Hx Hy Hr. rewrite <- (take_drop n l) in Hy. apply elem_of_app in Hy as [Hy|Hy]; [done|].
  exfalso. rewrite <- (take_drop n l) in Hs. revert Hs Hx Hy. generalize (take n l) (drop n l).
  intros l1 l2. induction l1 as [|z l1 IH]; intros Hs Hx Hy; [set_solver|].
  simpl in Hs. inversion Hs as [|?? Hs' Hz]; subst. apply elem_of_cons in Hx as [->|Hx]; [|auto].
  rewrite Forall_forall in Hz. assert (rank z <= rank y)%nat by (apply Hz; set_solver). lia.
Qed.

(** The tier of a group in [takeFreshAtLevel]. *)
Definition tier_rank (g : fdGroup) : nat :=
  match g_colocated g, g_hasDeleting g with
  | true, false => 0 | true, true => 1 | false, false => 2 | false, true => 3
  end.

Lemma fresh_tiers_sorted fresh level :
  StronglySorted (fun a b => (tier_rank a <= tier_rank b)%nat) (fresh_tiers fresh level).
Proof.
  unfold fresh_tiers. simpl. rewrite app_nil_r.
  assert (Ht : forall c d, Forall (fun g => tier_rank g =
    match c, d with true, false => 0 | true, true => 1 | false, false => 2 | false, true => 3 end%nat)
    (filter (fun g => bool_decide (g_headroom g >= level) && eqb (g_colocated g) c &&
                      eqb (g_hasDeleting g) d = true) fresh)).
  { intros c d. apply Forall_forall. intros g [Hg _]%list_elem_of_filter. unfold tier_rank.
    apply andb_true_iff in Hg as [[_ ->%eqb_prop]%andb_true_iff ->%eqb_prop]. done. }
  repeat apply StronglySorted_app_2; try (eapply StronglySorted_const; apply Ht);
    intros x y Hx Hy; rewrite ?elem_of_app in Hx; rewrite ?elem_of_app in Hy;
    pose proof (Ht true false) as H0; pose proof (Ht true true) as H1;
    pose proof (Ht false false) as H2; pose proof (Ht false true) as H3;
    rewrite Forall_forall in H0, H1, H2, H3;
    repeat match goal with H : _ \/ _ |- _ => destruct H end;
    repeat match goal with H : _ ∈ _ |- _ => first
      [apply H0 in H|apply H1 in H|apply H2 in H|apply H3 in H] end; lia.
Qed.

Lemma length_hosting level fresh :
  len (hosting level fresh) = len (filter (fun g => g_headroom g >= level) fresh).
Proof. unfold hosting. do 2 f_equal. apply list_filter_iff. intros g. apply bool_decide_eq_true. Qed.

(** Rounding to nearest is off by at most half the divisor. *)
Lemma RoundDiv_spec a b : 0 < a -> 0 < b -> - b <= 2 * (b * RoundDiv a b - a) <= b.
Proof.
  intros Ha Hb. unfold RoundDiv. rewrite decide_False by lia.
  pose proof (quot_pos_spec b 2). pose proof (quot_pos_spec (a + b `quot` 2) b). lia.
Qed.

(** ** Properties *)

(** What [selectUniform] promises of a candidate number [N]: the first [N] candidates each hold an
    even share of the desired capacity. *)
Definition uniform_fits (desiredRaw : Z) (candidates : list fdGroup) (cons : CapacityConstraints) (N : Z) : Prop :=
  Forall (fun g => Z.max (MinChunkSizeGiB cons) (CeilDiv desiredRaw N) <= g_headroom g)
    (take (Z.to_nat N) candidates).

Lemma selectUniform_step desiredRaw candidates cons N :
  forallb (fun g => negb (bool_decide (g_headroom g < Z.max (MinChunkSizeGiB cons) (CeilDiv desiredRaw N))))
    (take (Z.to_nat N) candidates) = true <-> uniform_fits desiredRaw candidates cons N.
Proof.
  unfold uniform_fits. rewrite forallb_forall, Forall_forall. split; intros H g Hg.
  - apply list_elem_of_In in Hg. apply H in Hg. apply negb_true_iff, bool_decide_eq_false in Hg. lia.
  - apply list_elem_of_In in Hg. apply negb_true_iff, bool_decide_eq_false. apply H in Hg. lia.
Qed.

Lemma pick_length candidates N target prefer :
  0 <= N <= len candidates -> Forall (fun g => target <= g_headroom g) (take (Z.to_nat N) candidates) ->
  len (pickPreferringColocated candidates N target prefer) = N.
Proof.
  intros HN Hall. rewrite pickPreferringColocated_eq, length_take, colocated_tiers_perm.
  enough (Z.to_nat N <= length (hosting target candidates))%nat by lia.
  unfold hosting. rewrite <- (take_drop (Z.to_nat N) candidates), filter_app, length_app.
  rewrite (list_filter_all _ (take _ _)), length_take; [lia|].
  eapply Forall_impl; [exact Hall|]. simpl. intros g Hg. apply bool_decide_eq_true. lia.
Qed.

Lemma pick_hosting candidates N target prefer :
  Forall (fun g => target <= g_headroom g) (pickPreferringColocated candidates N target prefer) /\
  pickPreferringColocated candidates N target prefer ⊆+ candidates.
Proof.
  rewrite pickPreferringColocated_eq. split.
  - apply Forall_take. rewrite colocated_tiers_perm. apply Forall_forall.
    intros g [Hg%bool_decide_eq_true _]%list_elem_of_filter. lia.
  - etrans; [apply sublist_submseteq, sublist_take|]. rewrite colocated_tiers_perm.
    apply sublist_submseteq, sublist_filter.
Qed.

(** [selectUniform] returns the least number [N >= minFd] of failure domains for which an even
    split of the desired capacity (at least a minimum chunk) fits the first [N] candidates: it picks
    [N] candidates that each hold the share, the shares cover the desired capacity, and it gives up
    only when no [N] fits. *)
Theorem selectUniform_spec desiredRaw minFd candidates prefer cons :
  match selectUniform desiredRaw minFd candidates prefer cons with
  | Some (chosen, T) =>
      Z.max minFd 1 <= len chosen <= len candidates /\
      T = Z.max (MinChunkSizeGiB cons) (CeilDiv desiredRaw (len chosen)) /\
      desiredRaw <= len chosen * T /\
      Forall (fun g => T <= g_headroom g) chosen /\ chosen ⊆+ candidates /\
      (forall N, Z.max minFd 1 <= N < len chosen -> ~ uniform_fits desiredRaw candidates cons N)
  | None => forall N, Z.max minFd 1 <= N <= len candidates -> ~ uniform_fits desiredRaw candidates cons N
  end.
Proof.
  unfold selectUniform. destruct (first_some _ _) as [[chosen T]|] eqn:H.
  - apply first_some_Some in H as (l1 & N & l2 & Hl & HN & Hmin).
    assert (HNr : Z.max minFd 1 <= N <= len candidates).
    { apply elem_of_loop_range. rewrite Hl. set_solver. }
    destruct (forallb _ _) eqn:Hf; [|done]. injection HN as <- <-. apply selectUniform_step in Hf.
    rewrite pick_length by (done || lia). destruct (pick_hosting candidates N
      (Z.max (MinChunkSizeGiB cons) (CeilDiv desiredRaw N)) prefer) as [Hall Hsub].
    repeat split; try done; try lia.
    + pose proof (CeilDiv_cover desiredRaw N). nia.
    + intros N' HN' Hfit. pose proof (loop_range_split _ _ _ _ _ Hl N' HN') as Hin.
      rewrite Forall_forall in Hmin. specialize (Hmin _ Hin). simpl in Hmin.
      apply selectUniform_step in Hfit. by rewrite Hfit in Hmin.
  - rewrite first_some_None, Forall_forall in H. intros N HN Hfit.
    apply elem_of_loop_range in HN. specialize (H _ HN). simpl in H.
    apply selectUniform_step in Hfit. by rewrite Hfit in H.
Qed.

(** [takeFreshAtLevel] takes as many failure domains that can host the level as asked and
    available, and never skips one of a better tier (co-located with the other pool first, then without
    a container being deleted) for one of a worse tier. *)
Theorem takeFreshAtLevel_spec fresh k level :
  0 <= k ->
  let out := takeFreshAtLevel fresh k level in
  len out = Z.min k (len (filter (fun g => g_headroom g >= level) fresh)) /\
  out ⊆+ fresh /\ Forall (fun g => level <= g_headroom g) out /\
  (forall g h, g ∈ out -> h ∈ fresh -> level <= g_headroom h ->
     (tier_rank h < tier_rank g)%nat -> h ∈ out).
Proof.
  intros Hk out. unfold out. rewrite takeFreshAtLevel_eq. repeat split.
  - rewrite length_take, fresh_tiers_perm, <- length_hosting. lia.
  - etrans; [apply sublist_submseteq, sublist_take|]. rewrite fresh_tiers_perm.
    apply sublist_submseteq, sublist_filter.
  - apply Forall_take. rewrite fresh_tiers_perm. apply Forall_forall.
    intros g [Hg%bool_decide_eq_true _]%list_elem_of_filter. lia.
  - intros g h Hg Hh Hl Hr. eapply take_sorted_closed; [apply fresh_tiers_sorted|done| |done].
    rewrite fresh_tiers_perm. apply list_elem_of_filter. split; [|done].
    apply bool_decide_eq_true. lia.
Qed.

(** Three groups: a co-located one with a container being deleted, a roomy one and a small one. *)
Definition witness_groups : list fdGroup := [
  {| g_nodes := ["a"]; g_headroom := 5000; g_hasDeleting := false; g_colocated := false |};
  {| g_nodes := ["b"]; g_headroom := 4000; g_hasDeleting := true; g_colocated := true |};
  {| g_nodes := ["c"]; g_headroom := 300; g_hasDeleting := false; g_colocated := false |}].

Lemma takeFreshAtLevel_spec_witness :
  g_nodes <$> takeFreshAtLevel witness_groups 1 400 = [["b"]] /\
  len (takeFreshAtLevel witness_groups 3 400) = 2.
Proof.
  split; [vm_compute; reflexivity|].
  destruct (takeFreshAtLevel_spec witness_groups 3 400) as [H _]; [lia|].
  rewrite H. vm_compute. reflexivity.
Defined.

(** [orderFreshFdGroups] does not depend on the order in which the map of node states is
    iterated, and its groups partition the candidate nodes by failure domain: each candidate is in
    exactly one group, and a group holds the nodes of one failure domain and the sum of their
    headroom. *)
Theorem orderFreshFdGroups_partition p states used cons l :
  states_named states -> l ≡ₚ (map_to_list states).*2 ->
  let groups := orderFreshFdGroups p states used cons in
  groups = fd_groups p cons (fresh_cands p used cons l) /\
  NoDup (concat (g_nodes <$> groups)) /\
  (forall n, n ∈ concat (g_nodes <$> groups) <->
     exists ns, states !! n = Some ns /\ fresh_candidate p used cons ns) /\
  (forall g, g ∈ groups -> exists fd, g = group_of p cons (fresh_cands p used cons l) fd).
Proof.
  intros Hn Hl groups.
  pose proof (states_named_NoDup _ Hn) as Hnd.
  assert (Heq : fresh_cands p used cons (map_to_list states).*2 = fresh_cands p used cons l).
  { apply fresh_cands_det; [done|]. by rewrite Hl. }
  repeat split.
  - unfold groups, orderFreshFdGroups. by rewrite Heq.
  - unfold groups, orderFreshFdGroups. rewrite fd_groups_nodes. unfold fresh_cands.
    rewrite sort_by_perm. eapply sublist_NoDup; [exact Hnd|]. apply fmap_sublist, sublist_filter.
  - rewrite elem_of_concat. intros (x & Hx & Hxg).
    apply list_elem_of_fmap in Hx as (g & -> & Hg). by eapply elem_of_orderFreshFdGroups.
  - intros (ns & Hns & Hc). unfold groups, orderFreshFdGroups. rewrite fd_groups_nodes.
    apply list_elem_of_fmap. exists ns. split; [by rewrite <- (Hn _ _ Hns)|].
    apply elem_of_fresh_cands. split; [done|]. apply list_elem_of_fmap. exists (n, ns).
    by rewrite elem_of_map_to_list.
  - intros g. unfold groups, orderFreshFdGroups. rewrite Heq, fd_groups_eq.
    intros (fd & -> & _)%list_elem_of_fmap. eauto.
Qed.

Lemma orderFreshFdGroups_partition_witness :
  let states : nodeStates := {[ "n1" := witness_node ]} in
  orderFreshFdGroups poolTLC states ∅ default_cons =
  fd_groups poolTLC default_cons (fresh_cands poolTLC ∅ default_cons [witness_node]).
Proof.
  intros states.
  apply (orderFreshFdGroups_partition poolTLC states ∅ default_cons [witness_node]).
  - apply map_Forall_singleton. reflexivity.
  - unfold states. rewrite map_to_list_singleton. reflexivity.
Defined.

(** When [splitDriveContainers] accepts, the two shares add up to the pinned total, an inactive
    pool gets none, an active pool gets at least the minimum number of failure domains, and the TLC
    share is the exact proportional share rounded to nearest. *)
Theorem splitDriveContainers_spec d minFd tlcN qlcN :
  splitDriveContainers d minFd = (tlcN, qlcN, "") -> 0 < TlcRawGiB d \/ 0 < QlcRawGiB d ->
  0 < DriveContainers d ->
  tlcN + qlcN = DriveContainers d /\
  (if decide (TlcRawGiB d > 0) then minFd <= tlcN else tlcN = 0) /\
  (if decide (QlcRawGiB d > 0) then minFd <= qlcN else qlcN = 0) /\
  (TlcRawGiB d > 0 -> QlcRawGiB d > 0 ->
   let raw := TlcRawGiB d + QlcRawGiB d in
   - raw <= 2 * (raw * tlcN - DriveContainers d * TlcRawGiB d) <= raw).
Proof.
  unfold splitDriveContainers. intros H Hact Htot. revert H. case_decide as Hmin; [intros [=]|].
  destruct (decide (TlcRawGiB d > 0)) as [Ht|Ht], (decide (QlcRawGiB d > 0)) as [Hq|Hq];
    rewrite ?(bool_decide_true (TlcRawGiB d > 0)), ?(bool_decide_false (TlcRawGiB d > 0)),
      ?(bool_decide_true (QlcRawGiB d > 0)), ?(bool_decide_false (QlcRawGiB d > 0)) by done;
    simpl; try lia; try (intros [= <- <-]; lia).
  case_decide; [intros [=]|]. intros [= <- <-].
  pose proof (RoundDiv_spec (DriveContainers d * TlcRawGiB d) (TlcRawGiB d + QlcRawGiB d)). nia.
Qed.

Lemma splitDriveContainers_spec_witness :
  let d := {| TlcRawGiB := 68266; QlcRawGiB := 204800; ComputeContainers := 0; ComputeCores := 0;
              DriveContainers := 24; DriveCores := 0 |} in
  splitDriveContainers d 6 = (6, 18, "") /\ 6 + 18 = DriveContainers d.
Proof.
  intros d. split; [vm_compute; reflexivity|].
  apply (splitDriveContainers_spec d 6); [vm_compute; reflexivity|left; reflexivity|reflexivity].
Defined.
