(* ===== verification/Placement.v ===== *)
(** * The placement primitive (planner.go, [placeUniform])

    [placeUniform] makes each chosen failure domain hold exactly the target of a pool, split evenly
    over its hosts, by growing the existing container of a host or creating a new one; a failure
    domain that cannot reach the target is rolled back. The planner's mutable state is a [world]:
    the node states and the growth and new-container records. *)

From S2P Require Import Prelude Float64 Fmt Types Cpu Sizing NodeState Infeasibility FdGroups.

Record world := {
  w_states : nodeStates;
  w_growth : gmap string ContainerGrowth;
  w_new : gmap string NewContainer;
}.

(** ** Records *)

(** [growFor]: the growth record of a container, created from its current capacity. *)
Definition growFor (c : ExistingContainer) (growth : gmap string ContainerGrowth) : ContainerGrowth :=
  match growth !! ec_Name c with
  | Some g => g
  | None => {| cg_Name := ec_Name c; cg_NewTlcGiB := ec_TlcGiB c; cg_NewQlcGiB := ec_QlcGiB c;
               cg_NewCores := 0 |}
  end.

(** [newFor]: the new-container record of a node, created empty. *)
Definition newFor (node fd : string) (newByNode : gmap string NewContainer) : NewContainer :=
  match newByNode !! node with
  | Some n => n
  | None => {| new_Node := node; new_FDValue := fd; new_TlcGiB := 0; new_QlcGiB := 0;
               new_NumCores := 0; new_Ratio := None; new_Type := "" |}
  end.

(** [addPoolGrowth(growFor(c), p, add)] *)
Definition grow_by (c : ExistingContainer) (p : poolKind) (add : Z)
    (growth : gmap string ContainerGrowth) : gmap string ContainerGrowth :=
  <[ec_Name c := addPoolGrowth (growFor c growth) p add]> growth.

(** [addPoolNew(newFor(node, fd), p, add)] *)
Definition new_by (node fd : string) (p : poolKind) (add : Z)
    (newByNode : gmap string NewContainer) : gmap string NewContainer :=
  <[node := addPoolNew (newFor node fd newByNode) p add]> newByNode.

(** ** One host *)

(** A placement to undo: the node, the amount, whether the container base was charged, and the
    container grown (none for a new container). *)
Record undo := {
  u_node : string;
  u_add : Z;
  u_inc : bool;
  u_grow : option ExistingContainer;
}.

(** The placement a move stands for, in the failure domain [fd]. *)
Definition apply_move (p : poolKind) (cons : CapacityConstraints) (fd : string) (m : undo) (w : world) : world := {|
  w_states := <[u_node m := consume (w_states w !!! u_node m) p (u_add m) cons (u_inc m)]> (w_states w);
  w_growth := match u_grow m with Some c => grow_by c p (u_add m) (w_growth w) | None => w_growth w end;
  w_new := match u_grow m with Some _ => w_new w | None => new_by (u_node m) fd p (u_add m) (w_new w) end |}.

(** Its rollback. *)
Definition undo_move (p : poolKind) (cons : CapacityConstraints) (fd : string) (m : undo) (w : world) : world := {|
  w_states := <[u_node m := unconsume (w_states w !!! u_node m) p (u_add m) cons (u_inc m)]> (w_states w);
  w_growth := match u_grow m with Some c => grow_by c p (- u_add m) (w_growth w) | None => w_growth w end;
  w_new := match u_grow m with Some _ => w_new w | None => new_by (u_node m) fd p (- u_add m) (w_new w) end |}.

(** What the loop body does on one host: the move it makes, if any, and the amount it counts
    towards the failure domain. *)
Definition host_decision (p : poolKind) (cons : CapacityConstraints)
    (existingOnNode : gmap string ExistingContainer) (share : Z) (node : string) (w : world) :
    option undo * Z :=
  let ns := w_states w !!! node in
  let ec := existingOnNode !! node in
  let cur := match ec with Some c => poolCap c p | None => 0 end in
  let need := share - cur in
  if decide (need <= 0) then (None, Z.min cur share)
  else match ec with
  | Some c =>
      let room := nodeHeadroom ns p cons false in
      let add := Z.min need room in
      if decide (add <= 0) then (None, 0)
      else (Some {| u_node := node; u_add := add; u_inc := false; u_grow := Some c |}, cur + add)
  | None =>
      let includeBase := bool_decide (w_new w !! node = None) in
      let room := nodeHeadroom ns p cons includeBase in
      if decide (room <= 0) then (None, 0)
      else
        let hasNew := match w_new w !! node with
                      | Some nn => bool_decide (poolCapNew nn p > 0) | None => false end in
        let minAdd := if hasNew then 1 else MinChunkSizeGiB cons in
        let add := Z.min need room in
        if decide (add < minAdd) then (None, 0)
        else (Some {| u_node := node; u_add := add; u_inc := includeBase; u_grow := None |}, add)
  end.

(** The loop over the hosts of one failure domain: host number [i] gets one GiB more than [base]
    while [i < rem]. *)
Fixpoint place_hosts (p : poolKind) (cons : CapacityConstraints)
    (existingOnNode : gmap string ExistingContainer) (fd : string) (base rem : Z) (i : Z)
    (nodes : list string) (w : world) (moves : list undo) (placed : Z) : world * list undo * Z :=
  match nodes with
  | [] => (w, moves, placed)
  | node :: nodes =>
      let share := if decide (i < rem) then base + 1 else base in
      let '(m, amount) := host_decision p cons existingOnNode share node w in
      match m with
      | Some m =>
          place_hosts p cons existingOnNode fd base rem (i + 1) nodes
            (apply_move p cons fd m w) (moves ++ [m]) (placed + amount)
      | None =>
          place_hosts p cons existingOnNode fd base rem (i + 1) nodes w moves (placed + amount)
      end
  end.

Definition undo_moves (p : poolKind) (cons : CapacityConstraints) (fd : string) (moves : list undo)
    (w : world) : world :=
  fold_left (fun w m => undo_move p cons fd m w) moves w.

(** One failure domain: place on its hosts, and roll back unless the target was reached. *)
Definition place_group (p : poolKind) (target : Z) (cons : CapacityConstraints)
    (existingOnNode : gmap string ExistingContainer) (w : world) (g : fdGroup) : world :=
  match g_nodes g with
  | [] => w
  | first :: _ =>
      let fd := nc_FDValue (nc (w_states w !!! first)) in
      let nHosts := len (g_nodes g) in
      let base := target `quot` nHosts in
      let rem := target `rem` nHosts in
      let '(w', moves, placed) :=
        place_hosts p cons existingOnNode fd base rem 0 (g_nodes g) w [] 0 in
      if decide (placed < target) then undo_moves p cons fd moves w' else w'
  end.

(** The container a node already runs; the last one listed wins. *)
Definition existing_on_node (existingDrives : list ExistingContainer) : gmap string ExistingContainer :=
  fold_left (fun m c =>
    if decide (ec_Node c <> "" /\ ec_Unscheduled c = false) then <[ec_Node c := c]> m else m)
    existingDrives ∅.

(** [placeUniform] *)
Definition placeUniform (p : poolKind) (target : Z) (chosen : list fdGroup)
    (existingDrives : list ExistingContainer) (cons : CapacityConstraints) (w : world) : world :=
  fold_left (place_group p target cons (existing_on_node existingDrives)) chosen w.

(** ** Feasibility of a pool after placement *)

(** [poolFeasibility] *)
Definition poolFeasibility (p : poolKind) (minFd remaining : Z) (existingDrives : list ExistingContainer)
    (growth : gmap string ContainerGrowth) (newByNode : gmap string NewContainer)
    (cons : CapacityConstraints) : string :=
  if decide (remaining > 0) then
    if AllowInPlaceGrowth cons then
      Sprintf "%s: cannot place %d GiB — not enough node capacity/cores/hugepages/memory across candidate failure domains"
        [ArgS (pool_String p); ArgD remaining]
    else
      Sprintf "%s: dynamic drive scaling for shared drives is disabled; cannot place %d GiB of growth on new failure domains and existing containers are not extended — add nodes/capacity or enable enableDynamicDriveScalingForSharedDrives"
        [ArgS (pool_String p); ArgD remaining]
  else
    let fds := finalPerFD p existingDrives growth newByNode in
    if decide (Z.of_nat (size fds) < minFd) then
      Sprintf "%s: only %d of %d required failure domains have capacity (need at least stripeWidth+redundancyLevel+hotSpare)"
        [ArgS (pool_String p); ArgD (Z.of_nat (size fds)); ArgD minFd]
    else "".

(** The capacity [finalizePoolFeasibility] counts as placed. *)
Definition pool_placed (p : poolKind) (existingDrives : list ExistingContainer)
    (growth : gmap string ContainerGrowth) (newByNode : gmap string NewContainer)
    (excludePoolPExisting : bool) : Z :=
  sumZ ((fun kn => poolCapNew kn.2 p) <$> map_to_list newByNode) +
  sumZ ((fun c => finalPoolCap c growth p) <$>
    filter (fun c => negb (excludePoolPExisting && bool_decide (poolExistingFds p [c] > 0)) = true) existingDrives).

(** [finalizePoolFeasibility] *)
Definition finalizePoolFeasibility (p : poolKind) (desiredRaw minFd : Z)
    (existingDrives : list ExistingContainer) (w : world) (cons : CapacityConstraints)
    (excludePoolPExisting : bool) (plan : CapacityPlan) : CapacityPlan :=
  let placed := pool_placed p existingDrives (w_growth w) (w_new w) excludePoolPExisting in
  let shortfall := Z.max 0 (CapacityCoverTarget desiredRaw cons - placed) in
  let reason := poolFeasibility p minFd shortfall existingDrives (w_growth w) (w_new w) cons in
  if decide (reason <> "") then
    let '(binding, fixes) :=
      if decide (shortfall = 0) then ("failure domains", fixesFailureDomains p minFd)
      else ("drive capacity", fixesCapacity p (AllowInPlaceGrowth cons)) in
    setInfeasible {| ir_Reason := reason; ir_Pool := pool_tag p; ir_Binding := binding;
                     ir_ShortfallGiB := shortfall; ir_RejectedNodes := []; ir_Fixes := fixes |} plan
  else plan.

(** ** Lemmas: moves *)

Section moves.
Context (p : poolKind) (cons : CapacityConstraints) (existingOnNode : gmap string ExistingContainer).

(** A move the host loop may make in a world: a positive amount within the headroom of a known node,
    growing the node's container or creating one where there is none. *)
Definition valid_move (w : world) (m : undo) : Prop :=
  0 < u_add m <= nodeHeadroom (w_states w !!! u_node m) p cons (u_inc m) /\
  is_Some (w_states w !! u_node m) /\ existingOnNode !! u_node m = u_grow m /\
  (u_inc m = true -> w_new w !! u_node m = None).

Lemma nodeHeadroom_inhabitant b : nodeHeadroom inhabitant p cons b = 0.
Proof.
  pose proof (nodeHeadroom_nonneg inhabitant p cons b).
  destruct (decide (0 < nodeHeadroom inhabitant p cons b)) as [Hp|]; [|lia].
  destruct (nodeHeadroom_bound inhabitant p cons b (nodeHeadroom inhabitant p cons b)) as (_ & Hf & _); [lia|].
  assert (poolFree inhabitant p = 0) by by destruct p. lia.
Qed.

(** Only a known node has headroom. *)
Lemma headroom_known (states : nodeStates) n b : 0 < nodeHeadroom (states !!! n) p cons b -> is_Some (states !! n).
Proof.
  rewrite lookup_total_alt. destruct (states !! n) eqn:E; simpl; [eauto|].
  rewrite nodeHeadroom_inhabitant. lia.
Qed.

Definition base_cap (n : string) : Z :=
  match existingOnNode !! n with Some c => poolCap c p | None => 0 end.

(** What one host's decision is: a valid move, or none, and what it counts for. *)
Lemma host_decision_spec share node w o amount :
  host_decision p cons existingOnNode share node w = (o, amount) ->
  match o with
  | Some m => u_node m = node /\ valid_move w m /\ base_cap node < share /\
      amount = base_cap node + u_add m
  | None => True
  end.
Proof.
  unfold host_decision, base_cap. intros H.
  destruct (existingOnNode !! node) as [c|] eqn:E; simpl in H.
  - split_decide; simplify_eq; try done. simpl.
    repeat split; simpl; try lia; try done. apply headroom_known with (b := false); lia.
  - split_decide; simplify_eq; try done. simpl.
    set (b := bool_decide _) in *.
    assert (0 < Z.min (share - 0) (nodeHeadroom (w_states w !!! node) p cons b)) by lia.
    repeat split; simpl; try lia; try done.
    + apply headroom_known with (b := b). lia.
    + unfold b. apply bool_decide_eq_true_1.
Qed.

(** The amount a host counts never exceeds its share, and equals it only when the host holds it. *)
Lemma host_decision_amount share node w o amount :
  0 <= share -> 0 <= base_cap node ->
  host_decision p cons existingOnNode share node w = (o, amount) ->
  amount <= share /\ (amount = share -> base_cap node + (match o with Some m => u_add m | None => 0 end) =
                                        Z.max (base_cap node) share).
Proof.
  unfold host_decision, base_cap. intros Hs Hb H.
  destruct (existingOnNode !! node) as [c|] eqn:E; simpl in H; split_decide; simplify_eq; simpl; lia.
Qed.

(** An invariant of the host loop holds if every valid move on its nodes preserves it. *)
Lemma place_hosts_ind (I : world -> list undo -> Prop) fd base rem i nodes w moves placed w' moves' placed' :
  (forall w moves m, I w moves -> u_node m ∈ nodes -> valid_move w m ->
     I (apply_move p cons fd m w) (moves ++ [m])) ->
  I w moves ->
  place_hosts p cons existingOnNode fd base rem i nodes w moves placed = (w', moves', placed') ->
  I w' moves'.
Proof.
  revert i w moves placed. induction nodes as [|n nodes IH]; intros i w moves placed Hstep HI; simpl.
  { by intros [= <- <- _]. }
  destruct (host_decision _ _ _ _ _ _) as [[m|] amount] eqn:Hd; intros H.
  - apply host_decision_spec in Hd as (Hn & Hv & _).
    apply IH with (1 := fun w ms m HI Hin => Hstep w ms m HI (list_elem_of_further _ _ _ Hin)) (3 := H).
    apply Hstep; [done| |done]. rewrite Hn. constructor.
  - apply IH with (1 := fun w ms m HI Hin => Hstep w ms m HI (list_elem_of_further _ _ _ Hin)) (3 := H).
    done.
Qed.

Definition apply_moves (fd : string) (moves : list undo) (w : world) : world :=
  fold_left (fun w m => apply_move p cons fd m w) moves w.

Lemma apply_moves_snoc fd moves m w :
  apply_moves fd (moves ++ [m]) w = apply_move p cons fd m (apply_moves fd moves w).
Proof. unfold apply_moves. by rewrite fold_left_app. Qed.

Lemma is_Some_apply_move fd m w n :
  is_Some (w_states w !! u_node m) ->
  is_Some (w_states (apply_move p cons fd m w) !! n) <-> is_Some (w_states w !! n).
Proof. intros H. simpl. rewrite lookup_insert_is_Some'. naive_solver. Qed.

(** The host loop applies the moves it records. *)
Lemma place_hosts_moves fd base rem i nodes w placed w' moves placed' :
  place_hosts p cons existingOnNode fd base rem i nodes w [] placed = (w', moves, placed') ->
  w' = apply_moves fd moves w /\
  Forall (fun m => is_Some (w_states w !! u_node m) /\ u_node m ∈ nodes /\
                   existingOnNode !! u_node m = u_grow m) moves.
Proof.
  intros H.
  enough (w' = apply_moves fd moves w /\ (forall n, is_Some (w_states w' !! n) <-> is_Some (w_states w !! n)) /\
    Forall (fun m => is_Some (w_states w !! u_node m) /\ u_node m ∈ nodes /\
                     existingOnNode !! u_node m = u_grow m) moves) by tauto.
  refine (place_hosts_ind (fun w' moves => w' = apply_moves fd moves w /\
    (forall n, is_Some (w_states w' !! n) <-> is_Some (w_states w !! n)) /\
    Forall (fun m => is_Some (w_states w !! u_node m) /\ u_node m ∈ nodes /\
                     existingOnNode !! u_node m = u_grow m) moves)
    fd base rem i nodes w [] placed w' moves placed' _ _ H);
    [|split; [done|split; [reflexivity|constructor]]].
  intros w1 ms m (-> & Hdom & Hall) Hin (_ & Hk & He & _). rewrite apply_moves_snoc.
  split; [done|]. split; [intros n; by rewrite is_Some_apply_move, Hdom|].
  apply Forall_app. split; [done|]. repeat constructor; [|done..]. by apply Hdom.
Qed.

(** ** Lemmas: rollback *)

(** What a rolled-back move leaves: a record, with the capacities it had. *)
Definition touch_move (fd : string) (m : undo) (w : world) : world := {|
  w_states := w_states w;
  w_growth := match u_grow m with
              | Some c => <[ec_Name c := growFor c (w_growth w)]> (w_growth w) | None => w_growth w end;
  w_new := match u_grow m with
           | Some _ => w_new w | None => <[u_node m := newFor (u_node m) fd (w_new w)]> (w_new w) end |}.

Definition touch_moves (fd : string) (moves : list undo) (w : world) : world :=
  fold_left (fun w m => touch_move fd m w) moves w.

Lemma grow_by_grow_by c a b growth :
  grow_by c p b (grow_by c p a growth) = <[ec_Name c := addPoolGrowth (addPoolGrowth (growFor c growth) p a) p b]> growth.
Proof.
  unfold grow_by, growFor at 1. rewrite lookup_insert_eq. by rewrite insert_insert_eq.
Qed.

Lemma new_by_new_by n fd a b m :
  new_by n fd p b (new_by n fd p a m) = <[n := addPoolNew (addPoolNew (newFor n fd m) p a) p b]> m.
Proof.
  unfold new_by, newFor at 1. rewrite lookup_insert_eq. by rewrite insert_insert_eq.
Qed.

Lemma undo_apply fd m w :
  is_Some (w_states w !! u_node m) -> undo_move p cons fd m (apply_move p cons fd m w) = touch_move fd m w.
Proof.
  intros Hk. unfold undo_move, apply_move, touch_move. simpl. f_equal.
  - rewrite lookup_total_insert_eq, unconsume_consume, insert_insert_eq.
    apply insert_id, lookup_lookup_total, Hk.
  - destruct (u_grow m); [|done]. by rewrite grow_by_grow_by, addPoolGrowth_cancel.
  - destruct (u_grow m); [done|]. by rewrite new_by_new_by, addPoolNew_cancel.
Qed.

Lemma unconsume_consume_comm ns a b i j :
  unconsume (consume ns p a cons i) p b cons j = consume (unconsume ns p b cons j) p a cons i.
Proof.
  unfold unconsume, consume.
  rewrite (cpuCost_nc (charge _ _ _ _ _ _) ns) by done.
  rewrite (cpuCost_nc (charge ns p (- b) _ _ _) ns) by done.
  destruct ns, p; unfold charge; simpl; f_equal; lia.
Qed.

Lemma addPoolGrowth_comm g a b : addPoolGrowth (addPoolGrowth g p a) p b = addPoolGrowth (addPoolGrowth g p b) p a.
Proof. destruct p, g; unfold addPoolGrowth; simpl; f_equal; lia. Qed.

Lemma addPoolNew_comm n a b : addPoolNew (addPoolNew n p a) p b = addPoolNew (addPoolNew n p b) p a.
Proof. destruct p, n; unfold addPoolNew; simpl; f_equal; lia. Qed.

(** Growth records of two containers commute once the first has one. *)
Lemma grow_by_comm c c' a b growth :
  is_Some (growth !! ec_Name c) ->
  grow_by c p a (grow_by c' p b growth) = grow_by c' p b (grow_by c p a growth).
Proof.
  intros [g Hg]. unfold grow_by, growFor. rewrite !lookup_insert, Hg.
  destruct (decide (ec_Name c' = ec_Name c)) as [Heq|Hne].
  - rewrite Heq, Hg, decide_True by done. rewrite !insert_insert_eq.
    f_equal. apply addPoolGrowth_comm.
  - rewrite (decide_False (P := ec_Name c = ec_Name c')) by congruence.
    apply insert_insert_ne. congruence.
Qed.

Lemma new_by_comm n n' fd a b m :
  new_by n fd p a (new_by n' fd p b m) = new_by n' fd p b (new_by n fd p a m).
Proof.
  destruct (decide (n = n')) as [<-|Hne]; [by rewrite !new_by_new_by, addPoolNew_comm|].
  unfold new_by, newFor. rewrite !lookup_insert_ne by done. by apply insert_insert_ne.
Qed.

(** Whether the record a move grows exists. *)
Definition has_record (m : undo) (w : world) : Prop :=
  match u_grow m with Some c => is_Some (w_growth w !! ec_Name c) | None => True end.

Lemma undo_apply_comm fd m m' w :
  has_record m w ->
  undo_move p cons fd m (apply_move p cons fd m' w) = apply_move p cons fd m' (undo_move p cons fd m w).
Proof.
  intros Hr. unfold undo_move, apply_move. simpl. f_equal.
  - destruct (decide (u_node m = u_node m')) as [->|Hne].
    + rewrite !lookup_total_insert_eq, !insert_insert_eq.
      by rewrite unconsume_consume_comm.
    + rewrite !lookup_total_insert_ne by congruence. by apply insert_insert_ne.
  - unfold has_record in Hr. destruct (u_grow m), (u_grow m'); try done. by apply grow_by_comm.
  - destruct (u_grow m), (u_grow m'); try done. apply new_by_comm.
Qed.

Lemma has_record_apply fd m m' w : has_record m w -> has_record m (apply_move p cons fd m' w).
Proof.
  unfold has_record. destruct (u_grow m); [|done]. simpl. destruct (u_grow m'); [|done].
  unfold grow_by. rewrite lookup_insert_is_Some'. auto.
Qed.

Lemma undo_past fd m moves w :
  has_record m w ->
  undo_move p cons fd m (apply_moves fd moves w) = apply_moves fd moves (undo_move p cons fd m w).
Proof.
  revert w. induction moves as [|m' moves IH]; intros w Hr; simpl; [done|].
  unfold apply_moves in *. simpl. rewrite IH by by apply has_record_apply.
  by rewrite undo_apply_comm.
Qed.

(** Undoing the moves in the order they were made restores every budget and capacity. *)
Lemma undo_moves_apply fd moves w :
  Forall (fun m => is_Some (w_states w !! u_node m)) moves ->
  undo_moves p cons fd moves (apply_moves fd moves w) = touch_moves fd moves w.
Proof.
  revert w. induction moves as [|m moves IH]; intros w Hk; [done|].
  apply Forall_cons in Hk as [Hm Hk].
  change (undo_moves p cons fd moves (undo_move p cons fd m (apply_moves fd moves (apply_move p cons fd m w))) =
          touch_moves fd moves (touch_move fd m w)).
  rewrite undo_past.
  - rewrite undo_apply by done. by apply IH.
  - unfold has_record. simpl. destruct (u_grow m); [|done]. unfold grow_by. rewrite lookup_insert_eq. eauto.
Qed.
End moves.

(** ** Lemmas: what the moves change *)

(** The pool capacity of a node's pending new container. *)
Definition new_cap (newByNode : gmap string NewContainer) (n : string) (q : poolKind) : Z :=
  match newByNode !! n with Some r => poolCapNew r q | None => 0 end.

Lemma new_cap_new_by m n n' fd p a q :
  new_cap (new_by n fd p a m) n' q = new_cap m n' q + (if decide (n = n' /\ p = q) then a else 0).
Proof.
  unfold new_cap, new_by, newFor. rewrite lookup_insert. destruct (decide (n = n')) as [<-|Hne].
  - rewrite poolCapNew_add. destruct (m !! n); simpl; [|destruct q; simpl]; split_decide; try lia; tauto.
  - rewrite decide_False by tauto. lia.
Qed.

Lemma poolCapGrowth_finalPoolCap c growth q : finalPoolCap c growth q = poolCapGrowth (growFor c growth) q.
Proof. unfold finalPoolCap, growFor. destruct (growth !! ec_Name c); by destruct q. Qed.

Lemma finalPoolCap_grow_by c c' p a growth q :
  (ec_Name c = ec_Name c' -> c = c') ->
  finalPoolCap c' (grow_by c p a growth) q =
  finalPoolCap c' growth q + (if decide (ec_Name c = ec_Name c' /\ p = q) then a else 0).
Proof.
  intros Hu. rewrite !poolCapGrowth_finalPoolCap. unfold grow_by. unfold growFor at 1. rewrite lookup_insert.
  destruct (decide (ec_Name c = ec_Name c')) as [He|Hne].
  - rewrite <- (Hu He), poolCapGrowth_add. split_decide; try lia; tauto.
  - rewrite (decide_False (P := _ /\ _)) by tauto. unfold growFor. lia.
Qed.

Lemma addPoolNew_0 n p : addPoolNew n p 0 = n.
Proof. destruct p, n; unfold addPoolNew; simpl; f_equal; lia. Qed.

Lemma addPoolGrowth_0 g p : addPoolGrowth g p 0 = g.
Proof. destruct p, g; unfold addPoolGrowth; simpl; f_equal; lia. Qed.

(** The records of a move as an update by an amount: what it adds, or nothing when rolled back. *)
Definition record_move (p : poolKind) (fd : string) (m : undo) (a : Z) (w : world) : world := {|
  w_states := w_states w;
  w_growth := match u_grow m with Some c => grow_by c p a (w_growth w) | None => w_growth w end;
  w_new := match u_grow m with Some _ => w_new w | None => new_by (u_node m) fd p a (w_new w) end |}.

Lemma touch_move_record p fd m w : touch_move fd m w = record_move p fd m 0 w.
Proof.
  unfold touch_move, record_move. f_equal; destruct (u_grow m); try done.
  - unfold grow_by. by rewrite addPoolGrowth_0.
  - unfold new_by. by rewrite addPoolNew_0.
Qed.

Lemma w_growth_apply_move p cons fd m w :
  w_growth (apply_move p cons fd m w) = w_growth (record_move p fd m (u_add m) w).
Proof. done. Qed.

Lemma w_new_apply_move p cons fd m w :
  w_new (apply_move p cons fd m w) = w_new (record_move p fd m (u_add m) w).
Proof. done. Qed.

Lemma states_ok_apply p cons E fd m w :
  cons_ok cons -> states_ok (w_states w) -> valid_move p cons E w m ->
  states_ok (w_states (apply_move p cons fd m w)).
Proof.
  intros Hc Hok (Hadd & _). simpl. apply map_Forall_insert_2; [|done].
  apply node_ok_consume; [done| |done]. by apply states_ok_total.
Qed.

Lemma existing_on_node_spec drives n c :
  existing_on_node drives !! n = Some c -> c ∈ drives /\ ec_Node c = n /\ ec_Unscheduled c = false /\ n <> "".
Proof.
  unfold existing_on_node.
  enough (forall m : gmap string ExistingContainer, (forall n c, m !! n = Some c -> c ∈ drives /\ ec_Node c = n /\ ec_Unscheduled c = false /\ n <> "") ->
    forall l, l ⊆ drives -> fold_left (fun m c => if decide (ec_Node c <> "" /\ ec_Unscheduled c = false)
      then <[ec_Node c := c]> m else m) l m !! n = Some c ->
    c ∈ drives /\ ec_Node c = n /\ ec_Unscheduled c = false /\ n <> "") as H.
  { apply H; [|done]. intros ??. by rewrite lookup_empty. }
  intros m Hm l. revert m Hm. induction l as [|c' l IH]; intros m Hm Hl; simpl; [apply Hm|].
  apply IH; [|set_solver]. intros n' c''. case_decide as Hd; [|apply Hm].
  rewrite lookup_insert_Some. intros [[<- <-]|[_ Hc]]; [|by apply Hm].
  split; [set_solver|]. tauto.
Qed.

(** ** Lemmas: the planner's relation on worlds *)

Section worlds.
Context (drives : list ExistingContainer) (Hnames : NoDup (ec_Name <$> drives)).

Lemma drives_uniq c c' : c ∈ drives -> c' ∈ drives -> ec_Name c = ec_Name c' -> c = c'.
Proof using Hnames.
  intros [i Hi]%list_elem_of_lookup_1 [j Hj]%list_elem_of_lookup_1 Hn.
  assert (i = j) as ->; [|congruence].
  eapply (NoDup_lookup _ _ _ (ec_Name c) Hnames); rewrite list_lookup_fmap, ?Hi, ?Hj; simpl; congruence.
Qed.

(** [extends p w w']: the same nodes; pool [p] of every container is at least what it was, and the other
    pool is what it was. *)
Definition extends (p : poolKind) (w w' : world) : Prop :=
  (forall n, nc <$> w_states w' !! n = nc <$> w_states w !! n) /\
  (forall c q, c ∈ drives -> finalPoolCap c (w_growth w) q <= finalPoolCap c (w_growth w') q /\
     (q <> p -> finalPoolCap c (w_growth w') q = finalPoolCap c (w_growth w) q)) /\
  (forall n q, new_cap (w_new w) n q <= new_cap (w_new w') n q /\
     (q <> p -> new_cap (w_new w') n q = new_cap (w_new w) n q)) /\
  (forall n r, w_new w !! n = Some r -> exists r', w_new w' !! n = Some r' /\ new_FDValue r' = new_FDValue r).

#[export] Instance extends_preorder p : PreOrder (extends p).
Proof.
  split.
  - intros w. repeat split; intros; lia || done || eauto.
  - intros w1 w2 w3 (Hs1 & Hg1 & Hn1 & Hf1) (Hs2 & Hg2 & Hn2 & Hf2). split; [|split; [|split]].
    + intros n. by rewrite Hs2.
    + intros c q Hc. destruct (Hg1 c q Hc) as [? E1], (Hg2 c q Hc) as [? E2].
      split; [lia|]. intros Hq. by rewrite E2, E1.
    + intros n q. destruct (Hn1 n q) as [? E1], (Hn2 n q) as [? E2].
      split; [lia|]. intros Hq. by rewrite E2, E1.
    + intros n r (r' & Hr' & <-)%Hf1. by apply Hf2.
Qed.

Lemma extends_record p fd m a w :
  0 <= a -> (forall c, u_grow m = Some c -> c ∈ drives) -> extends p w (record_move p fd m a w).
Proof using Hnames.
  intros Ha Hc. split; [done|]. simpl. split; [|split].
  - intros c q Hin. destruct (u_grow m) as [c'|]; [|split; [lia|done]].
    rewrite finalPoolCap_grow_by by (intros; apply drives_uniq; auto).
    case_decide; [|split; lia]. split; [lia|]. intros Hq. destruct Hq. symmetry. tauto.
  - intros n q. destruct (u_grow m) as [c'|]; [split; [lia|done]|].
    rewrite new_cap_new_by. case_decide; [|split; lia]. split; [lia|]. intros Hq. destruct Hq. symmetry. tauto.
  - intros n r Hr. destruct (u_grow m); [eauto|]. unfold new_by, newFor. rewrite lookup_insert.
    case_decide as Hn; [|eauto]. rewrite Hn, Hr. eexists. split; [done|]. apply new_FDValue_add.
Qed.

(** The records are those of the cluster's containers and of known nodes. *)
Definition records_ok (w : world) : Prop :=
  (forall name g, w_growth w !! name = Some g -> cg_Name g = name /\ exists c, c ∈ drives /\ ec_Name c = name) /\
  (forall n r, w_new w !! n = Some r -> new_Node r = n /\ is_Some (w_states w !! n)).

Lemma records_ok_record p fd m a w :
  is_Some (w_states w !! u_node m) -> (forall c, u_grow m = Some c -> c ∈ drives) ->
  records_ok w -> records_ok (record_move p fd m a w).
Proof.
  intros Hk Hc [Hg Hn]. split; simpl.
  - intros name g. destruct (u_grow m) as [c|] eqn:Hgm; [|apply Hg].
    unfold grow_by. rewrite lookup_insert_Some. intros [[<- <-]|[_ H]]; [|by apply Hg].
    rewrite cg_Name_add. split; [|by exists c; auto].
    unfold growFor. destruct (w_growth w !! ec_Name c) eqn:E; [|done]. by apply Hg in E as [? _].
  - intros n r. destruct (u_grow m) as [c|]; [apply Hn|].
    unfold new_by. rewrite lookup_insert_Some. intros [[<- <-]|[_ H]]; [|by apply Hn].
    rewrite new_Node_add. split; [|done].
    unfold newFor. destruct (w_new w !! u_node m) eqn:E; [|done]. by apply Hn in E as [? _].
Qed.

(** What the cluster's containers on a node were grown by. *)
Definition grown_on (growth : gmap string ContainerGrowth) (n : string) (q : poolKind) : Z :=
  sumZ ((fun c => finalPoolCap c growth q - poolCap c q) <$> filter (fun c => ec_Node c = n) drives).

Lemma sum_update (f : ExistingContainer -> Z) l name a (P : Prop) `{!Decision P} :
  NoDup (ec_Name <$> l) ->
  sumZ ((fun x => f x + (if decide (name = ec_Name x /\ P) then a else 0)) <$> l) =
  sumZ (f <$> l) + (if decide (name ∈ ec_Name <$> l /\ P) then a else 0).
Proof.
  induction l as [|x l IH]; intros Hnd; [done|].
  rewrite !fmap_cons, !sumZ_cons.
  apply NoDup_cons in Hnd as [Hx Hnd]. rewrite IH by done.
  destruct (decide P) as [HP|HP].
  2:{ rewrite !(decide_False (P := _ /\ _)) by tauto. lia. }
  destruct (decide (name = ec_Name x)) as [->|Hne].
  - rewrite (decide_True (P := ec_Name x = _ /\ _)), (decide_True (P := ec_Name x ∈ _ :: _ /\ _)),
      (decide_False (P := _ ∈ ec_Name <$> l /\ _)) by (set_solver || tauto). lia.
  - rewrite (decide_False (P := name = _ /\ _)) by tauto.
    destruct (decide (name ∈ ec_Name <$> l)).
    + rewrite !(decide_True (P := _ ∈ _ /\ _)) by set_solver. lia.
    + rewrite !(decide_False (P := _ ∈ _ /\ _)) by set_solver. lia.
Qed.

Lemma grown_on_grow_by c p a growth n q :
  c ∈ drives ->
  grown_on (grow_by c p a growth) n q =
  grown_on growth n q + (if decide (ec_Node c = n /\ p = q) then a else 0).
Proof using Hnames.
  intros Hc. unfold grown_on. set (l := filter _ drives).
  assert (Hsub : forall x, x ∈ l <-> ec_Node x = n /\ x ∈ drives) by (intros x; unfold l; by rewrite list_elem_of_filter).
  assert (Hnd : NoDup (ec_Name <$> l)).
  { eapply sublist_NoDup; [exact Hnames|]. apply fmap_sublist, sublist_filter. }
  transitivity (sumZ ((fun x => (finalPoolCap x growth q - poolCap x q) +
    (if decide (ec_Name c = ec_Name x /\ p = q) then a else 0)) <$> l)).
  { f_equal. apply list_fmap_ext. intros i x Hx. apply list_elem_of_lookup_2, Hsub in Hx as [_ Hx].
    rewrite finalPoolCap_grow_by by (intros; by apply drives_uniq). lia. }
  rewrite sum_update by done. f_equal. apply decide_ext. rewrite list_elem_of_fmap. split.
  - intros [(x & Hn & Hx) ->]. apply Hsub in Hx as [<- Hx]. by rewrite (drives_uniq c x).
  - intros [Hn ->]. split; [|done]. exists c. split; [done|]. by apply Hsub.
Qed.

(** Every GiB taken from a node is in a record of that node. *)
Definition balanced (init : nodeStates) (w : world) : Prop :=
  forall n q, poolFree (w_states w !!! n) q + new_cap (w_new w) n q + grown_on (w_growth w) n q =
              poolFree (init !!! n) q.

Lemma recorded_move p fd m a w n q :
  (forall c, u_grow m = Some c -> c ∈ drives /\ ec_Node c = u_node m) ->
  new_cap (w_new (record_move p fd m a w)) n q + grown_on (w_growth (record_move p fd m a w)) n q =
  new_cap (w_new w) n q + grown_on (w_growth w) n q + (if decide (u_node m = n /\ p = q) then a else 0).
Proof using Hnames.
  intros Hc. simpl. destruct (u_grow m) as [c|].
  - destruct (Hc c eq_refl) as [Hin <-]. rewrite grown_on_grow_by by done. lia.
  - rewrite new_cap_new_by. lia.
Qed.

Lemma balanced_apply p cons init fd m w :
  (forall c, u_grow m = Some c -> c ∈ drives /\ ec_Node c = u_node m) ->
  balanced init w -> balanced init (apply_move p cons fd m w).
Proof using Hnames.
  intros Hc Hb n q. rewrite w_growth_apply_move, w_new_apply_move.
  pose proof (recorded_move p fd m (u_add m) w n q Hc). specialize (Hb n q). simpl w_states.
  rewrite lookup_total_insert. destruct (decide (u_node m = n)) as [<-|Hne].
  - unfold consume. rewrite poolFree_charge. destruct (decide (p = q)) as [<-|Hne];
      [rewrite decide_True in H by done|rewrite decide_False in H by tauto]; lia.
  - rewrite decide_False in H by tauto. lia.
Qed.

Lemma balanced_touch (p : poolKind) init fd m w :
  (forall c, u_grow m = Some c -> c ∈ drives /\ ec_Node c = u_node m) ->
  balanced init w -> balanced init (touch_move fd m w).
Proof using Hnames.
  intros Hc Hb n q. rewrite (touch_move_record p). pose proof (recorded_move p fd m 0 w n q Hc).
  specialize (Hb n q). simpl w_states. split_decide; lia.
Qed.

(** ** Lemmas: one failure domain, and all of them *)

Section group.
Context (p : poolKind) (cons : CapacityConstraints).
Let E := existing_on_node drives.

Lemma grow_of_existing (m : undo) :
  E !! u_node m = u_grow m -> forall c, u_grow m = Some c -> c ∈ drives /\ ec_Node c = u_node m.
Proof. intros HE c Hc. rewrite Hc in HE. apply existing_on_node_spec in HE. tauto. Qed.

(** An invariant of worlds that valid moves and rolled-back moves preserve is one of the placement. *)
Lemma place_group_ind (J : world -> Prop) target g w :
  (forall fd w m, J w -> valid_move p cons E w m -> J (apply_move p cons fd m w)) ->
  (forall fd w m, J w -> is_Some (w_states w !! u_node m) -> E !! u_node m = u_grow m ->
     J (touch_move fd m w)) ->
  J w -> J (place_group p target cons E w g).
Proof.
  intros Happly Htouch HJ. unfold place_group. destruct (g_nodes g) as [|n nodes] eqn:Hg; [done|].
  set (fd := nc_FDValue _). clearbody fd.
  destruct (place_hosts _ _ _ _ _ _ _ _ _ _ _) as [[w' moves] placed] eqn:Hp.
  case_decide.
  - apply place_hosts_moves in Hp as [-> Hall]. rewrite undo_moves_apply by (eapply Forall_impl; [exact Hall|naive_solver]).
    revert w HJ Hall. induction moves as [|m moves IH]; intros w HJ Hall; [done|].
    apply Forall_cons in Hall as [(Hk & _ & HE) Hall]. simpl. apply IH; [by apply Htouch|done].
  - eapply (place_hosts_ind p cons E (fun w _ => J w)); [|exact HJ|exact Hp].
    intros ? ? m ? _ ?. by apply Happly.
Qed.

Lemma placeUniform_ind (J : world -> Prop) target chosen w :
  (forall fd w m, J w -> valid_move p cons E w m -> J (apply_move p cons fd m w)) ->
  (forall fd w m, J w -> is_Some (w_states w !! u_node m) -> E !! u_node m = u_grow m ->
     J (touch_move fd m w)) ->
  J w -> J (placeUniform p target chosen drives cons w).
Proof.
  intros Ha Ht. unfold placeUniform. revert w.
  induction chosen as [|g chosen IH]; intros w HJ; simpl; [done|].
  apply IH. by apply place_group_ind.
Qed.

Lemma placeUniform_states_ok target chosen w :
  cons_ok cons -> states_ok (w_states w) -> states_ok (w_states (placeUniform p target chosen drives cons w)).
Proof.
  intros Hc. apply (placeUniform_ind (fun w => states_ok (w_states w))); [|done].
  intros. by eapply states_ok_apply.
Qed.

Lemma placeUniform_balanced init target chosen w :
  balanced init w -> balanced init (placeUniform p target chosen drives cons w).
Proof using Hnames.
  apply placeUniform_ind.
  - intros fd w1 m Hb (_ & _ & HE & _). apply balanced_apply; [|done]. by apply grow_of_existing.
  - intros fd w1 m Hb _ HE. apply (balanced_touch p); [|done]. by apply grow_of_existing.
Qed.

Lemma extends_apply fd m w :
  valid_move p cons E w m -> extends p w (apply_move p cons fd m w).
Proof using Hnames.
  intros (Hadd & Hk & HE & _).
  destruct (extends_record p fd m (u_add m) w) as (_ & Hg & Hn); [lia| |].
  { intros c Hc. by eapply grow_of_existing in HE as [? ?]. }
  split; [|split; [exact Hg|exact Hn]]. intros n. simpl. rewrite lookup_insert. case_decide; [subst|done].
  rewrite (lookup_lookup_total _ _ Hk). done.
Qed.

Lemma placeUniform_extends target chosen w : extends p w (placeUniform p target chosen drives cons w).
Proof using Hnames.
  apply placeUniform_ind; [| |done].
  - intros fd w1 m He Hv. etrans; [exact He|]. by apply extends_apply.
  - intros fd w1 m He _ HE. etrans; [exact He|]. rewrite (touch_move_record p).
    apply extends_record; [lia|]. intros c Hc. by eapply grow_of_existing in HE as [? ?].
Qed.

Lemma placeUniform_records_ok target chosen w :
  records_ok w -> records_ok (placeUniform p target chosen drives cons w).
Proof.
  apply placeUniform_ind.
  - intros fd w1 m Hr (_ & Hk & HE & _). destruct (records_ok_record p fd m (u_add m) w1) as [Hg Hn];
      [done|intros c Hc; by eapply grow_of_existing in HE as [? ?]|done|].
    split; [exact Hg|]. intros n r Hnr. destruct (Hn n r Hnr) as [? ?]. split; [done|].
    by apply is_Some_apply_move.
  - intros fd w1 m Hr Hk HE. rewrite (touch_move_record p). apply records_ok_record; [done| |done].
    intros c Hc. by eapply grow_of_existing in HE as [? ?].
Qed.
End group.
End worlds.

(** Where no host runs a container, the placement grows none. *)
Lemma place_group_growth p target cons E w g :
  (forall n, n ∈ g_nodes g -> E !! n = None) ->
  w_growth (place_group p target cons E w g) = w_growth w.
Proof.
  intros HE. unfold place_group. destruct (g_nodes g) as [|first nodes] eqn:Hg; [done|]. rewrite <- Hg.
  destruct (place_hosts _ _ _ _ _ _ _ _ _ _ _) as [[w' moves] placed] eqn:Hp.
  apply place_hosts_moves in Hp as [-> Hall].
  assert (Hnone : Forall (fun m => u_grow m = None) moves).
  { eapply Forall_impl; [exact Hall|]. intros m (_ & Hin & <-). apply HE. by rewrite <- Hg. }
  rewrite undo_moves_apply by (eapply Forall_impl; [exact Hall|naive_solver]).
  clear Hall HE. set (fd := nc_FDValue _). clearbody fd.
  case_decide; revert w; induction moves as [|m moves IH]; intros w; try done;
    apply Forall_cons in Hnone as [Hm Hnone]; simpl; rewrite IH by done; simpl; by rewrite Hm.
Qed.

Lemma placeUniform_growth p target chosen drives cons w :
  (forall g n, g ∈ chosen -> n ∈ g_nodes g -> existing_on_node drives !! n = None) ->
  w_growth (placeUniform p target chosen drives cons w) = w_growth w.
Proof.
  unfold placeUniform. revert w. induction chosen as [|g chosen IH]; intros w HE; [done|]. simpl.
  rewrite IH by (intros; eapply HE; [by right|done]). apply place_group_growth.
  intros n. apply HE. by left.
Qed.

(** ** Lemmas: a failure domain is uniform or rolled back *)

Section uniform.
Context (drives : list ExistingContainer) (Hnames : NoDup (ec_Name <$> drives)).
Context (p : poolKind) (cons : CapacityConstraints).
Let E := existing_on_node drives.

(** The pool capacity of the container a node runs or is about to run. *)
Definition host_cap (w : world) (n : string) (q : poolKind) : Z :=
  match existing_on_node drives !! n with
  | Some c => finalPoolCap c (w_growth w) q
  | None => new_cap (w_new w) n q
  end.

Lemma existing_on_node_inj n n' c c' :
  E !! n = Some c -> E !! n' = Some c' -> ec_Name c = ec_Name c' -> n = n' /\ c = c'.
Proof.
  intros (H1 & <- & _)%existing_on_node_spec (H2 & <- & _)%existing_on_node_spec Hn.
  by rewrite (drives_uniq drives Hnames c c').
Qed.

Lemma host_cap_record fd m a w n q :
  E !! u_node m = u_grow m ->
  host_cap (record_move p fd m a w) n q =
  host_cap w n q + (if decide (u_node m = n /\ p = q) then a else 0).
Proof.
  intros HE. unfold host_cap. fold E. simpl. destruct (u_grow m) as [c|].
  - destruct (E !! n) as [c'|] eqn:Hn.
    + rewrite finalPoolCap_grow_by by (intros; by eapply existing_on_node_inj). f_equal. apply decide_ext.
      split; intros [H ->]; (split; [|done]); [by eapply existing_on_node_inj|congruence].
    + rewrite decide_False; [lia|]. intros [<- _]. congruence.
  - destruct (E !! n) as [c'|] eqn:Hn.
    + rewrite decide_False; [lia|]. intros [<- _]. congruence.
    + by rewrite new_cap_new_by.
Qed.

Lemma host_cap_touch_moves fd moves w n q :
  Forall (fun m => E !! u_node m = u_grow m) moves ->
  host_cap (touch_moves fd moves w) n q = host_cap w n q.
Proof.
  revert w. induction moves as [|m moves IH]; intros w Hall; [done|].
  apply Forall_cons in Hall as [HE Hall]. simpl. rewrite IH by done.
  rewrite (touch_move_record p), host_cap_record by done. split_decide; lia.
Qed.

(** What the host loop leaves: every host counts at most its share, and holds the share when it
    counts all of it. *)
Lemma place_hosts_result fd base rem i nodes w moves placed w' moves' placed' :
  0 <= base -> NoDup nodes ->
  (forall n, n ∈ nodes -> host_cap w n p = base_cap p E n /\ 0 <= base_cap p E n) ->
  place_hosts p cons E fd base rem i nodes w moves placed = (w', moves', placed') ->
  (forall n q, n ∉ nodes \/ q <> p -> host_cap w' n q = host_cap w n q) /\
  exists amounts, placed' = placed + sumZ amounts /\
    Forall2 (fun ns a => a <= ns.2 /\ (a = ns.2 -> host_cap w' ns.1 p = Z.max (base_cap p E ns.1) ns.2))
      (host_shares base rem i nodes) amounts.
Proof.
  revert i w moves placed. induction nodes as [|n nodes IH]; intros i w moves placed Hb Hnd Hcap; simpl.
  { intros [= <- <- <-]. split; [done|]. exists []. split; [simpl; lia|constructor]. }
  apply NoDup_cons in Hnd as [Hn Hnd].
  set (share := if decide (i < rem) then base + 1 else base).
  assert (Hs : 0 <= share) by (unfold share; case_decide; lia).
  destruct (Hcap n) as [Hcn Hbn]; [by constructor|].
  destruct (host_decision _ _ _ _ _ _) as [o amount] eqn:Hd.
  destruct (host_decision_amount p cons E share n w o amount Hs Hbn Hd) as [Hle Heq].
  set (w1 := match o with Some m => apply_move p cons fd m w | None => w end).
  assert (H1 : forall n' q, host_cap w1 n' q = host_cap w n' q +
    (if decide (n = n' /\ p = q) then match o with Some m => u_add m | None => 0 end else 0)).
  { intros n' q. unfold w1. apply host_decision_spec in Hd. destruct o as [m|]; [|split_decide; lia].
    destruct Hd as (<- & (_ & _ & HE & _) & _). by apply (host_cap_record fd m (u_add m) w n' q). }
  intros Hp. assert (Hp' : exists ms, place_hosts p cons E fd base rem (i + 1) nodes w1 ms (placed + amount) =
    (w', moves', placed')) by (unfold w1; destruct o; eauto). destruct Hp' as [ms Hp'].
  destruct (IH (i + 1) w1 ms (placed + amount)) as (Hframe & amounts & Hsum & Hall); [done|done| |done|].
  { intros n' Hn'. rewrite H1, decide_False; [|intros [<- _]; done].
    rewrite Z.add_0_r. apply Hcap. by constructor. }
  split.
  - intros n' q Hq. rewrite Hframe, H1, decide_False; [lia| |set_solver].
    intros [<- <-]. destruct Hq as [Hq|Hq]; [|done]. apply Hq. constructor.
  - exists (amount :: amounts). split; [rewrite sumZ_cons; lia|]. constructor; [|done]. simpl.
    split; [done|]. intros Ha. rewrite Hframe, H1, decide_True by (auto). rewrite Hcn. by apply Heq.
Qed.

Lemma place_group_eq target w g :
  g_nodes g <> [] ->
  exists fd, place_group p target cons E w g =
    let k := len (g_nodes g) in
    let '(w', moves, placed) :=
      place_hosts p cons E fd (target `quot` k) (target `rem` k) 0 (g_nodes g) w [] 0 in
    if decide (placed < target) then undo_moves p cons fd moves w' else w'.
Proof. unfold place_group. destruct (g_nodes g); [done|]. eauto. Qed.

(** The placement of one failure domain; see [place_group_uniform]. *)
Lemma place_group_shares target w g :
  0 <= target -> NoDup (g_nodes g) -> g_nodes g <> [] ->
  (forall n, n ∈ g_nodes g -> host_cap w n p = base_cap p E n /\ 0 <= base_cap p E n) ->
  let w' := place_group p target cons E w g in
  let k := len (g_nodes g) in
  let shares := host_shares (target `quot` k) (target `rem` k) 0 (g_nodes g) in
  sumZ shares.*2 = target /\
  (forall n q, n ∉ g_nodes g \/ q <> p -> host_cap w' n q = host_cap w n q) /\
  ((forall n s, (n, s) ∈ shares -> host_cap w' n p = Z.max (base_cap p E n) s) \/
   (w_states w' = w_states w /\ forall n q, host_cap w' n q = host_cap w n q)).
Proof.
  intros Ht Hnd Hne Hcap w' k shares.
  assert (Hsum : sumZ shares.*2 = target) by by apply sum_even_shares.
  split; [done|]. destruct (place_group_eq target w g Hne) as [fd Heq].
  unfold w'. rewrite Heq. cbv zeta. fold k. clear w' Heq.
  destruct (place_hosts p cons E fd _ _ 0 (g_nodes g) w [] 0) as [[w1 moves] placed] eqn:Hp.
  pose proof Hp as Hm. apply place_hosts_moves in Hm as [Hw1 Hmoves].
  assert (Hroll : undo_moves p cons fd moves w1 = touch_moves fd moves w).
  { rewrite Hw1. apply undo_moves_apply. eapply Forall_impl; [exact Hmoves|naive_solver]. }
  assert (Htouch : forall n q, host_cap (touch_moves fd moves w) n q = host_cap w n q).
  { intros. apply host_cap_touch_moves. eapply Forall_impl; [exact Hmoves|naive_solver]. }
  apply place_hosts_result in Hp as (Hframe & amounts & Hpl & Hall);
    [|apply Z.quot_pos; [done|]; subst k; destruct (g_nodes g); [done|simpl; lia]|done|done].
  case_decide as Hd.
  - rewrite Hroll. split; [by intros; apply Htouch|]. right. split; [|done].
    clear. revert w. induction moves as [|m moves IH]; intros w; [done|]. simpl. by rewrite IH.
  - split; [done|]. left. fold shares in Hall.
    assert (Ha : amounts = shares.*2).
    { apply sum_le_eq; [|lia]. apply Forall2_fmap_r, Forall2_flip. eapply Forall2_impl; [exact Hall|].
      by intros [? ?] ? [? _]. }

    intros n s Hin. apply list_elem_of_lookup_1 in Hin as [j Hj].
    destruct (Forall2_lookup_l _ _ _ _ _ Hall Hj) as (a & Hja & _ & Hfin). simpl in Hfin. apply Hfin.
    rewrite Ha, list_lookup_fmap, Hj in Hja. by injection Hja as ->.
Qed.
End uniform.

(** ** Properties *)

(** [placeUniform] is uniform and atomic on each failure domain. Its shares add up to the target,
    and either every host ends up with exactly its share of the pool (or keeps the larger capacity it
    already had), or the failure domain is rolled back: every node budget and every capacity is what
    it was. Hosts outside the failure domain, and the other pool, are never changed. *)
Theorem place_group_uniform drives p cons target w g :
  NoDup (ec_Name <$> drives) -> 0 <= target -> NoDup (g_nodes g) -> g_nodes g <> [] ->
  (forall n, n ∈ g_nodes g -> host_cap drives w n p = base_cap p (existing_on_node drives) n /\
                              0 <= base_cap p (existing_on_node drives) n) ->
  let w' := place_group p target cons (existing_on_node drives) w g in
  let k := len (g_nodes g) in
  let shares := host_shares (target `quot` k) (target `rem` k) 0 (g_nodes g) in
  sumZ shares.*2 = target /\
  (forall n q, n ∉ g_nodes g \/ q <> p -> host_cap drives w' n q = host_cap drives w n q) /\
  ((forall n s, (n, s) ∈ shares -> host_cap drives w' n p = Z.max (base_cap p (existing_on_node drives) n) s) \/
   (w_states w' = w_states w /\ forall n q, host_cap drives w' n q = host_cap drives w n q)).
Proof. intros. by apply place_group_shares. Qed.

(** A failure domain of two hosts, one with an existing TLC container. *)
Definition witness_world : world := {|
  w_states := {[ "n1" := witness_node; "n2" := witness_node ]}; w_growth := ∅; w_new := ∅ |}.

Definition witness_drive : ExistingContainer := {|
  ec_Name := "c1"; ec_Node := "n1"; ec_FDValue := "r1"; ec_TlcGiB := 100; ec_QlcGiB := 0;
  ec_NumCores := 1; ec_Unscheduled := false |}.

Definition witness_group : fdGroup :=
  {| g_nodes := ["n1"; "n2"]; g_headroom := 0; g_hasDeleting := false; g_colocated := false |}.

Lemma place_group_uniform_witness :
  let w' := place_group poolTLC 1001 default_cons (existing_on_node [witness_drive]) witness_world witness_group in
  host_cap [witness_drive] w' "n1" poolTLC = 501 /\ host_cap [witness_drive] w' "n2" poolTLC = 500 /\
  host_cap [witness_drive] w' "n1" poolQLC = host_cap [witness_drive] witness_world "n1" poolQLC.
Proof.
  intros w'. split; [vm_compute; reflexivity|]. split; [vm_compute; reflexivity|].
  apply (place_group_uniform [witness_drive] poolTLC default_cons 1001 witness_world witness_group).
  - apply NoDup_singleton.
  - lia.
  - apply NoDup_cons. split; [set_solver|apply NoDup_singleton].
  - discriminate.
  - intros n Hn. cbn [g_nodes witness_group] in Hn.
    apply elem_of_cons in Hn as [->|Hn]; [vm_compute; split; [reflexivity|discriminate]|].
    apply list_elem_of_singleton in Hn as ->. vm_compute. split; [reflexivity|discriminate].
  - right. discriminate.
Defined.
