(* ===== verification/PoolPlan.v ===== *)
(** * Planning one pool (planner.go, [planPool] and its branches)

    A pool is planned by one of: nothing (met, within the deadband, or over-provisioned), a fresh
    uniform set of failure domains (greenfield, or the heterogeneous fallback), an exact pinned number
    of failure domains, or a uniform increase of the existing ones. Each branch takes the world and the
    plan and returns both. *)

From S2P Require Import Prelude Float64 Fmt Types Cpu Sizing NodeState Infeasibility FdGroups Placement.

(** [shrinkMsg] *)
Definition shrinkMsg (p : poolKind) (desiredRaw current : Z) : string :=
  Sprintf "%s capacity is over-provisioned by %d GiB (desired %d, current %d); delete WekaContainers manually to shrink — the operator never auto-shrinks"
    [ArgS (pool_String p); ArgD (current - desiredRaw); ArgD desiredRaw; ArgD current].

(** A report of a drive pool with no rejected nodes. *)
Definition pool_report (p : poolKind) (reason binding : string) (shortfall : Z) (fixes : list string) :
    InfeasibilityReport := {|
  ir_Reason := reason; ir_Pool := pool_tag p; ir_Binding := binding; ir_ShortfallGiB := shortfall;
  ir_RejectedNodes := []; ir_Fixes := fixes |}.

(** ** A fresh uniform set *)

(** [planPoolFreshUniform]; the boolean says whether a set was placed. *)
Definition planPoolFreshUniform (p : poolKind) (desiredRaw minFd : Z)
    (existingDrives : list ExistingContainer) (cons : CapacityConstraints) (isFallback : bool)
    (w : world) (plan : CapacityPlan) : bool * world * CapacityPlan :=
  let preferNodes := otherPoolPreferNodes p (w_new w) in
  let candidates := orderFreshFdGroups p (w_states w) (freshExclusion existingDrives p cons) cons in
  match selectUniform desiredRaw minFd candidates preferNodes cons with
  | None =>
      if isFallback then (false, w, plan)
      else
        let poolUsed := freshExclusion existingDrives p cons in
        let '(msg, binding, shortfall) :=
          uniformInfeasibleMsg p desiredRaw minFd candidates (w_states w) poolUsed cons in
        let fixes := if decide (binding = "failure domains") then fixesFailureDomains p minFd
                     else fixesCapacity p (AllowInPlaceGrowth cons) in
        (false, w,
         setInfeasible {| ir_Reason := msg; ir_Pool := pool_tag p; ir_Binding := binding;
                          ir_ShortfallGiB := shortfall;
                          ir_RejectedNodes := rejectedNodes p (w_states w) poolUsed cons;
                          ir_Fixes := fixes |} plan)
  | Some (chosen, T) =>
      let w := placeUniform p T chosen existingDrives cons w in
      let plan := finalizePoolFeasibility p desiredRaw minFd existingDrives w cons true plan in
      let plan :=
        if decide (isFallback = true /\ Infeasible plan = "") then
          plan_add_warnings [Sprintf "%s capacity grew heterogeneously: created a fresh balanced set of ~%d GiB across %d failure domain(s). The older, smaller drive containers can be deleted manually once data has migrated."
            [ArgS (pool_String p); ArgD T; ArgD (len chosen)]] plan
        else plan in
      (true, w, plan)
  end.

(** ** Capacity per existing failure domain *)

(** The local [perFd] of [planPoolExplicit] and [planPoolUniformIncrease]. *)
Definition existing_per_fd (p : poolKind) (existingDrives : list ExistingContainer) : gmap string Z :=
  fold_left (fun m c =>
    if decide (ec_FDValue c = "") then m
    else let v := poolCap c p in
         if decide (v > 0) then map_add m (ec_FDValue c) v else m) existingDrives ∅.

(** ** A pinned number of failure domains *)

(** The guard of [planPoolExplicit] against growing in place: the failure domains below the level.
    The code reports the first one its map iteration meets. *)
Definition frozen_below (p : poolKind) (existingDrives : list ExistingContainer) (T : Z) :
    list (string * Z) :=
  filter (fun kv => kv.2 < T) (map_to_list (existing_per_fd p existingDrives)).

(** [planPoolExplicit] *)
Definition planPoolExplicit (p : poolKind) (desiredRaw minFd targetFds : Z)
    (existingDrives : list ExistingContainer) (cons : CapacityConstraints)
    (w : world) (plan : CapacityPlan) : world * CapacityPlan :=
  let current := poolCurrent existingDrives p in
  let delta := desiredRaw - current in
  let '(exactNewFds, reason) := resolveExactNewFds p targetFds existingDrives delta cons in
  if decide (reason <> "") then
    (w, setInfeasible (pool_report p reason "driveContainers" 0 (fixesDriveContainers 0)) plan)
  else
    let T := CeilDiv desiredRaw targetFds in
    let frozen := if AllowInPlaceGrowth cons then [] else frozen_below p existingDrives T in
    match frozen with
    | (fd, capGiB) :: _ =>
        (w, setInfeasible (pool_report p
          (Sprintf "%s: driveContainers=%d pins %d GiB per failure domain, but failure domain %q holds only %d GiB and growing it in place is disabled (enableDynamicDriveScalingForSharedDrives=false) — enable it or unset driveContainers"
             [ArgS (pool_String p); ArgD targetFds; ArgD T; ArgS fd; ArgD capGiB])
          "driveContainers" (T - capGiB)
          ["enable enableDynamicDriveScalingForSharedDrives to grow the failure domain in place";
           "or unset driveContainers"]) plan)
    | [] =>
        let chosen := existingFdsAsChosen p existingDrives (w_states w) cons in
        let fresh := orderFreshFdGroups p (w_states w) (freshExclusion existingDrives p cons) cons in
        let chosen := chosen ++ takeFreshAtLevel fresh exactNewFds T in
        let w := placeUniform p T chosen existingDrives cons w in
        (w, finalizePoolFeasibility p desiredRaw minFd existingDrives w cons false plan)
    end.

(** ** Uniform increase *)

(** [minFdCap] and [maxFdCap] of [planPoolUniformIncrease]. *)
Definition min_fd_cap (perFd : gmap string Z) : Z :=
  fold_left (fun m kv => if decide (m = 0 \/ kv.2 < m) then kv.2 else m) (map_to_list perFd) 0.
Definition max_fd_cap (perFd : gmap string Z) : Z :=
  fold_left (fun m kv => if decide (kv.2 > m) then kv.2 else m) (map_to_list perFd) 0.

(** [freshCountAtLeast] *)
Definition freshCountAtLeast (freshGroups : list fdGroup) (L : Z) : Z :=
  len (filter (fun g => g_headroom g >= L) freshGroups).

(** [fdReach]: the pool capacity of a failure domain and the capacity it could be grown to. *)
Record fdReach := { r_cap : Z; r_ceiling : Z }.

(** The map [reach]. *)
Definition reach_map (p : poolKind) (existingDrives : list ExistingContainer) (states : nodeStates)
    (cons : CapacityConstraints) : gmap string fdReach :=
  fold_left (fun m c =>
    if decide (ec_FDValue c = "" \/ ec_Unscheduled c = true \/ ec_Node c = "" \/
               states !! ec_Node c = None) then m
    else
      let r := default {| r_cap := 0; r_ceiling := 0 |} (m !! ec_FDValue c) in
      let v := poolCap c p in
      <[ec_FDValue c := {| r_cap := r_cap r + v;
                           r_ceiling := r_ceiling r + (v + nodeHeadroom (states !!! ec_Node c) p cons false) |}]> m)
    existingDrives ∅.

(** [existingReach]: [None] when some failure domain of the pool cannot reach the level. *)
Definition existingReach (reach : gmap string fdReach) (L : Z) : option Z :=
  fold_left (fun acc kr =>
    match acc with
    | None => None
    | Some sum =>
        if decide (r_cap kr.2 <= 0) then Some sum
        else if decide (r_cap kr.2 >= L) then Some (sum + r_cap kr.2)
        else if decide (r_ceiling kr.2 >= L) then Some (sum + L)
        else None
    end) (map_to_list reach) (Some 0).

(** [overProvisionMsg] *)
Definition overProvisionMsg (p : poolKind) (delta desiredRaw grown kFresh level total : Z)
    (cons : CapacityConstraints) : string :=
  let placement :=
    if decide (grown > 0 /\ kFresh > 0) then
      Sprintf "growing %d existing and adding %d new failure domain(s)" [ArgD grown; ArgD kFresh]
    else if decide (grown > 0) then
      Sprintf "growing %d existing failure domain(s)" [ArgD grown]
    else Sprintf "adding %d new failure domain(s)" [ArgD kFresh] in
  Sprintf "%s: +%d GiB covered by %s, each sized to a uniform %d GiB; this over-provisions the target by %d GiB (within maxOverProvisionFraction=%.2f) — intentional rounding to keep failure domains uniformly sized, not reclaimable excess (no manual shrink needed)"
    [ArgS (pool_String p); ArgD delta; ArgS placement; ArgD level; ArgD (total - desiredRaw);
     ArgF (MaxOverProvisionFraction cons)].

(** What [planPoolUniformIncrease] computes before it searches. *)
Record increase_ctx := {
  ui_delta : Z;
  ui_numExisting : Z;
  ui_T0 : Z;
  ui_Tmax : Z;
  ui_fresh : list fdGroup;
  ui_reach : gmap string fdReach;
  ui_overshootCap : Z;
  ui_maxPerFdCap : Z;
}.

Definition increase_context (p : poolKind) (desiredRaw minFd current : Z)
    (existingDrives : list ExistingContainer) (cons : CapacityConstraints) (w : world) : increase_ctx :=
  let perFd := existing_per_fd p existingDrives in
  let freshGroups := orderFreshFdGroups p (w_states w) (freshExclusion existingDrives p cons) cons in {|
    ui_delta := desiredRaw - current;
    ui_numExisting := Z.of_nat (size perFd);
    ui_T0 := Z.max (MinChunkSizeGiB cons) (min_fd_cap perFd);
    ui_Tmax := Z.max (MinChunkSizeGiB cons) (max_fd_cap perFd);
    ui_fresh := colocatedFirst freshGroups (otherPoolPreferNodes p (w_new w));
    ui_reach := reach_map p existingDrives (w_states w) cons;
    ui_overshootCap := int_of_float (f_mul (MaxOverProvisionFraction cons) (f_of_int desiredRaw));
    ui_maxPerFdCap := if decide (minFd > 0) then desiredRaw `quot` minFd else 0 |}.

(** One [k] of the preferred no-grow cover: the per-domain size and the resulting total. *)
Definition try_cover (p : poolKind) (desiredRaw current : Z) (existingDrives : list ExistingContainer)
    (cons : CapacityConstraints) (x : increase_ctx) (k : Z) : option (Z * Z * Z) :=
  let perFd := CeilDiv (ui_delta x) k in
  let perFd := if decide (perFd < MinChunkSizeGiB cons) then MinChunkSizeGiB cons else perFd in
  if decide (perFd > ui_maxPerFdCap x) then None
  else if bool_decide (perFd > ui_Tmax x) && detectImbalance perFd (poolAvg existingDrives p) cons then None
  else if decide (freshCountAtLeast (ui_fresh x) perFd < k) then None
  else
    let total := current + k * perFd in
    if decide (total - desiredRaw > ui_overshootCap x) then None
    else Some (k, perFd, total).

(** The scan of the preferred cover, over [k] from [kMin] to [kMax]. *)
Definition find_cover (p : poolKind) (desiredRaw current : Z) (existingDrives : list ExistingContainer)
    (cons : CapacityConstraints) (x : increase_ctx) : option (Z * Z * Z) :=
  if decide (ui_maxPerFdCap x > 0) then
    let kMin := Z.max 1 (CeilDiv (ui_delta x) (ui_maxPerFdCap x)) in
    let kMax := Z.min (CeilDiv (ui_delta x) (ui_T0 x)) (len (ui_fresh x)) in
    first_some (try_cover p desiredRaw current existingDrives cons x) (loop_range kMin kMax)
  else None.

(** [feasN]: a final number of failure domains, its uniform level and the resulting total. *)
Record feasN := { fn_N : Z; fn_L : Z; fn_total : Z }.

(** One [N] of the grow phase. *)
Definition try_level (desiredRaw : Z) (x : increase_ctx) (N : Z) : option feasN :=
  let L := Z.max (ui_T0 x) (CeilDiv desiredRaw N) in
  let kFresh := N - ui_numExisting x in
  if decide (freshCountAtLeast (ui_fresh x) L < kFresh) then None
  else match existingReach (ui_reach x) L with
       | None => None
       | Some sumE =>
           let total := sumE + kFresh * L in
           if decide (total < desiredRaw) then None
           else if decide (total - desiredRaw > ui_overshootCap x) then None
           else Some {| fn_N := N; fn_L := L; fn_total := total |}
       end.

(** Smallest level, ties broken by the smallest total. *)
Definition better (best : option feasN) (c : feasN) : option feasN :=
  match best with
  | None => Some c
  | Some b => if decide (fn_L c < fn_L b \/ (fn_L c = fn_L b /\ fn_total c < fn_total b))
              then Some c else best
  end.

(** The search of the grow phase. *)
Definition find_level (desiredRaw minFd : Z) (x : increase_ctx) : option feasN :=
  fold_left (fun best N => match try_level desiredRaw x N with Some c => better best c | None => best end)
    (loop_range (Z.max minFd (ui_numExisting x)) (ui_numExisting x + len (ui_fresh x))) None.

(** The report when no level is feasible. *)
Definition no_level_report (p : poolKind) (x : increase_ctx) : InfeasibilityReport :=
  pool_report p
    (Sprintf "%s: cannot satisfy clusterCapacity (+%d GiB) at the uniform per-failure-domain size of %d GiB. Even after growing the %d existing failure domain(s) to their nodes' limits and adding failure domains on all %d candidate node(s) (nodes not already running a %s drive container, with enough free capacity/cores/hugepages/memory), the target is still out of reach. Add more nodes (or nodes with more free resources), or lower clusterCapacity."
       [ArgS (pool_String p); ArgD (ui_delta x); ArgD (ui_T0 x); ArgD (ui_numExisting x);
        ArgD (len (ui_fresh x)); ArgS (pool_String p)])
    "drive capacity" (ui_delta x) (fixesAddCapacity p).

(** The reports when a grow is needed but in-place growth is disabled. *)
Definition growth_disabled_report (p : poolKind) (desiredRaw minFd : Z) (x : increase_ctx) :
    InfeasibilityReport :=
  let kNeeded := CeilDiv (ui_delta x) (ui_T0 x) in
  let kAvail := freshCountAtLeast (ui_fresh x) (ui_T0 x) in
  let shortfall := kNeeded - kAvail in
  if decide (shortfall > 0) then
    pool_report p
      (Sprintf "%s: cannot satisfy clusterCapacity (+%d GiB). The %d existing failure domain(s) are frozen at %d GiB each and cannot grow because dynamic drive scaling for shared drives is disabled, so new capacity can only be added as more %d GiB failure domains — one per node not already running a %s drive container and with %d GiB of free capacity/cores/hugepages/memory. This needs %d such node(s) but only %d is/are available, so %d more node(s) are required. Either add %d more node(s), or enable enableDynamicDriveScalingForSharedDrives to grow the existing containers in place instead (aggregate free capacity elsewhere does not help — capacity on a node already hosting this pool's FD cannot be reused while growth is disabled). The maximum capacity a single failure domain may hold is %d GiB (clusterCapacity raw ÷ (stripeWidth+redundancy+hotSpare) = %d ÷ %d)."
         [ArgS (pool_String p); ArgD (ui_delta x); ArgD (ui_numExisting x); ArgD (ui_T0 x); ArgD (ui_T0 x);
          ArgS (pool_String p); ArgD (ui_T0 x); ArgD kNeeded; ArgD kAvail; ArgD shortfall; ArgD shortfall;
          ArgD (ui_maxPerFdCap x); ArgD desiredRaw; ArgD minFd])
      "failure domains" (ui_delta x) (fixesGrowthDisabledFDs shortfall)
  else
    pool_report p
      (Sprintf "%s: cannot satisfy clusterCapacity (+%d GiB) without growing the %d existing failure domain(s) beyond their current %d GiB each, but dynamic drive scaling for shared drives is disabled. Enable enableDynamicDriveScalingForSharedDrives, or set clusterCapacity to a value that the %d GiB failure-domain size divides evenly. The maximum capacity a single failure domain may hold is %d GiB (clusterCapacity raw ÷ (stripeWidth+redundancy+hotSpare) = %d ÷ %d)."
         [ArgS (pool_String p); ArgD (ui_delta x); ArgD (ui_numExisting x); ArgD (ui_T0 x); ArgD (ui_T0 x);
          ArgD (ui_maxPerFdCap x); ArgD desiredRaw; ArgD minFd])
      "drive capacity" (ui_delta x) (fixesGrowthDisabledOverProvision (ui_T0 x)).

(** Whether the grow is below [MinGrowthFraction], and the report of that case. *)
Definition grow_too_small (L T0 : Z) (cons : CapacityConstraints) : bool :=
  f_lt (f_of_int (L - T0)) (f_mul (MinGrowthFraction cons) (f_of_int T0)).

Definition grow_too_small_report (p : poolKind) (L : Z) (cons : CapacityConstraints) (x : increase_ctx) :
    InfeasibilityReport :=
  let kNeeded := CeilDiv (ui_delta x) (ui_T0 x) in
  let kAvail := freshCountAtLeast (ui_fresh x) (ui_T0 x) in
  let pct := int_of_float (f_add (f_div (f_mul (f_of_int 100) (f_of_int (L - ui_T0 x)))
                                        (f_of_int (ui_T0 x))) (f_const 5 10)) in
  pool_report p
    (Sprintf "%s: cannot satisfy clusterCapacity — need +%d GiB. Adding failure domains requires %d node(s) not already running a %s drive container with >=%d GiB free each (the uniform per-FD size), but only %d is/are available. The alternative — growing existing containers in place — would raise each by only %d%% (below minGrowthFraction=%.2f), so it is skipped. Resolve by: adding %d more node(s), or raising clusterCapacity by at least one %d GiB failure-domain chunk, or lowering minGrowthFraction."
       [ArgS (pool_String p); ArgD (ui_delta x); ArgD kNeeded; ArgS (pool_String p); ArgD (ui_T0 x);
        ArgD kAvail; ArgD pct; ArgF (MinGrowthFraction cons); ArgD (kNeeded - kAvail); ArgD (ui_T0 x)])
    "failure domains" (ui_delta x) (fixesGrowTooSmall (kNeeded - kAvail) (ui_T0 x) (MinGrowthFraction cons)).

(** Place, check feasibility, and note an over-provision when the plan is still feasible. *)
Definition place_and_finalize (p : poolKind) (desiredRaw minFd level : Z) (chosen : list fdGroup)
    (grown kFresh total : Z) (existingDrives : list ExistingContainer) (cons : CapacityConstraints)
    (x : increase_ctx) (w : world) (plan : CapacityPlan) : world * CapacityPlan :=
  let w := placeUniform p level chosen existingDrives cons w in
  let plan := finalizePoolFeasibility p desiredRaw minFd existingDrives w cons false plan in
  (w, if decide (Infeasible plan = "" /\ total > desiredRaw)
      then plan_add_over (overProvisionMsg p (ui_delta x) desiredRaw grown kFresh level total cons) plan
      else plan).

(** [planPoolUniformIncrease] *)
Definition planPoolUniformIncrease (p : poolKind) (desiredRaw minFd current : Z)
    (existingDrives : list ExistingContainer) (cons : CapacityConstraints)
    (w : world) (plan : CapacityPlan) : world * CapacityPlan :=
  let x := increase_context p desiredRaw minFd current existingDrives cons w in
  match find_cover p desiredRaw current existingDrives cons x with
  | Some (k, perFd, total) =>
      place_and_finalize p desiredRaw minFd perFd (takeFreshAtLevel (ui_fresh x) k perFd) 0 k total
        existingDrives cons x w plan
  | None =>
      match find_level desiredRaw minFd x with
      | None => (w, setInfeasible (no_level_report p x) plan)
      | Some best =>
          let kFresh := fn_N best - ui_numExisting x in
          if decide (fn_L best = ui_T0 x) then
            place_and_finalize p desiredRaw minFd (ui_T0 x) (takeFreshAtLevel (ui_fresh x) kFresh (ui_T0 x))
              0 kFresh (fn_total best) existingDrives cons x w plan
          else if AllowInPlaceGrowth cons then
            if grow_too_small (fn_L best) (ui_T0 x) cons then
              (w, setInfeasible (grow_too_small_report p (fn_L best) cons x) plan)
            else
              let chosen := existingFdsAsChosen p existingDrives (w_states w) cons ++
                            takeFreshAtLevel (ui_fresh x) kFresh (fn_L best) in
              place_and_finalize p desiredRaw minFd (fn_L best) chosen (ui_numExisting x) kFresh
                (fn_total best) existingDrives cons x w plan
          else (w, setInfeasible (growth_disabled_report p desiredRaw minFd x) plan)
      end
  end.

(** ** One pool *)

(** The tail of [planPool], after the heterogeneous fallback. *)
Definition planPool_branches (p : poolKind) (desiredRaw minFd targetFds current delta : Z)
    (existingDrives : list ExistingContainer) (cons : CapacityConstraints)
    (w : world) (plan : CapacityPlan) : world * CapacityPlan :=
  if decide (targetFds > 0) then
    planPoolExplicit p desiredRaw minFd targetFds existingDrives cons w plan
  else if decide (delta > 0 /\ poolExistingFds p existingDrives > 0) then
    planPoolUniformIncrease p desiredRaw minFd current existingDrives cons w plan
  else
    let '(_, w, plan) := planPoolFreshUniform p desiredRaw minFd existingDrives cons false w plan in
    (w, plan).

(** [planPool] *)
Definition planPool (p : poolKind) (desiredRaw minFd targetFds : Z)
    (existingDrives : list ExistingContainer) (cons : CapacityConstraints)
    (w : world) (plan : CapacityPlan) : world * CapacityPlan :=
  if decide (desiredRaw <= 0) then (w, plan)
  else
    let current := poolCurrent existingDrives p in
    let delta := desiredRaw - current in
    if decide (delta < 0) then
      if decide (current - desiredRaw > OverProvisionCapGiB desiredRaw cons)
      then (w, plan_add_shrink (shrinkMsg p desiredRaw current) plan) else (w, plan)
    else if negb (CapacityShort current desiredRaw cons) then (w, plan)
    else if bool_decide (targetFds = 0) &&
            detectImbalance (growChunk delta minFd cons) (poolAvg existingDrives p) cons then
      let '(placed, w, plan) := planPoolFreshUniform p desiredRaw minFd existingDrives cons true w plan in
      if placed then (w, plan)
      else planPool_branches p desiredRaw minFd targetFds current delta existingDrives cons w plan
    else planPool_branches p desiredRaw minFd targetFds current delta existingDrives cons w plan.

(** ** Lemmas: what planning a pool does to the plan *)

(** [finalizePoolFeasibility] keeps the plan feasible only if the pool is covered. *)
Lemma finalizePoolFeasibility_spec p desiredRaw minFd drives w cons b q :
  let q' := finalizePoolFeasibility p desiredRaw minFd drives w cons b q in
  plan_notes q q' /\
  (Infeasible q' = "" ->
   CapacityCoverTarget desiredRaw cons <= pool_placed p drives (w_growth w) (w_new w) b /\
   minFd <= Z.of_nat (size (finalPerFD p drives (w_growth w) (w_new w)))).
Proof.
  unfold finalizePoolFeasibility. set (s := Z.max 0 _). set (reason := poolFeasibility _ _ _ _ _ _ _).
  assert (Hr : reason = "" -> s <= 0 /\ minFd <= Z.of_nat (size (finalPerFD p drives (w_growth w) (w_new w)))).
  { unfold reason, poolFeasibility. case_decide.
    - destruct (AllowInPlaceGrowth cons); intros Hc; exfalso; revert Hc; fmt_nonempty.
    - case_decide; [intros Hc; exfalso; revert Hc; fmt_nonempty|]. lia. }
  case_decide as Hne.
  - destruct (if decide (s = 0) then _ else _) as [binding fixes]. simpl.
    split; [by apply plan_notes_infeasible|]. intros Hc. by destruct Hne.
  - simpl. split; [done|]. intros _.
    assert (He : reason = "") by (destruct reason; [done|by destruct Hne]).
    apply Hr in He. unfold s in He. lia.
Qed.

Section outcome.
Context (p : poolKind) (desiredRaw minFd targetFds : Z) (drives : list ExistingContainer).
Context (cons : CapacityConstraints).

(** Groups whose nodes are those of a fresh failure domain. *)
Definition from_fresh (w : world) (chosen : list fdGroup) : Prop :=
  Forall (fun g => exists g0, g0 ∈ orderFreshFdGroups p (w_states w) (freshExclusion drives p cons) cons /\
                              g_nodes g = g_nodes g0) chosen.

(** What each branch of [planPool] does: one uniform placement, notes in the plan, a feasible plan only
    with the pool covered, and fresh failure domains only when growth is disabled and no count is
    pinned. *)
Definition outcome (w : world) (q : CapacityPlan) (r : world * CapacityPlan) : Prop :=
  exists T chosen, r.1 = placeUniform p T chosen drives cons w /\ plan_notes q r.2 /\
    (Infeasible r.2 = "" -> exists b,
       CapacityCoverTarget desiredRaw cons <= pool_placed p drives (w_growth r.1) (w_new r.1) b /\
       minFd <= Z.of_nat (size (finalPerFD p drives (w_growth r.1) (w_new r.1)))) /\
    (AllowInPlaceGrowth cons = false -> targetFds = 0 -> from_fresh w chosen).

Lemma outcome_fail w q r : ir_Reason r <> "" -> outcome w q (w, setInfeasible r q).
Proof.
  intros Hr. exists 0, []. split; [done|]. split; [by apply plan_notes_infeasible|].
  split; [|constructor]. intros Hc. by destruct Hr.
Qed.

Lemma outcome_place w q T chosen b q' :
  plan_notes (finalizePoolFeasibility p desiredRaw minFd drives (placeUniform p T chosen drives cons w) cons b q) q' ->
  (AllowInPlaceGrowth cons = false -> targetFds = 0 -> from_fresh w chosen) ->
  outcome w q (placeUniform p T chosen drives cons w, q').
Proof.
  intros Hn Hf. destruct (finalizePoolFeasibility_spec p desiredRaw minFd drives
    (placeUniform p T chosen drives cons w) cons b q) as [Hq Hc].
  exists T, chosen. split; [done|]. split; [by etrans|]. split; [|done].
  simpl. intros Hi. exists b. apply Hc. by apply Hn.
Qed.

Lemma from_fresh_sub w chosen :
  chosen ⊆+ orderFreshFdGroups p (w_states w) (freshExclusion drives p cons) cons -> from_fresh w chosen.
Proof.
  intros Hsub. apply Forall_forall. intros g Hg. exists g. split; [|done].
  by eapply elem_of_submseteq.
Qed.

Lemma colocatedFirst_nodes groups prefer g :
  g ∈ colocatedFirst groups prefer -> exists g0, g0 ∈ groups /\ g_nodes g = g_nodes g0.
Proof.
  unfold colocatedFirst. case_decide; [by exists g|]. rewrite elem_of_app. intros [Hg|Hg].
  - apply list_elem_of_fmap in Hg as (g0 & -> & Hg). apply list_elem_of_filter in Hg as [_ Hg]. by exists g0.
  - apply list_elem_of_filter in Hg as [_ Hg]. by exists g.
Qed.

Lemma from_fresh_take w k level current :
  from_fresh w (takeFreshAtLevel (ui_fresh (increase_context p desiredRaw minFd current drives cons w)) k level).
Proof.
  apply Forall_forall. intros g Hg. simpl in Hg. rewrite takeFreshAtLevel_eq in Hg.
  apply elem_of_take in Hg as (i & Hi & _). apply list_elem_of_lookup_2 in Hi.
  rewrite fresh_tiers_perm in Hi. apply list_elem_of_filter in Hi as [_ Hi].
  by eapply colocatedFirst_nodes.
Qed.

Lemma selectUniform_fresh w prefer chosen T :
  selectUniform desiredRaw minFd (orderFreshFdGroups p (w_states w) (freshExclusion drives p cons) cons)
    prefer cons = Some (chosen, T) -> from_fresh w chosen.
Proof.
  intros H. apply from_fresh_sub. unfold selectUniform in H.
  apply first_some_Some in H as (l1 & N & l2 & _ & HN & _). destruct (forallb _ _); [|done].
  injection HN as <- <-. apply pick_hosting.
Qed.

(** A fresh uniform set is an outcome, or (as a fallback) nothing. *)
Lemma planPoolFreshUniform_spec isFallback w q :
  let '(placed, w', q') := planPoolFreshUniform p desiredRaw minFd drives cons isFallback w q in
  placed || negb isFallback = true /\ outcome w q (w', q') \/ isFallback = true /\ placed = false /\ w' = w /\ q' = q.
Proof.
  unfold planPoolFreshUniform. destruct (selectUniform _ _ _ _ _) as [[chosen T]|] eqn:Hsel.
  - left. split; [done|]. apply outcome_place with (b := true).
    + case_decide; [apply plan_notes_warnings|done].
    + intros _ _. by eapply selectUniform_fresh.
  - destruct isFallback; [by right|].
    destruct (uniformInfeasibleMsg _ _ _ _ _ _ _) as [[msg binding] shortfall] eqn:Hmsg.
    left. split; [done|].
    apply outcome_fail. simpl. change msg with ((msg, binding, shortfall).1.1). rewrite <- Hmsg.
    apply uniformInfeasibleMsg_nonempty.
Qed.

Lemma planPoolExplicit_spec w q :
  targetFds <> 0 -> outcome w q (planPoolExplicit p desiredRaw minFd targetFds drives cons w q).
Proof.
  intros Ht. unfold planPoolExplicit. destruct (resolveExactNewFds _ _ _ _ _) as [k reason].
  case_decide as Hr; [by apply outcome_fail|].
  destruct (if AllowInPlaceGrowth cons then _ else _) as [|[fd cap] rest].
  - by apply outcome_place with (b := false).
  - apply outcome_fail. simpl. fmt_nonempty.
Qed.

Lemma place_and_finalize_spec level chosen grown kFresh total x w q :
  (AllowInPlaceGrowth cons = false -> from_fresh w chosen) ->
  outcome w q (place_and_finalize p desiredRaw minFd level chosen grown kFresh total drives cons x w q).
Proof.
  intros Hf. unfold place_and_finalize. apply outcome_place with (b := false); [|auto].
  case_decide; [apply plan_notes_over|done].
Qed.

Lemma planPoolUniformIncrease_spec current w q :
  outcome w q (planPoolUniformIncrease p desiredRaw minFd current drives cons w q).
Proof.
  unfold planPoolUniformIncrease. destruct (find_cover _ _ _ _ _ _) as [[[k perFd] total]|].
  { apply place_and_finalize_spec. intros _. apply from_fresh_take. }
  destruct (find_level _ _ _) as [best|]; [|apply outcome_fail; simpl; fmt_nonempty].
  case_decide; [apply place_and_finalize_spec; intros _; apply from_fresh_take|].
  destruct (AllowInPlaceGrowth cons) eqn:Hg.
  - destruct (grow_too_small _ _ _); [apply outcome_fail; simpl; fmt_nonempty|].
    apply place_and_finalize_spec. congruence.
  - apply outcome_fail. unfold growth_disabled_report. case_decide; simpl; fmt_nonempty.
Qed.

(** What [planPool] does: nothing to do (with the reason why), or an outcome. *)
Lemma planPool_spec w q :
  let r := planPool p desiredRaw minFd targetFds drives cons w q in
  outcome w q r /\ desiredRaw > 0 /\ CapacityShort (poolCurrent drives p) desiredRaw cons = true \/
  r.1 = w /\ plan_notes q r.2 /\ Infeasible r.2 = Infeasible q /\
  (desiredRaw <= 0 \/ desiredRaw < poolCurrent drives p \/
   CapacityShort (poolCurrent drives p) desiredRaw cons = false).
Proof.
  unfold planPool. case_decide as Hd; [right; repeat split; auto; done|]. set (current := poolCurrent drives p).
  case_decide as Hn; [right; case_decide; simpl; repeat split; auto; lia|].
  destruct (CapacityShort current desiredRaw cons) eqn:Hs; simpl; [|right; repeat split; auto; done].
  left. split; [|by split; [lia|]].
  assert (Hbr : outcome w q (planPool_branches p desiredRaw minFd targetFds current (desiredRaw - current)
    drives cons w q)).
  { unfold planPool_branches. case_decide; [apply planPoolExplicit_spec; lia|].
    case_decide; [apply planPoolUniformIncrease_spec|].
    pose proof (planPoolFreshUniform_spec false w q) as Hf.
    destruct (planPoolFreshUniform _ _ _ _ _ _ _ _) as [[placed w'] q']. naive_solver. }
  case_match; [|done].
  pose proof (planPoolFreshUniform_spec true w q) as Hf.
  destruct (planPoolFreshUniform _ _ _ _ _ _ _ _) as [[placed w'] q']. destruct placed; naive_solver.
Qed.
End outcome.

(** A fresh failure domain has no node with a drive container when growth is disabled. *)
Lemma from_fresh_unused p drives cons w chosen g n :
  states_named (w_states w) -> AllowInPlaceGrowth cons = false ->
  (forall c, c ∈ drives -> ec_TlcGiB c > 0 \/ ec_QlcGiB c > 0) ->
  from_fresh p drives cons w chosen -> g ∈ chosen -> n ∈ g_nodes g -> existing_on_node drives !! n = None.
Proof.
  intros Hn Ha Hcap Hf Hg Hin. unfold from_fresh in Hf. rewrite Forall_forall in Hf.
  destruct (Hf g Hg) as (g0 & Hg0 & Heq). rewrite Heq in Hin.
  destruct (elem_of_orderFreshFdGroups _ _ _ _ _ _ Hn Hg0 Hin) as (ns & Hns & Hused & _).
  destruct (existing_on_node drives !! n) as [c|] eqn:E; [|done]. exfalso.
  apply existing_on_node_spec in E as (Hc & Hnode & _ & Hne). apply Hused. rewrite (Hn _ _ Hns).
  unfold freshExclusion. rewrite Ha. apply elem_of_list_to_set, list_elem_of_fmap.
  exists c. split; [done|]. apply list_elem_of_filter. rewrite Hnode. auto.
Qed.

(** Planning a pool with growth disabled keeps the growth records. *)
Lemma planPool_growth_kept p desiredRaw minFd drives cons w q :
  AllowInPlaceGrowth cons = false -> states_named (w_states w) ->
  (forall c, c ∈ drives -> ec_TlcGiB c > 0 \/ ec_QlcGiB c > 0) ->
  w_growth (planPool p desiredRaw minFd 0 drives cons w q).1 = w_growth w.
Proof.
  intros Ha Hn Hcap.
  destruct (planPool_spec p desiredRaw minFd 0 drives cons w q) as [[Ho _]|[-> _]]; [|done].
  destruct Ho as (T & chosen & -> & _ & _ & Hf). apply placeUniform_growth.
  intros g n. eapply from_fresh_unused; eauto.
Qed.

(** ** Properties *)

(** What [find_cover] accepts: [k] new failure domains of [perFd] GiB. *)
Definition cover_ok (desiredRaw current : Z) (cons : CapacityConstraints) (x : increase_ctx) (k perFd total : Z) : Prop :=
  MinChunkSizeGiB cons <= perFd <= ui_maxPerFdCap x /\ k <= freshCountAtLeast (ui_fresh x) perFd /\
  total = current + k * perFd /\ desiredRaw <= total <= desiredRaw + ui_overshootCap x.

(** The create-new cover of a capacity increase uses the fewest new failure domains of the scanned
    range that work: each is at least a minimum chunk and at most the per-domain cap, enough fresh
    failure domains can host one, and the new total covers the desired capacity within the
    over-provision cap. *)
Theorem find_cover_spec p desiredRaw minFd current drives cons w :
  current < desiredRaw ->
  let x := increase_context p desiredRaw minFd current drives cons w in
  match find_cover p desiredRaw current drives cons x with
  | Some (k, perFd, total) => 1 <= k /\ cover_ok desiredRaw current cons x k perFd total /\
      (forall k', Z.max 1 (CeilDiv (ui_delta x) (ui_maxPerFdCap x)) <= k' < k ->
         try_cover p desiredRaw current drives cons x k' = None)
  | None => True
  end.
Proof.
  intros Hd x. unfold find_cover. case_decide as Hcap; [|done].
  destruct (first_some _ _) as [[[k perFd] total]|] eqn:Hf; [|done].
  apply first_some_Some in Hf as (l1 & k' & l2 & Hl & Hk & Hmin).
  assert (Hr : Z.max 1 (CeilDiv (ui_delta x) (ui_maxPerFdCap x)) <= k').
  { apply (elem_of_loop_range _ (Z.min (CeilDiv (ui_delta x) (ui_T0 x)) (len (ui_fresh x)))).
    rewrite Hl. set_solver. }
  unfold try_cover in Hk. set (pf := if decide (_ < MinChunkSizeGiB cons) then _ else _) in Hk.
  case_decide as H1; [done|]. destruct (_ && _); [done|]. case_decide as H2; [done|].
  case_decide as H3; [done|]. injection Hk as <- <- <-.
  assert (Hpf : MinChunkSizeGiB cons <= pf /\ CeilDiv (ui_delta x) k' <= pf) by (unfold pf; case_decide; lia).
  pose proof (CeilDiv_cover (ui_delta x) k'). simpl ui_delta in *.
  split; [lia|]. split; [unfold cover_ok; nia|].
  intros k Hk. rewrite Forall_forall in Hmin. apply Hmin. by eapply loop_range_split.
Qed.

(** Two nodes of their own failure domains, the first with a 100 GiB TLC container. *)
Definition named_node (n : string) : nodeState := {|
  nc := {| nc_NodeName := n; nc_TlcGiB := 6144; nc_QlcGiB := 0; nc_AllocatableCPU := 4;
           nc_IsHt := true; nc_FullPcpusOnly := false; nc_AvailableHugepagesMiB := 4000;
           nc_AvailableMemoryMiB := 12000; nc_FDValue := n; nc_HasDeletingDriveContainer := false;
           nc_IneligibleReason := "" |};
  tlcFree := 6144; qlcFree := 0; coresFree := 4; hugepagesMiB := 4000; memoryMiB := 12000;
  hasDeletingDriveContainer := false |}.

Definition pool_world : world := {|
  w_states := {[ "n1" := named_node "n1"; "n2" := named_node "n2" ]}; w_growth := ∅; w_new := ∅ |}.

Lemma find_cover_spec_witness :
  let x := increase_context poolTLC 700 1 100 [witness_drive] default_cons pool_world in
  find_cover poolTLC 700 100 [witness_drive] default_cons x = Some (1, 600, 700) /\
  cover_ok 700 100 default_cons x 1 600 700.
Proof.
  intros x.
  assert (Hx : find_cover poolTLC 700 100 [witness_drive] default_cons x = Some (1, 600, 700))
    by (vm_compute; reflexivity).
  split; [exact Hx|].
  pose proof (find_cover_spec poolTLC 700 1 100 [witness_drive] default_cons pool_world) as H.
  fold x in H. cbv zeta in H. rewrite Hx in H. apply H. lia.
Defined.

(** The order of [find_level]: a smaller level, then a smaller total. *)
Definition level_le (a b : feasN) : Prop :=
  fn_L a < fn_L b \/ fn_L a = fn_L b /\ fn_total a <= fn_total b.

Lemma find_level_fold desiredRaw x l best r :
  fold_left (fun best N => match try_level desiredRaw x N with Some c => better best c | None => best end) l best = r ->
  (forall c N, best = Some c \/ N ∈ l /\ try_level desiredRaw x N = Some c -> exists b, r = Some b /\ level_le b c) /\
  (forall b, r = Some b -> best = Some b \/ exists N, N ∈ l /\ try_level desiredRaw x N = Some b).
Proof.
  revert best. induction l as [|N l IH]; intros best; simpl.
  { intros ->. split; [|by left]. intros c N [->|[H _]]; [|set_solver]. exists c. split; [done|]. right. lia. }
  set (best' := match try_level desiredRaw x N with Some c => better best c | None => best end).
  intros Hr. destruct (IH best' Hr) as [Hle Hin]. clear IH Hr.
  assert (Hstep : forall c, best = Some c \/ try_level desiredRaw x N = Some c ->
    exists b, best' = Some b /\ level_le b c).
  { intros c Hc. unfold best', better, level_le. destruct (try_level desiredRaw x N) as [d|], best as [b|];
      try case_decide; destruct Hc as [Hc|Hc]; simplify_eq; eexists; (split; [reflexivity|]); lia. }
  split.
  - intros c N' Hc.
    assert (Hc' : (best = Some c \/ try_level desiredRaw x N = Some c) \/ (N' ∈ l /\ try_level desiredRaw x N' = Some c)).
    { destruct Hc as [Hc|[HN Hc]]; [auto|]. apply elem_of_cons in HN as [->|HN]; auto. }
    destruct Hc' as [Hc'|Hc']; [|by apply (Hle c N'); right].
    destruct (Hstep c Hc') as (b & Hb & Hbc). destruct (Hle b N) as (b' & Hb' & Hbb); [by left|].
    exists b'. split; [done|]. unfold level_le in *. lia.
  - intros b Hb. destruct (Hin b Hb) as [Hb'|(N' & HN & Ht)]; [|right; exists N'; split; [by right|done]].
    unfold best', better in Hb'. destruct (try_level desiredRaw x N) as [d|] eqn:Hd; [|by left].
    destruct best as [b0|]; [case_decide|]; simplify_eq; auto;
      right; exists N; (split; [by left|done]).
Qed.

Lemma try_level_bounds desiredRaw x N c :
  try_level desiredRaw x N = Some c ->
  fn_N c = N /\ ui_T0 x <= fn_L c /\ desiredRaw <= fn_total c <= desiredRaw + ui_overshootCap x.
Proof.
  unfold try_level. case_decide; [done|]. destruct (existingReach _ _); [|done].
  case_decide; [done|]. case_decide; [done|]. intros [= <-]. simpl. lia.
Qed.

(** The grow phase of a capacity increase picks the best uniform level: among the numbers of
    failure domains it scans, no feasible one has a smaller level, or the same level with less
    over-provision; the chosen total covers the desired capacity within the over-provision cap; and
    it reports no level only when none is feasible. *)
Theorem find_level_spec desiredRaw minFd x :
  match find_level desiredRaw minFd x with
  | Some best =>
      try_level desiredRaw x (fn_N best) = Some best /\
      Z.max minFd (ui_numExisting x) <= fn_N best <= ui_numExisting x + len (ui_fresh x) /\
      ui_T0 x <= fn_L best /\ desiredRaw <= fn_total best <= desiredRaw + ui_overshootCap x /\
      (forall N c, Z.max minFd (ui_numExisting x) <= N <= ui_numExisting x + len (ui_fresh x) ->
         try_level desiredRaw x N = Some c -> level_le best c)
  | None =>
      forall N, Z.max minFd (ui_numExisting x) <= N <= ui_numExisting x + len (ui_fresh x) ->
        try_level desiredRaw x N = None
  end.
Proof.
  destruct (find_level desiredRaw minFd x) as [best|] eqn:Hf; unfold find_level in Hf;
    apply find_level_fold in Hf as [Hle Hin].
  - destruct (Hin best eq_refl) as [?|(N & HN & Ht)]; [done|].
    apply elem_of_loop_range in HN. destruct (try_level_bounds _ _ _ _ Ht) as (<- & ? & ?).
    repeat split; try done; try lia. intros N c Hr Hc. apply elem_of_loop_range in Hr.
    destruct (Hle c N) as (b & [= <-] & Hbc); [by right|done].
  - intros N HN. destruct (try_level desiredRaw x N) as [c|] eqn:Hc; [|done].
    apply elem_of_loop_range in HN. destruct (Hle c N) as (b & Hb & _); [by right|done].
Qed.

(** With in-place growth disabled and no pinned container count, planning a pool grows no existing
    container, whatever branch it takes: the growth records are left as they are. *)
Theorem planPool_growth_disabled p desiredRaw minFd drives cons w q :
  AllowInPlaceGrowth cons = false -> states_named (w_states w) ->
  (forall c, c ∈ drives -> ec_TlcGiB c > 0 \/ ec_QlcGiB c > 0) ->
  w_growth (planPool p desiredRaw minFd 0 drives cons w q).1 = w_growth w.
Proof. apply planPool_growth_kept. Qed.

Lemma planPool_growth_disabled_witness :
  let cons := default_cons in
  let r := planPool poolTLC 700 1 0 [witness_drive] cons pool_world empty_plan in
  w_growth r.1 = ∅ /\ new_cap (w_new r.1) "n2" poolTLC = 600.
Proof.
  intros cons r. split; [|vm_compute; reflexivity].
  apply (planPool_growth_disabled poolTLC 700 1 [witness_drive] cons pool_world empty_plan).
  - reflexivity.
  - apply (bool_decide_unpack (states_named (w_states pool_world))). vm_compute. exact I.
  - intros c Hc. apply list_elem_of_singleton in Hc as ->. left. reflexivity.
Defined.
