(* ===== verification/ComputePlan.v ===== *)
(** * Compute planning (planner.go, [planCompute])

    After the drives are placed, the compute containers are sized from the headroom the drives
    left: the existing ones are grown or frozen in place, and the shortfall is covered by new ones,
    one per node, over enough failure domains. *)

From S2P Require Import Prelude Float64 Fmt Types Cpu Sizing NodeState Infeasibility ComputeLayout.

(** [math.MaxInt] of a 64-bit platform. *)
Definition MaxInt : Z := 2 ^ 63 - 1.

(** The budgets of a node after a compute container took CPU and hugepages. *)
Definition take_compute (ns : nodeState) (cpu hp : Z) : nodeState := charge ns poolTLC 0 cpu hp 0.

(** A report of the compute stage. *)
Definition compute_report (reason binding : string) : InfeasibilityReport := {|
  ir_Reason := reason; ir_Pool := "compute"; ir_Binding := binding; ir_ShortfallGiB := 0;
  ir_RejectedNodes := []; ir_Fixes := fixesCompute |}.

(** ** Existing compute containers *)

(** [laidOut] *)
Record laidOut := { lo_spec : ComputeContainerSpec; lo_frozen : bool }.

(** The results of [layOutExistingCompute], and the node states it charges. *)
Record layOutState := {
  los_existing : list laidOut;
  los_pinned : gset string;
  los_cores : Z;
  los_states : nodeStates;
}.

(** Whether an existing compute stays at its current size. *)
Definition frozen_in_place (ec : ExistingComputeContainer) (ns : nodeState) (cores perContainerHP : Z)
    (cons : CapacityConstraints) : bool :=
  let coresDelta := cores - ecc_NumCores ec in
  let hpDelta := perContainerHP - ecc_HugepagesMiB ec in
  ecc_Unscheduled ec || negb (AllowInPlaceGrowth cons) ||
  bool_decide (coresDelta > 0 /\ coresFree ns < cpuCost ns (CpuPolicy cons) coresDelta false) ||
  bool_decide (hpDelta > 0 /\ hugepagesMiB ns < hpDelta).

(** The loop body of [layOutExistingCompute]. *)
Definition lay_out_one (cores perContainerHP : Z) (cons : CapacityConstraints) (st : layOutState)
    (ec : ExistingComputeContainer) : layOutState :=
  if decide (ecc_Node ec = "") then st
  else match los_states st !! ecc_Node ec with
  | None => st
  | Some ns =>
      let pinned := {[ecc_Node ec]} ∪ los_pinned st in
      let coresDelta := cores - ecc_NumCores ec in
      let hpDelta := perContainerHP - ecc_HugepagesMiB ec in
      if frozen_in_place ec ns cores perContainerHP cons then {|
        los_existing := los_existing st ++ [{|
          lo_spec := {| ccs_Node := ecc_Node ec; ccs_NumCores := ecc_NumCores ec;
                        ccs_HugepagesMiB := ecc_HugepagesMiB ec |};
          lo_frozen := true |}];
        los_pinned := pinned;
        los_cores := los_cores st + ecc_NumCores ec;
        los_states := los_states st |}
      else
        let cpu := if decide (coresDelta > 0) then cpuCost ns (CpuPolicy cons) coresDelta false else 0 in
        let hp := if decide (hpDelta > 0) then hpDelta else 0 in {|
        los_existing := los_existing st ++ [{|
          lo_spec := {| ccs_Node := ecc_Node ec; ccs_NumCores := cores;
                        ccs_HugepagesMiB := perContainerHP |};
          lo_frozen := false |}];
        los_pinned := pinned;
        los_cores := los_cores st + cores;
        los_states := <[ecc_Node ec := take_compute ns cpu hp]> (los_states st) |}
  end.

(** [layOutExistingCompute] *)
Definition layOutExistingCompute (existingCompute : list ExistingComputeContainer) (states : nodeStates)
    (cores perContainerHP : Z) (cons : CapacityConstraints) : layOutState :=
  fold_left (lay_out_one cores perContainerHP cons) existingCompute
    {| los_existing := []; los_pinned := ∅; los_cores := 0; los_states := states |}.

(** ** Nodes that can take a new compute container *)

(** [fdOf], a closure of [planCompute] over the node states. *)
Definition fd_of (states : nodeStates) (node : string) : string := nc_FDValue (nc (states !!! node)).

(** A free node that holds a whole uniform container. *)
Definition fit_node (states : nodeStates) (pinned : gset string) (cores perContainerHP : Z)
    (cons : CapacityConstraints) (node : string) : Prop :=
  node ∉ pinned /\
  match states !! node with
  | None => False
  | Some ns => cpuCost ns (CpuPolicy cons) cores true <= coresFree ns /\ perContainerHP <= hugepagesMiB ns
  end.

#[export] Instance fit_node_dec states pinned cores hp cons node :
  Decision (fit_node states pinned cores hp cons node).
Proof. unfold fit_node. destruct (states !! node); apply _. Defined.

(** [orderFitNodesByFreshFD] *)
Definition orderFitNodesByFreshFD (nodes : list string) (states : nodeStates)
    (pinned coveredFDs : gset string) (cores perContainerHP : Z) (fdOf : string -> string)
    (cons : CapacityConstraints) : list string :=
  let headroomOf := fun node => coresFree (states !!! node) in
  let fit := filter (fit_node states pinned cores perContainerHP cons) nodes in
  let freshFit := filter (fun node => fdOf node ∉ coveredFDs) fit in
  let coveredFit := filter (fun node => fdOf node ∈ coveredFDs) fit in
  orderNodesByFDSpread freshFit headroomOf fdOf ++ orderNodesByFDSpread coveredFit headroomOf fdOf.

(** ** [planCompute] *)

(** The eligible nodes with a state, sorted. *)
Definition compute_nodes (computeNodes : gmap string bool) (states : nodeStates) : list string :=
  sort_strings (fst <$> filter (fun ne => ne.2 = true /\ is_Some (states !! ne.1)) (map_to_list computeNodes)).

(** The map [existingComputeCPU]: the CPU the existing computes of a node already take. *)
Definition existingComputeCPU (existingCompute : list ExistingComputeContainer) (states : nodeStates)
    (cons : CapacityConstraints) : gmap string Z :=
  fold_left (fun m ec =>
    if decide (ecc_Node ec = "") then m
    else match states !! ecc_Node ec with
         | Some ns => map_add m (ecc_Node ec) (cpuCost ns (CpuPolicy cons) (ecc_NumCores ec) true)
         | None => m
         end) existingCompute ∅.

(** The keys of the map [hasExistingCompute]. *)
Definition hasExistingCompute (existingCompute : list ExistingComputeContainer) (states : nodeStates) :
    gset string :=
  list_to_set (ecc_Node <$>
    filter (fun ec => ecc_Node ec <> "" /\ is_Some (states !! ecc_Node ec)) existingCompute).

(** The slice [coreHeadroom]. *)
Definition compute_headroom (nodes : list string) (existingCPU : gmap string Z) (states : nodeStates)
    (cons : CapacityConstraints) : list Z :=
  (fun node => match states !! node with
               | Some ns => dataCoresCapacity ns (CpuPolicy cons) (default 0 (existingCPU !! node)) true
               | None => 0
               end) <$> nodes.

(** The slice [nodeHugepagesMiB]. *)
Definition compute_hugepages (nodes : list string) (hasExisting : gset string) (states : nodeStates) :
    list Z :=
  (fun node => if decide (node ∈ hasExisting) then MaxInt
               else match states !! node with Some ns => hugepagesMiB ns | None => 0 end) <$> nodes.

(** The loop that extends the new nodes until enough failure domains are spanned: it walks the fit
    nodes after the first [nNew]. *)
Fixpoint extend_span (fdOf : string -> string) (minFds : Z) (rest : list string) (nNew : Z)
    (spanFDs : gset string) : Z :=
  match rest with
  | [] => nNew
  | node :: rest =>
      if decide (Z.of_nat (size spanFDs) < minFds)
      then extend_span fdOf minFds rest (nNew + 1) ({[fdOf node]} ∪ spanFDs)
      else nNew
  end.

(** The reservation loop: one container on each node, the first [rem] of them with an extra core.
    [inl] carries the report of a node that cannot host its container. Both carry the node states the
    loop has charged so far. *)
Fixpoint reserve_new (hpFor : Z -> Z) (base rem i : Z) (nodes : list string) (cons : CapacityConstraints)
    (states : nodeStates) : (InfeasibilityReport + list ComputeContainerSpec) * nodeStates :=
  match nodes with
  | [] => (inr [], states)
  | node :: nodes =>
      let cCores := if decide (i < rem) then base + 1 else base in
      let ns := states !!! node in
      let cHP := hpFor cCores in
      let cCPU := cpuCost ns (CpuPolicy cons) cCores true in
      if decide (coresFree ns < cCPU \/ hugepagesMiB ns < cHP) then
        (inl (compute_report
          (Sprintf "compute: free compute node %s cannot host a %d-core compute container (%d physical CPU + %d MiB hugepages free)"
             [ArgS node; ArgD cCores; ArgD (coresFree ns); ArgD (hugepagesMiB ns)]) "hugepages"), states)
      else
        match reserve_new hpFor base rem (i + 1) nodes cons (<[node := take_compute ns cCPU cHP]> states) with
        | (inl r, states) => (inl r, states)
        | (inr l, states) =>
            (inr ({| ccs_Node := node; ccs_NumCores := cCores; ccs_HugepagesMiB := cHP |} :: l), states)
        end
  end.

(** The final layout: hugepages re-derived for all but the frozen, sorted by node. *)
Definition final_layout (hpFor : Z -> Z) (existing : list laidOut) (newContainers : list ComputeContainerSpec) :
    list ComputeContainerSpec :=
  sort_by (fun a b => str_lt (ccs_Node a) (ccs_Node b))
    (((fun lo => if lo_frozen lo then lo_spec lo
                 else {| ccs_Node := ccs_Node (lo_spec lo); ccs_NumCores := ccs_NumCores (lo_spec lo);
                         ccs_HugepagesMiB := hpFor (ccs_NumCores (lo_spec lo)) |}) <$> existing)
     ++ newContainers).

(** [planCompute] from the point where the layout is derived. *)
Definition place_compute (desired : DesiredCapacity) (minComputeFds count cores : Z)
    (existingCompute : list ExistingComputeContainer) (nodes : list string) (states : nodeStates)
    (cons : CapacityConstraints) (plan : CapacityPlan) : nodeStates * CapacityPlan :=
  let hugepagesFor := fun count cores =>
    ComputeContainerHugepagesMiB (TlcRawGiB desired) (QlcRawGiB desired) count cores cons in
  let perContainerHP := hugepagesFor count cores in
  let st := layOutExistingCompute existingCompute states cores perContainerHP cons in
  let existing := los_existing st in
  let states := los_states st in
  let fdOf := fd_of states in
  let shortfall := Z.max (count * cores - los_cores st) 0 in
  let coveredFDs := list_to_set ((fun lo => fdOf (ccs_Node (lo_spec lo))) <$> existing) in
  let fitNodes := orderFitNodesByFreshFD nodes states (los_pinned st) coveredFDs cores perContainerHP fdOf cons in
  let nNew := if decide (shortfall > 0) then CeilDiv shortfall cores else 0 in
  if decide (nNew > len fitNodes) then
    (states, setInfeasible (compute_report
      (Sprintf "compute: cannot place %d new compute container(s) to cover the %d-core shortfall — only %d free fitting compute node(s) (each holds up to %d cores + %d MiB hugepages)"
         [ArgD nNew; ArgD shortfall; ArgD (len fitNodes); ArgD cores; ArgD perContainerHP]) "cores") plan)
  else
    let spanFDs := coveredFDs ∪ list_to_set (fdOf <$> take (Z.to_nat nNew) fitNodes) in
    let nNew := extend_span fdOf minComputeFds (drop (Z.to_nat nNew) fitNodes) nNew spanFDs in
    let newNodes := take (Z.to_nat nNew) fitNodes in
    let reason := computeFDFeasibility minComputeFds coveredFDs newNodes fdOf in
    if decide (reason <> "") then
      (states, setInfeasible (compute_report (String.append "compute: " reason) "failure domains") plan)
    else
      let splitCores := Z.max shortfall nNew in
      let totalCount := len existing + nNew in
      match reserve_new (hugepagesFor totalCount) (splitCores `quot` nNew) (splitCores `rem` nNew) 0
              newNodes cons states with
      | (inl report, states) => (states, setInfeasible report plan)
      | (inr newContainers, states) =>
          let layout := final_layout (hugepagesFor totalCount) existing newContainers in
          (states, plan_set_compute totalCount cores (ccs_Node <$> layout) layout plan)
      end.

(** [planCompute]; [None] is a nil [computeNodes]. *)
Definition planCompute (desired : DesiredCapacity) (scheme : ProtectionScheme)
    (existingCompute : list ExistingComputeContainer) (computeNodes : option (gmap string bool))
    (states : nodeStates) (cons : CapacityConstraints) (plan : CapacityPlan) : nodeStates * CapacityPlan :=
  match computeNodes with
  | None =>
      (states, setInfeasible {| ir_Reason := "internal: compute node set not provided"; ir_Pool := "compute";
                       ir_Binding := ""; ir_ShortfallGiB := 0; ir_RejectedNodes := []; ir_Fixes := [] |} plan)
  | Some computeNodes =>
      let nodes := compute_nodes computeNodes states in
      let coreHeadroom := compute_headroom nodes (existingComputeCPU existingCompute states cons) states cons in
      let nodeHugepagesMiB := compute_hugepages nodes (hasExistingCompute existingCompute states) states in
      let r := deriveComputeLayout (ComputeContainers desired) (ComputeCores desired)
                 (plan_RequiredComputeCores plan) (MinFdNum scheme) (MaxCoresPerContainer cons)
                 coreHeadroom (Some nodeHugepagesMiB)
                 (Some (fun count cores =>
                    ComputeContainerHugepagesMiB (TlcRawGiB desired) (QlcRawGiB desired) count cores cons)) in
      let plan := plan_add_warnings (lr_warnings r) plan in
      if decide (lr_infeasible r <> "") then
        (states, setInfeasible (compute_report (String.append "compute: " (lr_infeasible r)) (lr_binding r)) plan)
      else place_compute desired (MinFdNum scheme) (lr_count r) (lr_cores r) existingCompute nodes
             states cons plan
  end.

(** ** Lemmas: reservations *)

Lemma node_ok_take_compute ns cpu hp :
  node_ok ns -> cpu <= coresFree ns -> hp <= hugepagesMiB ns -> node_ok (take_compute ns cpu hp).
Proof.
  intros Hok Hc Hh. pose proof Hok as (? & _ & _ & _ & ?). by apply node_ok_charge.
Qed.

Lemma reserve_new_states_ok hpFor base rem i nodes cons states :
  states_ok states -> states_ok (reserve_new hpFor base rem i nodes cons states).2.
Proof.
  revert i states. induction nodes as [|node nodes IH]; intros i states Hok; simpl; [done|].
  case_decide as Hd; [done|].
  match goal with |- context [reserve_new _ _ _ _ _ _ ?s] => set (s' := s) end.
  assert (Hs' : states_ok s').
  { apply map_Forall_insert_2; [|done]. apply node_ok_take_compute; [by apply states_ok_total|lia|lia]. }
  specialize (IH (i + 1) s' Hs'). by destruct (reserve_new _ _ _ _ _ _ s') as [[r|l] states'].
Qed.

(** The containers reserved are the even shares, one on each node. *)
Lemma reserve_new_shares hpFor base rem i nodes cons states l states' :
  reserve_new hpFor base rem i nodes cons states = (inr l, states') ->
  (fun c => (ccs_Node c, ccs_NumCores c)) <$> l = host_shares base rem i nodes.
Proof.
  revert i states l. induction nodes as [|node nodes IH]; intros i states l; simpl; [by intros [= <- _]|].
  case_decide as Hd; [done|].
  match goal with |- context [reserve_new _ _ _ _ _ _ ?s] => set (s' := s) end.
  destruct (reserve_new _ _ _ _ _ _ s') as [[r|l'] states''] eqn:Hr; [done|].
  intros [= <- ->]. simpl. f_equal. by eapply IH.
Qed.

Lemma reserve_new_reason hpFor base rem i nodes cons states r states' :
  reserve_new hpFor base rem i nodes cons states = (inl r, states') ->
  ir_Reason r <> "" /\ ir_Binding r = "hugepages".
Proof.
  revert i states. induction nodes as [|node nodes IH]; intros i states; simpl; [done|].
  case_decide; [intros [= <- _]; simpl; split; [fmt_nonempty|done]|].
  match goal with |- context [reserve_new _ _ _ _ _ _ ?s] => set (s' := s) end.
  destruct (reserve_new _ _ _ _ _ _ s') as [[r'|l'] states''] eqn:Hr; [|done].
  intros [= -> ->]. by eapply IH.
Qed.

(** Nodes that each hold the largest share host every container. *)
Lemma reserve_new_fits hpFor base rem i nodes cons states :
  NoDup nodes ->
  (forall node s, (node, s) ∈ host_shares base rem i nodes ->
     cpuCost (states !!! node) (CpuPolicy cons) s true <= coresFree (states !!! node) /\
     hpFor s <= hugepagesMiB (states !!! node)) ->
  exists l states', reserve_new hpFor base rem i nodes cons states = (inr l, states').
Proof.
  revert i states. induction nodes as [|node nodes IH]; intros i states Hnd Hfit; simpl; [eauto|].
  apply NoDup_cons in Hnd as [Hn Hnd].
  destruct (Hfit node (if decide (i < rem) then base + 1 else base)) as [Hc Hh]; [by left|].
  rewrite decide_False by lia.
  match goal with |- context [reserve_new _ _ _ _ _ _ ?s] => set (s' := s) end.
  destruct (IH (i + 1) s' Hnd) as (l & states' & ->); [|eauto].
  intros node' s Hin. assert (node <> node').
  { intros <-. by apply Hn, (host_shares_elem base rem (i + 1) nodes node s). }
  unfold s'. rewrite lookup_total_insert_ne by done. apply Hfit. by right.
Qed.

(** ** Lemmas: existing compute containers *)

(** The existing computes that are laid out: those on a known node. *)
Definition placed_compute (existingCompute : list ExistingComputeContainer) (states : nodeStates) :
    list ExistingComputeContainer :=
  filter (fun ec => ecc_Node ec <> "" /\ is_Some (states !! ecc_Node ec)) existingCompute.

Definition lo_node (lo : laidOut) : string := ccs_Node (lo_spec lo).
Definition lo_cores (lo : laidOut) : Z := ccs_NumCores (lo_spec lo).

Record layout_inv (states0 : nodeStates) (done : list ExistingComputeContainer) (st : layOutState) : Prop := {
  li_nc : forall n, nc <$> los_states st !! n = nc <$> states0 !! n;
  li_cores : los_cores st = sumZ (lo_cores <$> los_existing st);
  li_pinned : los_pinned st = list_to_set (lo_node <$> los_existing st);
  li_nodes : lo_node <$> los_existing st = ecc_Node <$> placed_compute done states0;
}.

Lemma layOutExistingCompute_inv existing states cores hp cons :
  layout_inv states existing (layOutExistingCompute existing states cores hp cons).
Proof.
  unfold layOutExistingCompute.
  induction existing as [|ec existing IH] using rev_ind; [by constructor|].
  rewrite fold_left_app. simpl. set (st := fold_left _ existing _) in *.
  assert (Hlk : is_Some (los_states st !! ecc_Node ec) <-> is_Some (states !! ecc_Node ec)).
  { rewrite <- !(fmap_is_Some nc), (li_nc _ _ _ IH). done. }
  assert (Hskip : ~ (ecc_Node ec <> "" /\ is_Some (states !! ecc_Node ec)) ->
    placed_compute (existing ++ [ec]) states = placed_compute existing states).
  { intros H. unfold placed_compute. rewrite filter_app, filter_cons, decide_False by done. by rewrite app_nil_r. }
  assert (Hkeep : ecc_Node ec <> "" -> is_Some (states !! ecc_Node ec) ->
    placed_compute (existing ++ [ec]) states = placed_compute existing states ++ [ec]).
  { intros. unfold placed_compute. by rewrite filter_app, filter_cons, decide_True by done. }
  unfold lay_out_one. case_decide as He; [constructor; try apply IH; by rewrite Hskip by tauto; apply IH|].
  destruct (los_states st !! ecc_Node ec) as [ns|] eqn:Hns.
  2:{ constructor; try apply IH. rewrite Hskip; [apply IH|]. rewrite <- Hlk. intros [_ H]. by apply is_Some_None in H. }
  specialize (Hkeep He (proj1 Hlk (ex_intro _ ns eq_refl))).
  destruct (frozen_in_place _ _ _ _ _); constructor; simpl.
  all: rewrite ?fmap_app, ?sumZ_app, ?list_to_set_app_L, ?(li_pinned _ _ _ IH), ?(li_cores _ _ _ IH),
    ?(li_nodes _ _ _ IH), ?Hkeep, ?fmap_app; simpl; try lia; try done; try set_solver;
    try (unfold lo_cores; simpl; lia).
  - apply IH.
  - intros n. rewrite lookup_insert. case_decide as Hn; [subst n|apply IH].
    rewrite <- (li_nc _ _ _ IH), Hns. done.
Qed.

Lemma layOutExistingCompute_states_ok existing states cores hp cons :
  states_ok states -> states_ok (los_states (layOutExistingCompute existing states cores hp cons)).
Proof.
  intros Hok. unfold layOutExistingCompute.
  induction existing as [|ec existing IH] using rev_ind; [done|].
  rewrite fold_left_app. simpl. set (st := fold_left _ existing _) in *. unfold lay_out_one.
  case_decide; [done|]. destruct (los_states st !! ecc_Node ec) as [ns|] eqn:Hns; [|done].
  destruct (frozen_in_place _ _ _ _ _) eqn:Hf; simpl; [done|].
  apply map_Forall_insert_2; [|done]. pose proof (IH _ _ Hns) as (? & ? & ? & ? & ?).
  unfold frozen_in_place in Hf. rewrite !orb_false_iff, !bool_decide_eq_false in Hf.
  apply node_ok_take_compute; [done|case_decide; lia|case_decide; lia].
Qed.

(** ** Lemmas: the nodes of the new containers *)

Lemma fd_of_nc (states states' : nodeStates) n :
  (forall n, nc <$> states' !! n = nc <$> states !! n) -> fd_of states' n = fd_of states n.
Proof.
  intros H. unfold fd_of. rewrite !lookup_total_alt. specialize (H n).
  destruct (states' !! n), (states !! n); simpl in *; congruence.
Qed.

Lemma orderFitNodesByFreshFD_spec nodes states pinned covered cores hp fdOf cons :
  orderFitNodesByFreshFD nodes states pinned covered cores hp fdOf cons ≡ₚ
  filter (fit_node states pinned cores hp cons) nodes.
Proof.
  unfold orderFitNodesByFreshFD. set (fit := filter _ nodes).
  destruct (orderNodesByFDSpread_shape (filter (fun n => fdOf n ∉ covered) fit)
    (fun n => coresFree (states !!! n)) fdOf) as [H1 _].
  destruct (orderNodesByFDSpread_shape (filter (fun n => fdOf n ∈ covered) fit)
    (fun n => coresFree (states !!! n)) fdOf) as [H2 _].
  rewrite H1, H2. clear. induction fit as [|n fit IH]; [done|]. rewrite !filter_cons.
  destruct (decide (fdOf n ∈ covered)).
  - rewrite (decide_False (P := fdOf n ∉ covered)) by tauto. by rewrite <- Permutation_middle, IH.
  - rewrite (decide_True (P := fdOf n ∉ covered)) by done. simpl. by rewrite IH.
Qed.

Lemma extend_span_bounds fdOf minFds rest n span :
  n <= extend_span fdOf minFds rest n span <= n + len rest.
Proof.
  revert n span. induction rest as [|x rest IH]; intros n span; simpl; [lia|].
  case_decide; [|lia]. specialize (IH (n + 1) ({[fdOf x]} ∪ span)). lia.
Qed.

Lemma computeFDFeasibility_ok minFds covered nodes fdOf :
  computeFDFeasibility minFds covered nodes fdOf = "" ->
  minFds <= Z.of_nat (size (covered ∪ list_to_set (fdOf <$> nodes) : gset string)).
Proof.
  unfold computeFDFeasibility. case_decide; [intros H'; exfalso; revert H'; fmt_nonempty|lia].
Qed.

(** The final layout has the nodes and cores of the laid out and the new containers. *)
Lemma final_layout_perm hpFor existing new :
  (fun c => (ccs_Node c, ccs_NumCores c)) <$> final_layout hpFor existing new ≡ₚ
  ((fun lo => (lo_node lo, lo_cores lo)) <$> existing) ++ ((fun c => (ccs_Node c, ccs_NumCores c)) <$> new).
Proof.
  unfold final_layout. rewrite sort_by_perm, fmap_app, <- list_fmap_compose. apply reflexive_eq. f_equal.
  apply list_fmap_ext. intros i lo _. simpl. by destruct (lo_frozen lo).
Qed.

(** The even shares of the shortfall over the new nodes cover it. *)
Lemma new_shares_cover shortfall newNodes :
  (newNodes = [] -> shortfall <= 0) ->
  shortfall <= sumZ (host_shares (Z.max shortfall (len newNodes) `quot` len newNodes)
    (Z.max shortfall (len newNodes) `rem` len newNodes) 0 newNodes).*2.
Proof.
  destruct newNodes as [|n0 rest] eqn:Hnew; intros H.
  - simpl. by apply H.
  - rewrite <- Hnew. rewrite sum_even_shares; [lia| |by rewrite Hnew]. rewrite Hnew. simpl. lia.
Qed.

(** The failure domains of the whole layout: those of the existing containers and of the new nodes,
    read in the states the layout of the existing ones left. *)
Lemma laid_out_fds existing states st newNodes :
  layout_inv states existing st ->
  list_to_set (fd_of states <$> (ecc_Node <$> placed_compute existing states) ++ newNodes) =
  list_to_set ((fun lo => fd_of (los_states st) (ccs_Node (lo_spec lo))) <$> los_existing st)
    ∪ list_to_set (fd_of (los_states st) <$> newNodes) :> gset string.
Proof.
  intros Hst. rewrite <- (li_nodes _ _ _ Hst), fmap_app, list_to_set_app_L, <- list_fmap_compose. f_equal.
  - f_equal. apply list_fmap_ext. intros i lo _. simpl. symmetry. apply fd_of_nc, Hst.
  - f_equal. apply list_fmap_ext. intros i n _. symmetry. apply fd_of_nc, Hst.
Qed.

(** The nodes taken from the ordered candidates are distinct, eligible and host no laid-out container. *)
Lemma taken_fit_nodes existing states st nodes fit cores hp cons n :
  layout_inv states existing st -> NoDup nodes ->
  fit ≡ₚ filter (fit_node (los_states st) (los_pinned st) cores hp cons) nodes ->
  NoDup (take n fit) /\
  (forall x, x ∈ take n fit -> x ∈ nodes /\ x ∉ (ecc_Node <$> placed_compute existing states)).
Proof.
  intros Hst Hnd Hfit. split.
  - eapply sublist_NoDup; [|apply sublist_take]. rewrite Hfit.
    eapply sublist_NoDup; [exact Hnd|apply sublist_filter].
  - intros x Hn. assert (Hf : x ∈ fit) by (eapply elem_of_sublist; [exact Hn|apply sublist_take]).
    rewrite Hfit in Hf. apply list_elem_of_filter in Hf as [[Hp _] Hin]. split; [done|].
    rewrite (li_pinned _ _ _ Hst), elem_of_list_to_set in Hp. by rewrite <- (li_nodes _ _ _ Hst).
Qed.

(** What a feasible compute placement is made of. *)
Record compute_ok (minFds need : Z) (existing : list ExistingComputeContainer) (nodes : list string)
    (states : nodeStates) (q : CapacityPlan) : Prop := {
  co_cores : need <= sumZ (ccs_NumCores <$> ComputeLayout q);
  co_fds : minFds <= Z.of_nat (size (list_to_set (C := gset string) (fd_of states <$> ComputeNodes q)));
  co_nodes : ComputeNodes q = ccs_Node <$> ComputeLayout q;
  co_count : plan_ComputeContainers q = len (ComputeLayout q);
  co_new : exists newNodes,
    ComputeNodes q ≡ₚ (ecc_Node <$> placed_compute existing states) ++ newNodes /\ NoDup newNodes /\
    (forall n, n ∈ newNodes -> n ∈ nodes /\ n ∉ (ecc_Node <$> placed_compute existing states));
}.

Lemma place_compute_ok desired minFds count cores existing nodes states cons plan :
  NoDup nodes -> 0 < cores ->
  let r := place_compute desired minFds count cores existing nodes states cons plan in
  Infeasible r.2 = "" -> compute_ok minFds (count * cores) existing nodes states r.2.
Proof.
  intros Hnd Hcores r. unfold r, place_compute. clear r.
  set (hp := ComputeContainerHugepagesMiB (TlcRawGiB desired) (QlcRawGiB desired) count cores cons).
  set (st := layOutExistingCompute existing states cores hp cons).
  assert (Hst : layout_inv states existing st) by apply layOutExistingCompute_inv.
  set (shortfall := Z.max _ 0). set (covered := list_to_set _).
  set (fit := orderFitNodesByFreshFD _ _ _ _ _ _ _ _).
  assert (Hfit : fit ≡ₚ filter (fit_node (los_states st) (los_pinned st) cores hp cons) nodes)
    by apply orderFitNodesByFreshFD_spec.
  set (nNew0 := if decide (shortfall > 0) then _ else 0).
  assert (0 <= nNew0) by (unfold nNew0; case_decide; [apply CeilDiv_nonneg|lia]).
  case_decide as Hn0; [intros Hc; exfalso; revert Hc; simpl; fmt_nonempty|].
  set (nNew := extend_span _ _ _ _ _).
  assert (Hb : nNew0 <= nNew <= len fit).
  { unfold nNew. match goal with |- context [extend_span ?a ?b ?c ?d ?e] =>
      pose proof (extend_span_bounds a b c d e) as Hb end. rewrite length_drop in Hb. lia. }
  case_decide as Hr; [intros Hc; exfalso; revert Hc; simpl; discriminate|].
  destruct (reserve_new _ _ _ _ _ _ _) as [[rep|new] states'] eqn:Hres.
  { intros Hc. exfalso. apply reserve_new_reason in Hres as [Hne _]. by apply Hne. }
  intros _. simpl. set (newNodes := take (Z.to_nat nNew) fit) in *.
  assert (Hlen : len newNodes = nNew) by (unfold newNodes; rewrite length_take; lia).
  apply reserve_new_shares in Hres as Hsh.
  match goal with |- context [final_layout ?f ?e ?n] => pose proof (final_layout_perm f e n) as Hperm end.
  set (layout := final_layout _ _ _) in *.
  assert (Hnodes : ccs_Node <$> layout ≡ₚ (ecc_Node <$> placed_compute existing states) ++ newNodes).
  { rewrite <- (li_nodes _ _ _ Hst). apply (fmap_Permutation fst) in Hperm.
    rewrite fmap_app, Hsh, <- !list_fmap_compose in Hperm. rewrite host_shares_nodes in Hperm. exact Hperm. }
  constructor; simpl.
  - apply (fmap_Permutation snd), sumZ_perm in Hperm.
    rewrite fmap_app, Hsh, sumZ_app, <- !list_fmap_compose in Hperm.
    change (sumZ (ccs_NumCores <$> layout) = sumZ (lo_cores <$> los_existing st) +
      sumZ (host_shares (Z.max shortfall nNew `quot` nNew) (Z.max shortfall nNew `rem` nNew) 0 newNodes).*2) in Hperm.
    rewrite Hperm, <- (li_cores _ _ _ Hst).
    assert (Hs : count * cores - los_cores st <= shortfall) by (unfold shortfall; lia).
    enough (shortfall <= sumZ (host_shares (Z.max shortfall nNew `quot` nNew)
      (Z.max shortfall nNew `rem` nNew) 0 newNodes).*2) by (clearbody shortfall; lia).
    rewrite <- Hlen. apply new_shares_cover. intros Hnil. rewrite Hnil in Hlen. simpl in Hlen.
    unfold nNew0 in *. case_decide; [|lia]. pose proof (CeilDiv_pos shortfall cores). lia.
  - rewrite Hnodes, (laid_out_fds _ _ _ _ Hst). apply computeFDFeasibility_ok.
    destruct (computeFDFeasibility _ _ _ _); [done|by destruct Hr].
  - done.
  - apply (f_equal length) in Hsh. rewrite length_fmap, length_host_shares in Hsh.
    apply Permutation_length in Hperm. rewrite length_app, !length_fmap in Hperm. lia.
  - exists newNodes. split; [done|]. by apply (taken_fit_nodes existing states st nodes fit cores hp cons).
Qed.

Lemma compute_nodes_known computeNodes states n : n ∈ compute_nodes computeNodes states -> is_Some (states !! n).
Proof.
  unfold compute_nodes, sort_strings. rewrite sort_by_perm. intros ([n' e] & -> & [[_ H] _]%list_elem_of_filter)%list_elem_of_fmap.
  exact H.
Qed.

Lemma NoDup_compute_nodes computeNodes states : NoDup (compute_nodes computeNodes states).
Proof.
  unfold compute_nodes, sort_strings. rewrite sort_by_perm.
  apply (sublist_NoDup _ (map_to_list computeNodes).*1); [apply NoDup_fst_map_to_list|]. apply fmap_sublist, sublist_filter.
Qed.

Lemma place_compute_states_ok desired minFds count cores existing nodes states cons plan :
  states_ok states -> states_ok (place_compute desired minFds count cores existing nodes states cons plan).1.
Proof.
  intros Hok. unfold place_compute.
  set (hp := ComputeContainerHugepagesMiB (TlcRawGiB desired) (QlcRawGiB desired) count cores cons).
  pose proof (layOutExistingCompute_states_ok existing states cores hp cons Hok) as Hst.
  set (st := layOutExistingCompute existing states cores hp cons) in *.
  set (nNew0 := if decide (_ > 0) then _ else 0).
  case_decide; [done|]. case_decide; [done|].
  match goal with |- context [reserve_new ?f ?b ?r ?i ?n cons ?s] =>
    pose proof (reserve_new_states_ok f b r i n cons s Hst) as Hr;
    destruct (reserve_new f b r i n cons s) as [[rep|new] states'] end; done.
Qed.

Lemma planCompute_states_ok desired scheme existing computeNodes states cons plan :
  states_ok states -> states_ok (planCompute desired scheme existing computeNodes states cons plan).1.
Proof.
  intros Hok. unfold planCompute. destruct computeNodes; [|done].
  case_decide; [done|]. by apply place_compute_states_ok.
Qed.

Lemma planCompute_compute_ok desired scheme existing computeNodes states cons plan :
  0 <= ComputeContainers desired -> 0 <= ComputeCores desired ->
  let r := planCompute desired scheme existing computeNodes states cons plan in
  Infeasible r.2 = "" ->
  exists nodes, computeNodes = Some nodes /\
    compute_ok (MinFdNum scheme) (plan_RequiredComputeCores plan) existing (compute_nodes nodes states) states r.2.
Proof.
  intros Hcc Hco r. unfold r, planCompute. destruct computeNodes as [nodes|]; [|done].
  set (lr := deriveComputeLayout _ _ _ _ _ _ _ _). case_decide as Hi; [done|]. intros Hf. exists nodes.
  split; [done|].
  destruct (deriveComputeLayout_cover (ComputeContainers desired) (ComputeCores desired)
    (plan_RequiredComputeCores plan) (MinFdNum scheme) (MaxCoresPerContainer cons)
    (compute_headroom (compute_nodes nodes states) (existingComputeCPU existing states cons) states cons)
    (Some (compute_hugepages (compute_nodes nodes states) (hasExistingCompute existing states) states))
    (Some (fun count cores => ComputeContainerHugepagesMiB (TlcRawGiB desired) (QlcRawGiB desired) count cores cons)))
    as (Hcov & _ & Hpos & _); [done|done|destruct (lr_infeasible lr) eqn:E; [exact E|by destruct Hi]|].
  fold lr in Hcov, Hpos.
  apply place_compute_ok in Hf; [|apply NoDup_compute_nodes|lia].
  destruct Hf as [Hc ? ? ? ?]. constructor; try done. lia.
Qed.

Lemma place_compute_notes desired minFds count cores existing nodes states cons plan :
  plan_notes plan (place_compute desired minFds count cores existing nodes states cons plan).2.
Proof.
  unfold place_compute. set (nNew0 := if decide (_ > 0) then _ else 0).
  case_decide; [apply plan_notes_infeasible; simpl; fmt_nonempty|].
  case_decide; [apply plan_notes_infeasible; discriminate|].
  destruct (reserve_new _ _ _ _ _ _ _) as [[rep|new] states'] eqn:Hr; [|apply plan_notes_compute].
  apply plan_notes_infeasible. by apply reserve_new_reason in Hr as [? _].
Qed.

(** The compute stage adds no growth and no drive container, and reports what it finds infeasible. *)
Lemma planCompute_notes desired scheme existing computeNodes states cons plan :
  plan_notes plan (planCompute desired scheme existing computeNodes states cons plan).2.
Proof.
  unfold planCompute. destruct computeNodes; [|by apply plan_notes_infeasible].
  etrans; [apply plan_notes_warnings|]. case_decide; [by apply plan_notes_infeasible|].
  apply place_compute_notes.
Qed.

(** It leaves the drive core totals and the required compute cores alone. *)
Lemma planCompute_totals desired scheme existing computeNodes states cons plan :
  let q := (planCompute desired scheme existing computeNodes states cons plan).2 in
  TotalTlcDriveCores q = TotalTlcDriveCores plan /\ TotalQlcDriveCores q = TotalQlcDriveCores plan /\
  plan_RequiredComputeCores q = plan_RequiredComputeCores plan.
Proof.
  unfold planCompute. destruct computeNodes; [|done]. case_decide; [done|]. unfold place_compute.
  set (nNew0 := if decide (_ > 0) then _ else 0). case_decide; [done|]. case_decide; [done|].
  by destruct (reserve_new _ _ _ _ _ _ _) as [[rep|new] states'].
Qed.

Lemma cpuCost_mono ns policy a b base : a <= b -> cpuCost ns policy a base <= cpuCost ns policy b base.
Proof.
  intros. unfold cpuCost. pose proof (cpuModel_pos policy (topo ns)).
  destruct (cpuModel policy (topo ns)) as [s m]. simpl in *. destruct base; nia.
Qed.

Lemma layOut_cores_le existing states cores hp cons :
  (forall ec, ec ∈ existing -> ecc_NumCores ec <= cores) ->
  Forall (fun lo => lo_cores lo <= cores) (los_existing (layOutExistingCompute existing states cores hp cons)).
Proof.
  intros Hle. unfold layOutExistingCompute.
  induction existing as [|ec existing IH] using rev_ind; [constructor|].
  rewrite fold_left_app. simpl. set (st := fold_left _ existing _) in *.
  assert (Hst : Forall (fun lo => lo_cores lo <= cores) (los_existing st)) by (apply IH; set_solver).
  assert (Hec : ecc_NumCores ec <= cores) by (apply Hle; set_solver).
  unfold lay_out_one. case_decide; [done|]. destruct (los_states st !! ecc_Node ec); [|done].
  destruct (frozen_in_place _ _ _ _ _); simpl; (apply Forall_app; split; [done|]);
    repeat constructor; unfold lo_cores; simpl; lia.
Qed.

(** ** Properties *)

(** A feasible compute stage is correct: the containers of the layout have at least the required
    compute cores between them, their nodes span at least the minimum number of failure domains, the
    reported nodes and count are those of the layout, and every new container is alone on an eligible
    node that runs none of the existing ones. *)
Theorem planCompute_sound desired scheme existing computeNodes states cons plan :
  0 <= ComputeContainers desired -> 0 <= ComputeCores desired ->
  let q := (planCompute desired scheme existing computeNodes states cons plan).2 in
  Infeasible q = "" ->
  exists nodes, computeNodes = Some nodes /\
    compute_ok (MinFdNum scheme) (plan_RequiredComputeCores plan) existing (compute_nodes nodes states) states q.
Proof. apply planCompute_compute_ok. Qed.

(** The compute stage never overdraws a node, whether it ends feasible or not. *)
Theorem planCompute_no_overdraw desired scheme existing computeNodes states cons plan :
  states_ok states -> states_ok (planCompute desired scheme existing computeNodes states cons plan).1.
Proof. apply planCompute_states_ok. Qed.

(** Existing containers of at most the target size hold at most that many cores each. *)
Lemma los_cores_le existing states cores st :
  layout_inv states existing st -> Forall (fun lo => lo_cores lo <= cores) (los_existing st) ->
  los_cores st <= cores * len (los_existing st).
Proof.
  intros Hst Hlo. rewrite (li_cores _ _ _ Hst).
  pose proof (sumZ_le_const cores (lo_cores <$> los_existing st)) as Hm.
  rewrite length_fmap, Forall_fmap in Hm. specialize (Hm Hlo). lia.
Qed.

(** The reservation of the new compute containers succeeds, as its comment expects, when no
    existing compute has more cores than the uniform target: a placement then fails only for lack of
    fitting nodes or of failure domains, never for a node that cannot host its container. *)
Theorem place_compute_reservation desired minFds count cores existing nodes states cons plan rep :
  0 <= TlcRawGiB desired -> 0 <= QlcRawGiB desired -> 0 <= ComputeDpdkPerCoreMiB cons ->
  1 <= count -> 1 <= cores -> NoDup nodes ->
  (forall ec, ec ∈ existing -> ecc_NumCores ec <= cores) ->
  Infeasibility plan = None ->
  Infeasibility (place_compute desired minFds count cores existing nodes states cons plan).2 = Some rep ->
  ir_Binding rep = "cores" \/ ir_Binding rep = "failure domains".
Proof.
  intros Ht Hq Hd Hcount Hcores Hnd Hle Hplan. unfold place_compute.
  set (hp := ComputeContainerHugepagesMiB (TlcRawGiB desired) (QlcRawGiB desired) count cores cons).
  pose proof (layOut_cores_le existing states cores hp cons Hle) as Hlo.
  pose proof (layOutExistingCompute_inv existing states cores hp cons) as Hst.
  set (st := layOutExistingCompute existing states cores hp cons) in *.
  set (shortfall := Z.max _ 0).
  set (fit := orderFitNodesByFreshFD _ _ _ _ _ _ _ _).
  assert (Hfit : fit ≡ₚ filter (fit_node (los_states st) (los_pinned st) cores hp cons) nodes)
    by apply orderFitNodesByFreshFD_spec.
  set (nNew0 := if decide (shortfall > 0) then _ else 0).
  case_decide as Hn0; [intros [= <-]; by left|].
  set (nNew := extend_span _ _ _ _ _).
  assert (Hb : nNew0 <= nNew <= len fit).
  { unfold nNew. match goal with |- context [extend_span ?a ?b ?c ?d ?e] =>
      pose proof (extend_span_bounds a b c d e) as Hb end. rewrite length_drop in Hb. lia. }
  case_decide as Hr; [intros [= <-]; by right|].
  set (newNodes := take (Z.to_nat nNew) fit) in *.
  assert (Hcov : 0 <= nNew0 /\ shortfall <= cores * nNew0).
  { unfold nNew0. case_decide; [|lia]. split; [apply CeilDiv_nonneg|]. apply CeilDiv_cover. lia. }
  assert (Hlen : len newNodes = nNew) by (unfold newNodes; rewrite length_take; lia).
  assert (Htotal : count <= len (los_existing st) + nNew).
  { pose proof (los_cores_le _ _ _ _ Hst Hlo).
    assert (count * cores - los_cores st <= shortfall) by (unfold shortfall; lia). nia. }
  match goal with |- context [reserve_new ?f ?b ?r ?i ?n cons ?s] =>
    destruct (reserve_new_fits f b r i n cons s) as (l & states' & Hres) end; [| |rewrite Hres; simpl; congruence].
  { by apply (taken_fit_nodes existing states st nodes fit cores hp cons). }
  assert (Hsplit : 0 <= Z.max shortfall nNew <= len newNodes * cores).
  { rewrite Hlen. assert (cores * nNew0 <= cores * nNew) by (apply Z.mul_le_mono_nonneg_l; lia).
    assert (nNew * 1 <= nNew * cores) by (apply Z.mul_le_mono_nonneg_l; lia).
    clearbody shortfall nNew. lia. }
  intros node s Hin. rewrite <- Hlen in Hin at 2 4. apply (even_share_le _ _ cores) in Hin as Hs; [|done].
  apply host_shares_elem in Hin. assert (Hf : node ∈ fit) by (eapply elem_of_sublist; [exact Hin|apply sublist_take]).
  rewrite Hfit in Hf. apply list_elem_of_filter in Hf as [[_ Hns] _].
  destruct (los_states st !! node) as [ns|] eqn:Hlk; [|done].
  rewrite (lookup_total_correct _ _ _ Hlk). destruct Hns as [Hc Hh]. split.
  - pose proof (cpuCost_mono ns (CpuPolicy cons) s cores true). lia.
  - etrans; [|exact Hh]. apply computeHugepages_mono; lia.
Qed.

(** Compute nodes of their own failure domains, for the witnesses. *)
Definition compute_node (n : string) (cpu hp : Z) : nodeState := {|
  nc := {| nc_NodeName := n; nc_TlcGiB := 0; nc_QlcGiB := 0; nc_AllocatableCPU := cpu;
           nc_IsHt := false; nc_FullPcpusOnly := false; nc_AvailableHugepagesMiB := hp;
           nc_AvailableMemoryMiB := 12000; nc_FDValue := n; nc_HasDeletingDriveContainer := false;
           nc_IneligibleReason := "" |};
  tlcFree := 0; qlcFree := 0; coresFree := cpu; hugepagesMiB := hp; memoryMiB := 12000;
  hasDeletingDriveContainer := false |}.

Definition compute_states (l : list (string * Z * Z)) : nodeStates :=
  list_to_map ((fun '(n, cpu, hp) => (n, compute_node n cpu hp)) <$> l).

Definition compute_eligible (l : list (string * Z * Z)) : option (gmap string bool) :=
  Some (list_to_map ((fun '(n, _, _) => (n, true)) <$> l)).

Definition compute_desired (tlc : Z) : DesiredCapacity := {|
  TlcRawGiB := tlc; QlcRawGiB := 0; ComputeContainers := 0; ComputeCores := 0; DriveContainers := 0;
  DriveCores := 0 |}.

Definition compute_scheme : ProtectionScheme := {| StripeWidth := 2; RedundancyLevel := 1; HotSpare := 0 |}.

Definition small_nodes : list (string * Z * Z) := [("a", 4, 9000); ("b", 4, 9000); ("c", 4, 9000)].

Lemma planCompute_sound_witness :
  let q := (planCompute (compute_desired 3000) compute_scheme [] (compute_eligible small_nodes)
              (compute_states small_nodes) default_cons (plan_set_cores 5 0 5 empty_plan)).2 in
  Infeasible q = "" /\ 5 <= sumZ (ccs_NumCores <$> ComputeLayout q).
Proof.
  intros q. assert (Hq : Infeasible q = "") by (vm_compute; reflexivity). split; [exact Hq|].
  destruct (planCompute_sound (compute_desired 3000) compute_scheme [] (compute_eligible small_nodes)
    (compute_states small_nodes) default_cons (plan_set_cores 5 0 5 empty_plan)) as (nodes & _ & Hok).
  - vm_compute. discriminate.
  - vm_compute. discriminate.
  - exact Hq.
  - apply (co_cores _ _ _ _ _ _ Hok).
Defined.

Lemma planCompute_no_overdraw_witness :
  states_ok (planCompute (compute_desired 3000) compute_scheme [] (compute_eligible small_nodes)
               (compute_states small_nodes) default_cons (plan_set_cores 5 0 5 empty_plan)).1.
Proof.
  apply (planCompute_no_overdraw (compute_desired 3000) compute_scheme [] (compute_eligible small_nodes)
    (compute_states small_nodes) default_cons (plan_set_cores 5 0 5 empty_plan)).
  apply (bool_decide_unpack (states_ok (compute_states small_nodes))). vm_compute. exact I.
Defined.

Lemma place_compute_reservation_witness :
  exists rep,
  Infeasibility (place_compute (compute_desired 3000) 4 3 2 [] ["a"; "b"; "c"] (compute_states small_nodes)
                   default_cons empty_plan).2 = Some rep /\
  (ir_Binding rep = "cores" \/ ir_Binding rep = "failure domains").
Proof.
  destruct (Infeasibility (place_compute (compute_desired 3000) 4 3 2 [] ["a"; "b"; "c"]
    (compute_states small_nodes) default_cons empty_plan).2) as [rep|] eqn:Hrep.
  - exists rep. split; [reflexivity|].
    apply (place_compute_reservation (compute_desired 3000) 4 3 2 [] ["a"; "b"; "c"]
      (compute_states small_nodes) default_cons empty_plan rep); try (vm_compute; discriminate).
    + apply (bool_decide_unpack (NoDup ["a"; "b"; "c"])). vm_compute. exact I.
    + intros ec Hec. exfalso. by apply elem_of_nil in Hec.
    + reflexivity.
    + exact Hrep.
  - exfalso. revert Hrep. vm_compute. discriminate.
Defined.

(** Without that hypothesis the reservation can fail. With growth disabled, an existing 3-core
    compute is frozen above the 1-core uniform target of 5 containers, so only 2 new containers are
    planned; their hugepages are then sized for 3 containers instead of 5, and a node that passed the
    5-container gate cannot host one. The plan is infeasible although 4 one-core containers beside the
    frozen one would fit. *)
Theorem planCompute_frozen_oversized :
  let nodes := [("e", 0, 0); ("f1", 2, 9000); ("f2", 2, 9000); ("f3", 2, 9000); ("f4", 2, 9000)] in
  let frozen := {| ecc_Name := "c"; ecc_Node := "e"; ecc_NumCores := 3; ecc_HugepagesMiB := 16000;
                   ecc_Unscheduled := false |} in
  let q := (planCompute (compute_desired 30000) compute_scheme [frozen] (compute_eligible nodes)
              (compute_states nodes) default_cons (plan_set_cores 5 0 5 empty_plan)).2 in
  Infeasible q = "compute: free compute node f1 cannot host a 1-core compute container (2 physical CPU + 9000 MiB hugepages free)" /\
  ComputeContainerHugepagesMiB 30000 0 5 1 default_cons <= 9000 < ComputeContainerHugepagesMiB 30000 0 3 1 default_cons.
Proof. split; [vm_compute; reflexivity|]. vm_compute. split; [discriminate|reflexivity]. Qed.
