(* ===== verification/Planner.v ===== *)
(** * The planner (planner.go, [PlanCapacity])

    [PlanCapacity] checks the protection scheme and the pinned container count, plans the two pools
    over one shared world, turns the records into a plan with pinned core counts, and sizes the
    compute containers from what is left. *)

From S2P Require Import Prelude Float64 Fmt Types Cpu Sizing NodeState Infeasibility ComputeLayout.
From S2P Require Import FdGroups Placement PoolPlan ComputePlan.

(** A report with no pool, shortfall or rejected nodes. *)
Definition plain_report (reason binding : string) (fixes : list string) : InfeasibilityReport := {|
  ir_Reason := reason; ir_Pool := ""; ir_Binding := binding; ir_ShortfallGiB := 0;
  ir_RejectedNodes := []; ir_Fixes := fixes |}.

(** The working headroom of a node, from the inventory. *)
Definition init_state (n : NodeCapacity) : nodeState := {|
  nc := n; tlcFree := nc_TlcGiB n; qlcFree := nc_QlcGiB n; coresFree := nc_AllocatableCPU n;
  hugepagesMiB := nc_AvailableHugepagesMiB n; memoryMiB := nc_AvailableMemoryMiB n;
  hasDeletingDriveContainer := nc_HasDeletingDriveContainer n |}.

(** The map [states]; a node listed twice keeps its last entry. *)
Definition init_states (inventory : list NodeCapacity) : nodeStates :=
  fold_left (fun m n => <[nc_NodeName n := init_state n]> m) inventory ∅.

(** The pools with their desired capacity and pinned failure-domain count, in planning order. *)
Definition pool_order (desired : DesiredCapacity) (tlcTargetFds qlcTargetFds : Z)
    (existingDrives : list ExistingContainer) (states : nodeStates) : list (poolKind * Z * Z) :=
  let tlc := (poolTLC, TlcRawGiB desired, tlcTargetFds) in
  let qlc := (poolQLC, QlcRawGiB desired, qlcTargetFds) in
  if decide (TlcRawGiB desired > 0 /\ QlcRawGiB desired > 0 /\
             countPoolCapableNodes states (poolNodeUsed existingDrives poolQLC) poolQLC <
             countPoolCapableNodes states (poolNodeUsed existingDrives poolTLC) poolTLC)
  then [qlc; tlc] else [tlc; qlc].

Definition planPools (pools : list (poolKind * Z * Z)) (minFd : Z)
    (existingDrives : list ExistingContainer) (cons : CapacityConstraints) (w : world)
    (plan : CapacityPlan) : world * CapacityPlan :=
  fold_left (fun '(w, plan) '(p, desiredRaw, targetFd) =>
    planPool p desiredRaw minFd targetFd existingDrives cons w plan) pools (w, plan).

(** The closure [pinCores]: a reason and its fixes, or the core count and the count derived from
    capacity. *)
Definition pinCores (desired : DesiredCapacity) (cons : CapacityConstraints) (tlcGiB qlcGiB : Z) :
    (string * list string) + (Z * Z) :=
  let derived := RequiredDriveCores tlcGiB qlcGiB cons in
  let limit := MaxCoresPerContainer cons in
  if decide (limit > 0 /\ derived > limit) then
    inl (Sprintf "a drive container of %d GiB (TLC %d + QLC %d) needs %d cores, above the %d-core per-container limit: raise driveContainers so each container holds less capacity, or lower clusterCapacity"
           [ArgD (tlcGiB + qlcGiB); ArgD tlcGiB; ArgD qlcGiB; ArgD derived; ArgD limit],
         fixesMaxCoresPerContainer limit)
  else if decide (DriveCores desired <= 0) then inr (derived, derived)
  else if decide (limit > 0 /\ DriveCores desired > limit) then
    inl (Sprintf "driveCores=%d is above the %d-core per-container limit"
           [ArgD (DriveCores desired); ArgD limit], fixesMaxCoresPerContainer limit)
  else if decide (DriveCores desired < derived) then
    inl (Sprintf "driveCores=%d is too small for a drive container of %d GiB (TLC %d + QLC %d): it needs %d cores"
           [ArgD (DriveCores desired); ArgD (tlcGiB + qlcGiB); ArgD tlcGiB; ArgD qlcGiB; ArgD derived],
         fixesDriveCores derived)
  else inr (DriveCores desired, derived).

(** [g.NewCores = cores] *)
Definition growth_set_cores (cores : Z) (g : ContainerGrowth) : ContainerGrowth := {|
  cg_Name := cg_Name g; cg_NewTlcGiB := cg_NewTlcGiB g; cg_NewQlcGiB := cg_NewQlcGiB g;
  cg_NewCores := cores |}.

(** The last three assignments to a new container. *)
Definition new_finish (cores : Z) (n : NewContainer) : NewContainer := {|
  new_Node := new_Node n; new_FDValue := new_FDValue n; new_TlcGiB := new_TlcGiB n;
  new_QlcGiB := new_QlcGiB n; new_NumCores := cores;
  new_Ratio := Some (RatioFromCaps (new_TlcGiB n) (new_QlcGiB n));
  new_Type := ratioTypeFromCaps (new_TlcGiB n) (new_QlcGiB n) |}.

(** The loop that emits the growth records, in the order of [names]; the records are updated in the
    map too. The boolean is false when the loop returned from the planner. *)
Fixpoint emit_growth (desired : DesiredCapacity) (cons : CapacityConstraints) (names : list string)
    (growth : gmap string ContainerGrowth) (plan : CapacityPlan) :
    bool * gmap string ContainerGrowth * CapacityPlan :=
  match names with
  | [] => (true, growth, plan)
  | name :: names =>
      match growth !! name with
      | None => emit_growth desired cons names growth plan
      | Some g =>
          match pinCores desired cons (cg_NewTlcGiB g) (cg_NewQlcGiB g) with
          | inl (reason, fixes) => (false, growth, setInfeasible (plain_report reason "driveCores" fixes) plan)
          | inr (cores, _) =>
              let g := growth_set_cores cores g in
              emit_growth desired cons names (<[name := g]> growth) (plan_add_grow g plan)
          end
      end
  end.

(** The report when a node cannot host the surplus of a pinned core count. *)
Definition surplus_report (node : string) (cores derived : Z) (n : NewContainer) : InfeasibilityReport :=
  plain_report
    (Sprintf "node %s cannot host driveCores=%d for its %d GiB drive container (insufficient cores/hugepages/memory for the pinned core count)"
       [ArgS node; ArgD cores; ArgD (new_TlcGiB n + new_QlcGiB n)])
    "cores"
    [Sprintf "lower driveCores (<=%d), or free cores/hugepages/memory on node %s" [ArgD derived; ArgS node]].

(** [ns != nil && !ns.reserveCores(..)]: [None] when the surplus does not fit. *)
Definition reserve_surplus (node : string) (cores : Z) (cons : CapacityConstraints) (states : nodeStates) :
    option nodeStates :=
  match states !! node with
  | None => Some states
  | Some ns => match reserveCores ns cores cons with
               | None => None
               | Some ns' => Some (<[node := ns']> states)
               end
  end.

(** The loop that emits the new containers, in the order of [nodes]. *)
Fixpoint emit_new (desired : DesiredCapacity) (cons : CapacityConstraints) (nodes : list string)
    (states : nodeStates) (newByNode : gmap string NewContainer) (plan : CapacityPlan) :
    bool * nodeStates * gmap string NewContainer * CapacityPlan :=
  match nodes with
  | [] => (true, states, newByNode, plan)
  | node :: nodes =>
      match newByNode !! node with
      | None => emit_new desired cons nodes states newByNode plan
      | Some n =>
          match pinCores desired cons (new_TlcGiB n) (new_QlcGiB n) with
          | inl (reason, fixes) =>
              (false, states, newByNode, setInfeasible (plain_report reason "driveCores" fixes) plan)
          | inr (cores, derived) =>
              match reserve_surplus node (cores - derived) cons states with
              | None => (false, states, newByNode, setInfeasible (surplus_report node cores derived n) plan)
              | Some states =>
                  let n := new_finish cores n in
                  emit_new desired cons nodes states (<[node := n]> newByNode) (plan_add_create n plan)
              end
          end
      end
  end.

(** The end of [PlanCapacity], once the containers are emitted: the pinned container count, the core
    totals and the compute stage. *)
Definition plan_totals (desired : DesiredCapacity) (scheme : ProtectionScheme)
    (existingDrives : list ExistingContainer) (existingCompute : list ExistingComputeContainer)
    (computeNodes : option (gmap string bool)) (cons : CapacityConstraints) (w : world)
    (plan : CapacityPlan) : world * CapacityPlan :=
  let got := distinctDriveFds existingDrives (w_new w) in
  if decide (Infeasible plan = "" /\ DriveContainers desired > 0 /\ got <> DriveContainers desired) then
    (w, setInfeasible (plain_report
      (Sprintf "driveContainers=%d cannot be honored: the plan resolves to %d drive containers across the available failure domains"
         [ArgD (DriveContainers desired); ArgD got])
      "driveContainers" (fixesDriveContainers got)) plan)
  else
    let tlc := totalTlcDriveCores existingDrives (w_growth w) (w_new w) cons in
    let qlc := totalQlcDriveCores existingDrives (w_growth w) (w_new w) cons in
    let plan := plan_set_cores tlc qlc (RequiredComputeCores tlc qlc false (Some cons)) plan in
    if decide (Infeasible plan = "") then
      let '(states, plan) :=
        planCompute desired scheme existingCompute computeNodes (w_states w) cons plan in
      ({| w_states := states; w_growth := w_growth w; w_new := w_new w |}, plan)
    else (w, plan).

(** [PlanCapacity] after the pools are planned. *)
Definition emit_plan (desired : DesiredCapacity) (scheme : ProtectionScheme)
    (existingDrives : list ExistingContainer) (existingCompute : list ExistingComputeContainer)
    (computeNodes : option (gmap string bool)) (cons : CapacityConstraints) (w : world)
    (plan : CapacityPlan) : world * CapacityPlan :=
  let '(go, growth, plan) := emit_growth desired cons (sorted_keys (w_growth w)) (w_growth w) plan in
  let w := {| w_states := w_states w; w_growth := growth; w_new := w_new w |} in
  if go then
    let '(go, states, newByNode, plan) :=
      emit_new desired cons (sorted_keys (w_new w)) (w_states w) (w_new w) plan in
    let w := {| w_states := states; w_growth := growth; w_new := newByNode |} in
    if go then plan_totals desired scheme existingDrives existingCompute computeNodes cons w plan
    else (w, plan)
  else (w, plan).

(** The protection floor of the planner. *)
Definition protection_report (scheme : ProtectionScheme) (cons : CapacityConstraints) :
    option InfeasibilityReport :=
  let '(minSW, minRL, minHS) := MinProtectionFloor (AllowSingleParity cons) in
  if decide (StripeWidth scheme < minSW \/ RedundancyLevel scheme < minRL \/ HotSpare scheme < minHS) then
    Some (plain_report
      (Sprintf "clusterCapacity requires stripeWidth>=%d, redundancyLevel>=%d, hotSpare>=%d (got sw=%d rl=%d hs=%d)"
         [ArgD minSW; ArgD minRL; ArgD minHS; ArgD (StripeWidth scheme); ArgD (RedundancyLevel scheme);
          ArgD (HotSpare scheme)])
      "protection" (fixesProtection minSW minRL minHS))
  else None.

(** [PlanCapacity] with the world it leaves: the node states after the whole plan, and the records. *)
Definition run_planner (desired : DesiredCapacity) (scheme : ProtectionScheme)
    (existingDrives : list ExistingContainer) (existingCompute : list ExistingComputeContainer)
    (inventory : list NodeCapacity) (computeNodes : option (gmap string bool))
    (cons : CapacityConstraints) : world * CapacityPlan :=
  let w0 := {| w_states := init_states inventory; w_growth := ∅; w_new := ∅ |} in
  match protection_report scheme cons with
  | Some report => (w0, setInfeasible report empty_plan)
  | None =>
      let minFd := MinFdNum scheme in
      let '(tlcTargetFds, qlcTargetFds, reason) :=
        if decide (DriveContainers desired > 0) then splitDriveContainers desired minFd else (0, 0, "") in
      if decide (reason <> "") then
        (w0, setInfeasible (plain_report reason "driveContainers" (fixesDriveContainers 0)) empty_plan)
      else
        let pools := pool_order desired tlcTargetFds qlcTargetFds existingDrives (w_states w0) in
        let '(w, plan) := planPools pools minFd existingDrives cons w0 empty_plan in
        emit_plan desired scheme existingDrives existingCompute computeNodes cons w plan
  end.

(** [PlanCapacity] *)
Definition PlanCapacity (desired : DesiredCapacity) (scheme : ProtectionScheme)
    (existingDrives : list ExistingContainer) (existingCompute : list ExistingComputeContainer)
    (inventory : list NodeCapacity) (computeNodes : option (gmap string bool))
    (cons : CapacityConstraints) : CapacityPlan :=
  (run_planner desired scheme existingDrives existingCompute inventory computeNodes cons).2.

(** ** Lemmas: pinned cores *)

Lemma pinCores_ok desired cons tlc qlc cores derived :
  pinCores desired cons tlc qlc = inr (cores, derived) ->
  derived = RequiredDriveCores tlc qlc cons /\ derived <= cores /\
  (0 < MaxCoresPerContainer cons -> cores <= MaxCoresPerContainer cons) /\
  (0 < DriveCores desired -> cores = DriveCores desired) /\
  (DriveCores desired <= 0 -> cores = derived).
Proof.
  unfold pinCores. case_decide; [done|]. case_decide; [intros [= <- <-]; lia|].
  case_decide; [done|]. case_decide; [done|]. intros [= <- <-]. lia.
Qed.

Lemma pinCores_reason desired cons tlc qlc reason fixes :
  pinCores desired cons tlc qlc = inl (reason, fixes) -> reason <> "".
Proof.
  unfold pinCores. case_decide; [intros [= <- _]; fmt_nonempty|]. case_decide; [done|].
  case_decide; [intros [= <- _]; fmt_nonempty|]. case_decide; [intros [= <- _]; fmt_nonempty|done].
Qed.

(** A container's cores fit its capacity, the per-container limit and the pinned count. *)
Definition cores_ok (desired : DesiredCapacity) (cons : CapacityConstraints) (tlc qlc cores : Z) : Prop :=
  RequiredDriveCores tlc qlc cons <= cores /\
  (0 < MaxCoresPerContainer cons -> cores <= MaxCoresPerContainer cons) /\
  (if decide (0 < DriveCores desired) then cores = DriveCores desired
   else cores = RequiredDriveCores tlc qlc cons).

Lemma pinCores_cores_ok desired cons tlc qlc cores derived :
  pinCores desired cons tlc qlc = inr (cores, derived) -> cores_ok desired cons tlc qlc cores.
Proof.
  intros (-> & ? & ? & ? & ?)%pinCores_ok. unfold cores_ok. case_decide; repeat split; auto with lia.
Qed.

(** ** Lemmas: emission *)

(** What emission keeps of a record. *)
Definition growth_caps (g : ContainerGrowth) : string * Z * Z := (cg_Name g, cg_NewTlcGiB g, cg_NewQlcGiB g).
Definition new_caps (n : NewContainer) : string * string * Z * Z :=
  (new_Node n, new_FDValue n, new_TlcGiB n, new_QlcGiB n).

Lemma growth_caps_pool g g' p : growth_caps g = growth_caps g' -> poolCapGrowth g p = poolCapGrowth g' p.
Proof. unfold growth_caps. destruct p; simpl; congruence. Qed.

Lemma new_caps_pool n n' p : new_caps n = new_caps n' -> poolCapNew n p = poolCapNew n' p.
Proof. unfold new_caps. destruct p; simpl; congruence. Qed.

(** A loop that emitted every growth record: the plan lists them in order, their capacities are those
    of the records, and their cores fit. A loop that stopped left the plan infeasible. *)
Lemma emit_growth_spec desired cons names growth q go growth' q' :
  NoDup names ->
  emit_growth desired cons names growth q = (go, growth', q') ->
  Create q' = Create q /\ (plan_consistent q -> plan_consistent q') /\
  (forall name, growth_caps <$> growth' !! name = growth_caps <$> growth !! name) /\
  (forall name, name ∉ names -> growth' !! name = growth !! name) /\
  (exists l, Grow q' = Grow q ++ l /\ forall g, g ∈ l -> exists name, growth' !! name = Some g /\
     cores_ok desired cons (cg_NewTlcGiB g) (cg_NewQlcGiB g) (cg_NewCores g)) /\
  (if go then Infeasible q' = Infeasible q /\ Grow q' = Grow q ++ omap (fun name => growth' !! name) names
   else Infeasible q' <> "").
Proof.
  revert growth q. induction names as [|name names IH]; intros growth q Hnd; simpl.
  { intros [= <- <- <-]. repeat split; auto; [|by rewrite app_nil_r]. exists []. split; [by rewrite app_nil_r|set_solver]. }
  apply NoDup_cons in Hnd as [Hn Hnd].
  destruct (growth !! name) as [g|] eqn:Hg.
  2:{ intros H. apply IH in H as (Hc & Hcon & Hcaps & Hfr & Hl & Hgo); [|done].
      assert (growth' !! name = None) by (specialize (Hcaps name); rewrite Hg in Hcaps; by destruct (growth' !! name)).
      split_and!; auto; [intros x Hx; apply Hfr; set_solver|]. destruct go; [|done]. rewrite H. done. }
  destruct (pinCores _ _ _ _) as [[reason fixes]|[cores derived]] eqn:Hp.
  { apply pinCores_reason in Hp. intros [= <- <- <-].
    split_and!; auto; [done|]. exists []. split; [by rewrite app_nil_r|set_solver]. }
  apply pinCores_cores_ok in Hp. set (g' := growth_set_cores cores g).
  intros H. apply IH in H as (Hc & Hcon & Hcaps & Hfr & (l & Hl & Hcores) & Hgo); [|done].
  assert (Hname : growth' !! name = Some g') by (rewrite Hfr by done; apply lookup_insert_eq).
  split_and!; auto.
  - intros x. rewrite Hcaps, lookup_insert. case_decide as Hx; [|done]. rewrite <- Hx, Hg. done.
  - intros x Hx. rewrite Hfr by set_solver. rewrite lookup_insert_ne; [done|set_solver].
  - exists (g' :: l). simpl in Hl. rewrite Hl, <- app_assoc. split; [done|].
    intros x Hx. apply elem_of_cons in Hx as [->|Hx]; [exists name; by split|by apply Hcores].
  - destruct go; [|done]. destruct Hgo as [Hi Hgr]. split; [done|].
    rewrite Hgr, Hname. simpl. by rewrite <- app_assoc.
Qed.

(** Reserving surplus cores keeps the nodes, their drive capacity and their budgets sound. *)
Definition same_drives (states states' : nodeStates) : Prop :=
  forall n, (nc <$> states' !! n = nc <$> states !! n) /\ forall q, poolFree (states' !!! n) q = poolFree (states !!! n) q.

Lemma reserve_surplus_same node cores cons states states' :
  reserve_surplus node cores cons states = Some states' -> same_drives states states'.
Proof.
  unfold reserve_surplus. destruct (states !! node) as [ns|] eqn:Hns; [|by intros [= <-]].
  destruct (reserveCores ns cores cons) as [ns'|] eqn:Hr; [|done]. intros [= <-] n.
  rewrite lookup_insert, lookup_total_insert. case_decide as Hn; [|done]. rewrite <- Hn, Hns. simpl.
  split; [by rewrite (reserveCores_nc _ _ _ _ Hr)|]. intros q. rewrite (lookup_total_correct _ _ _ Hns).
  unfold reserveCores in Hr. case_decide; [by simplify_eq|]. case_decide; [done|]. simplify_eq.
  rewrite poolFree_charge. case_decide; lia.
Qed.

Lemma reserve_surplus_states_ok node cores cons states states' :
  cons_ok cons -> states_ok states -> reserve_surplus node cores cons states = Some states' -> states_ok states'.
Proof.
  intros Hc Hok. unfold reserve_surplus. destruct (states !! node) as [ns|] eqn:Hns; [|by intros [= <-]].
  destruct (reserveCores ns cores cons) as [ns'|] eqn:Hr; [|done]. intros [= <-].
  apply map_Forall_insert_2; [|done]. eapply node_ok_reserveCores; [done| |done]. by apply (Hok node).
Qed.

#[export] Instance same_drives_preorder : PreOrder same_drives.
Proof.
  split; [done|]. intros s1 s2 s3 H12 H23 n. destruct (H12 n) as [E1 F1], (H23 n) as [E2 F2].
  split; [congruence|]. intros q. by rewrite F2.
Qed.

Lemma emit_new_states_ok desired cons nodes states new q :
  cons_ok cons -> states_ok states -> states_ok (emit_new desired cons nodes states new q).1.1.2.
Proof.
  intros Hc. revert states new q. induction nodes as [|node nodes IH]; intros states new q Hok; simpl; [done|].
  destruct (new !! node) as [n|]; [|by apply IH].
  destruct (pinCores _ _ _ _) as [[reason fixes]|[cores derived]]; [done|].
  destruct (reserve_surplus _ _ _ _) as [states'|] eqn:Hr; [|done].
  apply IH. by eapply reserve_surplus_states_ok.
Qed.

(** The counterpart of [emit_growth_spec] for the new containers. *)
Lemma emit_new_spec desired cons nodes states new q go states' new' q' :
  NoDup nodes ->
  emit_new desired cons nodes states new q = (go, states', new', q') ->
  Grow q' = Grow q /\ (plan_consistent q -> plan_consistent q') /\ same_drives states states' /\
  (forall n, new_caps <$> new' !! n = new_caps <$> new !! n) /\
  (forall n, n ∉ nodes -> new' !! n = new !! n) /\
  (exists l, Create q' = Create q ++ l /\ forall r, r ∈ l -> exists n, new' !! n = Some r /\
     cores_ok desired cons (new_TlcGiB r) (new_QlcGiB r) (new_NumCores r) /\
     new_Ratio r = Some (RatioFromCaps (new_TlcGiB r) (new_QlcGiB r))) /\
  (if go then Infeasible q' = Infeasible q /\ Create q' = Create q ++ omap (fun n => new' !! n) nodes
   else Infeasible q' <> "").
Proof.
  revert states new q. induction nodes as [|node nodes IH]; intros states new q Hnd; simpl.
  { intros [= <- <- <- <-]. split_and!; auto; [done| |by rewrite app_nil_r].
    exists []. split; [by rewrite app_nil_r|set_solver]. }
  apply NoDup_cons in Hnd as [Hn Hnd].
  destruct (new !! node) as [n|] eqn:Hg.
  2:{ intros H. apply IH in H as (Hc & Hcon & Hsd & Hcaps & Hfr & Hl & Hgo); [|done].
      assert (new' !! node = None) by (specialize (Hcaps node); rewrite Hg in Hcaps; by destruct (new' !! node)).
      split_and!; auto; [intros x Hx; apply Hfr; set_solver|]. destruct go; [|done]. rewrite H. done. }
  destruct (pinCores _ _ _ _) as [[reason fixes]|[cores derived]] eqn:Hp.
  { apply pinCores_reason in Hp. intros [= <- <- <- <-].
    split_and!; auto; [done..|]. exists []. split; [by rewrite app_nil_r|set_solver]. }
  apply pinCores_cores_ok in Hp.
  destruct (reserve_surplus _ _ _ _) as [states1|] eqn:Hr.
  2:{ assert (Hs : ir_Reason (surplus_report node cores derived n) <> "") by (simpl; fmt_nonempty).
      intros [= <- <- <- <-]. split_and!; auto; [done..|]. exists []. split; [by rewrite app_nil_r|set_solver]. }
  apply reserve_surplus_same in Hr. set (n' := new_finish cores n).
  intros H. apply IH in H as (Hc & Hcon & Hsd & Hcaps & Hfr & (l & Hl & Hcores) & Hgo); [|done].
  assert (Hname : new' !! node = Some n') by (rewrite Hfr by done; apply lookup_insert_eq).
  split_and!; auto.
  - by etrans.
  - intros x. rewrite Hcaps, lookup_insert. case_decide as Hx; [|done]. rewrite <- Hx, Hg. done.
  - intros x Hx. rewrite Hfr by set_solver. rewrite lookup_insert_ne; [done|set_solver].
  - exists (n' :: l). simpl in Hl. rewrite Hl, <- app_assoc. split; [done|].
    intros x Hx. apply elem_of_cons in Hx as [->|Hx]; [exists node; by split_and!|by apply Hcores].
  - destruct go; [|done]. destruct Hgo as [Hi Hgr]. split; [done|].
    rewrite Hgr, Hname. simpl. by rewrite <- app_assoc.
Qed.

(** The records of a map, looked up in any order of its keys. *)
Lemma omap_lookup_keys {A} (m : gmap string A) keys :
  keys ≡ₚ (map_to_list m).*1 -> omap (fun k => m !! k) keys ≡ₚ (map_to_list m).*2.
Proof.
  intros ->. apply reflexive_eq.
  assert (H : forall k a, (k, a) ∈ map_to_list m -> m !! k = Some a) by (intros; by apply elem_of_map_to_list).
  revert H. generalize (map_to_list m) as l. induction l as [|[k a] l IH]; intros H; [done|]. simpl.
  rewrite (H k a) by by left. f_equal. apply IH. intros. apply H. by right.
Qed.

Lemma sorted_keys_perm {A} (m : gmap string A) : sorted_keys m ≡ₚ (map_to_list m).*1.
Proof. unfold sorted_keys, sort_strings. apply sort_by_perm. Qed.

Lemma NoDup_sorted_keys {A} (m : gmap string A) : NoDup (sorted_keys m).
Proof. rewrite sorted_keys_perm. apply NoDup_fst_map_to_list. Qed.

(** Maps with records of the same capacities have the same keys. *)
Lemma keys_perm {A B} (f : A -> B) (m m' : gmap string A) :
  (forall k, f <$> m' !! k = f <$> m !! k) -> (map_to_list m).*1 ≡ₚ (map_to_list m').*1.
Proof.
  intros H. apply NoDup_Permutation; [apply NoDup_fst_map_to_list..|]. intros k.
  assert (Hk : forall m0 : gmap string A, k ∈ (map_to_list m0).*1 <-> is_Some (m0 !! k)).
  { intros m0. rewrite list_elem_of_fmap. split.
    - intros ([k' a] & -> & Hin%elem_of_map_to_list). eauto.
    - intros [a Ha]. exists (k, a). by rewrite elem_of_map_to_list. }
  rewrite !Hk, <- !(fmap_is_Some f), H. done.
Qed.

(** ** Lemmas: the whole emission *)

Lemma plan_totals_notes desired scheme drives existingCompute computeNodes cons w q :
  plan_notes q (plan_totals desired scheme drives existingCompute computeNodes cons w q).2.
Proof.
  unfold plan_totals. case_decide; [apply plan_notes_infeasible; simpl; fmt_nonempty|].
  case_decide; [|apply plan_notes_cores].
  match goal with |- context [planCompute ?a ?b ?c ?d ?e ?f ?g] =>
    pose proof (planCompute_notes a b c d e f g) as Hn; destruct (planCompute a b c d e f g) end.
  etrans; [apply plan_notes_cores|exact Hn].
Qed.

(** What a feasible plan is made of: the records of the pools, emitted. *)
Record emitted (desired : DesiredCapacity) (cons : CapacityConstraints) (w : world)
    (growth : gmap string ContainerGrowth) (new : gmap string NewContainer) (q : CapacityPlan) : Prop := {
  em_grow : Grow q ≡ₚ (map_to_list growth).*2;
  em_create : Create q ≡ₚ (map_to_list new).*2;
  em_growth_caps : forall name, growth_caps <$> growth !! name = growth_caps <$> w_growth w !! name;
  em_new_caps : forall n, new_caps <$> new !! n = new_caps <$> w_new w !! n;
}.

(** The plan of any run only lists containers of the records, with cores that fit them. *)
Record listed (desired : DesiredCapacity) (cons : CapacityConstraints) (w : world) (q : CapacityPlan) : Prop := {
  ls_grow : forall g, g ∈ Grow q -> exists g0, w_growth w !! cg_Name g0 = Some g0 /\ growth_caps g = growth_caps g0 /\
    cores_ok desired cons (cg_NewTlcGiB g) (cg_NewQlcGiB g) (cg_NewCores g);
  ls_create : forall r, r ∈ Create q -> exists n r0, w_new w !! n = Some r0 /\ new_caps r = new_caps r0 /\
    cores_ok desired cons (new_TlcGiB r) (new_QlcGiB r) (new_NumCores r) /\
    new_Ratio r = Some (RatioFromCaps (new_TlcGiB r) (new_QlcGiB r));
}.

Section emit.
Context (desired : DesiredCapacity) (scheme : ProtectionScheme) (drives : list ExistingContainer).
Context (existingCompute : list ExistingComputeContainer) (computeNodes : option (gmap string bool)).
Context (cons : CapacityConstraints) (w : world) (q : CapacityPlan).
Context (Hgrow : Grow q = []) (Hcreate : Create q = []).

Let r := emit_plan desired scheme drives existingCompute computeNodes cons w q.

Lemma emit_plan_listed :
  (forall name g, w_growth w !! name = Some g -> cg_Name g = name) ->
  listed desired cons w r.2 /\ (plan_consistent q -> plan_consistent r.2).
Proof.
  intros Hname. unfold r, emit_plan.
  destruct (emit_growth _ _ _ _ _) as [[go growth] q1] eqn:H1.
  apply emit_growth_spec in H1 as (Hc1 & Hcon1 & Hcaps1 & _ & (l1 & Hl1 & Hin1) & Hgo1); [|apply NoDup_sorted_keys].
  rewrite Hgrow in Hl1. rewrite Hcreate in Hc1. simpl in Hl1.
  assert (Hg : forall g, g ∈ Grow q1 -> exists g0, w_growth w !! cg_Name g0 = Some g0 /\
    growth_caps g = growth_caps g0 /\ cores_ok desired cons (cg_NewTlcGiB g) (cg_NewQlcGiB g) (cg_NewCores g)).
  { intros g. rewrite Hl1. intros (name & Hn & Hc)%Hin1. specialize (Hcaps1 name). rewrite Hn in Hcaps1.
    destruct (w_growth w !! name) as [g0|] eqn:Hg0; [|done]. simpl in Hcaps1. injection Hcaps1 as E1 E2 E3.
    exists g0. rewrite (Hname _ _ Hg0). repeat split; [done|unfold growth_caps; congruence|apply Hc..]. }
  destruct go.
  2:{ split; [|done]. constructor; [exact Hg|]. simpl. rewrite Hc1. set_solver. }
  destruct (emit_new _ _ _ _ _ _) as [[[go2 states] new] q2] eqn:H2.
  apply emit_new_spec in H2 as (Hg2 & Hcon2 & _ & Hcaps2 & _ & (l2 & Hl2 & Hin2) & _); [|apply NoDup_sorted_keys].
  rewrite Hc1 in Hl2. simpl in Hl2, Hcaps2.
  assert (Hn : listed desired cons w q2).
  { constructor; [by rewrite Hg2|]. intros x. rewrite Hl2. intros (n & Hn & Hc)%Hin2.
    specialize (Hcaps2 n). rewrite Hn in Hcaps2. destruct (w_new w !! n) as [r0|] eqn:Hr0; [|done].
    simpl in Hcaps2. injection Hcaps2 as E1 E2 E3 E4. exists n, r0.
    split; [done|]. split; [unfold new_caps; congruence|exact Hc]. }
  destruct go2; [|split; [done|auto]].
  match goal with |- context [plan_totals _ _ _ _ _ _ ?w' _] =>
    destruct (plan_totals_notes desired scheme drives existingCompute computeNodes cons w' q2) as (Hgr & Hcr & Hcon & _) end.
  split; [|auto]. destruct Hn as [Hn1 Hn2]. constructor; [by rewrite Hgr|by rewrite Hcr].
Qed.

Lemma emit_plan_feasible :
  Infeasible r.2 = "" ->
  Infeasible q = "" /\ exists growth new states q2,
    emitted desired cons w growth new r.2 /\ same_drives (w_states w) states /\ Infeasible q2 = "" /\
    r = plan_totals desired scheme drives existingCompute computeNodes cons
          {| w_states := states; w_growth := growth; w_new := new |} q2.
Proof.
  unfold r, emit_plan. destruct (emit_growth _ _ _ _ _) as [[go growth] q1] eqn:H1.
  apply emit_growth_spec in H1 as (Hc1 & _ & Hcaps1 & _ & _ & Hgo1); [|apply NoDup_sorted_keys].
  destruct go; [|simpl; done]. destruct Hgo1 as [Hi1 Hgr1]. rewrite Hgrow in Hgr1. rewrite Hcreate in Hc1.
  destruct (emit_new _ _ _ _ _ _) as [[[go2 states] new] q2] eqn:H2.
  apply emit_new_spec in H2 as (Hg2 & _ & Hsd & Hcaps2 & _ & _ & Hgo2); [|apply NoDup_sorted_keys].
  destruct go2; [|simpl; done]. destruct Hgo2 as [Hi2 Hcr2]. rewrite Hc1 in Hcr2. simpl in *.
  destruct (plan_totals_notes desired scheme drives existingCompute computeNodes cons
    {| w_states := states; w_growth := growth; w_new := new |} q2) as (Hgr & Hcr & _ & Hinf).
  intros Hf. apply Hinf in Hf. split; [congruence|]. exists growth, new, states, q2.
  split; [|by split]. constructor; simpl.
  - rewrite Hgr, Hg2, Hgr1. apply omap_lookup_keys. rewrite sorted_keys_perm. by apply (keys_perm growth_caps).
  - rewrite Hcr, Hcr2. apply omap_lookup_keys. rewrite sorted_keys_perm. by apply (keys_perm new_caps).
  - done.
  - done.
Qed.

Lemma emit_plan_states_ok : cons_ok cons -> states_ok (w_states w) -> states_ok (w_states r.1).
Proof.
  intros Hc Hok. unfold r, emit_plan. destruct (emit_growth _ _ _ _ _) as [[go growth] q1].
  destruct go; [|done].
  match goal with |- context [emit_new ?a ?b ?c ?d ?e ?f] =>
    pose proof (emit_new_states_ok a b c d e f Hc Hok) as He; destruct (emit_new a b c d e f) as [[[go2 states] new] q2] end.
  simpl in He. destruct go2; [|done]. unfold plan_totals. case_decide; [done|]. case_decide; [|done].
  match goal with |- context [planCompute ?a ?b ?c ?d ?e ?f ?g] =>
    pose proof (planCompute_states_ok a b c d e f g He) as Hp; destruct (planCompute a b c d e f g) end. done.
Qed.
End emit.
