(* ===== verification/Scenarios.v ===== *)
(** * Planning scenarios (planner_test.go)

    The tables of the planner's own tests, run through the model: each example states what the Go
    test of the same name asserts of the plan. They tie the definitions to the behaviour the
    repository pins down, and serve as concrete inputs for the theorems. *)

From S2P Require Import Prelude Float64 Fmt Types Cpu Sizing NodeState Infeasibility ComputeLayout.
From S2P Require Import FdGroups Placement PoolPlan ComputePlan Planner.

(** ** Builders of the tests *)

Definition tib : Z := 1024.

Definition testScheme : ProtectionScheme := {| StripeWidth := 3; RedundancyLevel := 2; HotSpare := 1 |}.

Definition singleParityScheme : ProtectionScheme :=
  {| StripeWidth := 2; RedundancyLevel := 1; HotSpare := 0 |}.

Definition test_cons (allowGrowth singleParity : bool) : CapacityConstraints := {|
  TlcCapacityPerCoreGiB := 5 * tib; QlcCapacityPerCoreGiB := 50 * tib; MinChunkSizeGiB := 384;
  ImbalanceFactor := f_const 2 1; HugepagesPerCoreMiB := 1600; MemoryBaseMiB := 8000;
  MemoryPerCoreMiB := 3000; DriveDpdkPerCoreMiB := 0; ComputeDpdkPerCoreMiB := 0;
  MaxCoresPerContainer := 19; ComputeHugepagesTlcRatio := 0; ComputeHugepagesQlcRatio := 0;
  ComputeMaxHugepagesMiB := 0; ComputeToTlcDriveCoreRatio := f_const 1 1;
  ComputeToQlcDriveCoreRatio := f_const 0 1; FullDrivesComputeToDriveCoreRatio := f_const 2 1;
  AllowInPlaceGrowth := allowGrowth; MinGrowthFraction := f_const 2 10;
  MaxOverProvisionFraction := f_const 2 10; CapacityDeadbandFraction := f_const 0 1;
  AllowSingleParity := singleParity; CpuPolicy := "" |}.

Definition testCons : CapacityConstraints := test_cons true false.

Definition label_node (name fd : string) (tlcGiB qlcGiB cores : Z) : NodeCapacity := {|
  nc_NodeName := name; nc_TlcGiB := tlcGiB; nc_QlcGiB := qlcGiB; nc_AllocatableCPU := cores;
  nc_IsHt := false; nc_FullPcpusOnly := false; nc_AvailableHugepagesMiB := 2 ^ 28;
  nc_AvailableMemoryMiB := 2 ^ 28; nc_FDValue := fd; nc_HasDeletingDriveContainer := false;
  nc_IneligibleReason := "" |}.

Definition test_node (name : string) (tlcGiB qlcGiB cores : Z) : NodeCapacity :=
  label_node name name tlcGiB qlcGiB cores.

Definition numbered (prefix : string) (n : Z) : list string :=
  (fun i => String.append prefix (pretty i)) <$> loop_range 1 n.

Definition test_nodes (n tlcGiB qlcGiB cores : Z) (prefix : string) : list NodeCapacity :=
  (fun name => test_node name tlcGiB qlcGiB cores) <$> numbered prefix n.

Definition test_drives (n tlcGiB qlcGiB cores : Z) (prefix : string) : list ExistingContainer :=
  (fun node => {| ec_Name := String.append "c-" node; ec_Node := node; ec_FDValue := node;
                  ec_TlcGiB := tlcGiB; ec_QlcGiB := qlcGiB; ec_NumCores := cores;
                  ec_Unscheduled := false |}) <$> numbered prefix n.

Definition desiredDrive (usableGiB : Z) (s : ProtectionScheme) (r : DriveTypesRatio)
    (driveContainers driveCores : Z) : DesiredCapacity :=
  let raw := RawCapacityGiB usableGiB (StripeWidth s) (RedundancyLevel s) (HotSpare s) in
  let '(tlc, qlc) := GetTlcQlcCapacity raw (Some r) in
  {| TlcRawGiB := tlc; QlcRawGiB := qlc; ComputeContainers := 0; ComputeCores := 0;
     DriveContainers := driveContainers; DriveCores := driveCores |}.

Definition desiredFrom (usableGiB : Z) (s : ProtectionScheme) (r : DriveTypesRatio) : DesiredCapacity :=
  desiredDrive usableGiB s r 0 0.

Definition desiredTlc (tlc : Z) : DesiredCapacity :=
  {| TlcRawGiB := tlc; QlcRawGiB := 0; ComputeContainers := 0; ComputeCores := 0;
     DriveContainers := 0; DriveCores := 0 |}.

Definition ratio (tlc qlc : Z) : DriveTypesRatio := {| ratio_Tlc := tlc; ratio_Qlc := qlc |}.

Definition allEligible (inv : list NodeCapacity) : option (gmap string bool) :=
  Some (list_to_map ((fun n => (nc_NodeName n, true)) <$> inv)).

Definition planCap (desired : DesiredCapacity) (s : ProtectionScheme)
    (existing : list ExistingContainer) (inv : list NodeCapacity) (cons : CapacityConstraints) :
    CapacityPlan :=
  PlanCapacity desired s existing [] inv (allEligible inv) cons.

(** The created capacities and types, and the grown TLC capacities. *)
Definition created (q : CapacityPlan) : list (Z * Z * string) :=
  (fun n => (new_TlcGiB n, new_QlcGiB n, new_Type n)) <$> Create q.
Definition grown (q : CapacityPlan) : list Z := cg_NewTlcGiB <$> Grow q.

(** ** Greenfield *)

Example Test_SingleParity_RejectedWhenFlagOff :
  let q := planCap (desiredFrom (60 * tib) singleParityScheme (ratio 0 1)) singleParityScheme []
             (test_nodes 3 0 (100 * tib) 64 "q") testCons in
  Infeasible q = "clusterCapacity requires stripeWidth>=3, redundancyLevel>=2, hotSpare>=0 (got sw=2 rl=1 hs=0)".
Proof. vm_compute. reflexivity. Qed.

Example Test_SingleParity_AcceptedWhenFlagOn :
  let q := planCap (desiredFrom (30 * tib) singleParityScheme (ratio 0 1)) singleParityScheme []
             (test_nodes 3 0 (100 * tib) 64 "q") (test_cons true true) in
  Infeasible q = "" /\ created q = replicate 3 (0, 17067, "qlc").
Proof. vm_compute. done. Qed.

Example Test_Greenfield_Homogeneous :
  let q := planCap (desiredFrom (90 * tib) testScheme (ratio 1 0)) testScheme []
             (test_nodes 6 (100 * tib) 0 64 "n") testCons in
  Infeasible q = "" /\ Grow q = [] /\ created q = replicate 6 (34134, 0, "tlc").
Proof. vm_compute. done. Qed.

Example Test_Greenfield_MoreNodesThanMinFd :
  let q := planCap (desiredFrom (90 * tib) testScheme (ratio 1 0)) testScheme []
             (test_nodes 12 (100 * tib) 0 64 "n") testCons in
  Infeasible q = "" /\ created q = replicate 6 (34134, 0, "tlc").
Proof. vm_compute. done. Qed.

Example Test_Greenfield_MinFdNumTooSmall :
  let q := planCap (desiredFrom (90 * tib) testScheme (ratio 1 0)) testScheme []
             (test_nodes 12 (20 * tib) 0 64 "n") testCons in
  Infeasible q = "" /\ created q = replicate 10 (20480, 0, "tlc").
Proof. vm_compute. done. Qed.

Example Test_Greenfield_Heterogeneous_AddsFdToBalance :
  let q := planCap (desiredTlc (420 * tib)) testScheme []
             (test_nodes 2 (100 * tib) 0 64 "big" ++ test_nodes 5 (64 * tib) 0 64 "med") testCons in
  Infeasible q = "" /\ created q = replicate 7 (60 * tib, 0, "tlc").
Proof. vm_compute. done. Qed.

Example Test_Greenfield_TLCplusQLC_DisjointNodes :
  let q := planCap (desiredFrom (120 * tib) testScheme (ratio 1 3)) testScheme []
             (test_nodes 6 (100 * tib) 0 64 "t" ++ test_nodes 6 0 (100 * tib) 64 "q") testCons in
  Infeasible q = "" /\ created q = replicate 6 (0, 34134, "qlc") ++ replicate 6 (11378, 0, "tlc").
Proof. vm_compute. done. Qed.

Example Test_Greenfield_TLCplusQLC_PrefersSameNode :
  let q := planCap (desiredFrom (60 * tib) testScheme (ratio 1 1)) testScheme []
             (test_nodes 12 (100 * tib) (100 * tib) 64 "n") testCons in
  Infeasible q = "" /\ created q = replicate 6 (11378, 11378, "mixed").
Proof. vm_compute. done. Qed.

(** ** Pinned counts and cores *)

Example Test_DriveContainers_Exact :
  let q := planCap (desiredDrive (90 * tib) testScheme (ratio 1 0) 8 0) testScheme []
             (test_nodes 12 (100 * tib) 0 64 "n") testCons in
  Infeasible q = "" /\ created q = replicate 8 (25600, 0, "tlc").
Proof. vm_compute. done. Qed.

Example Test_DriveContainers_Mixed_SplitByRatio :
  let q := planCap (desiredDrive (120 * tib) testScheme (ratio 1 3) 24 0) testScheme []
             (test_nodes 6 (100 * tib) 0 64 "t" ++ test_nodes 18 0 (100 * tib) 64 "q") testCons in
  Infeasible q = "" /\ len (filter (fun n => new_Type n = "tlc") (Create q)) = 6 /\
  len (filter (fun n => new_Type n = "qlc") (Create q)) = 18.
Proof. vm_compute. done. Qed.

Example Test_DriveCores_Honored :
  let q := planCap (desiredDrive (90 * tib) testScheme (ratio 1 0) 0 8) testScheme []
             (test_nodes 6 (100 * tib) 0 64 "n") testCons in
  Infeasible q = "" /\ new_NumCores <$> Create q = replicate 6 8.
Proof. vm_compute. done. Qed.

Example Test_DriveCores_TooSmall :
  Infeasible (planCap (desiredDrive (90 * tib) testScheme (ratio 1 0) 0 3) testScheme []
                (test_nodes 6 (100 * tib) 0 64 "n") testCons) =
  "driveCores=3 is too small for a drive container of 34134 GiB (TLC 34134 + QLC 0): it needs 7 cores".
Proof. vm_compute. reflexivity. Qed.

(** ** Growth *)

Example Test_Grow_FitsInPlace :
  let q := planCap (desiredFrom (120 * tib) testScheme (ratio 1 0)) testScheme
             (test_drives 6 (30 * tib) 0 6 "n") (test_nodes 6 (70 * tib) 0 58 "n") testCons in
  Infeasible q = "" /\ Create q = [] /\ grown q = replicate 6 45511.
Proof. vm_compute. done. Qed.

Example Test_GrowA1_EvenGrow :
  let q := planCap (desiredTlc (240 * tib)) testScheme
             (test_drives 6 (25 * tib) 0 5 "n") (test_nodes 6 (15 * tib) 0 59 "n") testCons in
  Infeasible q = "" /\ Create q = [] /\ grown q = replicate 6 (40 * tib).
Proof. vm_compute. done. Qed.

Example Test_Heterogeneous_BalancedFresh_ScalingDisabled :
  let q := planCap (desiredTlc (240 * tib)) testScheme (test_drives 6 (10 * tib) 0 2 "small")
             (test_nodes 6 (5 * tib) 0 16 "small" ++ test_nodes 6 (100 * tib) 0 64 "big") (test_cons false false) in
  Infeasible q = "" /\ Grow q = [] /\ created q = replicate 6 (40 * tib, 0, "tlc") /\ len (Warnings q) = 1.
Proof. vm_compute. done. Qed.

Example Test_UniformIncrease_Homogeneous_Readd :
  let q := planCap (desiredTlc (120 * tib)) testScheme (test_drives 5 (20 * tib) 0 4 "old")
             (test_nodes 5 0 0 64 "old" ++ test_nodes 1 (100 * tib) 0 64 "new") testCons in
  Infeasible q = "" /\ Grow q = [] /\ created q = [(20 * tib, 0, "tlc")] /\ OverProvisions q = [].
Proof. vm_compute. done. Qed.

(** ** Behaviours the comments do not describe *)

(** Six racks of two 19 TiB hosts each. *)
Definition rack_nodes : list NodeCapacity :=
  concat ((fun r => [label_node (String.append r "a") r (19 * tib) 0 64;
                     label_node (String.append r "b") r (19 * tib) 0 64]) <$> numbered "rack" 6).

(** [selectUniform] reads the candidates as sorted by failure-domain headroom, but they are sorted
    by the headroom of their best node. Six racks of 2 x 19 TiB hold 180 TiB; adding a single 20 TiB
    node, whose failure domain sorts before the racks, makes the same request infeasible. *)
Theorem adding_a_node_makes_infeasible :
  Infeasible (planCap (desiredTlc (180 * tib)) testScheme [] rack_nodes testCons) = "" /\
  Infeasible (planCap (desiredTlc (180 * tib)) testScheme []
                (rack_nodes ++ [test_node "solo" (20 * tib) 0 64]) testCons) =
  "TLC: cannot place 184320 GiB uniformly across 7 failure domains — the smallest usable FD holds 38912 GiB, below the 26332 GiB per-FD share; add capacity or lower clusterCapacity".
Proof. split; vm_compute; reflexivity. Qed.

Definition drive_on (node fd : string) (tlc : Z) : ExistingContainer := {|
  ec_Name := node; ec_Node := node; ec_FDValue := fd; ec_TlcGiB := tlc; ec_QlcGiB := 0;
  ec_NumCores := 4; ec_Unscheduled := false |}.

(** A pinned container count can grow a container in place with dynamic drive scaling disabled: the
    guard compares the failure domain's total with the target, but the placement splits the target
    evenly over the hosts, so the smaller of two unequal hosts is grown. *)
Theorem pinned_count_grows_in_place :
  let desired := {| TlcRawGiB := 120 * tib; QlcRawGiB := 0; ComputeContainers := 0; ComputeCores := 0;
                    DriveContainers := 6; DriveCores := 0 |} in
  let drives := [drive_on "n1a" "r1" (9 * tib); drive_on "n1b" "r1" (11 * tib)] ++
                ((fun n => drive_on n n (20 * tib)) <$> ["r2"; "r3"; "r4"; "r5"]) in
  let inv := [label_node "n1a" "r1" (40 * tib) 0 64; label_node "n1b" "r1" (40 * tib) 0 64] ++
             ((fun n => test_node n (40 * tib) 0 64) <$> ["r2"; "r3"; "r4"; "r5"; "r6"]) in
  let q := planCap desired testScheme drives inv (test_cons false false) in
  Infeasible q = "" /\
  Grow q = [{| cg_Name := "n1a"; cg_NewTlcGiB := 10 * tib; cg_NewQlcGiB := 0; cg_NewCores := 2 |}].
Proof. vm_compute. done. Qed.

(** The constraints of the tests with the default 5% deadband. *)
Definition deadband_cons : CapacityConstraints := {|
  TlcCapacityPerCoreGiB := 5 * tib; QlcCapacityPerCoreGiB := 50 * tib; MinChunkSizeGiB := 384;
  ImbalanceFactor := f_const 2 1; HugepagesPerCoreMiB := 1600; MemoryBaseMiB := 8000;
  MemoryPerCoreMiB := 3000; DriveDpdkPerCoreMiB := 0; ComputeDpdkPerCoreMiB := 0;
  MaxCoresPerContainer := 19; ComputeHugepagesTlcRatio := 0; ComputeHugepagesQlcRatio := 0;
  ComputeMaxHugepagesMiB := 0; ComputeToTlcDriveCoreRatio := f_const 1 1;
  ComputeToQlcDriveCoreRatio := f_const 0 1; FullDrivesComputeToDriveCoreRatio := f_const 2 1;
  AllowInPlaceGrowth := true; MinGrowthFraction := f_const 2 10;
  MaxOverProvisionFraction := f_const 2 10; CapacityDeadbandFraction := f_const 5 100;
  AllowSingleParity := false; CpuPolicy := "" |}.

(** A rolled-back failure domain leaves empty records behind. When the rest of the plan is within
    the deadband, the feasible plan creates containers of 0 GiB: here the failure domain "x" has the
    headroom but not on an even split over its two hosts. *)
Theorem rollback_creates_empty_containers :
  let inv := test_nodes 20 (30 * tib) 0 64 "n" ++
             [label_node "xa" "x" (20 * tib) 0 64; label_node "xb" "x" (10 * tib) 0 64] in
  let q := planCap (desiredTlc (630 * tib)) testScheme [] inv deadband_cons in
  Infeasible q = "" /\ created q = replicate 20 (30 * tib, 0, "tlc") ++ replicate 2 (0, 0, "tlc").
Proof. vm_compute. done. Qed.
