(* ===== verification/Correctness.v ===== *)
(** * Correctness of the planner

    The theorems about [PlanCapacity] as a whole: what a plan contains, that it fits the inventory,
    that a feasible plan covers both pools and the compute requirement, and that re-planning an applied
    plan changes nothing. They are proved from the component lemmas; the shared invariant of the
    planner's world is [world_inv]. *)

From S2P Require Import Prelude Float64 Fmt Types Cpu Sizing NodeState Infeasibility ComputeLayout.
From S2P Require Import FdGroups Placement PoolPlan ComputePlan Planner Scenarios.

(** ** Sums over the new containers *)

Definition sum_new (m : gmap string NewContainer) (p : poolKind) : Z :=
  sumZ ((fun kn => poolCapNew kn.2 p) <$> map_to_list m).

Lemma sum_new_elements m p (X : gset string) :
  dom m ⊆ X -> sumZ ((fun n => new_cap m n p) <$> elements X) = sum_new m p.
Proof.
  intros HX. rewrite (union_difference_L _ _ HX), elements_disj_union by set_solver.
  rewrite fmap_app, sumZ_app.
  assert (sumZ ((fun n => new_cap m n p) <$> elements (X ∖ dom m)) = 0) as ->.
  { assert (Hz : Forall (fun n => new_cap m n p = 0) (elements (X ∖ dom m))).
    { apply Forall_forall. intros n [_ Hn]%elem_of_elements%elem_of_difference.
      apply not_elem_of_dom in Hn. unfold new_cap. by rewrite Hn. }
    induction Hz as [|x l Hx _ IH]; [done|]. rewrite fmap_cons, sumZ_cons, Hx, IH. done. }
  rewrite Z.add_0_r. unfold sum_new.
  assert (Hp : elements (dom m) ≡ₚ (map_to_list m).*1).
  { apply NoDup_Permutation; [apply NoDup_elements|apply NoDup_fst_map_to_list|]. intros n.
    rewrite elem_of_elements, elem_of_dom, list_elem_of_fmap. split.
    - intros [r Hr]. exists (n, r). by rewrite elem_of_map_to_list.
    - intros ([k r] & -> & Hr%elem_of_map_to_list). eauto. }
  rewrite Hp, <- list_fmap_compose. f_equal. apply list_fmap_ext. intros i [k r] Hi.
  apply list_elem_of_lookup_2, elem_of_map_to_list in Hi. simpl. unfold new_cap. by rewrite Hi.
Qed.

Lemma sum_fmap_mono {A} (f g : A -> Z) l : (forall x, x ∈ l -> f x <= g x) -> sumZ (f <$> l) <= sumZ (g <$> l).
Proof.
  induction l as [|x l IH]; intros H; [done|]. rewrite !fmap_cons, !sumZ_cons.
  assert (f x <= g x) by (apply H; by left). assert (sumZ (f <$> l) <= sumZ (g <$> l)); [|lia].
  apply IH. intros. apply H. by right.
Qed.

Lemma sum_new_mono m m' p : (forall n, new_cap m n p <= new_cap m' n p) -> sum_new m p <= sum_new m' p.
Proof.
  intros H. rewrite <- (sum_new_elements m p (dom m ∪ dom m')), <- (sum_new_elements m' p (dom m ∪ dom m'))
    by set_solver. by apply sum_fmap_mono.
Qed.

(** ** Failure domains that carry a pool *)

Lemma dom_fold_add {A} (P : A -> Prop) `{!forall x, Decision (P x)} (k : A -> string) (v : A -> Z) l m :
  dom (fold_left (fun m x => if decide (P x) then map_add m (k x) (v x) else m) l m) =
  dom m ∪ list_to_set (k <$> filter P l).
Proof.
  revert m. induction l as [|x l IH]; intros m; simpl; [set_solver|].
  rewrite IH, filter_cons. case_decide; [|done]. unfold map_add. rewrite dom_insert_L. simpl. set_solver.
Qed.

Lemma elem_of_finalPerFD p drives growth new fd :
  fd ∈ dom (finalPerFD p drives growth new) <-> fd <> "" /\
  ((exists c, c ∈ drives /\ ec_FDValue c = fd /\ finalPoolCap c growth p > 0) \/
   (exists n r, new !! n = Some r /\ new_FDValue r = fd /\ poolCapNew r p > 0)).
Proof.
  unfold finalPerFD.
  rewrite (dom_fold_add (fun kn => poolCapNew kn.2 p > 0 /\ new_FDValue kn.2 <> "") (fun kn => new_FDValue kn.2)
    (fun kn => poolCapNew kn.2 p)).
  rewrite (dom_fold_add (fun c => finalPoolCap c growth p > 0 /\ ec_FDValue c <> "") ec_FDValue
    (fun c => finalPoolCap c growth p)).
  rewrite dom_empty_L, !elem_of_union, !elem_of_list_to_set, !list_elem_of_fmap. split.
  - intros [[?%elem_of_empty|(c & -> & Hc)]|([n r] & -> & Hr)]; [done| |].
    + apply list_elem_of_filter in Hc as [[? ?] ?]. split; [done|]. left. eauto.
    + apply list_elem_of_filter in Hr as [[? ?] Hr]. apply elem_of_map_to_list in Hr. split; [done|]. right. eauto.
  - intros [Hne [(c & Hc & <- & Hp)|(n & r & Hr & <- & Hp)]].
    + left. right. exists c. split; [done|]. by apply list_elem_of_filter.
    + right. exists (n, r). split; [done|]. apply list_elem_of_filter. simpl. split; [done|].
      by apply elem_of_map_to_list.
Qed.

(** ** The invariant of the planner's world *)

Section world_inv.
Context (drives : list ExistingContainer) (Hnames : NoDup (ec_Name <$> drives)).
Context (init : nodeStates).

(** The nodes are those of the inventory, every GiB taken from a node is recorded, the records are
    those of known containers and nodes, and nothing shrank. *)
Record world_inv (w : world) : Prop := {
  wi_nodes : forall n, nc <$> w_states w !! n = nc <$> init !! n;
  wi_balanced : balanced drives init w;
  wi_records : records_ok drives w;
  wi_growth : forall c q, c ∈ drives -> poolCap c q <= finalPoolCap c (w_growth w) q;
  wi_new : forall n q, 0 <= new_cap (w_new w) n q;
}.

Lemma world_inv_init : world_inv {| w_states := init; w_growth := ∅; w_new := ∅ |}.
Proof.
  assert (Hf : forall c q, finalPoolCap c ∅ q = poolCap c q).
  { intros c q. rewrite poolCapGrowth_finalPoolCap. unfold growFor. rewrite lookup_empty. by destruct q. }
  assert (Hn : forall n q, new_cap ∅ n q = 0) by (intros; unfold new_cap; by rewrite lookup_empty).
  constructor; simpl.
  - done.
  - intros n q. simpl. rewrite Hn. unfold grown_on.
    assert (sumZ ((fun c => finalPoolCap c ∅ q - poolCap c q) <$> filter (fun c => ec_Node c = n) drives) = 0) as ->;
      [|lia].
    induction (filter (fun c => ec_Node c = n) drives) as [|c l IH]; [done|].
    rewrite fmap_cons, sumZ_cons, IH, Hf. lia.
  - split; simpl; intros ??; by rewrite lookup_empty.
  - intros. rewrite Hf. lia.
  - intros. rewrite Hn. lia.
Qed.

Lemma world_inv_place p T chosen cons w : world_inv w -> world_inv (placeUniform p T chosen drives cons w).
Proof using Hnames.
  intros [Hn Hb Hr Hg Hw]. destruct (placeUniform_extends drives Hnames p cons T chosen w) as (En & Eg & Ew & _).
  constructor.
  - intros n. by rewrite En.
  - by apply placeUniform_balanced.
  - by apply placeUniform_records_ok.
  - intros c q Hc. specialize (Hg c q Hc). destruct (Eg c q Hc). lia.
  - intros n q. specialize (Hw n q). destruct (Ew n q). lia.
Qed.

(** What [planPool] does to the world, as one placement. *)
Lemma planPool_placement p d minFd t cons w q :
  exists T chosen, (planPool p d minFd t drives cons w q).1 = placeUniform p T chosen drives cons w.
Proof.
  destruct (planPool_spec p d minFd t drives cons w q) as [[(T & chosen & H & _) _]|[H _]]; [eauto|].
  exists 0, []. exact H.
Qed.

Lemma planPool_notes p d minFd t cons w q : plan_notes q (planPool p d minFd t drives cons w q).2.
Proof.
  destruct (planPool_spec p d minFd t drives cons w q) as [[(T & chosen & _ & H & _) _]|[_ [H _]]]; exact H.
Qed.

(** The total capacity of a pool, and its failure domains, after planning. *)
Definition pool_total (p : poolKind) (w : world) : Z :=
  sum_new (w_new w) p + sumZ ((fun c => finalPoolCap c (w_growth w) p) <$> drives).

Definition pool_fds (p : poolKind) (w : world) : Z :=
  Z.of_nat (size (dom (finalPerFD p drives (w_growth w) (w_new w)))).

Lemma pool_total_mono p q w w' : extends drives q w w' -> pool_total p w <= pool_total p w'.
Proof.
  intros (_ & Hg & Hn & _). unfold pool_total.
  assert (sum_new (w_new w) p <= sum_new (w_new w') p) by (apply sum_new_mono; intros; apply Hn).
  assert (sumZ ((fun c => finalPoolCap c (w_growth w) p) <$> drives) <=
          sumZ ((fun c => finalPoolCap c (w_growth w') p) <$> drives)); [|lia].
  apply sum_fmap_mono. intros c Hc. by apply Hg.
Qed.

Lemma pool_fds_mono p q w w' : extends drives q w w' -> pool_fds p w <= pool_fds p w'.
Proof.
  intros (_ & Hg & Hn & Hf). unfold pool_fds. apply inj_le, subseteq_size. intros fd.
  rewrite !elem_of_finalPerFD. intros [Hne [(c & Hc & Hfd & Hp)|(n & r & Hr & Hfd & Hp)]]; (split; [done|]).
  - left. exists c. destruct (Hg c p Hc). repeat split; [done|done|lia].
  - right. destruct (Hf n r Hr) as (r' & Hr' & Hfd'). exists n, r'. repeat split; [done|congruence|].
    destruct (Hn n p) as [Hle _]. unfold new_cap in Hle. rewrite Hr, Hr' in Hle. lia.
Qed.

Lemma pool_placed_total p w b :
  (forall c, c ∈ drives -> 0 <= poolCap c p) -> world_inv w ->
  pool_placed p drives (w_growth w) (w_new w) b <= pool_total p w.
Proof.
  intros Hpos Hw. unfold pool_placed, pool_total. apply Z.add_le_mono; [done|].
  assert (H0 : forall c, c ∈ drives -> 0 <= finalPoolCap c (w_growth w) p).
  { intros c Hc. pose proof (wi_growth _ Hw c p Hc). specialize (Hpos c Hc). lia. }
  clear -H0. induction drives as [|c l IH]; [done|]. rewrite filter_cons, fmap_cons, sumZ_cons.
  assert (0 <= finalPoolCap c (w_growth w) p) by (apply H0; by left).
  assert (Hl : forall c, c ∈ l -> 0 <= finalPoolCap c (w_growth w) p) by (intros; apply H0; by right).
  specialize (IH Hl). case_decide; [rewrite fmap_cons, sumZ_cons|]; lia.
Qed.

Lemma poolCurrent_total p w : world_inv w -> poolCurrent drives p <= pool_total p w.
Proof.
  intros Hw. unfold poolCurrent, pool_total.
  assert (0 <= sum_new (w_new w) p).
  { unfold sum_new. apply sumZ_nonneg, Forall_fmap, Forall_forall. intros [n r] Hr%elem_of_map_to_list.
    pose proof (wi_new _ Hw n p) as H. unfold new_cap in H. by rewrite Hr in H. }
  assert (sumZ ((fun c => poolCap c p) <$> drives) <= sumZ ((fun c => finalPoolCap c (w_growth w) p) <$> drives)); [|lia].
  apply sum_fmap_mono. intros c Hc. by apply Hw.
Qed.

(** A pool that is planned and still feasible is covered, and spans the failure domains if it was short. *)
Definition pool_done (p : poolKind) (d minFd : Z) (cons : CapacityConstraints) (w : world) : Prop :=
  0 < d -> CapacityCoverTarget d cons <= pool_total p w /\
  (CapacityShort (poolCurrent drives p) d cons = true -> poolCurrent drives p <= d -> minFd <= pool_fds p w).

Lemma planPool_done p d minFd t cons w q :
  (forall c, c ∈ drives -> 0 <= poolCap c p) -> CapacityCoverTarget d cons <= d -> world_inv w ->
  let r := planPool p d minFd t drives cons w q in
  Infeasible r.2 = "" -> pool_done p d minFd cons r.1.
Proof using Hnames.
  intros Hpos Hle Hw r Hf Hd.
  assert (Hr : world_inv r.1).
  { destruct (planPool_placement p d minFd t cons w q) as (T & chosen & HT). unfold r. rewrite HT.
    by apply world_inv_place. }
  pose proof (poolCurrent_total p r.1 Hr).
  destruct (planPool_spec p d minFd t drives cons w q) as [[(T & chosen & _ & _ & Hc & _) _]|(_ & _ & _ & Hn)].
  - destruct (Hc Hf) as (b & Hcov & Hfd). fold r in Hcov, Hfd. split.
    + pose proof (pool_placed_total p r.1 b Hpos Hr). lia.
    + intros _ _. unfold pool_fds. by rewrite size_dom.
  - destruct Hn as [Hn|[Hn|Hn]]; [lia| |]; split; try lia.
    + apply CapacityShort_false in Hn. lia.
    + congruence.
Qed.

Lemma pool_done_mono p q d minFd cons w w' :
  extends drives q w w' -> pool_done p d minFd cons w -> pool_done p d minFd cons w'.
Proof.
  intros He Hd Hp. destruct (Hd Hp) as [Hc Hf].
  pose proof (pool_total_mono p q w w' He). pose proof (pool_fds_mono p q w w' He).
  split; [lia|]. intros ??. etrans; [by apply Hf|done].
Qed.
End world_inv.

(** ** Runs of the planner *)

Definition desired_pool (d : DesiredCapacity) (p : poolKind) : Z :=
  match p with poolTLC => TlcRawGiB d | poolQLC => QlcRawGiB d end.

Definition initial_world (inventory : list NodeCapacity) : world :=
  {| w_states := init_states inventory; w_growth := ∅; w_new := ∅ |}.

Lemma pool_order_cases desired t1 t2 drives states :
  pool_order desired t1 t2 drives states = [(poolQLC, QlcRawGiB desired, t2); (poolTLC, TlcRawGiB desired, t1)] \/
  pool_order desired t1 t2 drives states = [(poolTLC, TlcRawGiB desired, t1); (poolQLC, QlcRawGiB desired, t2)].
Proof. unfold pool_order. case_decide; auto. Qed.

(** A run is rejected before anything is placed, or plans the two pools one after the other and emits. *)
Lemma run_planner_cases desired scheme drives existingCompute inventory computeNodes cons :
  let r := run_planner desired scheme drives existingCompute inventory computeNodes cons in
  (exists rep, ir_Reason rep <> "" /\ r = (initial_world inventory, setInfeasible rep empty_plan)) \/
  protection_report scheme cons = None /\
  exists p1 p2 t1 t2, p1 <> p2 /\ (DriveContainers desired <= 0 -> t1 = 0 /\ t2 = 0) /\
    let minFd := MinFdNum scheme in
    let r1 := planPool p1 (desired_pool desired p1) minFd t1 drives cons (initial_world inventory) empty_plan in
    let r2 := planPool p2 (desired_pool desired p2) minFd t2 drives cons r1.1 r1.2 in
    r = emit_plan desired scheme drives existingCompute computeNodes cons r2.1 r2.2.
Proof.
  intros r. unfold r, run_planner. destruct (protection_report scheme cons) as [rep|] eqn:Hp.
  { left. exists rep. split; [|done]. unfold protection_report in Hp.
    destruct (MinProtectionFloor _) as [[? ?] ?]. case_decide; [|done]. injection Hp as <-. simpl. fmt_nonempty. }
  destruct (if decide (DriveContainers desired > 0) then _ else _) as [[t1 t2] reason] eqn:Hs.
  destruct (decide (reason <> "")) as [Hr|Hr]; [left; exists (plain_report reason "driveContainers" (fixesDriveContainers 0)); by split|]. right. split; [done|].
  assert (Ht : DriveContainers desired <= 0 -> t1 = 0 /\ t2 = 0).
  { intros. rewrite decide_False in Hs by lia. by simplify_eq. }
  fold (initial_world inventory).
  destruct (pool_order_cases desired t1 t2 drives (w_states (initial_world inventory))) as [-> | ->].
  - exists poolQLC, poolTLC, t2, t1. split; [done|]. split; [naive_solver|]. unfold planPools. simpl.
    destruct (planPool poolQLC _ _ _ _ _ _ _) as [w1 q1]. simpl. by destruct (planPool poolTLC _ _ _ _ _ _ _).
  - exists poolTLC, poolQLC, t1, t2. split; [done|]. split; [naive_solver|]. unfold planPools. simpl.
    destruct (planPool poolTLC _ _ _ _ _ _ _) as [w1 q1]. simpl. by destruct (planPool poolQLC _ _ _ _ _ _ _).
Qed.

(** *** The inventory *)

Lemma init_states_lookup inventory n ns :
  init_states inventory !! n = Some ns -> exists c, c ∈ inventory /\ nc_NodeName c = n /\ ns = init_state c.
Proof.
  unfold init_states. induction inventory as [|c l IH] using rev_ind; [simpl; by rewrite lookup_empty|].
  rewrite fold_left_app. simpl. rewrite lookup_insert_Some. intros [[<- <-]|[_ H]].
  - exists c. split; [set_solver|done].
  - apply IH in H as (c' & ? & ? & ?). exists c'. split; [set_solver|done].
Qed.

Lemma init_states_named inventory : states_named (init_states inventory).
Proof. intros n ns (c & _ & <- & ->)%init_states_lookup. done. Qed.

Lemma init_states_ok inventory :
  Forall (fun c => node_ok (init_state c)) inventory -> states_ok (init_states inventory).
Proof. rewrite Forall_forall. intros H n ns (c & Hc & _ & ->)%init_states_lookup. by apply H. Qed.

(** *** The plan as the cluster after it is applied *)

(** The growth records of a plan, by container. *)
Definition grow_map (q : CapacityPlan) : gmap string ContainerGrowth :=
  list_to_map ((fun g => (cg_Name g, g)) <$> Grow q).

(** The capacity of an existing container under the plan. *)
Definition planned_cap (q : CapacityPlan) (p : poolKind) (c : ExistingContainer) : Z :=
  finalPoolCap c (grow_map q) p.

(** The total capacity of a pool under the plan. *)
Definition realized (drives : list ExistingContainer) (q : CapacityPlan) (p : poolKind) : Z :=
  sumZ ((fun n => poolCapNew n p) <$> Create q) + sumZ (planned_cap q p <$> drives).

(** The failure domains that carry a pool under the plan. *)
Definition realized_fds (drives : list ExistingContainer) (q : CapacityPlan) (p : poolKind) : gset string :=
  list_to_set (ec_FDValue <$> filter (fun c => planned_cap q p c > 0 /\ ec_FDValue c <> "") drives) ∪
  list_to_set (new_FDValue <$> filter (fun n => poolCapNew n p > 0 /\ new_FDValue n <> "") (Create q)).

(** What the plan takes from a node's free drive capacity. *)
Definition taken (drives : list ExistingContainer) (q : CapacityPlan) (n : string) (p : poolKind) : Z :=
  sumZ ((fun r => poolCapNew r p) <$> filter (fun r => new_Node r = n) (Create q)) +
  sumZ ((fun c => planned_cap q p c - poolCap c p) <$> filter (fun c => ec_Node c = n) drives).

Section emitted.
Context (drives : list ExistingContainer) (desired : DesiredCapacity) (cons : CapacityConstraints).
Context (w : world) (growth : gmap string ContainerGrowth) (new : gmap string NewContainer) (q : CapacityPlan).
Context (Hrec : records_ok drives w) (Hem : emitted desired cons w growth new q).

Lemma growth_named name g : growth !! name = Some g -> cg_Name g = name.
Proof using Hrec Hem.
  intros Hg. pose proof (em_growth_caps _ _ _ _ _ _ Hem name) as H. rewrite Hg in H.
  destruct (w_growth w !! name) as [g0|] eqn:Hg0; [|done]. injection H as -> _ _.
  by apply (proj1 Hrec) in Hg0 as [? _].
Qed.

Lemma emitted_grow_map : grow_map q = growth.
Proof using Hrec Hem.
  unfold grow_map.
  assert (Hl : (fun g => (cg_Name g, g)) <$> (map_to_list growth).*2 = map_to_list growth).
  { rewrite <- list_fmap_compose. rewrite <- (list_fmap_id (map_to_list growth)) at 2.
    apply list_fmap_ext. intros i [k g] Hi. apply list_elem_of_lookup_2, elem_of_map_to_list in Hi.
    simpl. by rewrite (growth_named _ _ Hi). }
  assert (Hp : (fun g => (cg_Name g, g)) <$> Grow q ≡ₚ map_to_list growth).
  { rewrite <- Hl. apply fmap_Permutation, Hem. }
  rewrite <- (list_to_map_to_list growth). apply list_to_map_proper; [|done].
  rewrite Hp. apply NoDup_fst_map_to_list.
Qed.

Lemma planned_cap_eq p c : planned_cap q p c = finalPoolCap c (w_growth w) p.
Proof using Hrec Hem.
  unfold planned_cap. rewrite emitted_grow_map, !poolCapGrowth_finalPoolCap. unfold growFor.
  pose proof (em_growth_caps _ _ _ _ _ _ Hem (ec_Name c)) as H.
  destruct (growth !! ec_Name c), (w_growth w !! ec_Name c); simpl in H; try done.
  apply growth_caps_pool. by apply (inj Some) in H.
Qed.

Lemma new_cap_emitted n p : new_cap new n p = new_cap (w_new w) n p.
Proof using Hem.
  unfold new_cap. pose proof (em_new_caps _ _ _ _ _ _ Hem n) as H.
  destruct (new !! n), (w_new w !! n); simpl in H; try done. apply new_caps_pool. by apply (inj Some) in H.
Qed.

Lemma realized_eq p : realized drives q p = pool_total drives p w.
Proof using Hrec Hem.
  unfold realized, pool_total. f_equal.
  - transitivity (sum_new new p).
    + unfold sum_new. rewrite (em_create _ _ _ _ _ _ Hem), <- list_fmap_compose. done.
    + apply Z.le_antisymm; apply sum_new_mono; intros n; rewrite new_cap_emitted; done.
  - f_equal. apply list_fmap_ext. intros i c _. apply planned_cap_eq.
Qed.

Lemma elem_of_realized_fds p fd :
  fd ∈ realized_fds drives q p <-> fd ∈ dom (finalPerFD p drives (w_growth w) (w_new w)).
Proof using Hrec Hem.
  rewrite elem_of_finalPerFD. unfold realized_fds.
  rewrite elem_of_union, !elem_of_list_to_set, !list_elem_of_fmap.
  assert (Hnew : forall r, r ∈ Create q <-> exists n, new !! n = Some r).
  { intros r. rewrite (em_create _ _ _ _ _ _ Hem), list_elem_of_fmap. split.
    - intros ([n r'] & -> & H%elem_of_map_to_list). eauto.
    - intros [n Hn]. exists (n, r). by rewrite elem_of_map_to_list. }
  split.
  - intros [(c & -> & Hc)|(r & -> & Hr)].
    + apply list_elem_of_filter in Hc as [[? ?] ?]. split; [done|]. left. exists c. by rewrite <- planned_cap_eq.
    + apply list_elem_of_filter in Hr as [[? ?] [n Hn]%Hnew]. split; [done|]. right.
      pose proof (em_new_caps _ _ _ _ _ _ Hem n) as H'. rewrite Hn in H'.
      destruct (w_new w !! n) as [r0|] eqn:Hr0; [|done]. apply (inj Some) in H'. exists n, r0.
      rewrite <- (new_caps_pool _ _ p H'). unfold new_caps in H'. repeat split; [done|congruence|done].
  - intros [Hne [(c & Hc & <- & Hp)|(n & r0 & Hr0 & <- & Hp)]].
    + left. exists c. split; [done|]. apply list_elem_of_filter. by rewrite planned_cap_eq.
    + right. pose proof (em_new_caps _ _ _ _ _ _ Hem n) as H'. rewrite Hr0 in H'.
      destruct (new !! n) as [r|] eqn:Hr; [|done]. apply (inj Some) in H'. exists r.
      pose proof (new_caps_pool _ _ p H'). unfold new_caps in H'. injection H' as _ E _ _.
      split; [done|]. apply list_elem_of_filter. rewrite E. split; [split; [lia|done]|]. apply Hnew. eauto.
Qed.

Lemma realized_fds_eq p : Z.of_nat (size (realized_fds drives q p)) = pool_fds drives p w.
Proof using Hrec Hem.
  unfold pool_fds. do 2 f_equal. apply set_eq. intros fd. apply elem_of_realized_fds.
Qed.
End emitted.

(** A node's pending container, from the list of the emitted ones. *)
Lemma sum_new_on_node (l : list (string * NewContainer)) n p :
  NoDup l.*1 -> (forall k r, (k, r) ∈ l -> new_Node r = k) ->
  sumZ ((fun r => poolCapNew r p) <$> filter (fun r => new_Node r = n) l.*2) =
  new_cap (list_to_map l) n p.
Proof.
  induction l as [|[k r] l IH]; intros Hnd Hk; [done|]. simpl in Hnd. apply NoDup_cons in Hnd as [Hn Hnd].
  rewrite fmap_cons, filter_cons. simpl list_to_map. unfold new_cap. rewrite lookup_insert.
  assert (Hkr : new_Node r = k) by (apply Hk; by left). simpl snd. rewrite Hkr.
  assert (Hl : forall k r, (k, r) ∈ l -> new_Node r = k) by (intros; apply Hk; by right).
  destruct (decide (k = n)) as [->|Hne]; [|by apply IH].
  rewrite fmap_cons, sumZ_cons, IH by done. unfold new_cap.
  rewrite not_elem_of_list_to_map_1 by done. lia.
Qed.

Lemma taken_eq drives desired cons w growth new q n p :
  records_ok drives w -> emitted desired cons w growth new q ->
  taken drives q n p = new_cap (w_new w) n p + grown_on drives (w_growth w) n p.
Proof.
  intros Hrec Hem. unfold taken, grown_on. f_equal.
  - rewrite <- (new_cap_emitted desired cons w growth new q Hem), (em_create _ _ _ _ _ _ Hem).
    rewrite sum_new_on_node; [by rewrite list_to_map_to_list|apply NoDup_fst_map_to_list|].
    intros k r Hr%elem_of_map_to_list. pose proof (em_new_caps _ _ _ _ _ _ Hem k) as H. rewrite Hr in H.
    destruct (w_new w !! k) as [r0|] eqn:Hr0; [|done]. injection H as -> _ _ _.
    by apply (proj2 Hrec) in Hr0 as [? _].
  - f_equal. apply list_fmap_ext. intros i c _. by rewrite (planned_cap_eq drives desired cons w growth new q).
Qed.

Section runs.
Context (desired : DesiredCapacity) (scheme : ProtectionScheme) (drives : list ExistingContainer).
Context (existingCompute : list ExistingComputeContainer) (inventory : list NodeCapacity).
Context (computeNodes : option (gmap string bool)) (cons : CapacityConstraints).
Context (Hnames : NoDup (ec_Name <$> drives)).

Let init := init_states inventory.
Let r := run_planner desired scheme drives existingCompute inventory computeNodes cons.

Lemma planPool_world_inv p d minFd t w q :
  world_inv drives init w -> world_inv drives init (planPool p d minFd t drives cons w q).1.
Proof using Hnames.
  intros Hw. destruct (planPool_placement drives p d minFd t cons w q) as (T & chosen & ->).
  by apply world_inv_place.
Qed.

Lemma planPool_extends p d minFd t w q : extends drives p w (planPool p d minFd t drives cons w q).1.
Proof using Hnames.
  destruct (planPool_placement drives p d minFd t cons w q) as (T & chosen & ->).
  by apply placeUniform_extends.
Qed.

Lemma planPool_states_ok p d minFd t w q :
  cons_ok cons -> states_ok (w_states w) -> states_ok (w_states (planPool p d minFd t drives cons w q).1).
Proof.
  intros. destruct (planPool_placement drives p d minFd t cons w q) as (T & chosen & ->).
  by apply placeUniform_states_ok.
Qed.

Lemma run_states_ok : cons_ok cons -> states_ok init -> states_ok (w_states r.1).
Proof.
  intros Hc Hok. unfold r.
  destruct (run_planner_cases desired scheme drives existingCompute inventory computeNodes cons)
    as [(rep & _ & ->)|(_ & p1 & p2 & t1 & t2 & _ & _ & ->)]; [done|].
  apply emit_plan_states_ok; [done|]. by do 2 (apply planPool_states_ok; [done|]).
Qed.

(** What every run lists. *)
Lemma run_listed :
  plan_consistent r.2 /\
  ((Grow r.2 = [] /\ Create r.2 = []) \/ exists w, world_inv drives init w /\ listed desired cons w r.2).
Proof using Hnames.
  unfold r. destruct (run_planner_cases desired scheme drives existingCompute inventory computeNodes cons)
    as [(rep & Hr & ->)|(_ & p1 & p2 & t1 & t2 & _ & _ & ->)]; [split; [done|by left]|].
  set (r1 := planPool p1 _ _ _ _ _ _ _). set (r2 := planPool p2 _ _ _ _ _ _ _).
  assert (Hw : world_inv drives init r2.1) by (do 2 apply planPool_world_inv; apply world_inv_init).
  assert (Hn : plan_notes empty_plan r2.2) by (etrans; apply planPool_notes).
  destruct Hn as (Hg & Hc & Hcon & _).
  destruct (emit_plan_listed desired scheme drives existingCompute computeNodes cons r2.1 r2.2 Hg Hc) as [Hl Hco].
  { intros name g Hgr. by apply (wi_records _ _ _ Hw) in Hgr as [? _]. }
  split; [apply Hco, Hcon; done|]. right. by exists r2.1.
Qed.

Context (Hpos : forall c p, c ∈ drives -> 0 <= poolCap c p).
Context (Hcover : forall p, CapacityCoverTarget (desired_pool desired p) cons <= desired_pool desired p).

(** What a feasible run is made of. *)
Lemma run_feasible :
  Infeasible r.2 = "" ->
  protection_report scheme cons = None /\
  exists w growth new states q2, world_inv drives init w /\
    (cons_ok cons -> states_ok init -> states_ok (w_states w)) /\
    emitted desired cons w growth new r.2 /\
    (forall p, pool_done drives p (desired_pool desired p) (MinFdNum scheme) cons w) /\
    same_drives (w_states w) states /\ Infeasible q2 = "" /\
    r = plan_totals desired scheme drives existingCompute computeNodes cons
          {| w_states := states; w_growth := growth; w_new := new |} q2.
Proof using Hnames Hpos Hcover.
  unfold r. intros Hf.
  destruct (run_planner_cases desired scheme drives existingCompute inventory computeNodes cons)
    as [(rep & Hr & Heq)|(Hp & p1 & p2 & t1 & t2 & Hne & _ & Heq)]; rewrite Heq in *; [by destruct Hr|].
  split; [done|]. clear Heq. cbv zeta in *.
  set (r1 := planPool p1 _ _ _ _ _ _ _) in *. set (r2 := planPool p2 _ _ _ _ _ _ _) in *.
  assert (Hw1 : world_inv drives init r1.1) by (apply planPool_world_inv, world_inv_init).
  assert (Hn1 : plan_notes empty_plan r1.2) by apply planPool_notes.
  assert (Hn2 : plan_notes r1.2 r2.2) by apply planPool_notes.
  assert (Hn : plan_notes empty_plan r2.2) by by etrans.
  destruct Hn as (Hg & Hc & _ & _).
  destruct (emit_plan_feasible desired scheme drives existingCompute computeNodes cons r2.1 r2.2 Hg Hc Hf)
    as (Hi2 & growth & new & states & q2 & Hem & Hsd & Hq2 & Heq).
  assert (Hi1 : Infeasible r1.2 = "") by (by apply Hn2).
  exists r2.1, growth, new, states, q2. split; [by apply planPool_world_inv|].
  split; [intros; by do 2 (apply planPool_states_ok; [done|])|]. split; [done|]. split; [|done].
  assert (Hd1 : pool_done drives p1 (desired_pool desired p1) (MinFdNum scheme) cons r2.1).
  { eapply pool_done_mono; [apply planPool_extends|].
    apply (planPool_done drives Hnames init); auto. apply world_inv_init. }
  assert (Hd2 : pool_done drives p2 (desired_pool desired p2) (MinFdNum scheme) cons r2.1).
  { by apply (planPool_done drives Hnames init); auto. }
  intros p. destruct p, p1, p2; done.
Qed.
End runs.

(** ** Pools that need nothing *)

Lemma planPool_idle p d minFd t drives cons w q :
  (0 < d -> CapacityCoverTarget d cons <= poolCurrent drives p) ->
  (planPool p d minFd t drives cons w q).1 = w.
Proof.
  intros Hc. destruct (planPool_spec p d minFd t drives cons w q) as [(_ & Hd & Hs)|[H _]]; [|done].
  assert (Hf : CapacityShort (poolCurrent drives p) d cons = false) by (apply CapacityShort_false, Hc; lia).
  congruence.
Qed.

(** A run whose pools leave no record lists no container. *)
Lemma listed_empty desired cons w q :
  listed desired cons w q -> (w_growth w = ∅ -> Grow q = []) /\ (w_new w = ∅ -> Create q = []).
Proof.
  intros [Hg Hc]. split; intros He; apply elem_of_nil_inv; intros x Hx.
  - apply Hg in Hx as (g0 & H & _). by rewrite He, lookup_empty in H.
  - apply Hc in Hx as (n & r0 & H & _). by rewrite He, lookup_empty in H.
Qed.

Lemma run_idle desired scheme drives existingCompute inventory computeNodes cons :
  (forall p, 0 < desired_pool desired p ->
     CapacityCoverTarget (desired_pool desired p) cons <= poolCurrent drives p) ->
  let q := PlanCapacity desired scheme drives existingCompute inventory computeNodes cons in
  Grow q = [] /\ Create q = [].
Proof.
  intros Hc q. unfold q, PlanCapacity.
  destruct (run_planner_cases desired scheme drives existingCompute inventory computeNodes cons)
    as [(rep & _ & ->)|(_ & p1 & p2 & t1 & t2 & _ & _ & ->)]; [done|]. cbv zeta.
  set (r1 := planPool p1 _ _ _ _ _ _ _). set (r2 := planPool p2 _ _ _ _ _ _ _).
  assert (Hw : r2.1 = initial_world inventory).
  { unfold r2. rewrite planPool_idle by apply Hc. unfold r1. by rewrite planPool_idle by apply Hc. }
  assert (Hn : plan_notes empty_plan r2.2) by (etrans; apply planPool_notes).
  destruct Hn as (Hg & Hcr & _). rewrite Hw.
  destruct (emit_plan_listed desired scheme drives existingCompute computeNodes cons (initial_world inventory)
    r2.2 Hg Hcr) as [Hl _]; [intros name g H; simpl in H; by rewrite lookup_empty in H|].
  apply listed_empty in Hl as [H1 H2]. auto.
Qed.

(** *** Applying a plan *)

(** The drive containers of the cluster once a plan is applied; [name_of] names the container created
    on a node. *)
Definition apply_plan (name_of : string -> string) (drives : list ExistingContainer) (q : CapacityPlan) :
    list ExistingContainer :=
  ((fun c => {| ec_Name := ec_Name c; ec_Node := ec_Node c; ec_FDValue := ec_FDValue c;
                ec_TlcGiB := planned_cap q poolTLC c; ec_QlcGiB := planned_cap q poolQLC c;
                ec_NumCores := finalCores c (grow_map q); ec_Unscheduled := ec_Unscheduled c |}) <$> drives) ++
  ((fun r => {| ec_Name := name_of (new_Node r); ec_Node := new_Node r; ec_FDValue := new_FDValue r;
                ec_TlcGiB := new_TlcGiB r; ec_QlcGiB := new_QlcGiB r; ec_NumCores := new_NumCores r;
                ec_Unscheduled := false |}) <$> Create q).

Lemma poolCurrent_apply_plan name_of drives q p :
  poolCurrent (apply_plan name_of drives q) p = realized drives q p.
Proof.
  unfold poolCurrent, apply_plan, realized. rewrite fmap_app, sumZ_app, <- !list_fmap_compose.
  rewrite Z.add_comm. f_equal; f_equal; apply list_fmap_ext; intros i x _; by destruct p.
Qed.

(** ** Properties *)

(** The hypotheses on the inputs that the theorems share: container names are unique and capacities
    are not negative; the deadband does not overflow. *)
Definition inputs_ok (desired : DesiredCapacity) (drives : list ExistingContainer) (cons : CapacityConstraints) : Prop :=
  NoDup (ec_Name <$> drives) /\
  Forall (fun c => 0 <= ec_TlcGiB c /\ 0 <= ec_QlcGiB c) drives /\
  CapacityCoverTarget (TlcRawGiB desired) cons <= TlcRawGiB desired /\
  CapacityCoverTarget (QlcRawGiB desired) cons <= QlcRawGiB desired.

#[export] Instance inputs_ok_dec desired drives cons : Decision (inputs_ok desired drives cons).
Proof. unfold inputs_ok. apply _. Defined.

Lemma inputs_ok_pos desired drives cons :
  inputs_ok desired drives cons -> forall c p, c ∈ drives -> 0 <= poolCap c p.
Proof. intros (_ & H & _) c p Hc. rewrite Forall_forall in H. apply H in Hc. destruct p; simpl; lia. Qed.

Lemma inputs_ok_cover desired drives cons :
  inputs_ok desired drives cons ->
  forall p, CapacityCoverTarget (desired_pool desired p) cons <= desired_pool desired p.
Proof. intros (_ & _ & H1 & H2) p. by destruct p. Qed.

Section theorems.
Context (desired : DesiredCapacity) (scheme : ProtectionScheme) (drives : list ExistingContainer).
Context (existingCompute : list ExistingComputeContainer) (inventory : list NodeCapacity).
Context (computeNodes : option (gmap string bool)) (cons : CapacityConstraints).

Abbreviation plan := (PlanCapacity desired scheme drives existingCompute inventory computeNodes cons).

(** What a feasible plan adds to a node is within the node's free capacity. *)
Lemma feasible_fits n p :
  inputs_ok desired drives cons -> cons_ok cons -> Forall (fun c => node_ok (init_state c)) inventory ->
  Infeasible plan = "" ->
  0 <= taken drives plan n p <= poolFree (init_states inventory !!! n) p.
Proof.
  intros Hin Hc Hi Hf. pose proof Hin as (Hnames & _).
  destruct (run_feasible desired scheme drives existingCompute inventory computeNodes cons Hnames
    (inputs_ok_pos _ _ _ Hin) (inputs_ok_cover _ _ _ Hin) Hf)
    as (_ & w & growth & new & states & q2 & Hw & Hok & Hem & _).
  unfold PlanCapacity. rewrite (taken_eq drives desired cons w growth new _ n p (wi_records _ _ _ Hw) Hem).
  pose proof (wi_balanced _ _ _ Hw n p) as Hb. specialize (Hok Hc (init_states_ok _ Hi)).
  assert (0 <= poolFree (w_states w !!! n) p).
  { pose proof (states_ok_total _ n Hok) as (? & ? & _). by destruct p. }
  pose proof (wi_new _ _ _ Hw n p).
  assert (0 <= grown_on drives (w_growth w) n p); [|lia].
  unfold grown_on. apply sumZ_nonneg, Forall_fmap, Forall_forall. intros c [_ Hcin]%list_elem_of_filter.
  simpl. pose proof (wi_growth _ _ _ Hw c p Hcin). lia.
Qed.

(** A feasible plan covers the pools, and names every container it grows once. *)
Lemma feasible_covers p :
  inputs_ok desired drives cons -> Infeasible plan = "" -> 0 < desired_pool desired p ->
  CapacityCoverTarget (desired_pool desired p) cons <= realized drives plan p /\
  (CapacityShort (poolCurrent drives p) (desired_pool desired p) cons = true ->
   poolCurrent drives p <= desired_pool desired p ->
   MinFdNum scheme <= Z.of_nat (size (realized_fds drives plan p))).
Proof.
  intros Hin Hf Hp. pose proof Hin as (Hnames & _).
  destruct (run_feasible desired scheme drives existingCompute inventory computeNodes cons Hnames
    (inputs_ok_pos _ _ _ Hin) (inputs_ok_cover _ _ _ Hin) Hf)
    as (_ & w & growth & new & states & q2 & Hw & _ & Hem & Hd & _).
  unfold PlanCapacity. rewrite (realized_eq drives desired cons w growth new _ (wi_records _ _ _ Hw) Hem).
  rewrite (realized_fds_eq drives desired cons w growth new _ (wi_records _ _ _ Hw) Hem).
  by apply Hd.
Qed.

Lemma feasible_grow_names : inputs_ok desired drives cons -> Infeasible plan = "" -> NoDup (cg_Name <$> Grow plan).
Proof.
  intros Hin Hf. pose proof Hin as (Hnames & _).
  destruct (run_feasible desired scheme drives existingCompute inventory computeNodes cons Hnames
    (inputs_ok_pos _ _ _ Hin) (inputs_ok_cover _ _ _ Hin) Hf)
    as (_ & w & growth & new & states & q2 & Hw & _ & Hem & _).
  unfold PlanCapacity. rewrite (em_grow _ _ _ _ _ _ Hem).
  replace (cg_Name <$> (map_to_list growth).*2) with (map_to_list growth).*1; [apply NoDup_fst_map_to_list|].
  rewrite <- list_fmap_compose. apply list_fmap_ext. intros i [k g] Hi.
  apply list_elem_of_lookup_2, elem_of_map_to_list in Hi. simpl. symmetry.
  by apply (growth_named drives desired cons w growth new _ (wi_records _ _ _ Hw) Hem).
Qed.

(** C1: no node is ever overdrawn: after the whole run (both pools, the surplus of pinned cores and the
    compute stage), feasible or not, every node's drive capacity, CPU, hugepages and memory budgets are
    non-negative if they were in the inventory. *)
Theorem PlanCapacity_no_overdraw :
  cons_ok cons -> Forall (fun c => node_ok (init_state c)) inventory ->
  states_ok (w_states (run_planner desired scheme drives existingCompute inventory computeNodes cons).1).
Proof. intros Hc Hi. apply run_states_ok; [done|]. by apply init_states_ok. Qed.

(** C2: a feasible plan covers both pools: the capacity of the new containers and of the existing ones
    as grown reaches the cover target of each desired pool, and a pool that was short spans at least
    stripeWidth + redundancyLevel + hotSpare failure domains. *)
Theorem PlanCapacity_covers p :
  inputs_ok desired drives cons -> Infeasible plan = "" -> 0 < desired_pool desired p ->
  CapacityCoverTarget (desired_pool desired p) cons <= realized drives plan p /\
  (CapacityShort (poolCurrent drives p) (desired_pool desired p) cons = true ->
   poolCurrent drives p <= desired_pool desired p ->
   MinFdNum scheme <= Z.of_nat (size (realized_fds drives plan p))).
Proof. apply feasible_covers. Qed.

(** C3: a feasible plan fits the inventory: what it adds to a node, by creating a container and by
    growing the existing ones there, is within the node's free drive capacity of each type. *)
Theorem PlanCapacity_fits_inventory n p :
  inputs_ok desired drives cons -> cons_ok cons -> Forall (fun c => node_ok (init_state c)) inventory ->
  Infeasible plan = "" ->
  0 <= taken drives plan n p <= poolFree (init_states inventory !!! n) p.
Proof. apply feasible_fits. Qed.

(** What a plan lists, feasible or not. *)
Lemma plan_entries :
  inputs_ok desired drives cons ->
  (forall g, g ∈ Grow plan -> exists c, c ∈ drives /\ cg_Name g = ec_Name c /\
     (forall p, poolCap c p <= poolCapGrowth g p) /\
     cores_ok desired cons (cg_NewTlcGiB g) (cg_NewQlcGiB g) (cg_NewCores g)) /\
  (forall r, r ∈ Create plan -> (exists c, c ∈ inventory /\ nc_NodeName c = new_Node r) /\
     (forall p, 0 <= poolCapNew r p) /\ cores_ok desired cons (new_TlcGiB r) (new_QlcGiB r) (new_NumCores r) /\
     new_Ratio r = Some (RatioFromCaps (new_TlcGiB r) (new_QlcGiB r))).
Proof.
  intros (Hnames & _).
  destruct (run_listed desired scheme drives existingCompute inventory computeNodes cons Hnames)
    as [_ [[Hg Hc]|(w & Hw & Hg & Hc)]]; unfold PlanCapacity.
  { rewrite Hg, Hc. set_solver. }
  split.
  - intros g (g0 & Hl & Hcaps & Hok)%Hg. pose proof Hl as (_ & c & Hin & Hn)%(wi_records _ _ _ Hw).
    exists c. split; [done|]. split; [unfold growth_caps in Hcaps; congruence|]. split; [|done].
    intros p. rewrite (growth_caps_pool _ _ p Hcaps). pose proof (wi_growth _ _ _ Hw c p Hin) as H.
    rewrite poolCapGrowth_finalPoolCap in H. unfold growFor in H. by rewrite Hn, Hl in H.
  - intros r (n & r0 & Hl & Hcaps & Hok)%Hc. pose proof Hl as (Hn & Hk)%(wi_records _ _ _ Hw). split; [|split; [|done]].
    + rewrite <- (fmap_is_Some nc), (wi_nodes _ _ _ Hw), fmap_is_Some in Hk.
      destruct Hk as [ns (c & Hin & Hc' & _)%init_states_lookup]. exists c. split; [done|].
      unfold new_caps in Hcaps. congruence.
    + intros p. rewrite (new_caps_pool _ _ p Hcaps). pose proof (wi_new _ _ _ Hw n p) as H.
      unfold new_cap in H. by rewrite Hl in H.
Qed.


(** C35: the plan's error report is consistent: a plan carries a report exactly when it is infeasible,
    and then its reason is the report's reason and is not empty. *)
Theorem PlanCapacity_report :
  NoDup (ec_Name <$> drives) ->
  let q := PlanCapacity desired scheme drives existingCompute inventory computeNodes cons in
  match Infeasibility q with
  | Some rep => Infeasible q = ir_Reason rep /\ ir_Reason rep <> ""
  | None => Infeasible q = ""
  end.
Proof.
  intros Hnames q.
  by destruct (run_listed desired scheme drives existingCompute inventory computeNodes cons Hnames) as [? _].
Qed.

(** With dynamic drive scaling disabled and no pinned container count, a plan grows no existing
    container. *)
Theorem PlanCapacity_growth_disabled :
  NoDup (ec_Name <$> drives) -> Forall (fun c => ec_TlcGiB c > 0 \/ ec_QlcGiB c > 0) drives ->
  AllowInPlaceGrowth cons = false -> DriveContainers desired <= 0 ->
  Grow (PlanCapacity desired scheme drives existingCompute inventory computeNodes cons) = [].
Proof.
  intros Hnames Hcap Ha Hd. rewrite Forall_forall in Hcap. unfold PlanCapacity.
  destruct (run_planner_cases desired scheme drives existingCompute inventory computeNodes cons)
    as [(rep & _ & ->)|(_ & p1 & p2 & t1 & t2 & _ & Ht & ->)]; [done|]. cbv zeta.
  destruct (Ht Hd) as [-> ->].
  set (r1 := planPool p1 _ _ _ _ _ _ _). set (r2 := planPool p2 _ _ _ _ _ _ _).
  assert (Hw1 : world_inv drives (init_states inventory) r1.1)
    by (apply planPool_world_inv; [done|apply world_inv_init]).
  assert (Hs1 : states_named (w_states r1.1)).
  { intros n ns Hns. pose proof (wi_nodes _ _ _ Hw1 n) as H. rewrite Hns in H.
    destruct (init_states inventory !! n) as [ns0|] eqn:H0; [|done]. injection H as ->.
    by apply init_states_named in H0. }
  assert (Hg : w_growth r2.1 = ∅).
  { unfold r2. rewrite planPool_growth_kept by done. unfold r1. rewrite planPool_growth_kept; [done..| |done].
    apply init_states_named. }
  assert (Hn : plan_notes empty_plan r2.2) by (etrans; apply planPool_notes). destruct Hn as (Hgr & Hcr & _).
  destruct (emit_plan_listed desired scheme drives existingCompute computeNodes cons r2.1 r2.2 Hgr Hcr) as [Hl _].
  { intros name g H. by rewrite Hg, lookup_empty in H. }
  apply listed_empty in Hl as [H1 _]. auto.
Qed.

(** A feasible plan honours a pinned container count exactly: the existing and the new drive
    containers lie in that many distinct failure domains. *)
Theorem PlanCapacity_driveContainers :
  inputs_ok desired drives cons -> Infeasible plan = "" -> 0 < DriveContainers desired ->
  Z.of_nat (size (list_to_set (C := gset string)
    (filter (fun fd => fd <> "") ((ec_FDValue <$> drives) ++ (new_FDValue <$> Create plan))))) =
  DriveContainers desired.
Proof.
  intros Hin Hf Hd. pose proof Hin as (Hnames & _).
  destruct (run_feasible desired scheme drives existingCompute inventory computeNodes cons Hnames
    (inputs_ok_pos _ _ _ Hin) (inputs_ok_cover _ _ _ Hin) Hf)
    as (_ & w & growth & new & states & q2 & Hw & _ & Hem & _ & _ & Hq2 & Heq).
  unfold PlanCapacity. rewrite (em_create _ _ _ _ _ _ Hem), <- list_fmap_compose.
  change (distinctDriveFds drives new = DriveContainers desired).
  unfold PlanCapacity in Hf. rewrite Heq in Hf. unfold plan_totals in Hf. case_decide as Hdec.
  - exfalso. revert Hf. simpl. fmt_nonempty.
  - simpl in Hdec. destruct (decide (distinctDriveFds drives new = DriveContainers desired)); [done|].
    exfalso. apply Hdec. split; [done|]. split; [lia|done].
Qed.

(** The compute layout of a feasible plan. *)
Lemma feasible_layout :
  inputs_ok desired drives cons -> 0 <= ComputeContainers desired -> 0 <= ComputeCores desired ->
  Infeasible plan = "" ->
  plan_RequiredComputeCores plan =
    RequiredComputeCores (TotalTlcDriveCores plan) (TotalQlcDriveCores plan) false (Some cons) /\
  plan_RequiredComputeCores plan <= sumZ (ccs_NumCores <$> ComputeLayout plan) /\
  MinFdNum scheme <= Z.of_nat (size (list_to_set (C := gset string)
    (fd_of (init_states inventory) <$> ComputeNodes plan))) /\
  ComputeNodes plan = ccs_Node <$> ComputeLayout plan /\
  ComputeNodes plan ⊆ nc_NodeName <$> inventory /\
  (NoDup (ecc_Node <$> existingCompute) -> NoDup (ComputeNodes plan)).
Proof.
  intros Hin Hcc Hco Hf. pose proof Hin as (Hnames & _).
  destruct (run_feasible desired scheme drives existingCompute inventory computeNodes cons Hnames
    (inputs_ok_pos _ _ _ Hin) (inputs_ok_cover _ _ _ Hin) Hf)
    as (_ & w & growth & new & states & q2 & Hw & _ & _ & _ & Hsd & Hq2 & Heq).
  unfold PlanCapacity in *. rewrite Heq in *. unfold plan_totals in *. case_decide as Hdec.
  { exfalso. revert Hf. simpl. fmt_nonempty. }
  simpl w_states in *. simpl w_growth in *. simpl w_new in *. rewrite decide_True in * by done.
  set (tlc := totalTlcDriveCores drives growth new cons) in *.
  set (qlc := totalQlcDriveCores drives growth new cons) in *.
  set (q3 := plan_set_cores tlc qlc (RequiredComputeCores tlc qlc false (Some cons)) q2) in *.
  pose proof (planCompute_totals desired scheme existingCompute computeNodes states cons q3) as (E1 & E2 & E3).
  pose proof (planCompute_compute_ok desired scheme existingCompute computeNodes states cons q3 Hcc Hco) as Hok.
  destruct (planCompute _ _ _ _ _ _ q3) as [states' q4]. simpl in *.
  destruct (Hok Hf) as (nodes & _ & [Hcores Hfds Hnodes _ (newNodes & Hperm & Hnd & Hnew)]).
  rewrite E1, E2, E3. split; [done|]. split; [done|]. split; [|split; [done|]].
  { assert (Hfd : fd_of states <$> ComputeNodes q4 = fd_of (init_states inventory) <$> ComputeNodes q4).
  { apply list_fmap_ext. intros i n _. apply fd_of_nc. intros m. destruct (Hsd m) as [-> _]. apply Hw. }
  by rewrite <- Hfd. }
  assert (Hinv : forall n, is_Some (states !! n) -> n ∈ nc_NodeName <$> inventory).
  { intros n [ns Hns]. destruct (Hsd n) as [Hn _]. pose proof (wi_nodes _ _ _ Hw n) as Hi. rewrite <- Hn, Hns in Hi.
    destruct (init_states inventory !! n) as [ns0|] eqn:H0; [|done].
    apply init_states_lookup in H0 as (c & Hc & <- & _). by apply list_elem_of_fmap_2. }
  split.
  { intros n Hn. apply Hinv. rewrite Hperm in Hn. apply elem_of_app in Hn as [(ec & -> & Hec)%list_elem_of_fmap|Hn].
    - unfold placed_compute in Hec. apply list_elem_of_filter in Hec as [[_ H] _]. exact H.
    - destruct (Hnew n Hn) as [Hc _]. by apply compute_nodes_known in Hc. }
  intros Hex. rewrite Hperm. apply NoDup_app. split; [|split; [|done]].
  - apply (sublist_NoDup _ (ecc_Node <$> existingCompute)); [done|]. apply fmap_sublist, sublist_filter.
  - intros n Hn Hn'. by apply (Hnew n Hn').
Qed.

(** C33: the compute side of a feasible plan is correct: the required compute cores are those of the
    planned drive cores, the layout supplies them, its nodes span at least the minimum number of failure
    domains, they are nodes of the inventory, and no node is used twice unless it already was. *)
Theorem PlanCapacity_compute :
  inputs_ok desired drives cons -> 0 <= ComputeContainers desired -> 0 <= ComputeCores desired ->
  Infeasible plan = "" ->
  plan_RequiredComputeCores plan =
    RequiredComputeCores (TotalTlcDriveCores plan) (TotalQlcDriveCores plan) false (Some cons) /\
  plan_RequiredComputeCores plan <= sumZ (ccs_NumCores <$> ComputeLayout plan) /\
  MinFdNum scheme <= Z.of_nat (size (list_to_set (C := gset string)
    (fd_of (init_states inventory) <$> ComputeNodes plan))) /\
  ComputeNodes plan = ccs_Node <$> ComputeLayout plan /\
  ComputeNodes plan ⊆ nc_NodeName <$> inventory /\
  (NoDup (ecc_Node <$> existingCompute) -> NoDup (ComputeNodes plan)).
Proof. apply feasible_layout. Qed.

(** A scheme below the protection floor is never planned: the plan is infeasible, reports the
    protection binding and lists nothing. *)
Theorem PlanCapacity_protection :
  let '(minSW, minRL, minHS) := MinProtectionFloor (AllowSingleParity cons) in
  StripeWidth scheme < minSW \/ RedundancyLevel scheme < minRL \/ HotSpare scheme < minHS ->
  Infeasible plan <> "" /\ Grow plan = [] /\ Create plan = [] /\
  (ir_Binding <$> Infeasibility plan) = Some "protection".
Proof.
  destruct (MinProtectionFloor (AllowSingleParity cons)) as [[minSW minRL] minHS] eqn:Hm. intros Hlow.
  unfold PlanCapacity, run_planner, protection_report. rewrite Hm, decide_True by done. simpl.
  split; [fmt_nonempty|done].
Qed.
End theorems.

(** C4: planning converges: re-planning the same request on the cluster as a feasible plan left it
    grows nothing and creates nothing, whatever has become of the inventory and of the compute
    containers. *)
Theorem PlanCapacity_converges name_of desired scheme drives existingCompute inventory computeNodes cons
    existingCompute' inventory' computeNodes' :
  inputs_ok desired drives cons ->
  let q := PlanCapacity desired scheme drives existingCompute inventory computeNodes cons in
  Infeasible q = "" ->
  let q' := PlanCapacity desired scheme (apply_plan name_of drives q) existingCompute' inventory' computeNodes' cons in
  Grow q' = [] /\ Create q' = [].
Proof.
  intros Hin q Hf. apply run_idle. intros p Hp. rewrite poolCurrent_apply_plan. by apply feasible_covers.
Qed.

(** ** Witnesses: five 20 TiB containers on full nodes, one empty node, 120 TiB desired *)

Definition ex_desired : DesiredCapacity := desiredTlc (120 * tib).
Definition ex_drives : list ExistingContainer := test_drives 5 (20 * tib) 0 4 "old".
Definition ex_inventory : list NodeCapacity :=
  test_nodes 5 0 0 64 "old" ++ test_nodes 1 (100 * tib) 0 64 "new".
Definition ex_plan (cons : CapacityConstraints) : CapacityPlan :=
  PlanCapacity ex_desired testScheme ex_drives [] ex_inventory (allEligible ex_inventory) cons.

Ltac by_decide P := apply (bool_decide_unpack P); vm_compute; exact I.

Lemma PlanCapacity_no_overdraw_witness :
  cons_ok testCons /\
  states_ok (w_states (run_planner ex_desired testScheme ex_drives [] ex_inventory (allEligible ex_inventory) testCons).1).
Proof.
  assert (Hc : cons_ok testCons) by by_decide (cons_ok testCons). split; [exact Hc|].
  apply (PlanCapacity_no_overdraw ex_desired testScheme ex_drives [] ex_inventory (allEligible ex_inventory) testCons Hc).
  by_decide (Forall (fun c => node_ok (init_state c)) ex_inventory).
Defined.

Lemma PlanCapacity_covers_witness :
  Infeasible (ex_plan testCons) = "" /\ 120 * tib <= realized ex_drives (ex_plan testCons) poolTLC.
Proof.
  assert (Hf : Infeasible (ex_plan testCons) = "") by (vm_compute; reflexivity). split; [exact Hf|].
  refine (proj1 (PlanCapacity_covers ex_desired testScheme ex_drives [] ex_inventory (allEligible ex_inventory)
    testCons poolTLC _ _ _)).
  - by_decide (inputs_ok ex_desired ex_drives testCons).
  - exact Hf.
  - vm_compute. reflexivity.
Defined.

Lemma PlanCapacity_fits_inventory_witness :
  0 <= taken ex_drives (ex_plan testCons) "new1" poolTLC <= poolFree (init_states ex_inventory !!! "new1") poolTLC.
Proof.
  apply (PlanCapacity_fits_inventory ex_desired testScheme ex_drives [] ex_inventory (allEligible ex_inventory)
    testCons "new1" poolTLC).
  - by_decide (inputs_ok ex_desired ex_drives testCons).
  - by_decide (cons_ok testCons).
  - by_decide (Forall (fun c => node_ok (init_state c)) ex_inventory).
  - vm_compute. reflexivity.
Defined.


Lemma PlanCapacity_report_witness :
  match Infeasibility (ex_plan testCons) with
  | Some rep => Infeasible (ex_plan testCons) = ir_Reason rep /\ ir_Reason rep <> ""
  | None => Infeasible (ex_plan testCons) = ""
  end.
Proof.
  apply (PlanCapacity_report ex_desired testScheme ex_drives [] ex_inventory (allEligible ex_inventory) testCons).
  by_decide (NoDup (ec_Name <$> ex_drives)).
Defined.

Lemma PlanCapacity_growth_disabled_witness :
  let q := ex_plan (test_cons false false) in Grow q = [] /\ created q = [(20 * tib, 0, "tlc")].
Proof.
  intros q. split; [|vm_compute; reflexivity].
  apply (PlanCapacity_growth_disabled ex_desired testScheme ex_drives [] ex_inventory (allEligible ex_inventory)
    (test_cons false false)).
  - by_decide (NoDup (ec_Name <$> ex_drives)).
  - by_decide (Forall (fun c => ec_TlcGiB c > 0 \/ ec_QlcGiB c > 0) ex_drives).
  - reflexivity.
  - vm_compute. discriminate.
Defined.

Lemma PlanCapacity_driveContainers_witness :
  let inv := test_nodes 12 (100 * tib) 0 64 "n" in
  let desired := desiredDrive (90 * tib) testScheme (ratio 1 0) 8 0 in
  let q := PlanCapacity desired testScheme [] [] inv (allEligible inv) testCons in
  Z.of_nat (size (list_to_set (C := gset string)
    (filter (fun fd => fd <> "") ((ec_FDValue <$> []) ++ (new_FDValue <$> Create q))))) = 8.
Proof.
  intros inv desired q.
  apply (PlanCapacity_driveContainers desired testScheme [] [] inv (allEligible inv) testCons).
  - by_decide (inputs_ok desired [] testCons).
  - vm_compute. reflexivity.
  - vm_compute. reflexivity.
Defined.

Lemma PlanCapacity_compute_witness :
  plan_RequiredComputeCores (ex_plan testCons) = 24 /\ 24 <= sumZ (ccs_NumCores <$> ComputeLayout (ex_plan testCons)).
Proof.
  split; [vm_compute; reflexivity|].
  apply (PlanCapacity_compute ex_desired testScheme ex_drives [] ex_inventory (allEligible ex_inventory) testCons).
  - by_decide (inputs_ok ex_desired ex_drives testCons).
  - vm_compute. discriminate.
  - vm_compute. discriminate.
  - vm_compute. reflexivity.
Defined.

Lemma PlanCapacity_protection_witness :
  Infeasible (PlanCapacity ex_desired singleParityScheme ex_drives [] ex_inventory (allEligible ex_inventory) testCons) <> "".
Proof.
  apply (PlanCapacity_protection ex_desired singleParityScheme ex_drives [] ex_inventory (allEligible ex_inventory) testCons).
  left. vm_compute. reflexivity.
Defined.

Lemma PlanCapacity_converges_witness :
  let q' := PlanCapacity ex_desired testScheme (apply_plan (fun n => n) ex_drives (ex_plan testCons)) []
              [] None testCons in
  Grow q' = [] /\ Create q' = [].
Proof.
  apply (PlanCapacity_converges (fun n => n) ex_desired testScheme ex_drives [] ex_inventory (allEligible ex_inventory)
    testCons [] [] None).
  - by_decide (inputs_ok ex_desired ex_drives testCons).
  - vm_compute. reflexivity.
Defined.
