(* ===== verification/Ports.v ===== *)
(** * Port ranges: src/internal/controllers/allocator/{ranges,allocator,allocator_models}.go

    The interval allocator of the operator ([GetFreeRangeWithOffset], [IsRangeAvailable]), the
    cluster-level port allocation built on it ([AllocateClusterRange]) and the per-container one
    ([allocatePortRangesFromStatus] of container_allocator.go).

    A range is [Base, Base + Size). The Kubernetes client is a parameter: what [List] returns is
    an argument of the definitions that list objects. The starting port of the configuration is
    an argument too. *)

From S2P Require Import Prelude Fmt.

(** ** Ranges *)

Record Range : Type := mkRange { Base : Z; Size : Z }.

#[export] Instance Range_eq_dec : EqDecision Range.
Proof. solve_decision. Defined.

Definition MaxPort : Z := 65535.

Definition range_lt (a b : Range) : bool := bool_decide (Base a < Base b).

Definition SortRanges (ranges : list Range) : list Range := sort_by range_lt ranges.

(** The gaps between consecutive ranges. *)
Fixpoint free_between (startBoundary size : Z) (ranges : list Range) : option Z :=
  match ranges with
  | r :: ((r' :: _) as rest) =>
      let start := Z.max startBoundary (Base r + Size r) in
      if decide (Base r' - start >= size) then Some start else free_between startBoundary size rest
  | _ => None
  end.

(** The gap after the last range. *)
Definition free_after (boundaries : Range) (startBoundary size : Z) (ranges : list Range) : option Z :=
  match last ranges with
  | Some r =>
      let start := Z.max startBoundary (Base r + Size r) in
      if decide (Base boundaries + Size boundaries - start >= size) then Some start else None
  | None => None
  end.

Definition no_free_range (size offset : Z) : string :=
  Sprintf "no free range found with size %d and offset %d" [ArgD size; ArgD offset].

Definition GetFreeRangeWithOffset (boundaries : Range) (ranges : list Range) (size offset : Z) : res string Z :=
  let startBoundary := Base boundaries + offset in
  let ranges := SortRanges ranges in
  match ranges with
  | r0 :: _ =>
      if decide (Base r0 - startBoundary >= size) then Ok startBoundary else
      match free_between startBoundary size ranges with
      | Some start => Ok start
      | None =>
          match free_after boundaries startBoundary size ranges with
          | Some start => Ok start
          | None => Err (no_free_range size offset)
          end
      end
  | [] => if decide (Size boundaries >= size) then Ok startBoundary else Err (no_free_range size offset)
  end.

Definition GetFreeRange (boundaries : Range) (ranges : list Range) (size : Z) : res string Z :=
  GetFreeRangeWithOffset boundaries ranges size 0.

(** The overlap test of the loop of [IsRangeAvailable], on inclusive ends. *)
Definition overlaps (target r : Range) : bool :=
  let targetStart := Base target in
  let targetEnd := Base target + Size target - 1 in
  let allocatedStart := Base r in
  let allocatedEnd := Base r + Size r - 1 in
  bool_decide (targetStart <= allocatedEnd /\ allocatedStart <= targetEnd).

Definition IsRangeAvailable (boundaries : Range) (ranges : list Range) (targetRange : Range) : bool :=
  if decide (Base targetRange < Base boundaries \/
             Base targetRange + Size targetRange - 1 > Base boundaries + Size boundaries - 1)
  then false
  else forallb (fun r => negb (overlaps targetRange r)) ranges.

(** ** Cluster ranges *)

Record OwnerCluster : Type := mkOwner { ClusterName : string; Namespace : string }.

#[export] Instance OwnerCluster_eq_dec : EqDecision OwnerCluster.
Proof. solve_decision. Defined.
#[export] Instance OwnerCluster_countable : Countable OwnerCluster.
Proof.
  refine (inj_countable' (fun o => (ClusterName o, Namespace o)) (fun p => mkOwner p.1 p.2) _).
  by intros [].
Defined.

Abbreviation ClusterRanges := (gmap OwnerCluster Range).

Definition getSortedUsedRanges (r : ClusterRanges) : list Range := sort_by range_lt (map_to_list r).*2.

Fixpoint cluster_scan (size : Z) (ranges : list Range) : option (res string Z) :=
  match ranges with
  | [] => None
  | [v] =>
      Some (if decide (Base v + size >= MaxPort)
            then Err (Sprintf "no free range available for size %d" [ArgD size])
            else Ok (Base v + Size v))
  | v :: ((next :: _) as rest) =>
      if decide (Base v + Size v + size <= Base next) then Some (Ok (Base v + Size v))
      else cluster_scan size rest
  end.

Definition ClusterRanges_GetFreeRange (StartingPort : Z) (r : ClusterRanges) (size : Z) : res string Z :=
  let ranges := getSortedUsedRanges r in
  let totalRanges := len ranges in
  match cluster_scan size ranges with
  | Some result => result
  | None =>
      if decide (totalRanges = 0) then Ok StartingPort
      else Err (Sprintf "no free range available for size %d, pre-existing ranges %d" [ArgD size; ArgD totalRanges])
  end.

Definition IsClusterRangeAvailable (r : ClusterRanges) (targetRange : Range) : bool :=
  IsRangeAvailable (mkRange 0 MaxPort) (getSortedUsedRanges r) targetRange.

(** ** The cluster object, as far as its ports go *)

Record PortsSpec : Type := mkPortsSpec {
  sp_BasePort : Z; sp_PortRange : Z; sp_LbPort : Z; sp_LbAdminPort : Z; sp_S3Port : Z }.

Record PortsStatus : Type := mkPortsStatus {
  st_BasePort : Z; st_PortRange : Z; st_LbPort : Z; st_LbAdminPort : Z; st_S3Port : Z;
  st_ManagementProxyPort : Z }.

Record WekaCluster : Type := mkCluster {
  cl_owner : OwnerCluster; cl_spec : PortsSpec; cl_status : PortsStatus }.

Definition with_status (c : WekaCluster) (s : PortsStatus) : WekaCluster :=
  mkCluster (cl_owner c) (cl_spec c) s.

Definition set_range (base size : Z) (s : PortsStatus) : PortsStatus :=
  mkPortsStatus base size (st_LbPort s) (st_LbAdminPort s) (st_S3Port s) (st_ManagementProxyPort s).
Definition set_LbPort (p : Z) (s : PortsStatus) : PortsStatus :=
  mkPortsStatus (st_BasePort s) (st_PortRange s) p (st_LbAdminPort s) (st_S3Port s) (st_ManagementProxyPort s).
Definition set_LbAdminPort (p : Z) (s : PortsStatus) : PortsStatus :=
  mkPortsStatus (st_BasePort s) (st_PortRange s) (st_LbPort s) p (st_S3Port s) (st_ManagementProxyPort s).
Definition set_S3Port (p : Z) (s : PortsStatus) : PortsStatus :=
  mkPortsStatus (st_BasePort s) (st_PortRange s) (st_LbPort s) (st_LbAdminPort s) p (st_ManagementProxyPort s).
Definition set_ManagementProxyPort (p : Z) (s : PortsStatus) : PortsStatus :=
  mkPortsStatus (st_BasePort s) (st_PortRange s) (st_LbPort s) (st_LbAdminPort s) (st_S3Port s) p.

Definition getClusterPortByName (cluster : WekaCluster) (name : string) : Z :=
  let s := cl_status cluster in
  if decide (name = "lb") then st_LbPort s
  else if decide (name = "lbAdmin") then st_LbAdminPort s
  else if decide (name = "s3") then st_S3Port s
  else if decide (name = "managementProxy") then st_ManagementProxyPort s
  else 0.

Definition getClusterRange (cluster : WekaCluster) : Range :=
  mkRange (st_BasePort (cl_status cluster)) (st_PortRange (cl_status cluster)).

(** [if port > 0 { append(Range{port, 1}) }]. *)
Definition port_range (port size : Z) : list Range := if decide (port > 0) then [mkRange port size] else [].

Definition GetClusterGlobalAllocatedRanges (cluster : WekaCluster) : list Range :=
  let s := cl_status cluster in
  port_range (st_LbPort s) 1 ++ port_range (st_LbAdminPort s) 1 ++
  port_range (st_S3Port s) 1 ++ port_range (st_ManagementProxyPort s) 1.

Definition EnsureSpecificGlobalRange (cluster : WekaCluster) (name : string) (target : Range)
    (nodePortClaims : list Range) : res string Range :=
  let existing := getClusterPortByName cluster name in
  if decide (existing <> 0) then
    if decide (existing <> Base target) then
      Err (Sprintf "range %s is already allocated with different base %d" [ArgS name; ArgD existing])
    else if decide (Size target <> 1) then
      Err (Sprintf "range %s is already allocated with different size" [ArgS name])
    else Ok (mkRange existing (Size target))
  else
    let boundaries := getClusterRange cluster in
    let allocatedRanges := SortRanges (GetClusterGlobalAllocatedRanges cluster ++ nodePortClaims) in
    if IsRangeAvailable boundaries allocatedRanges target then Ok target
    else Err (Sprintf "range %s is not available" [ArgS name]).

Definition EnsureGlobalRangeWithOffset (cluster : WekaCluster) (name : string) (size offset : Z)
    (nodePortClaims : list Range) : res string Range :=
  let existing := getClusterPortByName cluster name in
  if decide (existing <> 0) then Ok (mkRange existing size)
  else
    let boundaries := getClusterRange cluster in
    let allocatedRanges := SortRanges (GetClusterGlobalAllocatedRanges cluster ++ nodePortClaims) in
    let? rangeBase := GetFreeRangeWithOffset boundaries allocatedRanges size offset in
    Ok (mkRange rangeBase size).

(** ** Feature flags *)

Record FeatureFlags : Type := mkFlags { AgentValidate60PortsPerContainer : bool }.

Definition DefaultPortsPerContainer : Z := 100.
Definition ReducedPortsPerContainer : Z := 60.
Definition DefaultClusterPortRange : Z := 500.
Definition ReducedClusterPortRange : Z := 260.
Definition DefaultSinglePortsOffset : Z := 300.
Definition ReducedSinglePortsOffset : Z := 240.

(** [flags != nil && flags.AgentValidate60PortsPerContainer]. *)
Definition reduced_ports (flags : option FeatureFlags) : bool :=
  match flags with Some f => AgentValidate60PortsPerContainer f | None => false end.

Definition GetPortsPerContainerFromFlags (flags : option FeatureFlags) : Z :=
  if reduced_ports flags then ReducedPortsPerContainer else DefaultPortsPerContainer.
Definition getClusterPortRangeFromFlags (flags : option FeatureFlags) : Z :=
  if reduced_ports flags then ReducedClusterPortRange else DefaultClusterPortRange.
Definition getSinglePortsOffsetFromFlags (flags : option FeatureFlags) : Z :=
  if reduced_ports flags then ReducedSinglePortsOffset else DefaultSinglePortsOffset.
Definition getPortConfigFromFlags (flags : option FeatureFlags) : Z * Z :=
  if reduced_ports flags then (ReducedPortsPerContainer, ReducedSinglePortsOffset)
  else (DefaultPortsPerContainer, DefaultSinglePortsOffset).

(** ** Claims of the containers *)

(** The ports of a container's [Status.Allocations]. *)
Record PortAllocations : Type := mkPortAlloc { WekaPort : Z; AgentPort : Z }.

(** A container is its [Status.Allocations], a pointer. *)
Definition AggregatePortRangesFromContainers (containers : list (option PortAllocations))
    (portsPerContainer : Z) : list Range :=
  flat_map (fun allocations =>
    match allocations with
    | None => []
    | Some a => port_range (WekaPort a) portsPerContainer ++ port_range (AgentPort a) 1
    end) containers.

(** [nodes]: what the client lists, a node being the answer for the containers on it. A node whose
    containers cannot be listed is skipped. *)
Definition AggregateContainerPortAllocations
    (nodes : res string (list (res string (list (option PortAllocations)))))
    (flags : option FeatureFlags) : res string (list Range) :=
  match nodes with
  | Err e => Err (Sprintf "failed to list nodes: %s" [ArgS e])
  | Ok nodes =>
      let portsPerContainer := GetPortsPerContainerFromFlags flags in
      Ok (flat_map (fun node =>
            match node with
            | Ok containers => AggregatePortRangesFromContainers containers portsPerContainer
            | Err _ => []
            end) nodes)
  end.

Definition aggregate_step (m : ClusterRanges) (c : WekaCluster) : ClusterRanges :=
  let s := cl_status c in
  if decide (st_BasePort s > 0) then <[cl_owner c := mkRange (st_BasePort s) (st_PortRange s)]> m else m.

Definition aggregateClusterPortRanges (clusters : res string (list WekaCluster)) : res string ClusterRanges :=
  match clusters with
  | Err e => Err (Sprintf "failed to list clusters: %s" [ArgS e])
  | Ok cs => Ok (foldl aggregate_step ∅ cs)
  end.

(** ** Allocation *)

Inductive port_error : Type :=
  | Errorf (msg : string)
  | AllocateClusterRangeError (Msg : string).

(** The port asked for in the spec, or the first free one from the offset. *)
Definition ensure_port (cluster : WekaCluster) (name : string) (specPort offset : Z)
    (nodePortClaims : list Range) : res string Range :=
  if decide (specPort <> 0)
  then EnsureSpecificGlobalRange cluster name (mkRange specPort 1) nodePortClaims
  else EnsureGlobalRangeWithOffset cluster name 1 offset nodePortClaims.

(** The three singleton ports, each allocation seeing the one before. The cluster is returned on
    the error paths as well: what was assigned before the failure stays in the object. *)
Definition allocate_single_ports (cluster : WekaCluster) (offset : Z) (nodePortClaims : list Range)
    : WekaCluster * option port_error :=
  let spec := cl_spec cluster in
  match ensure_port cluster "lb" (sp_LbPort spec) offset nodePortClaims with
  | Err e => (cluster, Some (Errorf (Sprintf "failed to allocate LB port: %s" [ArgS e])))
  | Ok lb =>
      let cluster := with_status cluster (set_LbPort (Base lb) (cl_status cluster)) in
      match ensure_port cluster "lbAdmin" (sp_LbAdminPort spec) offset nodePortClaims with
      | Err e => (cluster, Some (Errorf (Sprintf "failed to allocate LB Admin port: %s" [ArgS e])))
      | Ok lbAdmin =>
          let cluster := with_status cluster (set_LbAdminPort (Base lbAdmin) (cl_status cluster)) in
          match ensure_port cluster "s3" (sp_S3Port spec) offset nodePortClaims with
          | Err e => (cluster, Some (Errorf (Sprintf "failed to allocate S3 port: %s" [ArgS e])))
          | Ok s3 => (with_status cluster (set_S3Port (Base s3) (cl_status cluster)), None)
          end
      end
  end.

Definition AllocateClusterRange (StartingPort : Z) (clusters : res string (list WekaCluster))
    (nodes : res string (list (res string (list (option PortAllocations)))))
    (cluster : WekaCluster) (flags : option FeatureFlags) : WekaCluster * option port_error :=
  let spec := cl_spec cluster in
  let status := cl_status cluster in
  if decide (sp_BasePort spec <> 0 /\ st_BasePort status <> 0 /\ st_BasePort status <> sp_BasePort spec)
  then (cluster, Some (Errorf "updating base port is not supported"))
  else if decide (sp_PortRange spec <> 0 /\ st_PortRange status <> 0 /\ st_PortRange status <> sp_PortRange spec)
  then (cluster, Some (Errorf "updating port range is not supported"))
  else if decide (st_BasePort status <> 0) then (cluster, None)
  else
  match aggregateClusterPortRanges clusters with
  | Err e => (cluster, Some (Errorf e))
  | Ok clusterRanges =>
      let targetSize := if decide (sp_PortRange spec = 0) then getClusterPortRangeFromFlags flags
                        else sp_PortRange spec in
      match (if decide (sp_BasePort spec = 0)
             then ClusterRanges_GetFreeRange StartingPort clusterRanges targetSize
             else Ok (sp_BasePort spec)) with
      | Err e => (cluster, Some (Errorf e))
      | Ok targetPort =>
          if negb (IsClusterRangeAvailable clusterRanges (mkRange targetPort targetSize))
          then (cluster, Some (AllocateClusterRangeError
                  (Sprintf "range %d-%d is not available" [ArgD targetPort; ArgD (targetPort + targetSize)])))
          else
          let cluster := with_status cluster (set_range targetPort targetSize status) in
          match AggregateContainerPortAllocations nodes flags with
          | Err e => (cluster, Some (Errorf (Sprintf "failed to aggregate container port allocations: %s" [ArgS e])))
          | Ok nodePortClaims =>
              allocate_single_ports cluster (getSinglePortsOffsetFromFlags flags) nodePortClaims
          end
      end
  end.

Definition EnsureManagementProxyPort
    (nodes : res string (list (res string (list (option PortAllocations)))))
    (cluster : WekaCluster) (flags : option FeatureFlags) : WekaCluster * option port_error :=
  match AggregateContainerPortAllocations nodes flags with
  | Err e => (cluster, Some (Errorf (Sprintf "failed to aggregate container port allocations: %s" [ArgS e])))
  | Ok nodePortClaims =>
      let singlePortsOffset := (getPortConfigFromFlags flags).2 in
      match EnsureGlobalRangeWithOffset cluster "managementProxy" 1 singlePortsOffset nodePortClaims with
      | Err e => (cluster, Some (Errorf (Sprintf "failed to allocate management proxy port: %s" [ArgS e])))
      | Ok r => (with_status cluster (set_ManagementProxyPort (Base r) (cl_status cluster)), None)
      end
  end.

(** [allocatePortRangesFromStatus]: the weka and agent ports of one container, given the ranges
    the other containers of its node hold. *)
Definition allocatePortRangesFromStatus (cluster : WekaCluster) (flags : option FeatureFlags)
    (allocatedRanges : list Range) (allocateWeka allocateAgent : bool) : res string (Z * Z) :=
  if decide (st_BasePort (cl_status cluster) = 0) then
    Err (Sprintf "no port range allocated for cluster %s" [ArgS (ClusterName (cl_owner cluster))])
  else
  let clusterRange := mkRange (st_BasePort (cl_status cluster)) (st_PortRange (cl_status cluster)) in
  let allocatedRanges := allocatedRanges ++ GetClusterGlobalAllocatedRanges cluster in
  let portsPerContainer := GetPortsPerContainerFromFlags flags in
  let singlePortsOffset := getSinglePortsOffsetFromFlags flags in
  let? wekaPortRange :=
    (if allocateWeka then
       match GetFreeRange clusterRange allocatedRanges portsPerContainer with
       | Ok p => Ok p
       | Err e => Err (Sprintf "failed to find free weka port range: %s" [ArgS e])
       end
     else Ok 0) in
  let? agentPortRange :=
    (if allocateAgent then
       match GetFreeRangeWithOffset clusterRange allocatedRanges 1 singlePortsOffset with
       | Ok p => Ok p
       | Err e => Err (Sprintf "failed to find free agent port: %s" [ArgS e])
       end
     else Ok 0) in
  Ok (wekaPortRange, agentPortRange).

(** ** Specification: free windows *)

Definition range_end (r : Range) : Z := Base r + Size r.

(** Half-open ranges that share no port. *)
Definition disjoint_range (a b : Range) : Prop := range_end a <= Base b \/ range_end b <= Base a.

Definition within (boundaries r : Range) : Prop :=
  Base boundaries <= Base r /\ range_end r <= range_end boundaries.

(** [q] starts a free window of [size] ports, at or after the offset, inside the boundaries. *)
Definition free_window (boundaries : Range) (ranges : list Range) (size offset q : Z) : Prop :=
  Base boundaries + offset <= q /\ q + size <= range_end boundaries /\
  Forall (disjoint_range (mkRange q size)) ranges.

(** A range that starts no later ends no later: ranges may repeat or overlap, none strictly
    contains another. Pairwise disjoint ranges and copies of the same claim are of this kind. *)
Definition no_nesting (ranges : list Range) : Prop :=
  forall r1 r2, r1 ∈ ranges -> r2 ∈ ranges -> Base r1 <= Base r2 -> range_end r1 <= range_end r2.

#[export] Instance no_nesting_dec ranges : Decision (no_nesting ranges).
Proof.
  refine (cast_if (decide (Forall (fun r1 =>
    Forall (fun r2 => Base r1 <= Base r2 -> range_end r1 <= range_end r2) ranges) ranges))).
  - intros r1 r2 H1 H2. rewrite Forall_forall in f. specialize (f r1 H1).
    rewrite Forall_forall in f. by apply f.
  - intros H. apply n, Forall_forall. intros r1 H1. apply Forall_forall. intros r2 H2. by apply H.
Defined.

(** ** Sorting by base *)

Lemma range_lt_false a b : range_lt b a = false <-> Base a <= Base b.
Proof. unfold range_lt. rewrite bool_decide_eq_false. lia. Qed.

Lemma SortRanges_sorted l : StronglySorted (fun a b => Base a <= Base b) (SortRanges l).
Proof.
  assert (H : StronglySorted (fun a b => range_lt b a = false) (SortRanges l)).
  { apply sort_by_sorted.
    - intros x y. unfold range_lt. rewrite bool_decide_eq_true, bool_decide_eq_false. lia.
    - intros x y z. rewrite !range_lt_false. lia. }
  induction H as [|x k Hs IH Hx]; constructor; [done|].
  eapply Forall_impl; [exact Hx|]. intros y. by rewrite range_lt_false.
Qed.

Lemma SortRanges_perm l : SortRanges l ≡ₚ l.
Proof. apply sort_by_perm. Qed.

#[export] Instance no_nesting_perm : Proper ((≡ₚ) ==> iff) no_nesting.
Proof. intros l1 l2 H. unfold no_nesting. by setoid_rewrite H. Qed.

#[export] Instance free_window_perm b : Proper ((≡ₚ) ==> (=) ==> (=) ==> (=) ==> iff) (free_window b).
Proof. intros l1 l2 H ?? -> ?? -> ?? ->. unfold free_window. by rewrite H. Qed.

(** ** The scan of [GetFreeRangeWithOffset], as one recursion

    [cur] is the first port after the range scanned last. *)
Fixpoint scan (bend sb size cur : Z) (ranges : list Range) : option Z :=
  match ranges with
  | [] => if decide (bend - cur >= size) then Some cur else None
  | r :: rest =>
      if decide (Base r - cur >= size) then Some cur
      else scan bend sb size (Z.max sb (range_end r)) rest
  end.

Lemma free_between_scan b sb size r rest :
  match free_between sb size (r :: rest) with
  | Some start => Some start
  | None => free_after b sb size (r :: rest)
  end = scan (range_end b) sb size (Z.max sb (range_end r)) rest.
Proof.
  revert r. induction rest as [|r' rest IH]; intros r.
  - unfold free_after, range_end. simpl. done.
  - unfold free_after in *. simpl in *. unfold range_end in *. case_decide; [done|]. apply IH.
Qed.

Lemma GetFreeRangeWithOffset_scan b ranges size offset :
  0 < len ranges ->
  GetFreeRangeWithOffset b ranges size offset =
  match scan (range_end b) (Base b + offset) size (Base b + offset) (SortRanges ranges) with
  | Some p => Ok p
  | None => Err (no_free_range size offset)
  end.
Proof.
  intros Hl. unfold GetFreeRangeWithOffset.
  assert (length (SortRanges ranges) = length ranges) by apply length_sort_by.
  destruct (SortRanges ranges) as [|r rest]; [simpl in *; lia|].
  cbn [scan]. case_decide; [done|]. rewrite <- free_between_scan.
  by destruct (free_between _ _ _); [|destruct (free_after _ _ _ _)].
Qed.

Section scan_spec.
Context (b : Range) (sb size : Z).

(** What the scan has to establish from [cur] on. *)
Definition scan_post (cur : Z) (rs : list Range) (o : option Z) : Prop :=
  match o with
  | Some p =>
      cur <= p /\ Forall (disjoint_range (mkRange p size)) rs /\
      (Forall (fun r => Base r <= range_end b) rs -> p + size <= range_end b) /\
      (forall q, cur <= q -> Forall (disjoint_range (mkRange q size)) rs -> p <= q)
  | None =>
      forall q, cur <= q -> q + size <= range_end b -> ~ Forall (disjoint_range (mkRange q size)) rs
  end.

Lemma scan_spec rs cur :
  0 < size -> sb <= cur -> StronglySorted (fun x y => Base x <= Base y) rs -> no_nesting rs ->
  Forall (fun r => cur <= Z.max sb (range_end r)) rs ->
  scan_post cur rs (scan (range_end b) sb size cur rs).
Proof.
  intros Hsize. revert cur. induction rs as [|r rs IH]; intros cur Hsb Hs Hn Hc; simpl.
  { case_decide; simpl; [split_and!; auto with lia; lia|lia]. }
  inversion Hs as [|?? Hs' Hr]; subst. apply Forall_cons in Hc as [Hcr Hc].
  case_decide as Hgap.
  - simpl. split_and!; [lia| | |auto].
    + constructor; [left; simpl; unfold range_end; simpl; lia|].
      eapply Forall_impl; [exact Hr|]. intros r' Hr'. left. unfold range_end. simpl in *. lia.
    + intros [Hb _]%Forall_cons. lia.
  - assert (IH' : scan_post (Z.max sb (range_end r)) rs
                    (scan (range_end b) sb size (Z.max sb (range_end r)) rs)).
    { apply IH; [lia|done| |].
      - intros r1 r2 H1 H2. apply Hn; by right.
      - rewrite Forall_forall in Hr |- *. intros r' Hr'. specialize (Hr r' Hr').
        assert (range_end r <= range_end r') by (apply Hn; [by left|by right|done]). lia. }
    assert (Hskip : forall q, cur <= q -> disjoint_range (mkRange q size) r -> range_end r <= q).
    { intros q Hq [Hd|Hd]; unfold range_end in *; simpl in *; lia. }
    destruct (scan _ _ _ _ rs) as [p|]; simpl in *.
    + destruct IH' as (H1 & H2 & H3 & H4). split_and!; [lia| | |].
      * constructor; [right; simpl; lia|done].
      * intros [_ Hb]%Forall_cons. auto.
      * intros q Hq [Hqr Hqs]%Forall_cons. specialize (Hskip q Hq Hqr). apply H4; [lia|done].
    + intros q Hq Hqb [Hqr Hqs]%Forall_cons. specialize (Hskip q Hq Hqr). eapply IH'; [|exact Hqb|done]. lia.
Qed.
End scan_spec.

#[export] Instance scan_post_perm b size cur : Proper ((≡ₚ) ==> (=) ==> iff) (scan_post b size cur).
Proof.
  intros l1 l2 H ? o ->.
  assert (HF : forall P, Forall P l1 <-> Forall P l2) by (intros P; by rewrite H).
  destruct o; simpl; [rewrite !HF|]; repeat (apply and_iff_compat_l || split); intros; naive_solver.
Qed.

Lemma scan_sorted b size offset ranges :
  0 < size -> no_nesting ranges ->
  scan_post b size (Base b + offset) ranges
    (scan (range_end b) (Base b + offset) size (Base b + offset) (SortRanges ranges)).
Proof.
  intros Hs Hn.
  eapply scan_post_perm; [symmetry; apply SortRanges_perm|reflexivity|].
  apply scan_spec; [done|lia|apply SortRanges_sorted|by rewrite SortRanges_perm|].
  apply Forall_forall. intros; lia.
Qed.

(** What a successful search returns: the first window free of every range, whatever the
    boundaries. *)
Lemma GetFreeRangeWithOffset_disjoint b ranges size offset p :
  0 < size -> no_nesting ranges -> GetFreeRangeWithOffset b ranges size offset = Ok p ->
  Base b + offset <= p /\ Forall (disjoint_range (mkRange p size)) ranges /\
  (forall q, Base b + offset <= q -> Forall (disjoint_range (mkRange q size)) ranges -> p <= q) /\
  (offset + size <= Size b -> Forall (fun r => Base r <= range_end b) ranges -> p + size <= range_end b).
Proof.
  intros Hs Hn Hg. destruct ranges as [|r ranges].
  { unfold GetFreeRangeWithOffset in Hg. simpl in Hg. case_decide; [|done]. injection Hg as <-.
    unfold range_end. split_and!; auto; intros; lia. }
  rewrite GetFreeRangeWithOffset_scan in Hg by (simpl; lia).
  pose proof (scan_sorted b size offset (r :: ranges) Hs Hn) as Hp.
  destruct (scan _ _ _ _ _) as [p'|]; [|done]. injection Hg as ->.
  destruct Hp as (H1 & H2 & H3 & H4). split_and!; auto.
Qed.

(** [GetFreeRangeWithOffset] is first fit. On ranges of which none strictly contains another
    and none starts beyond the boundaries, it returns the lowest free window at or after the
    offset, and it returns an error exactly when there is no free window. *)
Theorem GetFreeRangeWithOffset_first_fit b ranges size offset :
  0 < size -> 0 <= offset -> offset + size <= Size b -> no_nesting ranges ->
  Forall (fun r => Base r <= range_end b) ranges ->
  match GetFreeRangeWithOffset b ranges size offset with
  | Ok p =>
      free_window b ranges size offset p /\
      forall q, free_window b ranges size offset q -> p <= q
  | Err e => e = no_free_range size offset /\ forall q, ~ free_window b ranges size offset q
  end.
Proof.
  intros Hs Ho0 Ho Hn Hb. destruct (GetFreeRangeWithOffset b ranges size offset) as [p|e] eqn:Hg.
  - destruct (GetFreeRangeWithOffset_disjoint b ranges size offset p) as (H1 & H2 & H3 & H4); auto.
    split; [split_and!; auto|]. intros q (? & ? & ?). auto.
  - destruct ranges as [|r ranges].
    { unfold GetFreeRangeWithOffset in Hg. simpl in Hg. case_decide; [done|].
      injection Hg as <-. split; [done|]. intros q (? & ? & ?). unfold range_end in *. lia. }
    rewrite GetFreeRangeWithOffset_scan in Hg by (simpl; lia).
    pose proof (scan_sorted b size offset (r :: ranges) Hs Hn) as Hp.
    destruct (scan _ _ _ _ _) as [p'|]; [done|]. injection Hg as <-. split; [done|].
    intros q (? & ? & ?). by eapply Hp.
Qed.

Lemma GetFreeRangeWithOffset_first_fit_witness :
  let ranges := [mkRange 35300 1; mkRange 35000 100; mkRange 35301 1; mkRange 35000 100] in
  GetFreeRangeWithOffset (mkRange 35000 500) ranges 1 300 = Ok 35302 /\
  free_window (mkRange 35000 500) ranges 1 300 35302.
Proof.
  intros ranges. split; [reflexivity|].
  apply (GetFreeRangeWithOffset_first_fit (mkRange 35000 500) ranges 1 300).
  - lia.
  - lia.
  - simpl. lia.
  - apply (bool_decide_unpack _). vm_compute. exact I.
  - repeat constructor; unfold range_end; simpl; lia.
Defined.

(** ** Availability *)

Lemma overlaps_false target r : overlaps target r = false <-> disjoint_range target r.
Proof. unfold overlaps, disjoint_range, range_end. rewrite bool_decide_eq_false. lia. Qed.

Lemma IsRangeAvailable_true b ranges target :
  IsRangeAvailable b ranges target = true <->
  within b target /\ Forall (disjoint_range target) ranges.
Proof.
  unfold IsRangeAvailable, within. case_decide as Hb; unfold range_end in *.
  { split; [done|]. intros [? _]. lia. }
  rewrite forallb_forall, Forall_forall. setoid_rewrite negb_true_iff. setoid_rewrite overlaps_false.
  setoid_rewrite <- list_elem_of_In. split; [intros; split; [lia|auto]|intros [_ ?]; auto].
Qed.

(** [port] is one of the ports of the range. *)
Definition has_port (r : Range) (port : Z) : Prop := Base r <= port < range_end r.

Lemma disjoint_ports a b :
  0 < Size a -> 0 < Size b ->
  disjoint_range a b <-> forall port, ~ (has_port a port /\ has_port b port).
Proof.
  intros Ha Hb. unfold disjoint_range, has_port, range_end. split; [intros H port; lia|].
  intros H. destruct (decide (Base a <= Base b)).
  - left. specialize (H (Base b)). lia.
  - right. specialize (H (Base a)). lia.
Qed.

(** [IsRangeAvailable] answers port by port: for ranges that hold a port, it is true exactly
    when every port of the target lies in the boundaries and none of them is allocated. *)
Theorem IsRangeAvailable_ports b ranges target :
  0 < Size target -> Forall (fun r => 0 < Size r) ranges ->
  IsRangeAvailable b ranges target = true <->
  forall port, has_port target port -> has_port b port /\ forall r, r ∈ ranges -> ~ has_port r port.
Proof.
  intros Ht Hr. rewrite IsRangeAvailable_true. rewrite Forall_forall in Hr.
  rewrite Forall_forall. split.
  - intros [[Hw1 Hw2] Hd] port Hp. split; [unfold has_port in *; lia|].
    intros r Hin Hpr. apply (disjoint_ports target r Ht (Hr r Hin)) with (port := port); auto.
  - intros H. split.
    + pose proof (H (Base target)) as H1. pose proof (H (range_end target - 1)) as H2.
      unfold within, has_port, range_end in *. lia.
    + intros r Hin. apply disjoint_ports; auto. intros port [Hp Hpr]. by eapply H.
Qed.

Lemma IsRangeAvailable_ports_witness :
  has_port (mkRange 35000 15000) 36499 /\
  forall r, r ∈ [mkRange 46000 500; mkRange 35500 500; mkRange 36500 500] -> ~ has_port r 36499.
Proof.
  apply (proj1 (IsRangeAvailable_ports (mkRange 35000 15000)
    [mkRange 46000 500; mkRange 35500 500; mkRange 36500 500] (mkRange 36000 500)
    ltac:(simpl; lia) ltac:(repeat constructor; simpl; lia)) eq_refl).
  unfold has_port, range_end. simpl. lia.
Defined.

(** ** Cluster allocation *)

(** Ranges that hold a port, none strictly inside another. *)
Definition wf_ranges (ranges : list Range) : Prop :=
  Forall (fun r => 0 < Size r) ranges /\ no_nesting ranges.

#[export] Instance wf_ranges_perm : Proper ((≡ₚ) ==> iff) wf_ranges.
Proof. intros l1 l2 H. unfold wf_ranges. by rewrite H. Qed.

(** Adding a range free of the others keeps them well formed. *)
Lemma wf_ranges_add r ranges :
  0 < Size r -> Forall (disjoint_range r) ranges -> wf_ranges ranges -> wf_ranges (r :: ranges).
Proof.
  intros Hr Hd [Hp Hn]. split; [by constructor|]. rewrite Forall_forall in Hp, Hd.
  intros r1 r2 H1 H2 Hb. apply elem_of_cons in H1 as [->|H1]; apply elem_of_cons in H2 as [->|H2].
  - lia.
  - pose proof (Hp r2 H2). destruct (Hd r2 H2); unfold range_end in *; lia.
  - pose proof (Hp r1 H1). destruct (Hd r1 H1); unfold range_end in *; lia.
  - by apply Hn.
Qed.

Lemma port_range_pos p size : 0 < size -> Forall (fun r => 0 < Size r) (port_range p size).
Proof. intros H. unfold port_range. case_decide; by repeat constructor. Qed.

Lemma claims_pos nodes flags claims :
  AggregateContainerPortAllocations nodes flags = Ok claims -> Forall (fun r => 0 < Size r) claims.
Proof.
  destruct nodes as [nodes|e]; [|done]. simpl. intros [= <-].
  apply Forall_flat_map, Forall_forall. intros [cs|e] _; [|done].
  apply Forall_flat_map, Forall_forall. intros [a|] _; [|done].
  apply Forall_app. split; apply port_range_pos; [|lia].
  unfold GetPortsPerContainerFromFlags. by destruct (reduced_ports flags).
Qed.

(** What one of the singleton ports satisfies. *)
Definition port_ok (cluster : WekaCluster) (specPort offset : Z) (claims : list Range) (p : Z) : Prop :=
  0 < p /\ (specPort <> 0 -> p = specPort) /\
  Forall (disjoint_range (mkRange p 1)) (GetClusterGlobalAllocatedRanges cluster ++ claims) /\
  Base (getClusterRange cluster) <= p /\
  (offset < Size (getClusterRange cluster) ->
   Forall (fun r => Base r <= range_end (getClusterRange cluster))
     (GetClusterGlobalAllocatedRanges cluster ++ claims) ->
   p < range_end (getClusterRange cluster)).

Lemma ensure_port_ok cluster name specPort offset claims r :
  getClusterPortByName cluster name = 0 -> 0 <= Base (getClusterRange cluster) -> 0 < offset ->
  wf_ranges (GetClusterGlobalAllocatedRanges cluster ++ claims) ->
  ensure_port cluster name specPort offset claims = Ok r ->
  r = mkRange (Base r) 1 /\ port_ok cluster specPort offset claims (Base r).
Proof.
  intros He Hb Ho [_ Hn]. unfold ensure_port, EnsureSpecificGlobalRange, EnsureGlobalRangeWithOffset.
  rewrite He. case_decide as Hspec; (rewrite decide_False by lia).
  - destruct (IsRangeAvailable _ _ _) eqn:Ha; [|done]. intros [= <-]. split; [done|].
    apply IsRangeAvailable_true in Ha as [[Hw1 Hw2] Hd]. rewrite SortRanges_perm in Hd.
    unfold port_ok, range_end in *. cbn [Base Size] in *. split_and!; try done; intros; lia.
  - destruct (GetFreeRangeWithOffset _ _ _ _) as [p|] eqn:Hg; [|done]. intros [= <-]. split; [done|].
    apply GetFreeRangeWithOffset_disjoint in Hg as (H1 & H2 & _ & H4); [|lia|by rewrite SortRanges_perm].
    rewrite SortRanges_perm in H2. rewrite SortRanges_perm in H4.
    unfold port_ok. cbn [Base Size] in *. split_and!; try done; try lia.
    intros Hlt Hall. specialize (H4 ltac:(lia) Hall). lia.
Qed.

(** The cluster has no singleton port yet. *)
Definition fresh_ports (s : PortsStatus) : Prop :=
  st_LbPort s = 0 /\ st_LbAdminPort s = 0 /\ st_S3Port s = 0 /\ st_ManagementProxyPort s = 0.

(** The three ports of a successful allocation, as a list. *)
Definition single_ports (s : PortsStatus) : list Z := [st_LbPort s; st_LbAdminPort s; st_S3Port s].

Lemma port_range_pos_eq p size : 0 < p -> port_range p size = [mkRange p size].
Proof. intros H. unfold port_range. by rewrite decide_True by lia. Qed.

Lemma disjoint_single p q : disjoint_range (mkRange p 1) (mkRange q 1) <-> p <> q.
Proof. unfold disjoint_range, range_end. simpl. lia. Qed.

Lemma allocate_single_ports_ok cluster offset claims cluster' :
  fresh_ports (cl_status cluster) -> 0 <= Base (getClusterRange cluster) -> 0 < offset ->
  wf_ranges claims ->
  allocate_single_ports cluster offset claims = (cluster', None) ->
  getClusterRange cluster' = getClusterRange cluster /\
  NoDup (single_ports (cl_status cluster')) /\
  (sp_LbPort (cl_spec cluster) <> 0 -> st_LbPort (cl_status cluster') = sp_LbPort (cl_spec cluster)) /\
  (sp_LbAdminPort (cl_spec cluster) <> 0 -> st_LbAdminPort (cl_status cluster') = sp_LbAdminPort (cl_spec cluster)) /\
  (sp_S3Port (cl_spec cluster) <> 0 -> st_S3Port (cl_status cluster') = sp_S3Port (cl_spec cluster)) /\
  Forall (fun p => Forall (disjoint_range (mkRange p 1)) claims /\ Base (getClusterRange cluster) <= p)
    (single_ports (cl_status cluster')) /\
  (offset < Size (getClusterRange cluster) ->
   Forall (fun r => Base r <= range_end (getClusterRange cluster)) claims ->
   Forall (fun p => p < range_end (getClusterRange cluster)) (single_ports (cl_status cluster'))).
Proof.
  destruct cluster as [o spec [bp pr lb la s3 mp]]. unfold fresh_ports, allocate_single_ports. simpl.
  intros (-> & -> & -> & ->) Hb Ho Hw.
  destruct (ensure_port _ "lb" _ _ _) as [r1|] eqn:E1; [|done].
  apply ensure_port_ok in E1 as [-> (P1 & S1 & D1 & B1 & U1)]; [|done..].
  set (p1 := Base r1) in *. clearbody p1. cbn in D1. 
  assert (W1 : wf_ranges (mkRange p1 1 :: claims)) by (by apply wf_ranges_add).
  unfold set_LbPort, with_status in *. simpl.
  destruct (ensure_port _ "lbAdmin" _ _ _) as [r2|] eqn:E2; [|done].
  apply ensure_port_ok in E2 as [-> (P2 & S2 & D2 & B2 & U2)]; [|done..|].
  2:{ unfold GetClusterGlobalAllocatedRanges. simpl. by rewrite port_range_pos_eq. }
  set (p2 := Base r2) in *. clearbody p2.
  unfold GetClusterGlobalAllocatedRanges in D2. simpl in D2. rewrite port_range_pos_eq in D2 by done. simpl in D2.
  assert (W2 : wf_ranges (mkRange p2 1 :: mkRange p1 1 :: claims)) by (by apply wf_ranges_add).
  unfold set_LbAdminPort in *. simpl.
  destruct (ensure_port _ "s3" _ _ _) as [r3|] eqn:E3; [|done].
  apply ensure_port_ok in E3 as [-> (P3 & S3 & D3 & B3 & U3)]; [|done..|].
  2:{ unfold GetClusterGlobalAllocatedRanges. simpl. rewrite !port_range_pos_eq by done. simpl.
      by rewrite Permutation_swap. }
  unfold GetClusterGlobalAllocatedRanges in D3. simpl in D3. rewrite !port_range_pos_eq in D3 by done. simpl in D3.
  intros [= <-]. unfold single_ports. simpl in *.
  rewrite Forall_cons, disjoint_single in D2. rewrite !Forall_cons, !disjoint_single in D3.
  destruct D2 as [N21 D2], D3 as (N31 & N32 & D3).
  split_and!; try done; [|rewrite !Forall_cons; split_and!; try done; constructor|].
  2:{ unfold GetClusterGlobalAllocatedRanges, getClusterRange, range_end in *. simpl in *.
      rewrite (port_range_pos_eq p1) in U2, U3 by done. rewrite (port_range_pos_eq p2) in U3 by done.
      intros Hlt Hc.
      assert (Hp1 := U1 Hlt Hc). assert (Hp2 := U2 Hlt). assert (Hp3 := U3 Hlt).
      simpl in *. rewrite Forall_cons in Hp2. rewrite !Forall_cons in Hp3. simpl in *.
      specialize (Hp2 ltac:(split; [lia|done])). specialize (Hp3 ltac:(split_and!; [lia|lia|done])).
      by repeat constructor. }
  rewrite !NoDup_cons, !elem_of_cons, !elem_of_nil. split_and!; try apply NoDup_nil_2; intuition congruence.
Qed.

Lemma aggregate_lookup cs m c :
  NoDup (cl_owner <$> cs) -> c ∈ cs -> st_BasePort (cl_status c) > 0 ->
  foldl aggregate_step m cs !! cl_owner c = Some (getClusterRange c).
Proof.
  revert m. induction cs as [|c' cs IH] using rev_ind; intros m Hnd Hin Hb; [set_solver|].
  rewrite fmap_app in Hnd. apply NoDup_app in Hnd as (Hnd & Hdis & _).
  rewrite foldl_app. simpl. apply elem_of_app in Hin as [Hin| ->%list_elem_of_singleton].
  - assert (cl_owner c <> cl_owner c').
    { intros He. apply (Hdis (cl_owner c)); [by apply list_elem_of_fmap_2|]. rewrite He. simpl. by left. }
    unfold aggregate_step at 1. case_decide; [rewrite lookup_insert_ne by done|]; auto.
  - unfold aggregate_step at 1. rewrite decide_True by done. by rewrite lookup_insert_eq.
Qed.

Lemma elem_of_used (m : ClusterRanges) o r : m !! o = Some r -> r ∈ getSortedUsedRanges m.
Proof.
  intros H. unfold getSortedUsedRanges. apply elem_of_sort_by, list_elem_of_fmap.
  exists (o, r). split; [done|]. by apply elem_of_map_to_list.
Qed.



(** ** Container ports *)

(** The weka range and the agent port given to a container are free: each is the lowest window
    of the cluster's range (the agent's from the single-port offset) that meets no range of the
    node's containers and no singleton port of the cluster. *)
Theorem allocatePortRangesFromStatus_free cluster flags ranges w a :
  let b := getClusterRange cluster in
  let used := ranges ++ GetClusterGlobalAllocatedRanges cluster in
  let ports := GetPortsPerContainerFromFlags flags in
  let offset := getSinglePortsOffsetFromFlags flags in
  no_nesting used -> Forall (fun r => Base r <= range_end b) used ->
  ports <= Size b -> offset < Size b ->
  allocatePortRangesFromStatus cluster flags ranges true true = Ok (w, a) ->
  free_window b used ports 0 w /\ (forall q, free_window b used ports 0 q -> w <= q) /\
  free_window b used 1 offset a /\ (forall q, free_window b used 1 offset q -> a <= q).
Proof.
  intros b used ports offset Hn Hb Hp Ho. unfold allocatePortRangesFromStatus.
  case_decide; [done|]. fold used ports offset. change (mkRange _ _) with b. unfold GetFreeRange.
  destruct (GetFreeRangeWithOffset b used ports 0) as [w'|] eqn:E1; [|done]. cbn [res_bind].
  destruct (GetFreeRangeWithOffset b used 1 offset) as [a'|] eqn:E2; [|done]. cbn [res_bind].
  intros [= -> ->].
  assert (0 < ports) by (unfold ports, GetPortsPerContainerFromFlags; by destruct (reduced_ports flags)).
  apply GetFreeRangeWithOffset_disjoint in E1 as (? & ? & Hm1 & ?); [|done..].
  apply GetFreeRangeWithOffset_disjoint in E2 as (? & ? & Hm2 & ?); [|done..].
  unfold free_window. split_and!; auto with lia; intros q (? & ? & ?); auto.
Qed.

Lemma allocatePortRangesFromStatus_free_witness :
  let cluster := mkCluster (mkOwner "c" "ns") (mkPortsSpec 0 0 0 0 0) (mkPortsStatus 35000 500 35300 35301 35302 0) in
  free_window (getClusterRange cluster)
    ([mkRange 35000 100; mkRange 35303 1] ++ GetClusterGlobalAllocatedRanges cluster) 1 300 35304.
Proof.
  intros cluster.
  refine (proj1 (proj2 (proj2 (allocatePortRangesFromStatus_free cluster None
    [mkRange 35000 100; mkRange 35303 1] 35100 35304 _ _ _ _ _)))).
  - apply (bool_decide_unpack _). vm_compute. exact I.
  - repeat constructor; unfold range_end; simpl; lia.
  - vm_compute. discriminate.
  - vm_compute. reflexivity.
  - reflexivity.
Defined.

(** One more container on a node: its ports are allocated against those already there. *)
Definition add_container (cluster : WekaCluster) (containers : res string (list PortAllocations))
    : res string (list PortAllocations) :=
  let? cs := containers in
  let? p := allocatePortRangesFromStatus cluster None
              (AggregatePortRangesFromContainers (Some <$> cs) (GetPortsPerContainerFromFlags None)) true true in
  Ok (cs ++ [mkPortAlloc p.1 p.2]).

Definition default_cluster : WekaCluster :=
  mkCluster (mkOwner "c" "ns") (mkPortsSpec 0 0 0 0 0) (mkPortsStatus 35000 500 35300 35301 35302 0).

(** The two searches of [allocatePortRangesFromStatus] do not see each other. On a node with
    the default port layout, the fourth container is given an agent port that is the first port of
    its own weka range. *)
Theorem fourth_container_ports_collide :
  Nat.iter 4 (add_container default_cluster) (Ok []) =
  Ok [mkPortAlloc 35000 35303; mkPortAlloc 35100 35304; mkPortAlloc 35200 35305; mkPortAlloc 35306 35306].
Proof. vm_compute. reflexivity. Qed.

(** The scan looks at the end of the previous range only, so a range nested in an earlier one
    hides it. With four weka containers on one node and five agent-only containers on another, the
    management proxy port of the cluster falls inside the weka range of a container. *)
Theorem nested_claim_hides_range :
  let nodes := Ok [
    Ok (Some <$> [mkPortAlloc 35000 35303; mkPortAlloc 35100 35304; mkPortAlloc 35200 35305; mkPortAlloc 35306 0]);
    Ok (Some <$> [mkPortAlloc 0 35303; mkPortAlloc 0 35304; mkPortAlloc 0 35305; mkPortAlloc 0 35306; mkPortAlloc 0 35307])] in
  let cluster := (EnsureManagementProxyPort nodes default_cluster None).1 in
  has_port (mkRange 35306 (GetPortsPerContainerFromFlags None)) (st_ManagementProxyPort (cl_status cluster)) /\
  st_ManagementProxyPort (cl_status cluster) = 35308.
Proof. vm_compute. split; [split; [discriminate|reflexivity]|reflexivity]. Qed.

(** The gaps between ranges are not clipped to the boundaries. With a container of another
    cluster above on the node, a container is given ports beyond its cluster's range, where the
    same request fails without that container. *)
Theorem free_range_leaves_boundaries :
  let own := [mkRange 35000 100; mkRange 35100 100; mkRange 35200 100; mkRange 35303 100] in
  let foreign := mkRange 36000 100 in
  GetFreeRange (mkRange 35000 500) (own ++ [foreign]) 100 = Ok 35403 /\
  GetFreeRange (mkRange 35000 500) own 100 = Err (no_free_range 100 0).
Proof. split; vm_compute; reflexivity. Qed.

(** The end check of [ClusterRanges.GetFreeRange] leaves out the size of the last range: with a
    cluster at the top of the port space, the search proposes ports above 65535, and the allocation
    of the next cluster fails although all lower ports are free. *)
Theorem cluster_range_beyond_MaxPort :
  let top := mkCluster (mkOwner "top" "ns") (mkPortsSpec 65000 500 0 0 0) (mkPortsStatus 65000 500 65300 65301 65302 0) in
  let cluster := mkCluster (mkOwner "c" "ns") (mkPortsSpec 0 0 0 0 0) (mkPortsStatus 0 0 0 0 0 0) in
  AllocateClusterRange 35000 (Ok [top]) (Ok []) cluster None =
  (cluster, Some (AllocateClusterRangeError "range 65500-66000 is not available")).
Proof. vm_compute. reflexivity. Qed.
