(* ===== verification/Strategies.v ===== *)
(** * Virtual drive strategies: src/internal/controllers/allocator/drive_allocation_strategies.go

    The generator of the ways to cut a capacity into virtual drives: even cuts first, then one that
    follows the physical drives. The channel of the code is the list of the strategies in the order
    they are sent; its consumer takes the first that fits and closes the channel.

    Also the two capacity records of container_allocator.go the generator reads. *)

From S2P Require Import Prelude Sizing.

(** The allocator's [MinChunkSizeGiB], the planner's constant re-exported. *)
Definition MinChunk : Z := const_MinChunkSizeGiB.

(** ** Physical drives *)

Record SharedDriveInfo : Type := mkShared {
  sd_PhysicalUUID : string; sd_Serial : string; sd_CapacityGiB : Z; sd_Type : string }.

(** Capacity usage of a physical drive. *)
Record physicalDriveCapacity : Type := mkPhysical {
  pd_drive : SharedDriveInfo; totalCapacity : Z; claimedCapacity : Z; availableCapacity : Z }.

(** The map of the drives of a node, by physical UUID. *)
Abbreviation DriveCapacities := (gmap string physicalDriveCapacity).

(** The values of the map, in the order of an iteration. *)
Definition drives_of (driveCapacities : DriveCapacities) : list physicalDriveCapacity :=
  (map_to_list driveCapacities).*2.

(** ** Strategies *)

Record AllocationStrategy : Type := mkStrategy { DriveSizes : list Z }.

Definition TotalCapacity (s : AllocationStrategy) : Z := foldl Z.add 0 (DriveSizes s).
Definition NumDrives (s : AllocationStrategy) : Z := len (DriveSizes s).

Record AllocationStrategyGenerator : Type := mkGenerator {
  totalCapacityNeeded : Z;
  numCores : Z;
  maxDrives : Z;
  minChunkSizeGiB : Z;
  driveCapacities : DriveCapacities;
  sortedAvailableCapacities : list Z }.

Definition sort_ints_desc (l : list Z) : list Z := sort_by (fun a b => bool_decide (b < a)) l.

Definition NewAllocationStrategyGenerator (totalCapacityNeeded numCores minChunkSizeGiB : Z)
    (driveCapacities : DriveCapacities) (maxDrives : Z) : AllocationStrategyGenerator :=
  let availableCapacities :=
    availableCapacity <$> filter (fun dc => availableCapacity dc >= minChunkSizeGiB) (drives_of driveCapacities) in
  {| totalCapacityNeeded := totalCapacityNeeded; numCores := numCores; maxDrives := maxDrives;
     minChunkSizeGiB := minChunkSizeGiB; driveCapacities := driveCapacities;
     sortedAvailableCapacities := sort_ints_desc availableCapacities |}.

Definition hasEnoughCapacity (g : AllocationStrategyGenerator) : bool :=
  let totalAvailable := sumZ (availableCapacity <$> drives_of (driveCapacities g)) in
  bool_decide (totalAvailable >= totalCapacityNeeded g).

(** [None] is the code's nil slice. *)
Definition distributeEvenly (g : AllocationStrategyGenerator) (numDrives : Z) : option (list Z) :=
  if decide (numDrives < numCores g) then None else
  let baseSize := totalCapacityNeeded g `quot` numDrives in
  let remainder := totalCapacityNeeded g `rem` numDrives in
  if decide (baseSize < minChunkSizeGiB g) then None else
  Some (replicate (Z.to_nat remainder) (baseSize + 1) ++
        replicate (Z.to_nat (numDrives - remainder)) baseSize).

(** The loop over the numbers of drives, which stops at the first nil. *)
Fixpoint even_loop (g : AllocationStrategyGenerator) (counts : list Z) : list AllocationStrategy :=
  match counts with
  | [] => []
  | numDrives :: counts =>
      match distributeEvenly g numDrives with
      | Some driveSizes => mkStrategy driveSizes :: even_loop g counts
      | None => []
      end
  end.

Definition yieldEvenDistributionStrategies (g : AllocationStrategyGenerator) : list AllocationStrategy :=
  if hasEnoughCapacity g then even_loop g (loop_range (numCores g) (maxDrives g)) else [].

(** Step 1 of the fit: the sizes taken from the physical drives, and their sum. *)
Fixpoint fit_loop (g : AllocationStrategyGenerator) (avail : list Z) (driveSizes : list Z) (capacitySoFar : Z)
    : list Z * Z :=
  match avail with
  | [] => (driveSizes, capacitySoFar)
  | availCap :: avail =>
      if decide (availCap < minChunkSizeGiB g) then fit_loop g avail driveSizes capacitySoFar else
      let remaining := totalCapacityNeeded g - capacitySoFar in
      let allocate := if decide (availCap > remaining) then remaining else availCap in
      let '(driveSizes, capacitySoFar) :=
        if decide (allocate >= minChunkSizeGiB g)
        then (driveSizes ++ [allocate], capacitySoFar + allocate) else (driveSizes, capacitySoFar) in
      if decide (capacitySoFar >= totalCapacityNeeded g) then (driveSizes, capacitySoFar)
      else fit_loop g avail driveSizes capacitySoFar
  end.

(** The index and the size of the largest drive that can be split: the first of the largest. *)
Fixpoint find_largest (minChunk : Z) (i maxIdx maxSize : Z) (driveSizes : list Z) : Z * Z :=
  match driveSizes with
  | [] => (maxIdx, maxSize)
  | size :: driveSizes =>
      if decide (size > maxSize /\ size >= 2 * minChunk)
      then find_largest minChunk (i + 1) i size driveSizes
      else find_largest minChunk (i + 1) maxIdx maxSize driveSizes
  end.

(** Step 2: split the largest drive. Each turn adds one drive, so the loop
    [for len < numCores && len < maxDrives] runs at most [min numCores maxDrives - len] times. *)
Fixpoint split_loop (turns : nat) (minChunk : Z) (driveSizes : list Z) : list Z :=
  match turns with
  | O => driveSizes
  | S turns =>
      let '(maxIdx, maxSize) := find_largest minChunk 0 (-1) 0 driveSizes in
      if decide (maxIdx = -1) then driveSizes else
      let size1 := maxSize `quot` 2 in
      let size2 := maxSize - size1 in
      split_loop turns minChunk (<[Z.to_nat maxIdx := size1]> driveSizes ++ [size2])
  end.

Definition yieldFitToPhysicalStrategies (g : AllocationStrategyGenerator) : list AllocationStrategy :=
  if negb (hasEnoughCapacity g) then [] else
  let '(driveSizes, capacitySoFar) := fit_loop g (sortedAvailableCapacities g) [] 0 in
  if decide (capacitySoFar < totalCapacityNeeded g) then [] else
  let driveSizes :=
    split_loop (Z.to_nat (Z.min (numCores g) (maxDrives g) - len driveSizes)) (minChunkSizeGiB g) driveSizes in
  if decide (len driveSizes >= numCores g /\ len driveSizes <= maxDrives g)
  then [mkStrategy driveSizes] else [].

Definition GenerateStrategies (g : AllocationStrategyGenerator) : list AllocationStrategy :=
  yieldEvenDistributionStrategies g ++ yieldFitToPhysicalStrategies g.

(** ** Sums *)

Lemma foldl_add_sumZ l a : foldl Z.add a l = a + sumZ l.
Proof. revert a. induction l as [|x l IH]; intros a; simpl; [lia|]. rewrite IH. lia. Qed.

Lemma TotalCapacity_sum s : TotalCapacity s = sumZ (DriveSizes s).
Proof. unfold TotalCapacity. rewrite foldl_add_sumZ. lia. Qed.

(** ** The even cuts *)

(** [driveSizes] cuts the needed capacity into chunks of at least the minimum. *)
Definition cuts (g : AllocationStrategyGenerator) (driveSizes : list Z) : Prop :=
  sumZ driveSizes = totalCapacityNeeded g /\ Forall (fun s => minChunkSizeGiB g <= s) driveSizes.

Lemma distributeEvenly_cuts g n sizes :
  0 < n -> 0 <= totalCapacityNeeded g -> distributeEvenly g n = Some sizes ->
  cuts g sizes /\ len sizes = n /\ numCores g <= n /\
  Forall (fun s => totalCapacityNeeded g `quot` n <= s <= totalCapacityNeeded g `quot` n + 1) sizes.
Proof.
  intros Hn Ht. unfold distributeEvenly. case_decide; [done|]. case_decide; [done|]. intros [= <-].
  pose proof (Z.quot_rem' (totalCapacityNeeded g) n). pose proof (Z.rem_bound_pos (totalCapacityNeeded g) n Ht Hn).
  split_and!; [|rewrite length_app, !length_replicate; lia|lia|].
  - split; [rewrite sumZ_app, !sumZ_replicate, !Z2Nat.id by lia; lia|].
    apply Forall_app. split; apply Forall_replicate; lia.
  - apply Forall_app. split; apply Forall_replicate; lia.
Qed.

Lemma even_loop_elem g counts s :
  s ∈ even_loop g counts -> exists n, n ∈ counts /\ distributeEvenly g n = Some (DriveSizes s).
Proof.
  induction counts as [|n counts IH]; simpl; [set_solver|].
  destruct (distributeEvenly g n) eqn:E; [|set_solver]. rewrite elem_of_cons.
  intros [->|H]; [exists n; split; [by left|done]|].
  destruct (IH H) as (n' & ? & ?). exists n'. split; [by right|done].
Qed.

(** ** The fit to the physical drives *)

Lemma fit_loop_inv g avail sizes so_far sizes' so_far' :
  0 < minChunkSizeGiB g -> so_far <= totalCapacityNeeded g ->
  sumZ sizes = so_far -> Forall (fun s => minChunkSizeGiB g <= s) sizes ->
  fit_loop g avail sizes so_far = (sizes', so_far') ->
  so_far' <= totalCapacityNeeded g /\ sumZ sizes' = so_far' /\ Forall (fun s => minChunkSizeGiB g <= s) sizes'.
Proof.
  intros Hm. revert sizes so_far. induction avail as [|a avail IH]; intros sizes so_far Hle Hs Hf; simpl.
  { by intros [= <- <-]. }
  case_decide; [by apply IH|].
  set (al := if decide (a > _) then _ else _).
  assert (Hal : so_far + al <= totalCapacityNeeded g) by (unfold al; case_decide; lia).
  clearbody al. case_decide as Hch.
  - assert (Hs' : sumZ (sizes ++ [al]) = so_far + al) by (rewrite sumZ_app; simpl; lia).
    assert (Hf' : Forall (fun s => minChunkSizeGiB g <= s) (sizes ++ [al])).
    { apply Forall_app. split; [done|]. repeat constructor. lia. }
    case_decide; [by intros [= <- <-]|]. by apply IH.
  - case_decide; [by intros [= <- <-]|]. by apply IH.
Qed.

Lemma find_largest_idx c i idx size l idx' size' :
  find_largest c i idx size l = (idx', size') -> 0 <= i -> idx' = idx \/ 0 <= idx'.
Proof.
  revert i idx size. induction l as [|s l IH]; intros i idx size; simpl; [by intros [= -> ->]; left|].
  case_decide; intros H1 H2; apply IH in H1; lia.
Qed.

(** The search returns the position of a splittable size that no other splittable size exceeds. *)
Lemma find_largest_spec c l0 l idx size idx' size' :
  find_largest c (len l0) idx size l = (idx', size') ->
  (idx = -1 \/ 0 <= idx /\ l0 !! Z.to_nat idx = Some size /\ size >= 2 * c) ->
  Forall (fun s => s >= 2 * c -> s <= size) l0 ->
  (idx' = -1 \/ 0 <= idx' /\ (l0 ++ l) !! Z.to_nat idx' = Some size' /\ size' >= 2 * c) /\
  Forall (fun s => s >= 2 * c -> s <= size') (l0 ++ l) /\ (idx' = -1 -> size' = size).
Proof.
  revert l0 idx size. induction l as [|s l IH]; intros l0 idx size; simpl.
  { intros [= -> ->] Hi Hf. rewrite app_nil_r. by split_and!. }
  replace (len l0 + 1) with (len (l0 ++ [s])) by (rewrite length_app; simpl; lia).
  replace (l0 ++ s :: l) with ((l0 ++ [s]) ++ l) by by rewrite <- app_assoc.
  case_decide as Hc; intros Hr Hi Hf.
  - assert (Hge : 0 <= idx') by (apply find_largest_idx in Hr; lia).
    apply IH in Hr as (H1 & H2 & H3); [split_and!; auto; lia|right|].
    + split_and!; [lia|rewrite Nat2Z.id, lookup_app_r, Nat.sub_diag by lia; done|lia].
    + apply Forall_app. split; [|by repeat constructor]. eapply Forall_impl; [exact Hf|]. simpl. intros. lia.
  - apply IH in Hr as (H1 & H2 & H3); [by split_and!| |].
    + destruct Hi as [?|(? & Hl & ?)]; [by left|right]. split_and!; [lia|by apply lookup_app_l_Some|done].
    + apply Forall_app. split; [done|]. repeat constructor. lia.
Qed.

(** One turn of the split loop: it replaces the largest splittable size by its two halves, and it
    stops when no size can be split. *)
Lemma split_turn c l idx size :
  find_largest c 0 (-1) 0 l = (idx, size) ->
  if decide (idx = -1) then 0 < c -> Forall (fun s => s < 2 * c) l
  else l !! Z.to_nat idx = Some size /\ size >= 2 * c /\ Forall (fun s => s >= 2 * c -> s <= size) l.
Proof.
  intros H. apply (find_largest_spec c []) in H as (H1 & H2 & H3); [|by left|constructor].
  simpl in *. case_decide as Hi.
  - intros Hc. rewrite (H3 Hi) in H2. eapply Forall_impl; [exact H2|]. simpl. intros. lia.
  - destruct H1 as [|(_ & ? & ?)]; [done|]. auto.
Qed.

Lemma split_loop_spec turns c l :
  0 < c -> Forall (fun s => c <= s) l ->
  let l' := split_loop turns c l in
  sumZ l' = sumZ l /\ Forall (fun s => c <= s) l' /\ len l <= len l' <= len l + Z.of_nat turns /\
  (len l' = len l + Z.of_nat turns \/ Forall (fun s => s < 2 * c) l').
Proof.
  intros Hc. revert l. induction turns as [|turns IH]; intros l Hl; simpl.
  { split_and!; auto; lia. }
  destruct (find_largest c 0 (-1) 0 l) as [idx size] eqn:E. apply split_turn in E. case_decide.
  { split_and!; auto; lia. }
  destruct E as (Hlk & Hsz & _).
  pose proof (quot_pos_spec size 2 ltac:(lia) ltac:(lia)) as Hq.
  set (l2 := <[Z.to_nat idx:=size `quot` 2]> l ++ [size - size `quot` 2]).
  destruct (IH l2) as (H1 & H2 & H3 & H4).
  { apply Forall_app. split; [apply Forall_insert; [done|lia]|]. repeat constructor. lia. }
  assert (Hs2 : sumZ l2 = sumZ l).
  { unfold l2. rewrite sumZ_app. rewrite (sumZ_insert _ _ size) by done. simpl. lia. }
  assert (Hl2 : len l2 = len l + 1) by (unfold l2; rewrite length_app, length_insert; simpl; lia).
  fold l2. split_and!; [lia|done|lia|lia|]. destruct H4; [left; lia|by right].
Qed.

Lemma fit_strategy_spec g s :
  0 < minChunkSizeGiB g -> 0 <= totalCapacityNeeded g -> s ∈ yieldFitToPhysicalStrategies g ->
  cuts g (DriveSizes s) /\ numCores g <= NumDrives s <= maxDrives g.
Proof.
  intros Hm Ht. unfold yieldFitToPhysicalStrategies. destruct (hasEnoughCapacity g); [|set_solver]. simpl.
  destruct (fit_loop g _ [] 0) as [sizes so_far] eqn:E.
  apply fit_loop_inv in E as (H1 & H2 & H3); [|done..|constructor].
  case_decide; [set_solver|].
  pose proof (split_loop_spec (Z.to_nat (Z.min (numCores g) (maxDrives g) - len sizes)) (minChunkSizeGiB g) sizes Hm H3)
    as (H4 & H5 & _).
  case_decide; [|set_solver]. intros ->%list_elem_of_singleton. unfold NumDrives. simpl.
  split_and!; [split; [lia|done]|lia|lia].
Qed.

Lemma strategy_cuts g s :
  0 < numCores g -> 0 < minChunkSizeGiB g -> 0 <= totalCapacityNeeded g -> s ∈ GenerateStrategies g ->
  TotalCapacity s = totalCapacityNeeded g /\ numCores g <= NumDrives s <= maxDrives g /\
  Forall (fun size => minChunkSizeGiB g <= size) (DriveSizes s).
Proof.
  intros Hn Hm Ht [He|Hf]%elem_of_app; rewrite TotalCapacity_sum.
  - unfold yieldEvenDistributionStrategies in He. destruct (hasEnoughCapacity g); [|set_solver].
    apply even_loop_elem in He as (n & Hin & He). apply elem_of_loop_range in Hin.
    apply distributeEvenly_cuts in He as ([? ?] & ? & ? & _); [|lia..]. unfold NumDrives. split_and!; auto; lia.
  - apply fit_strategy_spec in Hf as [[? ?] ?]; auto.
Qed.

(** Every strategy the generator yields cuts exactly the capacity needed into at least one
    virtual drive per core and at most [maxDrives] virtual drives, each no smaller than the minimum
    chunk; and when the capacity allows one minimum chunk per core, the even cut into one drive per
    core comes first. *)
Theorem GenerateStrategies_sound g :
  0 < numCores g -> 0 < minChunkSizeGiB g -> 0 <= totalCapacityNeeded g ->
  (forall s, s ∈ GenerateStrategies g ->
    TotalCapacity s = totalCapacityNeeded g /\ numCores g <= NumDrives s <= maxDrives g /\
    Forall (fun size => minChunkSizeGiB g <= size) (DriveSizes s)) /\
  (hasEnoughCapacity g = true -> numCores g <= maxDrives g ->
   numCores g * minChunkSizeGiB g <= totalCapacityNeeded g ->
   exists s rest, GenerateStrategies g = s :: rest /\ NumDrives s = numCores g /\
     Forall (fun size => totalCapacityNeeded g `quot` numCores g <= size <=
                         totalCapacityNeeded g `quot` numCores g + 1) (DriveSizes s)).
Proof.
  intros Hn Hm Ht. split.
  - intros s Hs. by apply strategy_cuts.
  - intros Hc Hmax Hmin. unfold GenerateStrategies, yieldEvenDistributionStrategies. rewrite Hc. unfold loop_range.
    rewrite seqZ_cons by lia. simpl.
    destruct (distributeEvenly g (numCores g)) as [sizes|] eqn:E.
    + exists (mkStrategy sizes). eexists. split; [reflexivity|].
      apply distributeEvenly_cuts in E as (_ & ? & _ & ?); auto.
    + exfalso. revert E. unfold distributeEvenly. rewrite decide_False by lia. case_decide; [|done].
      pose proof (quot_pos_spec (totalCapacityNeeded g) (numCores g) Ht Hn). nia.
Qed.

Lemma GenerateStrategies_sound_witness :
  let pd u c := (u, mkPhysical (mkShared u u c "TLC") c 0 c) in
  let g := NewAllocationStrategyGenerator 21000 4 MinChunk
             (list_to_map [pd "a" 20000; pd "b" 500; pd "c" 500]) 32 in
  DriveSizes <$> take 1 (GenerateStrategies g) = [[5250; 5250; 5250; 5250]] /\
  DriveSizes <$> last (GenerateStrategies g) = Some [10000; 500; 500; 10000] /\
  (forall s, s ∈ GenerateStrategies g -> TotalCapacity s = 21000).
Proof.
  intros pd g. split; [vm_compute; reflexivity|]. split; [vm_compute; reflexivity|].
  intros s Hs. refine (proj1 (proj1 (GenerateStrategies_sound g _ _ _) s Hs)); vm_compute; congruence.
Defined.
