(* ===== verification/VirtualDrives.v ===== *)
(** * Container allocation: src/internal/controllers/allocator/{container_allocator,errors}.go

    How a container gets its drives and ports on a node: virtual drives cut out of the shared
    physical drives by capacity ([allocateSharedDrivesByCapacityWithTypes]) or by number
    ([allocateSharedDrivesByDrivesNum]), whole drives otherwise, and their replacement
    ([ReallocateDrives]).

    The node's containers and its drive annotations are arguments, as is the supply of fresh UUIDs.
    [sort.Slice] is not stable and the drives come from a map, so the order of drives of equal
    capacity is open: the sort is a parameter, of which the theorems use that it returns a
    permutation in descending order ([DriveSort]). *)

From S2P Require Import Prelude Fmt Types Sizing Strategies Ports.

(** ** Data *)

Record VirtualDrive : Type := mkVirtual {
  vd_VirtualUUID : string; vd_Label : string; vd_PhysicalUUID : string;
  vd_CapacityGiB : Z; vd_Serial : string; vd_Type : string }.

Record ContainerAllocations : Type := mkAllocations {
  ca_Drives : list string; ca_Ports : PortAllocations; ca_VirtualDrives : list VirtualDrive }.

(** The fields of a [WekaContainer] that the allocator reads. *)
Record WekaContainer : Type := mkContainer {
  ct_NumCores : Z; ct_ContainerCapacity : Z; ct_DriveCapacity : Z;
  ct_DriveTypesRatio : option DriveTypesRatio; ct_Allocations : option ContainerAllocations }.

Definition UsesDriveSharing (c : WekaContainer) : bool :=
  bool_decide (ct_DriveCapacity c > 0 \/ ct_ContainerCapacity c > 0).

(** The virtual drives of [Status.Allocations], none for a nil pointer. *)
Definition status_VirtualDrives (c : WekaContainer) : list VirtualDrive :=
  match ct_Allocations c with Some a => ca_VirtualDrives a | None => [] end.

Definition GetAllocatedVirtualDrivesCapacityByType (vds : list VirtualDrive) : Z * Z :=
  foldl (fun '(tlc, qlc) d =>
    if decide (vd_Type d = "QLC") then (tlc, qlc + vd_CapacityGiB d) else (tlc + vd_CapacityGiB d, qlc))
    (0, 0) vds.

Record AllocationRequest : Type := mkRequest {
  req_Container : WekaContainer; req_NumDrives : Z; req_CapacityGiB : Z;
  req_AllocateWeka : bool; req_AllocateAgent : bool; req_SsdProxyVidLabelAdd : bool }.

Record AllocationResult : Type := mkResult {
  res_Drives : list string; res_VirtualDrives : list VirtualDrive; res_Ports : PortAllocations }.

(** The global configuration of drive sharing. *)
Record DriveSharingConfig : Type := mkSharing {
  MaxVirtualDrivesPerCore : Z; EnforceMinDrivesPerTypePerCore : bool }.

(** errors.go *)
Inductive alloc_error : Type :=
  | InsufficientDrivesError (Needed Available : Z)
  | InsufficientDriveCapacityError (NeededGiB UsableGiB AvailableGiB : Z)
      (PhysicalDriveCapacitiesGiB : list Z) (MaxVirtualDrives : Z) (Type_ : string)
  | PortAllocationError (Cause : string)
  | AllocErrorf (msg : string).

Record virtualDriveAllocationPlan : Type := mkPlan {
  pl_physicalUUID : string; pl_capacityGiB : Z; pl_serial : string }.

(** ** The drives of a node *)

Definition pd_uuid (p : physicalDriveCapacity) : string := sd_PhysicalUUID (pd_drive p).

Definition init_drive (m : DriveCapacities) (d : SharedDriveInfo) : DriveCapacities :=
  <[sd_PhysicalUUID d := mkPhysical d (sd_CapacityGiB d) 0 (sd_CapacityGiB d)]> m.

Definition claim_drive (m : DriveCapacities) (vd : VirtualDrive) : DriveCapacities :=
  match m !! vd_PhysicalUUID vd with
  | Some dc =>
      let claimed := claimedCapacity dc + vd_CapacityGiB vd in
      <[vd_PhysicalUUID vd := mkPhysical (pd_drive dc) (totalCapacity dc) claimed (totalCapacity dc - claimed)]> m
  | None => m
  end.

Definition buildDriveCapacityMap (availableSharedDrives : list SharedDriveInfo)
    (containers : list WekaContainer) : DriveCapacities :=
  foldl (fun m c => foldl claim_drive m (status_VirtualDrives c))
    (foldl init_drive ∅ availableSharedDrives) containers.

Definition countDrivesByType (vds : list VirtualDrive) : Z * Z :=
  foldl (fun '(tlc, qlc) d =>
    if decide (vd_Type d = "TLC") then (tlc + 1, qlc)
    else if decide (vd_Type d = "QLC") then (tlc, qlc + 1) else (tlc, qlc)) (0, 0) vds.

(** ** Trying a strategy

    The code keeps the drives and their simulated capacities in two arrays that it swaps together;
    here they are one list of pairs. *)

(** The bubble-down of the drive just used, from its position on. *)
Fixpoint bubble_down (x : physicalDriveCapacity * Z) (l : list (physicalDriveCapacity * Z))
    : list (physicalDriveCapacity * Z) :=
  match l with
  | [] => [x]
  | y :: l => if decide (x.2 < y.2) then y :: bubble_down x l else x :: y :: l
  end.

(** The first drive with enough capacity, and the arrays afterwards. *)
Fixpoint place_drive (size : Z) (l : list (physicalDriveCapacity * Z))
    : option (physicalDriveCapacity * list (physicalDriveCapacity * Z)) :=
  match l with
  | [] => None
  | x :: l =>
      if decide (x.2 < size) then
        match place_drive size l with Some (d, l) => Some (d, x :: l) | None => None end
      else Some (x.1, bubble_down (x.1, x.2 - size) l)
  end.

Fixpoint try_sizes (sizes : list Z) (l : list (physicalDriveCapacity * Z))
    : option (list virtualDriveAllocationPlan) :=
  match sizes with
  | [] => Some []
  | size :: sizes =>
      match place_drive size l with
      | None => None
      | Some (d, l) =>
          match try_sizes sizes l with
          | Some plan => Some (mkPlan (pd_uuid d) size (sd_Serial (pd_drive d)) :: plan)
          | None => None
          end
      end
  end.

(** [None] is [(false, nil)]. *)
Definition tryAllocateStrategy (usableDrives : list physicalDriveCapacity) (strategy : AllocationStrategy)
    : option (list virtualDriveAllocationPlan) :=
  if decide (len usableDrives = 0) then None
  else try_sizes (DriveSizes strategy) ((fun ud => (ud, availableCapacity ud)) <$> usableDrives).

(** ** Allocation *)

(** What [sort.Slice] promises of a sort of the drives by available capacity, largest first. *)
Definition by_available (a b : physicalDriveCapacity) : Prop := availableCapacity b <= availableCapacity a.

Class DriveSort (sort : list physicalDriveCapacity -> list physicalDriveCapacity) : Prop := {
  drive_sort_perm : forall l, sort l ≡ₚ l;
  drive_sort_sorted : forall l, StronglySorted by_available (sort l) }.

(** A stable sort is one of the sorts allowed. *)
Definition stable_sort (l : list physicalDriveCapacity) : list physicalDriveCapacity :=
  sort_by (fun a b => bool_decide (availableCapacity a > availableCapacity b)) l.

#[export] Instance stable_DriveSort : DriveSort stable_sort.
Proof.
  split; [intros; apply sort_by_perm|]. intros l.
  assert (H : StronglySorted (fun a b => bool_decide (availableCapacity b > availableCapacity a) = false) (stable_sort l)).
  { apply sort_by_sorted.
    - intros x y. rewrite bool_decide_eq_true, bool_decide_eq_false. lia.
    - intros x y z. rewrite !bool_decide_eq_false. lia. }
  induction H as [|x k Hs IH Hx]; constructor; [done|].
  eapply Forall_impl; [exact Hx|]. simpl. intros y. unfold by_available. rewrite bool_decide_eq_false. lia.
Qed.

Section allocator.
Context (sort_drives : list physicalDriveCapacity -> list physicalDriveCapacity).

Definition filterAndSortUsableDrives (driveCapacities : DriveCapacities) (minCapacityGiB : Z)
    : list physicalDriveCapacity :=
  sort_drives (filter (fun dc => availableCapacity dc >= minCapacityGiB) (drives_of driveCapacities)).

Definition to_virtual (driveType : string) (a : virtualDriveAllocationPlan) : VirtualDrive :=
  mkVirtual "" "" (pl_physicalUUID a) (pl_capacityGiB a) (pl_serial a) driveType.

Definition allocateSingleDriveType (driveType : string) (capacityNeeded minDrives maxDrives : Z)
    (driveCapacities : DriveCapacities) : res alloc_error (list VirtualDrive) :=
  let generator := NewAllocationStrategyGenerator capacityNeeded minDrives MinChunk driveCapacities maxDrives in
  match first_some (fun strategy => tryAllocateStrategy (filterAndSortUsableDrives driveCapacities MinChunk) strategy)
          (GenerateStrategies generator) with
  | Some allocPlan => Ok (to_virtual driveType <$> allocPlan)
  | None =>
      let physicalCapacities := availableCapacity <$> drives_of driveCapacities in
      let totalAvailable := sumZ physicalCapacities in
      let usableAvailable := sumZ (filter (fun c => c >= MinChunk) physicalCapacities) in
      Err (InsufficientDriveCapacityError capacityNeeded usableAvailable totalAvailable physicalCapacities maxDrives driveType)
  end.

(** The state of the loop over the TLC minimum: the drives and the last errors. *)
Record loop_state : Type := mkLoop {
  ls_drives : list VirtualDrive; ls_lastTlc : option alloc_error; ls_lastQlc : option alloc_error }.

(** What does not change in the loop. *)
Record loop_params : Type := mkLoopParams {
  lp_tlcNeeded : Z; lp_qlcNeeded : Z; lp_numCores : Z; lp_maxDrives : Z;
  lp_isReallocation : bool; lp_enforce : bool; lp_tlc : DriveCapacities; lp_qlc : DriveCapacities }.

(** The QLC half of a turn, after [tlcDrives] were allocated: the state, and whether the loop is done. *)
Definition qlc_half (p : loop_params) (tlcDrives : list VirtualDrive) (st : loop_state) : loop_state * bool :=
  if decide (lp_qlcNeeded p > 0) then
    let qlcMin :=
      if lp_isReallocation p then 1
      else if lp_enforce p then lp_numCores p
      else Z.max 1 (lp_numCores p - len tlcDrives) in
    let qlcMax := lp_maxDrives p - len tlcDrives in
    match allocateSingleDriveType "QLC" (lp_qlcNeeded p) qlcMin qlcMax (lp_qlc p) with
    | Err e => (mkLoop tlcDrives (ls_lastTlc st) (Some e), false)
    | Ok qlcDrives => (mkLoop (tlcDrives ++ qlcDrives) (ls_lastTlc st) (ls_lastQlc st), true)
    end
  else (mkLoop tlcDrives (ls_lastTlc st) (ls_lastQlc st), true).

(** [for tlcMin := tlcMinStart; tlcMin <= tlcMinEnd; tlcMin++]. *)
Fixpoint tlc_loop (p : loop_params) (tlcMins : list Z) (st : loop_state) : loop_state :=
  match tlcMins with
  | [] => st
  | tlcMin :: tlcMins =>
      if decide (lp_tlcNeeded p > 0) then
        match allocateSingleDriveType "TLC" (lp_tlcNeeded p) tlcMin (lp_maxDrives p) (lp_tlc p) with
        | Err e => tlc_loop p tlcMins (mkLoop [] (Some e) (ls_lastQlc st))
        | Ok tlcDrives =>
            let '(st, done) := qlc_half p tlcDrives st in
            if done then st else tlc_loop p tlcMins st
        end
      else
        let '(st, done) := qlc_half p [] st in
        if done then st else tlc_loop p tlcMins st
  end.

(** Steps of [allocateSharedDrivesByCapacityWithTypes]: the capacities needed of each type. *)
Definition capacities_needed (req : AllocationRequest) (isReallocation : bool) : Z * Z :=
  let c := req_Container req in
  if isReallocation then
    let '(fullTlc, fullQlc) := GetTlcQlcCapacity (ct_ContainerCapacity c) (ct_DriveTypesRatio c) in
    let '(existingTlc, existingQlc) := GetAllocatedVirtualDrivesCapacityByType (status_VirtualDrives c) in
    (Z.max 0 (fullTlc - existingTlc), Z.max 0 (fullQlc - existingQlc))
  else GetTlcQlcCapacity (req_CapacityGiB req) (ct_DriveTypesRatio c).

Definition insufficient_type (ty : string) (numCores minCapacityPerType needed : Z) : string :=
  Sprintf "insufficient %s capacity: with %d drive cores and enforceMinDrivesPerTypePerCore=true, need at least %d GiB %s (minimum %d drives × %d GiB each), but only %d GiB configured. Increase containerCapacity or adjust driveTypesRatio, or set enforceMinDrivesPerTypePerCore=false"
    [ArgS ty; ArgD numCores; ArgD minCapacityPerType; ArgS ty; ArgD numCores; ArgD MinChunk; ArgD needed].

Definition insufficient_total (numCores minCapacityPerType totalCapacity : Z) : string :=
  Sprintf "insufficient total capacity: with %d drive cores, need at least %d GiB total (minimum %d drives × %d GiB each), but only %d GiB available. Increase containerCapacity"
    [ArgD numCores; ArgD minCapacityPerType; ArgD numCores; ArgD MinChunk; ArgD totalCapacity].

(** The validation of the minimum drive count. *)
Definition validate_minimum (cfg : DriveSharingConfig) (isReallocation : bool) (numCores tlcNeeded qlcNeeded : Z)
    : option alloc_error :=
  let minCapacityPerType := numCores * MinChunk in
  if isReallocation then None
  else if EnforceMinDrivesPerTypePerCore cfg then
    if decide (tlcNeeded > 0 /\ tlcNeeded < minCapacityPerType)
    then Some (AllocErrorf (insufficient_type "TLC" numCores minCapacityPerType tlcNeeded))
    else if decide (qlcNeeded > 0 /\ qlcNeeded < minCapacityPerType)
    then Some (AllocErrorf (insufficient_type "QLC" numCores minCapacityPerType qlcNeeded))
    else None
  else if decide (tlcNeeded + qlcNeeded < minCapacityPerType)
  then Some (AllocErrorf (insufficient_total numCores minCapacityPerType (tlcNeeded + qlcNeeded)))
  else None.

(** The bounds of the loop over the TLC minimum. *)
Definition tlc_min_range (cfg : DriveSharingConfig) (isReallocation : bool)
    (numCores tlcNeeded qlcNeeded effectiveMaxDrives : Z) : Z * Z :=
  if decide (tlcNeeded = 0) then (0, 0)
  else if isReallocation then (1, Z.max 1 effectiveMaxDrives)
  else if decide (qlcNeeded = 0 \/ EnforceMinDrivesPerTypePerCore cfg = true) then (numCores, numCores)
  else (1, numCores).

(** The check of what the loop left. *)
Definition finish_capacity (p : loop_params) (st : loop_state) : res alloc_error (list VirtualDrive) :=
  let expectedTotalDrives :=
    (if decide (lp_tlcNeeded p > 0) then 1 else 0) + (if decide (lp_qlcNeeded p > 0) then 1 else 0) in
  let minDrivesRequired := if lp_isReallocation p then expectedTotalDrives else lp_numCores p in
  if decide (len (ls_drives st) < expectedTotalDrives \/ len (ls_drives st) < minDrivesRequired) then
    match ls_lastQlc st, ls_lastTlc st with
    | Some e, _ => Err e
    | None, Some e => Err e
    | None, None => Err (AllocErrorf (Sprintf "failed to allocate virtual drives: could not satisfy combined constraint of %d minimum drives" [ArgD minDrivesRequired]))
    end
  else Ok (ls_drives st).

Definition of_type (ty : string) (drives : list SharedDriveInfo) : list SharedDriveInfo :=
  filter (fun d => sd_Type d = ty) drives.

Definition allocateSharedDrivesByCapacityWithTypes (cfg : DriveSharingConfig) (req : AllocationRequest)
    (containers : list WekaContainer) (availableSharedDrives : list SharedDriveInfo)
    : res alloc_error (list VirtualDrive) :=
  let c := req_Container req in
  let numCores := ct_NumCores c in
  let hasExistingAllocations := bool_decide (0 < len (status_VirtualDrives c)) in
  let isReallocation := hasExistingAllocations && bool_decide (req_CapacityGiB req > 0) in
  let '(tlcNeeded, qlcNeeded) := capacities_needed req isReallocation in
  match validate_minimum cfg isReallocation numCores tlcNeeded qlcNeeded with
  | Some e => Err e
  | None =>
      let tlcDrives := of_type "TLC" availableSharedDrives in
      let qlcDrives := of_type "QLC" availableSharedDrives in
      let maxDrives := numCores * MaxVirtualDrivesPerCore cfg in
      let '(existingTlc, existingQlc) :=
        if isReallocation then countDrivesByType (status_VirtualDrives c) else (0, 0) in
      let remainingMaxDrives := Z.max 0 (maxDrives - (existingTlc + existingQlc)) in
      if decide (tlcNeeded > 0 /\ len tlcDrives = 0) then
        Err (AllocErrorf (Sprintf "no TLC drives available but TLC capacity %d GiB is required" [ArgD tlcNeeded]))
      else if decide (qlcNeeded > 0 /\ len qlcDrives = 0) then
        Err (AllocErrorf (Sprintf "no QLC drives available but QLC capacity %d GiB is required" [ArgD qlcNeeded]))
      else
      let effectiveMaxDrives := if isReallocation then remainingMaxDrives else maxDrives in
      let '(tlcMinStart, tlcMinEnd) :=
        tlc_min_range cfg isReallocation numCores tlcNeeded qlcNeeded effectiveMaxDrives in
      let p := mkLoopParams tlcNeeded qlcNeeded numCores effectiveMaxDrives isReallocation
                 (EnforceMinDrivesPerTypePerCore cfg)
                 (buildDriveCapacityMap tlcDrives containers) (buildDriveCapacityMap qlcDrives containers) in
      finish_capacity p (tlc_loop p (loop_range tlcMinStart tlcMinEnd) (mkLoop [] None None))
  end.

(** The loop of [allocateSharedDrivesByDrivesNum]: [i] counts the drives placed. *)
Fixpoint num_loop (turns : nat) (i driveCapacityGiB : Z) (availableDrives : list physicalDriveCapacity)
    : res alloc_error (list VirtualDrive) :=
  match turns, availableDrives with
  | O, _ => Ok []
  | S turns, selected :: rest =>
      if decide (availableCapacity selected < driveCapacityGiB) then
        Err (AllocErrorf (Sprintf "cannot place virtual drive %d: largest available space is %d GiB but need %d GiB per drive"
               [ArgD (i + 1); ArgD (availableCapacity selected); ArgD driveCapacityGiB]))
      else
        let virtualDrive := mkVirtual "" "" (pd_uuid selected) driveCapacityGiB (sd_Serial (pd_drive selected)) "TLC" in
        let selected := mkPhysical (pd_drive selected) (totalCapacity selected)
                          (claimedCapacity selected + driveCapacityGiB) (availableCapacity selected - driveCapacityGiB) in
        let? virtualDrives := num_loop turns (i + 1) driveCapacityGiB (sort_drives (selected :: rest)) in
        Ok (virtualDrive :: virtualDrives)
  | S _, [] => Err (AllocErrorf "index out of range")
  end.

Definition allocateSharedDrivesByDrivesNum (req : AllocationRequest) (containers : list WekaContainer)
    (availableSharedDrives : list SharedDriveInfo) : res alloc_error (list VirtualDrive) :=
  let tlcDrives := of_type "TLC" availableSharedDrives in
  let driveCapacityGiB := ct_DriveCapacity (req_Container req) in
  if decide (driveCapacityGiB = 0)
  then Err (AllocErrorf "container has UseDriveSharing=true but DriveCapacity is not set") else
  let totalCapacityNeeded := req_NumDrives req * driveCapacityGiB in
  let driveCapacities := buildDriveCapacityMap tlcDrives containers in
  let availableDrives := filterAndSortUsableDrives driveCapacities driveCapacityGiB in
  let totalUsableCapacity := sumZ (availableCapacity <$> availableDrives) in
  if decide (len availableDrives = 0 \/ totalUsableCapacity < totalCapacityNeeded) then
    let totalAvailable := sumZ (availableCapacity <$> drives_of driveCapacities) in
    Err (InsufficientDriveCapacityError totalCapacityNeeded totalUsableCapacity totalAvailable [] 0 "TLC")
  else num_loop (Z.to_nat (req_NumDrives req)) 0 driveCapacityGiB availableDrives.

(** The labels given to the drives, from a supply of fresh UUIDs. *)
Fixpoint label_drives (newUUID : nat -> string) (vidLabelAdd : bool) (i : nat) (vds : list VirtualDrive)
    : list VirtualDrive :=
  match vds with
  | [] => []
  | v :: vds =>
      let label := newUUID i in
      mkVirtual (if vidLabelAdd then vd_VirtualUUID v else label) label
        (vd_PhysicalUUID v) (vd_CapacityGiB v) (vd_Serial v) (vd_Type v)
      :: label_drives newUUID vidLabelAdd (S i) vds
  end.

(** A whole drive of a node. *)
Record DriveEntry : Type := mkEntry { de_Serial : string; de_CapacityGiB : Z }.

(** The node as the allocator sees it: its name and the answer of the node info getter. *)
Record NodeInfo : Type := mkNodeInfo { ni_AvailableDrives : list DriveEntry; ni_SharedDrives : list SharedDriveInfo }.

Definition AllocateSharedDrives (cfg : DriveSharingConfig) (newUUID : nat -> string) (nodeName : string)
    (nodeInfo : res string NodeInfo) (req : AllocationRequest) (containers : list WekaContainer)
    : res alloc_error (list VirtualDrive) :=
  match nodeInfo with
  | Err e => Err (AllocErrorf (Sprintf "failed to get node info: %s" [ArgS e]))
  | Ok info =>
      let sharedDrives := ni_SharedDrives info in
      if decide (len sharedDrives = 0)
      then Err (AllocErrorf (Sprintf "no shared drives found on node %s" [ArgS nodeName])) else
      let? virtualDrives :=
        (if decide (req_CapacityGiB req > 0)
         then allocateSharedDrivesByCapacityWithTypes cfg req containers sharedDrives
         else if decide (req_NumDrives req > 0)
         then allocateSharedDrivesByDrivesNum req containers sharedDrives
         else Err (AllocErrorf "either NumDrives or CapacityGiB must be specified for shared drive allocation")) in
      Ok (label_drives newUUID (req_SsdProxyVidLabelAdd req) 0 virtualDrives)
  end.

(** ** Whole drives *)

Definition aggregateNodeDrivesAllocations (containers : list WekaContainer) : gset string :=
  foldl (fun acc c =>
    match ct_Allocations c with
    | None => acc
    | Some a =>
        foldl (fun acc vd => {[vd_PhysicalUUID vd]} ∪ acc)
          (foldl (fun acc drive => {[drive]} ∪ acc) acc (ca_Drives a)) (ca_VirtualDrives a)
    end) ∅ containers.

Definition SortDriveEntriesDesc (entries : list DriveEntry) : list DriveEntry :=
  sort_by (desc_then_name de_CapacityGiB de_Serial) entries.

Definition getAvailableDrivesFromStatus (nodeInfo : res string NodeInfo) (allocatedDrives : gset string)
    : res string (list string) :=
  match nodeInfo with
  | Err e => Err (Sprintf "failed to get node info: %s" [ArgS e])
  | Ok info =>
      Ok (filter (fun serial => serial ∉ allocatedDrives) (de_Serial <$> SortDriveEntriesDesc (ni_AvailableDrives info)))
  end.

(** [containers]: the answer of the list of the node's containers. *)
Definition AllocateResources (cfg : DriveSharingConfig) (newUUID : nat -> string) (nodeName : string)
    (nodeInfo : res string NodeInfo) (containers : res string (list WekaContainer))
    (cluster : WekaCluster) (flags : option FeatureFlags) (req : AllocationRequest)
    : res alloc_error AllocationResult :=
  match containers with
  | Err e => Err (AllocErrorf (Sprintf "failed to list containers on node %s: %s" [ArgS nodeName; ArgS e]))
  | Ok containers =>
      let allocatedDrives := aggregateNodeDrivesAllocations containers in
      let allocatedPortRanges :=
        AggregatePortRangesFromContainers
          ((fun c => match ct_Allocations c with Some a => Some (ca_Ports a) | None => None end) <$> containers)
          (GetPortsPerContainerFromFlags flags) in
      let? drives :=
        (if UsesDriveSharing (req_Container req) then
           let? virtualDrives := AllocateSharedDrives cfg newUUID nodeName nodeInfo req containers in
           Ok ([], virtualDrives)
         else if decide (req_NumDrives req > 0) then
           match getAvailableDrivesFromStatus nodeInfo allocatedDrives with
           | Err e => Err (AllocErrorf (Sprintf "failed to get available drives: %s" [ArgS e]))
           | Ok drives =>
               if decide (len drives < req_NumDrives req)
               then Err (InsufficientDrivesError (req_NumDrives req) (len drives))
               else Ok (take (Z.to_nat (req_NumDrives req)) drives, [])
           end
         else Ok ([], [])) in
      match allocatePortRangesFromStatus cluster flags allocatedPortRanges (req_AllocateWeka req) (req_AllocateAgent req) with
      | Err e => Err (PortAllocationError e)
      | Ok (wekaPort, agentPort) => Ok (mkResult drives.1 drives.2 (mkPortAlloc wekaPort agentPort))
      end
  end.

(** ** Replacing drives *)

Record DriveReallocationRequest : Type := mkRealloc {
  rr_Container : WekaContainer; rr_FailedDrives : list string; rr_NumNewDrives : Z;
  rr_CapacityGiB : Z; rr_SsdProxyVidLabelAdd : bool }.

Record DriveReallocationResult : Type := mkReallocResult {
  rs_NewDrives : list string; rs_AllDrives : list string;
  rs_NewVirtualDrives : list VirtualDrive; rs_AllVirtualDrives : list VirtualDrive }.

(** The drives of [Status.Allocations], a pointer the code dereferences. *)
Definition status_Drives (c : WekaContainer) : list string :=
  match ct_Allocations c with Some a => ca_Drives a | None => [] end.

Definition reallocateRegularDrives (nodeInfo : res string NodeInfo) (req : DriveReallocationRequest)
    (containers : list WekaContainer) : res alloc_error DriveReallocationResult :=
  let currentDrives := status_Drives (rr_Container req) in
  let kept := filter (fun drive => drive ∉ rr_FailedDrives req) currentDrives in
  let allocatedDrives := aggregateNodeDrivesAllocations containers in
  let allocatedDrives := foldl (fun acc drive => acc ∖ {[drive]}) allocatedDrives currentDrives in
  let allocatedDrives := foldl (fun acc drive => {[drive]} ∪ acc) allocatedDrives kept in
  match getAvailableDrivesFromStatus nodeInfo allocatedDrives with
  | Err e => Err (AllocErrorf (Sprintf "failed to get available drives: %s" [ArgS e]))
  | Ok availableDrives =>
      if decide (len availableDrives < rr_NumNewDrives req)
      then Err (InsufficientDrivesError (rr_NumNewDrives req) (len availableDrives)) else
      let newDrives := take (Z.to_nat (rr_NumNewDrives req)) availableDrives in
      Ok (mkReallocResult newDrives (kept ++ newDrives) [] [])
  end.

Definition reallocateVirtualDrives (cfg : DriveSharingConfig) (newUUID : nat -> string) (nodeName : string)
    (nodeInfo : res string NodeInfo) (req : DriveReallocationRequest) (containers : list WekaContainer)
    : res alloc_error DriveReallocationResult :=
  let allocReq := mkRequest (rr_Container req) (rr_NumNewDrives req) (rr_CapacityGiB req) false false
                    (rr_SsdProxyVidLabelAdd req) in
  match AllocateSharedDrives cfg newUUID nodeName nodeInfo allocReq containers with
  | Err e => Err e
  | Ok newVirtualDrives =>
      let kept := filter (fun vd => vd_VirtualUUID vd ∉ rr_FailedDrives req /\ vd_Serial vd ∉ rr_FailedDrives req)
                    (status_VirtualDrives (rr_Container req)) in
      Ok (mkReallocResult [] [] newVirtualDrives (kept ++ newVirtualDrives))
  end.

Definition ReallocateDrives (cfg : DriveSharingConfig) (newUUID : nat -> string) (nodeName : string)
    (nodeInfo : res string NodeInfo) (containers : res string (list WekaContainer))
    (req : DriveReallocationRequest) : res alloc_error DriveReallocationResult :=
  match containers with
  | Err e => Err (AllocErrorf (Sprintf "failed to list containers on node: %s" [ArgS e]))
  | Ok containers =>
      if UsesDriveSharing (rr_Container req)
      then reallocateVirtualDrives cfg newUUID nodeName nodeInfo req containers
      else reallocateRegularDrives nodeInfo req containers
  end.
End allocator.
