(* ===== verification/DriveSafety.v ===== *)
(** * Correctness of the container allocation

    The theorems on VirtualDrives.v: what a strategy that fits looks like, that no physical drive is
    given out beyond its capacity, when an allocation by number succeeds, and that replaced drives
    are free drives. *)

From S2P Require Import Prelude Fmt Types Sizing Strategies Ports VirtualDrives.

(** ** Capacity by physical drive *)

(** The capacity virtual drives take on the physical drive [u]. *)
Definition placed (vds : list VirtualDrive) (u : string) : Z :=
  sumZ ((fun v => if decide (vd_PhysicalUUID v = u) then vd_CapacityGiB v else 0) <$> vds).

(** What the containers of the node already hold of [u]. *)
Definition claims (containers : list WekaContainer) (u : string) : Z :=
  placed (flat_map status_VirtualDrives containers) u.

Lemma placed_app a b u : placed (a ++ b) u = placed a u + placed b u.
Proof. unfold placed. by rewrite fmap_app, sumZ_app. Qed.

Lemma placed_cons v l u :
  placed (v :: l) u = (if decide (vd_PhysicalUUID v = u) then vd_CapacityGiB v else 0) + placed l u.
Proof. done. Qed.

(** A drive of capacity [sd_CapacityGiB d] of which [k] is claimed. *)
Definition entry (d : SharedDriveInfo) (k : Z) : physicalDriveCapacity :=
  mkPhysical d (sd_CapacityGiB d) k (sd_CapacityGiB d - k).

(** ** [buildDriveCapacityMap] *)

Lemma claim_drive_entry vds m u d k :
  m !! u = Some (entry d k) -> foldl claim_drive m vds !! u = Some (entry d (k + placed vds u)).
Proof.
  revert m k. induction vds as [|v vds IH]; intros m k Hm; simpl foldl.
  { rewrite Hm. unfold placed. simpl. by rewrite Z.add_0_r. }
  rewrite placed_cons. unfold claim_drive at 2. case_decide as Hv.
  - rewrite Hv, Hm, Z.add_assoc. apply IH. by rewrite lookup_insert_eq.
  - rewrite Z.add_0_l. apply IH. destruct (m !! vd_PhysicalUUID v); [by rewrite lookup_insert_ne|done].
Qed.

Lemma claim_drive_none vds m u : m !! u = None -> foldl claim_drive m vds !! u = None.
Proof.
  revert m. induction vds as [|v vds IH]; intros m Hm; simpl; [done|]. apply IH. unfold claim_drive.
  destruct (m !! vd_PhysicalUUID v) eqn:E; [|done]. rewrite lookup_insert_ne; [done|naive_solver].
Qed.

Lemma foldl_flat_map {A B C} (f : C -> B -> C) (g : A -> list B) l (c : C) :
  foldl (fun c a => foldl f c (g a)) c l = foldl f c (flat_map g l).
Proof. revert c. induction l as [|a l IH]; intros c; simpl; [done|]. by rewrite IH, foldl_app. Qed.

Lemma init_drive_lookup drives m u :
  NoDup (sd_PhysicalUUID <$> drives) ->
  (forall d, d ∈ drives -> sd_PhysicalUUID d = u -> foldl init_drive m drives !! u = Some (entry d 0)) /\
  (u ∉ sd_PhysicalUUID <$> drives -> foldl init_drive m drives !! u = m !! u).
Proof.
  revert m. induction drives as [|d drives IH]; intros m Hnd; [split; [set_solver|done]|].
  rewrite fmap_cons, NoDup_cons in Hnd. destruct Hnd as [Hd Hnd]. simpl.
  destruct (IH (init_drive m d) Hnd) as [IH1 IH2]. split.
  - intros d' [->|Hin]%elem_of_cons Hu; [|by apply IH1].
    rewrite IH2 by (by rewrite <- Hu). unfold init_drive. rewrite Hu, lookup_insert_eq.
    unfold entry. do 2 f_equal. lia.
  - rewrite not_elem_of_cons. intros [Hne Hin]. rewrite IH2 by done.
    unfold init_drive. by rewrite lookup_insert_ne by done.
Qed.

(** The map holds exactly the drives of the list, each with what the containers left of it. *)
Lemma buildDriveCapacityMap_spec drives containers :
  NoDup (sd_PhysicalUUID <$> drives) ->
  buildDriveCapacityMap drives containers =
  list_to_map ((fun d => (sd_PhysicalUUID d, entry d (claims containers (sd_PhysicalUUID d)))) <$> drives).
Proof.
  intros Hnd. apply map_eq. intros u. unfold buildDriveCapacityMap.
  rewrite foldl_flat_map. destruct (init_drive_lookup drives ∅ u Hnd) as [H1 H2].
  destruct (decide (u ∈ sd_PhysicalUUID <$> drives)) as [Hin|Hin].
  - apply list_elem_of_fmap in Hin as (d & -> & Hd).
    rewrite (claim_drive_entry _ _ _ d 0) by by apply H1. symmetry.
    apply elem_of_list_to_map_1; [by rewrite <- list_fmap_compose|].
    apply list_elem_of_fmap. by exists d.
  - rewrite claim_drive_none by by rewrite H2. symmetry. apply not_elem_of_list_to_map_1.
    by rewrite <- list_fmap_compose.
Qed.

Lemma buildDriveCapacityMap_drives drives containers :
  NoDup (sd_PhysicalUUID <$> drives) ->
  drives_of (buildDriveCapacityMap drives containers) ≡ₚ
  (fun d => entry d (claims containers (sd_PhysicalUUID d))) <$> drives.
Proof.
  intros Hnd. rewrite buildDriveCapacityMap_spec by done. unfold drives_of.
  rewrite map_to_list_to_map by by rewrite <- list_fmap_compose. by rewrite <- list_fmap_compose.
Qed.

(** ** Trying a strategy *)

(** The simulated capacity left on [u]. *)
Definition left_on (l : list (physicalDriveCapacity * Z)) (u : string) : Z :=
  sumZ ((fun x => if decide (pd_uuid x.1 = u) then x.2 else 0) <$> l).

#[export] Instance left_on_perm : Proper ((≡ₚ) ==> (=) ==> (=)) left_on.
Proof. intros l1 l2 H ? u ->. unfold left_on. by rewrite H. Qed.

Lemma left_on_cons d c l u : left_on ((d, c) :: l) u = (if decide (pd_uuid d = u) then c else 0) + left_on l u.
Proof. done. Qed.

Lemma left_on_nonneg l u : Forall (fun x => 0 <= x.2) l -> 0 <= left_on l u.
Proof.
  intros H. apply sumZ_nonneg. apply Forall_fmap. eapply Forall_impl; [exact H|].
  simpl. intros x Hx. case_decide; lia.
Qed.

Lemma bubble_down_perm x l : bubble_down x l ≡ₚ x :: l.
Proof.
  induction l as [|y l IH]; simpl; [done|]. case_decide; [|done]. rewrite IH. apply Permutation_swap.
Qed.

(** The drive used has enough left, and only its capacity changes. *)
Lemma place_drive_spec size l d l' :
  place_drive size l = Some (d, l') ->
  exists c rest, l ≡ₚ (d, c) :: rest /\ l' ≡ₚ (d, c - size) :: rest /\ size <= c.
Proof.
  revert l'. induction l as [|[d' c'] l IH]; intros l'; simpl; [done|]. case_decide.
  - destruct (place_drive size l) as [[d2 l2]|] eqn:E; [|done]. intros [= -> <-].
    destruct (IH l2 eq_refl) as (c & rest & H1 & H2 & Hc). exists c, ((d', c') :: rest).
    split_and!; [rewrite H1|rewrite H2|done]; apply Permutation_swap.
  - intros [= -> <-]. exists c', l. split_and!; [done|apply bubble_down_perm|lia].
Qed.

Lemma place_drive_None size l : place_drive size l = None <-> Forall (fun x => x.2 < size) l.
Proof.
  induction l as [|x l IH]; simpl; [by split|]. rewrite Forall_cons. case_decide.
  - destruct (place_drive size l) as [[]|]; naive_solver.
  - naive_solver lia.
Qed.

Definition planned (plan : list virtualDriveAllocationPlan) (u : string) : Z :=
  sumZ ((fun a => if decide (pl_physicalUUID a = u) then pl_capacityGiB a else 0) <$> plan).

Lemma planned_cons a l u :
  planned (a :: l) u = (if decide (pl_physicalUUID a = u) then pl_capacityGiB a else 0) + planned l u.
Proof. done. Qed.

Lemma try_sizes_spec sizes l plan :
  Forall (fun x => 0 <= x.2) l -> try_sizes sizes l = Some plan ->
  pl_capacityGiB <$> plan = sizes /\ (forall u, planned plan u <= left_on l u) /\
  Forall (fun a => exists d, d ∈ l.*1 /\ pl_physicalUUID a = pd_uuid d /\ pl_serial a = sd_Serial (pd_drive d)) plan.
Proof.
  revert l plan. induction sizes as [|size sizes IH]; intros l plan Hl; simpl.
  { intros [= <-]. split_and!; [done| |constructor]. intros u. by apply left_on_nonneg. }
  destruct (place_drive size l) as [[d l']|] eqn:E; [|done].
  apply place_drive_spec in E as (c & rest & H1 & H2 & Hc).
  destruct (try_sizes sizes l') as [plan'|] eqn:E'; [|done]. intros [= <-].
  rewrite H1, Forall_cons in Hl. destruct Hl as [_ Hl].
  apply IH in E' as (Hs & Hu & Hd); [|rewrite H2; constructor; simpl; [lia|done]].
  split_and!; [by rewrite fmap_cons, Hs| |].
  - intros u. specialize (Hu u). rewrite H2 in Hu. rewrite H1.
    rewrite planned_cons, left_on_cons in *. simpl. case_decide; lia.
  - assert (Hfst : l'.*1 ≡ₚ l.*1) by (rewrite H1, H2; done).
    constructor; [exists d; rewrite <- Hfst, H2; split_and!; [by left|done..]|].
    eapply Forall_impl; [exact Hd|]. simpl. intros a (d' & Hd' & ?). exists d'. by rewrite <- Hfst.
Qed.

(** ** One drive type *)

(** The capacity a drive of the map has to give. *)
Definition avail (m : DriveCapacities) (u : string) : Z :=
  match m !! u with Some dc => Z.max 0 (availableCapacity dc) | None => 0 end.

(** Each drive is filed under its own UUID. *)
Definition caps_wf (m : DriveCapacities) : Prop := forall u dc, m !! u = Some dc -> pd_uuid dc = u.

Lemma buildDriveCapacityMap_wf drives containers :
  NoDup (sd_PhysicalUUID <$> drives) -> caps_wf (buildDriveCapacityMap drives containers).
Proof.
  intros Hnd u dc. rewrite buildDriveCapacityMap_spec by done. intros H%elem_of_list_to_map_2.
  apply list_elem_of_fmap in H as (d & [= -> ->] & _). done.
Qed.

Lemma drives_of_uuids m : caps_wf m -> pd_uuid <$> drives_of m = (map_to_list m).*1.
Proof.
  intros Hw. unfold drives_of. rewrite <- list_fmap_compose. apply list_fmap_ext.
  intros i [u dc] Hi. simpl. apply Hw, elem_of_map_to_list. by eapply list_elem_of_lookup_2.
Qed.

Lemma elem_of_drives_of m dc : caps_wf m -> dc ∈ drives_of m -> m !! pd_uuid dc = Some dc.
Proof.
  intros Hw Hin. apply list_elem_of_fmap in Hin as ([u dc'] & -> & Hin%elem_of_map_to_list).
  simpl in *. by rewrite (Hw u dc').
Qed.

(** Any selection of the drives of the map offers no more of [u] than the map has. *)
Lemma selection_le m P `{forall dc, Decision (P dc)} L u :
  caps_wf m -> L ≡ₚ filter P (drives_of m) ->
  sumZ ((fun dc => if decide (pd_uuid dc = u) then availableCapacity dc else 0) <$> L) <= avail m u.
Proof.
  intros Hw HL. rewrite HL. clear HL L.
  assert (Hnd : NoDup (pd_uuid <$> filter P (drives_of m))).
  { eapply sublist_NoDup; [|apply fmap_sublist, sublist_filter].
    rewrite drives_of_uuids by done. apply NoDup_fst_map_to_list. }
  assert (Hin : forall dc, dc ∈ filter P (drives_of m) -> m !! pd_uuid dc = Some dc).
  { intros dc [_ Hdc]%list_elem_of_filter. by apply elem_of_drives_of. }
  revert Hnd Hin. generalize (filter P (drives_of m)) as L. induction L as [|dc L IH]; intros Hnd Hin.
  { simpl. unfold avail. destruct (m !! u); lia. }
  rewrite fmap_cons, NoDup_cons in Hnd. destruct Hnd as [Hni Hnd].
  rewrite fmap_cons, sumZ_cons. case_decide as Hu.
  - assert (sumZ ((fun dc => if decide (pd_uuid dc = u) then availableCapacity dc else 0) <$> L) = 0) as ->.
    { clear -Hni Hu. induction L as [|x L IH]; [done|]. rewrite fmap_cons, not_elem_of_cons in Hni.
      rewrite fmap_cons, sumZ_cons, IH by tauto. rewrite decide_False; [done|]. naive_solver. }
    unfold avail. rewrite <- Hu, (Hin dc) by by left. lia.
  - rewrite IH; [lia|done|]. intros dc' Hdc'. apply Hin. by right.
Qed.

Lemma countDrivesByType_nonneg vds t q : countDrivesByType vds = (t, q) -> 0 <= t + q.
Proof.
  unfold countDrivesByType. assert (H : 0 <= 0 + 0) by lia. revert H. generalize 0 at 2 4 as a. generalize 0 at 2 3 as b.
  induction vds as [|v vds IH]; intros b a H; simpl; [intros [= <- <-]; lia|].
  case_decide; [apply IH; lia|]. case_decide; apply IH; lia.
Qed.

Section with_sort.
Context (sort_drives : list physicalDriveCapacity -> list physicalDriveCapacity) `{!DriveSort sort_drives}.

Lemma usable_perm m c :
  filterAndSortUsableDrives sort_drives m c ≡ₚ filter (fun dc => availableCapacity dc >= c) (drives_of m).
Proof. unfold filterAndSortUsableDrives. apply drive_sort_perm. Qed.

Lemma tryAllocateStrategy_safe m strategy plan :
  caps_wf m -> tryAllocateStrategy (filterAndSortUsableDrives sort_drives m MinChunk) strategy = Some plan ->
  pl_capacityGiB <$> plan = DriveSizes strategy /\ (forall u, planned plan u <= avail m u) /\
  Forall (fun a => exists dc, m !! pl_physicalUUID a = Some dc /\ pl_serial a = sd_Serial (pd_drive dc)) plan.
Proof.
  intros Hw. unfold tryAllocateStrategy. case_decide; [done|].
  set (L := filterAndSortUsableDrives sort_drives m MinChunk). intros Ht.
  assert (HL : L ≡ₚ filter (fun dc => availableCapacity dc >= MinChunk) (drives_of m)) by apply usable_perm.
  apply try_sizes_spec in Ht as (H1 & H2 & H3).
  - split_and!; [done| |].
    + intros u. etrans; [apply H2|]. etrans; [|by apply (selection_le m _ L u Hw HL)].
      unfold left_on. rewrite <- list_fmap_compose. done.
    + eapply Forall_impl; [exact H3|]. simpl. intros a (d & Hd & -> & ->). exists d. split; [|done].
      rewrite <- list_fmap_compose in Hd. apply list_elem_of_fmap in Hd as (d' & -> & Hd).
      rewrite HL in Hd. apply list_elem_of_filter in Hd as [_ Hd]. by apply elem_of_drives_of.
  - apply Forall_fmap, Forall_forall. intros d Hd. rewrite HL in Hd.
    apply list_elem_of_filter in Hd as [Hd _]. unfold MinChunk, const_MinChunkSizeGiB in Hd. simpl. lia.
Qed.

(** What virtual drives of one type cut from [m] satisfy whatever was asked. *)
Definition drives_safe (ty : string) (m : DriveCapacities) (vds : list VirtualDrive) : Prop :=
  (forall u, placed vds u <= avail m u) /\
  Forall (fun v => vd_Type v = ty /\
    exists dc, m !! vd_PhysicalUUID v = Some dc /\ vd_Serial v = sd_Serial (pd_drive dc)) vds.

Lemma drives_safe_nil ty m : drives_safe ty m [].
Proof.
  split; [|constructor]. intros u. unfold placed, avail. simpl. destruct (m !! u); lia.
Qed.

Lemma placed_planned ty plan u : placed (to_virtual ty <$> plan) u = planned plan u.
Proof. unfold placed, planned. by rewrite <- list_fmap_compose. Qed.

Lemma allocateSingleDriveType_safe ty needed minDrives maxDrives m vds :
  caps_wf m -> allocateSingleDriveType sort_drives ty needed minDrives maxDrives m = Ok vds ->
  drives_safe ty m vds.
Proof.
  intros Hw. unfold allocateSingleDriveType. destruct (first_some _ _) as [plan|] eqn:E; [|done].
  intros [= <-]. apply first_some_Some in E as (l1 & s & l2 & _ & Ht & _).
  apply tryAllocateStrategy_safe in Ht as (_ & Hu & Hp); [|done]. split.
  - intros u. by rewrite placed_planned.
  - apply Forall_fmap. eapply Forall_impl; [exact Hp|]. done.
Qed.

Lemma allocateSingleDriveType_exact ty needed minDrives maxDrives m vds :
  caps_wf m -> 0 <= needed -> 0 < minDrives ->
  allocateSingleDriveType sort_drives ty needed minDrives maxDrives m = Ok vds ->
  sumZ (vd_CapacityGiB <$> vds) = needed /\ minDrives <= len vds <= maxDrives /\
  Forall (fun v => MinChunk <= vd_CapacityGiB v) vds.
Proof.
  intros Hw Hn Hm. unfold allocateSingleDriveType. destruct (first_some _ _) as [plan|] eqn:E; [|done].
  intros [= <-]. apply first_some_Some in E as (l1 & s & l2 & Hgen & Ht & _).
  apply tryAllocateStrategy_safe in Ht as (Hs & _ & _); [|done].
  assert (Hin : s ∈ GenerateStrategies (NewAllocationStrategyGenerator needed minDrives MinChunk m maxDrives))
    by (rewrite Hgen; set_solver).
  apply strategy_cuts in Hin as (H1 & H2 & H3); [|done..].
  assert (Hc : vd_CapacityGiB <$> (to_virtual ty <$> plan) = DriveSizes s) by by rewrite <- list_fmap_compose.
  rewrite Hc. rewrite TotalCapacity_sum in H1. unfold NumDrives in H2. simpl in *.
  rewrite <- Hc, !length_fmap in H2. rewrite length_fmap. split_and!; [done|lia|lia|].
  rewrite <- Hc, Forall_forall in H3. apply Forall_forall. intros v Hv. by apply H3, list_elem_of_fmap_2.
Qed.

(** ** Both types *)

(** The drives answer the need exactly. *)
Definition exact (needed : Z) (vds : list VirtualDrive) : Prop :=
  sumZ (vd_CapacityGiB <$> vds) = needed /\ Forall (fun v => MinChunk <= vd_CapacityGiB v) vds.

(** What the loop leaves: TLC drives then QLC drives, both safe; complete, or without the QLC drives
    that were needed, or empty for want of TLC drives. *)
Definition loop_post (p : loop_params) (st : loop_state) : Prop :=
  exists tlc qlc, ls_drives st = tlc ++ qlc /\
    drives_safe "TLC" (lp_tlc p) tlc /\ drives_safe "QLC" (lp_qlc p) qlc /\
    (exact (lp_tlcNeeded p) tlc /\ exact (lp_qlcNeeded p) qlc /\
       (len (tlc ++ qlc) <= lp_maxDrives p \/ tlc ++ qlc = []) \/
     exact (lp_tlcNeeded p) tlc /\ qlc = [] /\ 0 < lp_qlcNeeded p \/
     tlc = [] /\ qlc = [] /\ 0 < lp_tlcNeeded p).

Definition params_ok (p : loop_params) : Prop :=
  caps_wf (lp_tlc p) /\ caps_wf (lp_qlc p) /\ 0 <= lp_tlcNeeded p /\ 0 <= lp_qlcNeeded p /\ 0 < lp_numCores p.

Lemma exact_nil : exact 0 [].
Proof. split; [done|constructor]. Qed.

Lemma qlc_half_post p tlc st st' done :
  params_ok p -> drives_safe "TLC" (lp_tlc p) tlc -> exact (lp_tlcNeeded p) tlc ->
  (len tlc <= lp_maxDrives p \/ tlc = []) ->
  qlc_half sort_drives p tlc st = (st', done) -> loop_post p st'.
Proof.
  intros (Hwt & Hwq & Ht & Hq & Hn) Hs He Hmax. unfold qlc_half. case_decide as Hneed.
  - set (qlcMin := if lp_isReallocation p then 1 else _).
    assert (Hmin : 0 < qlcMin) by (unfold qlcMin; destruct (lp_isReallocation p), (lp_enforce p); lia).
    clearbody qlcMin. destruct (allocateSingleDriveType _ _ _ _ _ _) as [qlc|e] eqn:E; intros [= <- <-].
    + exists tlc, qlc. pose proof (allocateSingleDriveType_safe _ _ _ _ _ _ Hwq E).
      apply allocateSingleDriveType_exact in E as (? & ? & ?); [|done..].
      split_and!; [done..|]. left. split_and!; [done|done|]. left. rewrite length_app. lia.
    + exists tlc, []. rewrite app_nil_r. split_and!; [done|done|apply drives_safe_nil|]. right. left. split_and!; [done|done|lia].
  - intros [= <- <-]. exists tlc, []. rewrite app_nil_r.
    split_and!; [done|done|apply drives_safe_nil|]. left. split_and!; [done| |done].
    replace (lp_qlcNeeded p) with 0 by lia. apply exact_nil.
Qed.

Lemma tlc_loop_post p tlcMins st :
  params_ok p -> (0 < lp_tlcNeeded p -> Forall (fun n => 0 < n) tlcMins) ->
  (tlcMins = [] -> loop_post p st) -> loop_post p (tlc_loop sort_drives p tlcMins st).
Proof.
  intros Hp. pose proof Hp as (Hwt & Hwq & Ht & Hq & Hn).
  revert st. induction tlcMins as [|n mins IH]; intros st Hmins Hst; simpl; [auto|].
  assert (Hmins' : 0 < lp_tlcNeeded p -> Forall (fun n => 0 < n) mins).
  { intros H. specialize (Hmins H). by apply Forall_cons in Hmins as [_ ?]. }
  case_decide as Hneed.
  - destruct (allocateSingleDriveType _ _ _ _ _ _) as [tlc|e] eqn:E.
    + destruct (qlc_half sort_drives p tlc st) as [st' d] eqn:Eq.
      assert (Hpost : loop_post p st').
      { eapply qlc_half_post; [done|by eapply allocateSingleDriveType_safe| | |exact Eq];
          apply allocateSingleDriveType_exact in E as (? & ? & ?); [by split|done|done| |left; lia|done|done|];
          specialize (Hmins ltac:(lia)); apply Forall_cons in Hmins as [? _]; done. }
      destruct d; [done|]. by apply IH.
    + apply IH; [done|]. intros ->. exists [], []. split_and!; [done|apply drives_safe_nil..|]. right. right.
      split_and!; [done|done|lia].
  - destruct (qlc_half sort_drives p [] st) as [st' d] eqn:Eq.
    assert (Hpost : loop_post p st').
    { eapply qlc_half_post; [done|apply drives_safe_nil| |by right|exact Eq].
      replace (lp_tlcNeeded p) with 0 by lia. apply exact_nil. }
    destruct d; [done|]. by apply IH.
Qed.

(** A request of the controller: cores, and no negative capacity or ratio. *)
Definition request_ok (req : AllocationRequest) : Prop :=
  0 < ct_NumCores (req_Container req) /\ 0 <= req_CapacityGiB req /\
  match ct_DriveTypesRatio (req_Container req) with
  | Some r => 0 <= ratio_Tlc r /\ 0 <= ratio_Qlc r
  | None => True
  end.

(** The code's test for a reallocation. *)
Definition is_reallocation (req : AllocationRequest) : bool :=
  bool_decide (0 < len (status_VirtualDrives (req_Container req))) && bool_decide (req_CapacityGiB req > 0).

Lemma GetTlcQlcCapacity_nonneg c r :
  0 <= c -> match r with Some r => 0 <= ratio_Tlc r /\ 0 <= ratio_Qlc r | None => True end ->
  0 <= (GetTlcQlcCapacity c r).1 /\ 0 <= (GetTlcQlcCapacity c r).2.
Proof.
  intros Hc Hr. destruct r as [[t q]|]; simpl in *; [|lia]. case_decide; simpl; [lia|].
  pose proof (quot_pos_spec (c * t) (t + q) ltac:(nia) ltac:(lia)). nia.
Qed.

Lemma capacities_needed_nonneg req b :
  request_ok req -> 0 <= (capacities_needed req b).1 /\ 0 <= (capacities_needed req b).2.
Proof.
  intros (_ & Hc & Hr). unfold capacities_needed. destruct b; [|by apply GetTlcQlcCapacity_nonneg].
  destruct (GetTlcQlcCapacity _ _), (GetAllocatedVirtualDrivesCapacityByType _). simpl. lia.
Qed.

Lemma NoDup_of_type ty drives :
  NoDup (sd_PhysicalUUID <$> drives) -> NoDup (sd_PhysicalUUID <$> of_type ty drives).
Proof. intros H. eapply sublist_NoDup; [exact H|]. apply fmap_sublist, sublist_filter. Qed.

(** What an allocation by capacity returns. *)
Lemma by_capacity_post cfg req containers drives vds :
  request_ok req -> NoDup (sd_PhysicalUUID <$> drives) ->
  allocateSharedDrivesByCapacityWithTypes sort_drives cfg req containers drives = Ok vds ->
  exists p, lp_tlc p = buildDriveCapacityMap (of_type "TLC" drives) containers /\
    lp_qlc p = buildDriveCapacityMap (of_type "QLC" drives) containers /\
    (lp_tlcNeeded p, lp_qlcNeeded p) = capacities_needed req (is_reallocation req) /\
    lp_numCores p = ct_NumCores (req_Container req) /\
    lp_maxDrives p <= Z.max 0 (ct_NumCores (req_Container req) * MaxVirtualDrivesPerCore cfg) /\
    lp_isReallocation p = is_reallocation req /\
    exists st, loop_post p st /\ finish_capacity p st = Ok vds.
Proof.
  intros Hreq Hnd. unfold allocateSharedDrivesByCapacityWithTypes. fold (is_reallocation req).
  pose proof (capacities_needed_nonneg req (is_reallocation req) Hreq) as Hnn.
  destruct (capacities_needed req (is_reallocation req)) as [tn qn] eqn:Ecap. simpl in Hnn.
  destruct (validate_minimum _ _ _ _ _); [done|].
  destruct (if is_reallocation req then countDrivesByType _ else (0, 0)) as [et eq] eqn:Ecount.
  case_decide; [done|]. case_decide; [done|].
  set (maxd := if is_reallocation req then _ else _).
  destruct (tlc_min_range _ _ _ _ _ _) as [a b] eqn:Er.
  set (p := mkLoopParams _ _ _ _ _ _ _ _). intros Hf. exists p.
  destruct Hreq as (Hcores & _ & _). split_and!; try done.
  - unfold p, maxd. simpl. destruct (is_reallocation req); [|lia].
    assert (0 <= et + eq) by (by apply countDrivesByType_nonneg in Ecount). lia.
  - eexists. split; [|exact Hf]. apply tlc_loop_post.
    + split_and!; [apply buildDriveCapacityMap_wf, NoDup_of_type, Hnd..| | |]; simpl; lia.
    + intros Ht. apply Forall_forall. intros n Hn%elem_of_loop_range. simpl in Ht.
      unfold tlc_min_range in Er. rewrite decide_False in Er by lia.
      destruct (is_reallocation req); [injection Er as <- <-; lia|].
      case_decide; injection Er as <- <-; lia.
    + intros Hnil. exfalso.
      assert (Hin : a ∈ loop_range a b); [|rewrite Hnil in Hin; set_solver].
      apply elem_of_loop_range. unfold tlc_min_range in Er. case_decide; [injection Er as <- <-; lia|].
      destruct (is_reallocation req); [injection Er as <- <-; lia|].
      case_decide; injection Er as <- <-; lia.
Qed.

Lemma by_type_fold a b t q :
  Forall (fun v => vd_Type v = "TLC") a -> Forall (fun v => vd_Type v = "QLC") b ->
  foldl (fun '(tlc, qlc) d =>
    if decide (vd_Type d = "QLC") then (tlc, qlc + vd_CapacityGiB d) else (tlc + vd_CapacityGiB d, qlc))
    (t, q) (a ++ b) = (t + sumZ (vd_CapacityGiB <$> a), q + sumZ (vd_CapacityGiB <$> b)).
Proof.
  intros Ha Hb. revert t. induction Ha as [|v a Hv Ha IHa]; intros t.
  - revert q. induction Hb as [|v b Hv Hb IHb]; intros q; simpl app in *; simpl foldl in *.
    { unfold sumZ. simpl. f_equal; lia. }
    rewrite decide_True by done. rewrite IHb, !fmap_cons, sumZ_cons. f_equal. lia.
  - simpl app. simpl foldl. rewrite decide_False by (rewrite Hv; discriminate).
    rewrite IHa, fmap_cons, sumZ_cons. f_equal. lia.
Qed.

(** What the virtual drives of both types take, by the code's own count. *)
Lemma by_type_split a b ma mb :
  drives_safe "TLC" ma a -> drives_safe "QLC" mb b ->
  GetAllocatedVirtualDrivesCapacityByType (a ++ b) = (sumZ (vd_CapacityGiB <$> a), sumZ (vd_CapacityGiB <$> b)).
Proof.
  intros [_ Ha] [_ Hb]. unfold GetAllocatedVirtualDrivesCapacityByType.
  rewrite by_type_fold; [done|eapply Forall_impl; [exact Ha|naive_solver]|eapply Forall_impl; [exact Hb|naive_solver]].
Qed.

Lemma avail_build drives containers d :
  NoDup (sd_PhysicalUUID <$> drives) -> d ∈ drives ->
  avail (buildDriveCapacityMap drives containers) (sd_PhysicalUUID d) =
  Z.max 0 (sd_CapacityGiB d - claims containers (sd_PhysicalUUID d)).
Proof.
  intros Hnd Hd. unfold avail. rewrite buildDriveCapacityMap_spec by done.
  rewrite (elem_of_list_to_map_1 _ _ (entry d (claims containers (sd_PhysicalUUID d)))); [done| |].
  - by rewrite <- list_fmap_compose.
  - apply list_elem_of_fmap. by exists d.
Qed.

Lemma avail_build_none drives containers u :
  NoDup (sd_PhysicalUUID <$> drives) -> u ∉ sd_PhysicalUUID <$> drives ->
  avail (buildDriveCapacityMap drives containers) u = 0.
Proof.
  intros Hnd Hu. unfold avail. rewrite buildDriveCapacityMap_spec by done.
  rewrite not_elem_of_list_to_map_1; [done|]. by rewrite <- list_fmap_compose.
Qed.

(** No drive of the node is given out beyond its capacity by [vds], and every one of [vds] sits on a
    drive of the node of its own type. *)
Definition node_safe (drives : list SharedDriveInfo) (containers : list WekaContainer) (vds : list VirtualDrive) : Prop :=
  (forall d, d ∈ drives ->
     claims containers (sd_PhysicalUUID d) + placed vds (sd_PhysicalUUID d) <=
     Z.max (sd_CapacityGiB d) (claims containers (sd_PhysicalUUID d))) /\
  Forall (fun v => exists d, d ∈ drives /\ vd_PhysicalUUID v = sd_PhysicalUUID d /\
                             vd_Serial v = sd_Serial d /\ vd_Type v = sd_Type d) vds.

(** Drives cut from one type of the node's drives are safe for the node. *)
Lemma drives_safe_node ty drives containers vds :
  NoDup (sd_PhysicalUUID <$> drives) ->
  drives_safe ty (buildDriveCapacityMap (of_type ty drives) containers) vds ->
  (forall d, d ∈ drives -> placed vds (sd_PhysicalUUID d) <=
     if decide (sd_Type d = ty) then Z.max 0 (sd_CapacityGiB d - claims containers (sd_PhysicalUUID d)) else 0) /\
  Forall (fun v => exists d, d ∈ drives /\ vd_PhysicalUUID v = sd_PhysicalUUID d /\
                             vd_Serial v = sd_Serial d /\ vd_Type v = sd_Type d) vds.
Proof.
  intros Hnd [Hp Hv]. pose proof (NoDup_of_type ty drives Hnd) as Hnd'. split.
  - intros d Hd. etrans; [apply Hp|]. case_decide as Hty.
    + rewrite avail_build; [lia|done|]. by apply list_elem_of_filter.
    + rewrite avail_build_none; [lia|done|]. intros (d' & He & [Hty' Hd']%list_elem_of_filter)%list_elem_of_fmap.
      apply Hty. by rewrite (NoDup_fmap_eq sd_PhysicalUUID drives d d').
  - eapply Forall_impl; [exact Hv|]. simpl. intros v [Hty (dc & Hdc & Hs)].
    rewrite buildDriveCapacityMap_spec in Hdc by done. apply elem_of_list_to_map_2 in Hdc.
    apply list_elem_of_fmap in Hdc as (d & [= -> ->] & [Hd Hin]%list_elem_of_filter). exists d.
    by rewrite Hty, Hd.
Qed.

Lemma by_capacity_node_safe cfg req containers drives vds :
  request_ok req -> NoDup (sd_PhysicalUUID <$> drives) ->
  allocateSharedDrivesByCapacityWithTypes sort_drives cfg req containers drives = Ok vds ->
  node_safe drives containers vds.
Proof.
  intros Hreq Hnd H. apply by_capacity_post in H as (p & Ht & Hq & _ & _ & _ & _ & st & Hpost & Hf); [|done..].
  destruct Hpost as (a & b & Hab & Ha & Hb & _). rewrite Ht in Ha. rewrite Hq in Hb.
  assert (vds = a ++ b) as ->.
  { rewrite <- Hab. unfold finish_capacity in Hf. case_decide; [by destruct (ls_lastQlc st), (ls_lastTlc st)|].
    by injection Hf. }
  apply drives_safe_node in Ha as [Ha Ha']; [|done]. apply drives_safe_node in Hb as [Hb Hb']; [|done].
  split; [|by apply Forall_app].
  intros d Hd. rewrite placed_app. specialize (Ha d Hd). specialize (Hb d Hd).
  destruct (decide (sd_Type d = "TLC")) as [E|], (decide (sd_Type d = "QLC")) as [E'|]; try lia.
  rewrite E in E'. discriminate.
Qed.

(** No virtual drive cut by capacity is smaller than the minimum chunk, also when the QLC half failed. *)
Lemma by_capacity_chunks cfg req containers drives vds :
  request_ok req -> NoDup (sd_PhysicalUUID <$> drives) ->
  allocateSharedDrivesByCapacityWithTypes sort_drives cfg req containers drives = Ok vds ->
  Forall (fun v => MinChunk <= vd_CapacityGiB v) vds.
Proof.
  intros Hreq Hnd H. apply by_capacity_post in H as (p & _ & _ & _ & _ & _ & _ & st & Hpost & Hf); [|done..].
  destruct Hpost as (a & b & Hab & _ & _ & Hcase).
  assert (vds = a ++ b) as ->.
  { rewrite <- Hab. unfold finish_capacity in Hf. case_decide; [by destruct (ls_lastQlc st), (ls_lastTlc st)|].
    by injection Hf. }
  destruct Hcase as [([_ Fa] & [_ Fb] & _)|[([_ Fa] & -> & _)|(-> & -> & _)]]; [by apply Forall_app| |done].
  by rewrite app_nil_r.
Qed.

(** ** By number *)

Section by_number.
Context (cap : Z) (cap_pos : 0 < cap).

(** The capacity of [u] among the drives of the loop. *)
Definition held (L : list physicalDriveCapacity) (u : string) : Z :=
  sumZ ((fun dc => if decide (pd_uuid dc = u) then availableCapacity dc else 0) <$> L).

(** The number of virtual drives of [cap] GiB that fit on the drives. *)
Definition slots (L : list physicalDriveCapacity) : Z :=
  sumZ ((fun dc => availableCapacity dc / cap) <$> L).

#[local] Instance held_perm : Proper ((≡ₚ) ==> (=) ==> (=)) held.
Proof. intros l1 l2 H ? u ->. unfold held. by rewrite H. Qed.

#[local] Instance slots_perm : Proper ((≡ₚ) ==> (=)) slots.
Proof. intros l1 l2 H. unfold slots. by rewrite H. Qed.

(** The selected drive after one virtual drive was taken from it. *)
Definition take_one (dc : physicalDriveCapacity) : physicalDriveCapacity :=
  mkPhysical (pd_drive dc) (totalCapacity dc) (claimedCapacity dc + cap) (availableCapacity dc - cap).

Lemma slots_take_one dc L : slots (take_one dc :: L) = slots (dc :: L) - 1.
Proof.
  unfold slots. rewrite !fmap_cons, !sumZ_cons. simpl.
  replace (availableCapacity dc - cap) with (availableCapacity dc + (-1) * cap) by lia.
  rewrite Z.div_add by lia. lia.
Qed.

(** Largest first, nothing fits once the head is too small. *)
Lemma slots_head_small dc L :
  StronglySorted by_available (dc :: L) -> Forall (fun x => 0 <= availableCapacity x) (dc :: L) ->
  availableCapacity dc < cap -> slots (dc :: L) = 0.
Proof.
  intros Hs Hp Hlt. inversion Hs as [|?? _ Hall]; subst. unfold slots.
  assert (Hz : Forall (fun x => availableCapacity x / cap = 0) (dc :: L)).
  { apply Forall_forall. intros x Hx. rewrite Forall_forall in Hp, Hall. apply Z.div_small.
    specialize (Hp x Hx). apply elem_of_cons in Hx as [->|Hx]; [lia|]. specialize (Hall x Hx).
    unfold by_available in Hall. lia. }
  clear -Hz. induction Hz as [|x l Hx _ IH]; [done|]. rewrite fmap_cons, sumZ_cons, IH, Hx. done.
Qed.

Lemma num_loop_spec turns i L :
  StronglySorted by_available L -> Forall (fun x => 0 <= availableCapacity x) L -> L <> [] ->
  match num_loop sort_drives turns i cap L with
  | Ok vds =>
      len vds = Z.of_nat turns /\ Z.of_nat turns <= slots L /\ (forall u, placed vds u <= held L u) /\
      Forall (fun v => vd_CapacityGiB v = cap /\ vd_Type v = "TLC" /\
        exists dc, dc ∈ L /\ vd_PhysicalUUID v = pd_uuid dc /\ vd_Serial v = sd_Serial (pd_drive dc)) vds
  | Err _ => slots L < Z.of_nat turns
  end.
Proof.
  revert i L. induction turns as [|turns IH]; intros i L Hs Hp Hne; simpl.
  { split_and!; [done| | |constructor].
    - apply sumZ_nonneg, Forall_fmap. eapply Forall_impl; [exact Hp|]. simpl. intros x Hx. by apply Z.div_pos.
    - intros u. apply sumZ_nonneg, Forall_fmap. eapply Forall_impl; [exact Hp|]. simpl. intros. case_decide; lia. }
  destruct L as [|dc L]; [done|]. case_decide as Hlt.
  { rewrite slots_head_small by done. lia. }
  fold (take_one dc). apply Forall_cons in Hp as [Hdc Hp].
  pose proof (drive_sort_perm (take_one dc :: L)) as Hperm.
  pose proof (drive_sort_sorted (take_one dc :: L)) as HsL.
  set (L' := sort_drives (take_one dc :: L)) in *. clearbody L'.
  assert (HpL : Forall (fun x => 0 <= availableCapacity x) L') by (rewrite Hperm; constructor; [simpl; lia|done]).
  assert (HnL : L' <> []) by (intros ->; by apply Permutation_nil_l in Hperm).
  assert (Hsl : slots L' = slots (dc :: L) - 1) by (by rewrite Hperm, slots_take_one).
  specialize (IH (i + 1) L' HsL HpL HnL).
  destruct (num_loop sort_drives turns (i + 1) cap L') as [vds|e]; simpl; [|lia].
  destruct IH as (H1 & H2 & H3 & H4).
  split_and!; [lia|lia| |constructor; [split_and!; [done|done|exists dc; split_and!; [by left|done..]]|]].
  - intros u. specialize (H3 u). rewrite Hperm in H3. rewrite placed_cons. unfold held in *.
    rewrite fmap_cons, sumZ_cons in *. simpl in *. change (pd_uuid (take_one dc)) with (pd_uuid dc) in H3.
    case_decide; lia.
  - eapply Forall_impl; [exact H4|]. simpl. intros v (? & ? & x & Hx & ? & ?). split_and!; [done..|].
    rewrite Hperm in Hx. apply elem_of_cons in Hx as [->|Hx]; [exists dc|exists x];
      (split_and!; [by constructor|done..]).
Qed.
End by_number.
End with_sort.

(** ** Theorems *)

(** [allocateSingleDriveType] returns virtual drives of the type asked for that add up to the
    capacity needed, are at least [minDrives] and at most [maxDrives] in number, are no smaller than
    the minimum chunk, and take from no physical drive more than it has available. It fails only
    when no generated strategy fits, and then reports the capacities of the drives. *)
Theorem allocateSingleDriveType_correct sort `{!DriveSort sort} ty needed minDrives maxDrives m :
  caps_wf m -> 0 <= needed -> 0 < minDrives ->
  match allocateSingleDriveType sort ty needed minDrives maxDrives m with
  | Ok vds =>
      sumZ (vd_CapacityGiB <$> vds) = needed /\ minDrives <= len vds <= maxDrives /\
      Forall (fun v => MinChunk <= vd_CapacityGiB v /\ vd_Type v = ty) vds /\
      forall u, placed vds u <= avail m u
  | Err e =>
      (exists usable, e = InsufficientDriveCapacityError needed usable
         (sumZ (availableCapacity <$> drives_of m)) (availableCapacity <$> drives_of m) maxDrives ty) /\
      forall s, s ∈ GenerateStrategies (NewAllocationStrategyGenerator needed minDrives MinChunk m maxDrives) ->
        tryAllocateStrategy (filterAndSortUsableDrives sort m MinChunk) s = None
  end.
Proof.
  intros Hw Hn Hm. destruct (allocateSingleDriveType _ _ _ _ _ _) as [vds|e] eqn:E.
  - pose proof (allocateSingleDriveType_safe sort _ _ _ _ _ _ Hw E) as [Hp Hv].
    apply allocateSingleDriveType_exact in E as (H1 & H2 & H3); [|done..]. split_and!; [done|lia|lia| |done].
    rewrite Forall_forall in *. intros v Hin. split; [by apply H3|by apply Hv].
  - unfold allocateSingleDriveType in E. destruct (first_some _ _) eqn:Ef; [done|]. injection E as <-.
    split; [by eexists|]. apply first_some_None in Ef. by rewrite Forall_forall in Ef.
Qed.

Definition example_drive (u ty : string) (c : Z) : SharedDriveInfo := mkShared u u c ty.

Lemma allocateSingleDriveType_correct_witness :
  let m := buildDriveCapacityMap [example_drive "a" "TLC" 20000; example_drive "b" "TLC" 500] [] in
  let vds := [mkVirtual "" "" "a" 20000 "a" "TLC"; mkVirtual "" "" "b" 500 "b" "TLC"] in
  allocateSingleDriveType stable_sort "TLC" 20500 2 16 m = Ok vds /\ forall u, placed vds u <= avail m u.
Proof.
  intros m vds.
  assert (H : allocateSingleDriveType stable_sort "TLC" 20500 2 16 m = Ok vds) by (vm_compute; reflexivity).
  split; [exact H|].
  assert (Hw : caps_wf m).
  { apply buildDriveCapacityMap_wf. apply (bool_decide_unpack _). vm_compute. exact I. }
  pose proof (allocateSingleDriveType_correct stable_sort "TLC" 20500 2 16 m Hw ltac:(lia) ltac:(lia)) as Hc.
  rewrite H in Hc. apply Hc.
Defined.

(** An allocation by capacity that returns the QLC drives it needs is exact: the virtual drives
    take from each type what the ratio gives it (for a reallocation, what is missing to the full
    capacity of the type), they are at least one per core unless drives are already there, at most
    [MaxVirtualDrivesPerCore] per core, and no smaller than the minimum chunk. *)
Theorem allocateSharedDrivesByCapacity_exact sort `{!DriveSort sort} cfg req containers drives vds :
  request_ok req -> NoDup (sd_PhysicalUUID <$> drives) ->
  allocateSharedDrivesByCapacityWithTypes sort cfg req containers drives = Ok vds ->
  (capacities_needed req (is_reallocation req)).2 = 0 \/ Exists (fun v => vd_Type v = "QLC") vds ->
  GetAllocatedVirtualDrivesCapacityByType vds = capacities_needed req (is_reallocation req) /\
  (is_reallocation req = false -> ct_NumCores (req_Container req) <= len vds) /\
  len vds <= Z.max 0 (ct_NumCores (req_Container req) * MaxVirtualDrivesPerCore cfg) /\
  Forall (fun v => MinChunk <= vd_CapacityGiB v) vds.
Proof.
  intros Hreq Hnd H. apply by_capacity_post in H as (p & Ht & Hq & Hneed & Hc & Hmax & Hr & st & Hpost & Hf); [|done..].
  destruct Hpost as (a & b & Hab & Ha & Hb & Hcase).
  unfold finish_capacity in Hf. rewrite Hab in Hf. case_decide as Hlen.
  { by destruct (ls_lastQlc st), (ls_lastTlc st). }
  injection Hf as <-. rewrite <- Hneed. simpl. intros Hcond.
  destruct Hcase as [([Ea Fa] & [Eb Fb] & Hl)|[(_ & -> & Hq0)|(-> & -> & Ht0)]].
  - rewrite (by_type_split _ _ _ _ Ha Hb), Ea, Eb. split_and!; [done| | |by apply Forall_app].
    + intros Hre. rewrite Hr, Hre, Hc in Hlen. lia.
    + destruct Hl as [Hl| ->]; [lia|simpl; lia].
  - exfalso. destruct Hcond as [?|Hex]; [lia|]. rewrite app_nil_r in Hex.
    destruct Ha as [_ Ha]. apply Exists_exists in Hex as (v & Hv & Hty). rewrite Forall_forall in Ha.
    destruct (Ha v Hv) as [Hty' _]. rewrite Hty in Hty'. discriminate.
  - exfalso. simpl in Hlen. rewrite decide_True in Hlen by lia. case_decide; lia.
Qed.

(** The default configuration, and a request for a mix of TLC and QLC. *)
Definition default_sharing : DriveSharingConfig := mkSharing 8 true.

Definition mixed_request (capacity cores : Z) : AllocationRequest :=
  mkRequest (mkContainer cores capacity 0 (Some {| ratio_Tlc := 1; ratio_Qlc := 1 |}) None)
    0 capacity true true false.

Lemma allocateSharedDrivesByCapacity_exact_witness :
  let vds := to_virtual "TLC" <$> [mkPlan "t" 1000 "t"; mkPlan "t" 1000 "t"] in
  GetAllocatedVirtualDrivesCapacityByType
    (vds ++ (to_virtual "QLC" <$> [mkPlan "q" 1000 "q"; mkPlan "q" 1000 "q"])) = (2000, 2000).
Proof.
  intros vds.
  refine (proj1 (allocateSharedDrivesByCapacity_exact stable_sort default_sharing (mixed_request 4000 2) []
    [example_drive "t" "TLC" 5000; example_drive "q" "QLC" 5000] _ _ _ _ _)).
  - split; [simpl; lia|]. split; [simpl; lia|]. simpl. lia.
  - apply (bool_decide_unpack _). vm_compute. exact I.
  - vm_compute. reflexivity.
  - right. apply Exists_exists. exists (to_virtual "QLC" (mkPlan "q" 1000 "q")). split; [|done].
    apply elem_of_app. right. by left.
Defined.

(** The loop over the TLC minimum leaves the TLC drives of its last turn behind when the QLC
    allocation fails, and the final check only counts drives. In the default configuration, a
    container with two cores that asks for TLC and QLC on a node whose QLC drive is full is given
    its TLC drives only, without an error. *)
Theorem qlc_failure_is_swallowed :
  let drives := [example_drive "t" "TLC" 5000; example_drive "q" "QLC" 1000] in
  let vds := to_virtual "TLC" <$> [mkPlan "t" 1000 "t"; mkPlan "t" 1000 "t"] in
  capacities_needed (mixed_request 4000 2) false = (2000, 2000) /\
  (exists e, allocateSingleDriveType stable_sort "QLC" 2000 2 14 (buildDriveCapacityMap (of_type "QLC" drives) []) = Err e) /\
  allocateSharedDrivesByCapacityWithTypes stable_sort default_sharing (mixed_request 4000 2) [] drives = Ok vds.
Proof.
  intros drives vds. split; [reflexivity|]. split; [eexists; vm_compute; reflexivity|]. vm_compute. reflexivity.
Qed.

(** ** The whole shared allocation *)

Lemma label_drives_fmap {A} (f : VirtualDrive -> A) newUUID b i vds :
  (forall v x y, f (mkVirtual x y (vd_PhysicalUUID v) (vd_CapacityGiB v) (vd_Serial v) (vd_Type v)) = f v) ->
  f <$> label_drives newUUID b i vds = f <$> vds.
Proof. intros Hf. revert i. induction vds as [|v vds IH]; intros i; simpl; [done|]. by rewrite Hf, IH. Qed.

Lemma label_drives_node_safe drives containers newUUID b i vds :
  node_safe drives containers vds -> node_safe drives containers (label_drives newUUID b i vds).
Proof.
  intros [H1 H2]. split.
  - intros d Hd. unfold placed. rewrite (label_drives_fmap _ newUUID b i vds) by done. by apply H1.
  - clear H1. revert i. induction H2 as [|v vds Hv _ IH]; intros i; simpl; by constructor.
Qed.

(** The number of virtual drives of [cap] GiB the free TLC capacity of the node has room for. *)
Definition node_slots (drives : list SharedDriveInfo) (containers : list WekaContainer) (cap : Z) : Z :=
  sumZ ((fun d => Z.max 0 (sd_CapacityGiB d - claims containers (sd_PhysicalUUID d)) / cap) <$> of_type "TLC" drives).

Lemma slots_filter cap L :
  0 < cap ->
  slots cap (filter (fun dc => availableCapacity dc >= cap) L) =
  sumZ ((fun dc => Z.max 0 (availableCapacity dc) / cap) <$> L).
Proof.
  intros Hc. unfold slots. induction L as [|dc L IH]; [done|]. rewrite filter_cons. case_decide.
  - rewrite !fmap_cons, !sumZ_cons, IH. by rewrite Z.max_r by lia.
  - rewrite fmap_cons, sumZ_cons, IH. rewrite (Z.div_small (Z.max _ _)) by lia. lia.
Qed.

Lemma slots_capacity cap L : 0 < cap -> cap * slots cap L <= sumZ (availableCapacity <$> L).
Proof.
  intros Hc. unfold slots. induction L as [|dc L IH]; [simpl; lia|].
  rewrite !fmap_cons, !sumZ_cons. pose proof (Z.mul_div_le (availableCapacity dc) cap Hc). lia.
Qed.

Lemma usable_slots sort `{!DriveSort sort} drives containers cap :
  0 < cap -> NoDup (sd_PhysicalUUID <$> drives) ->
  slots cap (filterAndSortUsableDrives sort (buildDriveCapacityMap (of_type "TLC" drives) containers) cap) =
  node_slots drives containers cap.
Proof.
  intros Hc Hnd. rewrite (slots_perm cap _ _ (usable_perm sort _ _)), slots_filter by done.
  rewrite (buildDriveCapacityMap_drives _ _ (NoDup_of_type _ _ Hnd)), <- list_fmap_compose. done.
Qed.

(** What the allocation by number returns, on every path. *)
Lemma by_number_post sort `{!DriveSort sort} req containers drives :
  0 < ct_DriveCapacity (req_Container req) -> 0 < req_NumDrives req -> NoDup (sd_PhysicalUUID <$> drives) ->
  match allocateSharedDrivesByDrivesNum sort req containers drives with
  | Ok vds =>
      len vds = req_NumDrives req /\ node_safe drives containers vds /\
      Forall (fun v => vd_CapacityGiB v = ct_DriveCapacity (req_Container req)) vds /\
      req_NumDrives req <= node_slots drives containers (ct_DriveCapacity (req_Container req))
  | Err _ => node_slots drives containers (ct_DriveCapacity (req_Container req)) < req_NumDrives req
  end.
Proof.
  intros Hc Hn Hnd. unfold allocateSharedDrivesByDrivesNum. rewrite decide_False by lia.
  set (cap := ct_DriveCapacity (req_Container req)) in *.
  set (m := buildDriveCapacityMap (of_type "TLC" drives) containers).
  pose proof (usable_slots sort drives containers cap Hc Hnd) as Hslots. fold m in Hslots. rewrite <- Hslots.
  pose proof (usable_perm sort m cap) as HL. pose proof (drive_sort_sorted (DriveSort := DriveSort0)
    (filter (fun dc => availableCapacity dc >= cap) (drives_of m))) as Hs.
  fold (filterAndSortUsableDrives sort m cap) in Hs.
  set (L := filterAndSortUsableDrives sort m cap) in *. clearbody L. case_decide as Hempty.
  { destruct Hempty as [He|Hlt]; [destruct L; [unfold slots; simpl; lia|simpl in He; lia]|].
    pose proof (slots_capacity cap L Hc). nia. }
  assert (Hp : Forall (fun x => 0 <= availableCapacity x) L).
  { rewrite HL. apply Forall_forall. intros x [Hx _]%list_elem_of_filter. lia. }
  pose proof (num_loop_spec sort cap Hc (Z.to_nat (req_NumDrives req)) 0 L Hs Hp) as Hloop.
  assert (HnL : L <> []) by (intros ->; simpl in Hempty; lia). specialize (Hloop HnL). rewrite Z2Nat.id in Hloop by lia.
  destruct (num_loop sort _ 0 cap L) as [vds|e]; [|done]. destruct Hloop as (H1 & H2 & H3 & H4).
  pose proof (buildDriveCapacityMap_wf _ containers (NoDup_of_type "TLC" _ Hnd)) as Hw. fold m in Hw.
  assert (Hsafe : drives_safe "TLC" m vds).
  { split; [intros u; etrans; [apply H3|]; by apply (selection_le m _ L u Hw HL)|].
    eapply Forall_impl; [exact H4|]. simpl. intros v (_ & Hty & dc & Hdc & -> & Hser). split; [done|].
    exists dc. split; [|done]. rewrite HL in Hdc. apply list_elem_of_filter in Hdc as [_ Hdc]. by apply elem_of_drives_of. }
  apply drives_safe_node in Hsafe as [Hpl Hty]; [|done].
  split_and!; [done| |eapply Forall_impl; [exact H4|naive_solver]|done].
  split; [|done]. intros d Hd. specialize (Hpl d Hd). case_decide; lia.
Qed.

(** An allocation by number is optimal. [allocateSharedDrivesByDrivesNum] succeeds exactly when
    the free TLC capacity of the node has room for that many drives, and then returns that many
    virtual drives of the capacity asked for. *)
Theorem allocateSharedDrivesByDrivesNum_iff sort `{!DriveSort sort} req containers drives :
  let cap := ct_DriveCapacity (req_Container req) in
  0 < cap -> 0 < req_NumDrives req -> NoDup (sd_PhysicalUUID <$> drives) ->
  (exists vds, allocateSharedDrivesByDrivesNum sort req containers drives = Ok vds /\
     len vds = req_NumDrives req /\ Forall (fun v => vd_CapacityGiB v = cap) vds) <->
  req_NumDrives req <= node_slots drives containers cap.
Proof.
  intros cap Hc Hn Hnd. pose proof (by_number_post sort req containers drives Hc Hn Hnd) as H. fold cap in H.
  destruct (allocateSharedDrivesByDrivesNum sort req containers drives) as [vds|e].
  - split; [tauto|]. intros _. exists vds. tauto.
  - split; [intros (? & ? & _); done|lia].
Qed.

Definition number_request (n cap : Z) : AllocationRequest :=
  mkRequest (mkContainer 2 0 cap None None) n 0 true true false.

Lemma allocateSharedDrivesByDrivesNum_iff_witness :
  exists vds, allocateSharedDrivesByDrivesNum stable_sort (number_request 3 1000) []
    [example_drive "a" "TLC" 2500; example_drive "b" "TLC" 1900; example_drive "q" "QLC" 9000] = Ok vds /\
    len vds = 3 /\ Forall (fun v => vd_CapacityGiB v = 1000) vds.
Proof.
  apply (allocateSharedDrivesByDrivesNum_iff stable_sort (number_request 3 1000) []
    [example_drive "a" "TLC" 2500; example_drive "b" "TLC" 1900; example_drive "q" "QLC" 9000]).
  - simpl. lia.
  - simpl. lia.
  - apply (bool_decide_unpack _). vm_compute. exact I.
  - vm_compute. discriminate.
Defined.

(** What a successful [AllocateSharedDrives] returns: drives that are safe for the node, of positive
    capacity. *)
Lemma AllocateSharedDrives_post sort `{!DriveSort sort} cfg newUUID nodeName info req containers vds :
  request_ok req -> 0 < ct_DriveCapacity (req_Container req) \/ 0 < req_CapacityGiB req ->
  NoDup (sd_PhysicalUUID <$> ni_SharedDrives info) ->
  AllocateSharedDrives sort cfg newUUID nodeName (Ok info) req containers = Ok vds ->
  node_safe (ni_SharedDrives info) containers vds /\ Forall (fun v => 0 < vd_CapacityGiB v) vds.
Proof.
  intros Hreq Hmode Hnd. unfold AllocateSharedDrives. case_decide; [done|].
  destruct (if decide (req_CapacityGiB req > 0) then _ else _) as [vds'|] eqn:E; [|done].
  intros [= <-].
  enough (node_safe (ni_SharedDrives info) containers vds' /\ Forall (fun v => 0 < vd_CapacityGiB v) vds') as [H1 H2].
  { split; [by apply label_drives_node_safe|].
    apply (list.Forall_fmap vd_CapacityGiB (fun z => 0 < z)). rewrite label_drives_fmap by done.
    by apply list.Forall_fmap. }
  case_decide as Hcap.
  - split; [by eapply by_capacity_node_safe|]. eapply Forall_impl; [by eapply by_capacity_chunks|].
    intros v Hv. unfold MinChunk, const_MinChunkSizeGiB in Hv. simpl. lia.
  - case_decide; [|done].
    pose proof (by_number_post sort req containers (ni_SharedDrives info) ltac:(lia) ltac:(lia) Hnd) as H'.
    rewrite E in H'. destruct H' as (_ & ? & H' & _). split; [done|].
    eapply Forall_impl; [exact H'|]. intros v Hv. simpl in *. lia.
Qed.

(** C31: sharing never gives out more than a drive has. After a successful [AllocateSharedDrives], by
    capacity or by number, on no physical drive of the node do the virtual drives of all containers
    exceed its capacity (or what they already were beyond it), and every new virtual drive is on a
    drive of the node, with its serial and of its type. *)
Theorem AllocateSharedDrives_no_overcommit sort `{!DriveSort sort} cfg newUUID nodeName info req containers vds :
  request_ok req -> 0 < ct_DriveCapacity (req_Container req) \/ 0 < req_CapacityGiB req ->
  NoDup (sd_PhysicalUUID <$> ni_SharedDrives info) ->
  AllocateSharedDrives sort cfg newUUID nodeName (Ok info) req containers = Ok vds ->
  node_safe (ni_SharedDrives info) containers vds.
Proof. intros Hreq Hmode Hnd H. by apply AllocateSharedDrives_post in H as [? _]. Qed.

Lemma AllocateSharedDrives_no_overcommit_witness :
  let drives := [example_drive "t" "TLC" 5000; example_drive "q" "QLC" 5000] in
  let existing := mkContainer 1 0 0 None (Some (mkAllocations [] (mkPortAlloc 0 0) [mkVirtual "v" "v" "t" 2000 "t" "TLC"])) in
  claims [existing] "t" + placed [mkVirtual "id" "id" "t" 1000 "t" "TLC"; mkVirtual "id" "id" "t" 1000 "t" "TLC";
    mkVirtual "id" "id" "q" 1000 "q" "QLC"; mkVirtual "id" "id" "q" 1000 "q" "QLC"] "t" <= 5000.
Proof.
  intros drives existing.
  refine (proj1 (AllocateSharedDrives_no_overcommit stable_sort default_sharing (fun _ => "id") "n"
    (mkNodeInfo [] drives) (mixed_request 4000 2) [existing] _ _ _ _ _) (example_drive "t" "TLC" 5000) _).
  - split; [simpl; lia|]. split; [simpl; lia|]. simpl. lia.
  - right. simpl. lia.
  - apply (bool_decide_unpack _). vm_compute. exact I.
  - vm_compute. reflexivity.
  - by left.
Defined.

(** ** Whole drives *)

Lemma elem_of_foldl_union (l : list string) (acc : gset string) x :
  x ∈ foldl (fun acc drive => {[drive]} ∪ acc) acc l <-> x ∈ l \/ x ∈ acc.
Proof. revert acc. induction l as [|y l IH]; intros acc; simpl; [set_solver|]. rewrite IH. set_solver. Qed.

Lemma elem_of_foldl_difference (l : list string) (acc : gset string) x :
  x ∈ foldl (fun acc drive => acc ∖ {[drive]}) acc l <-> (x ∉ l) /\ x ∈ acc.
Proof. revert acc. induction l as [|y l IH]; intros acc; simpl; [set_solver|]. rewrite IH. set_solver. Qed.

(** A drive held by a container of the node, whole or in part. *)
Definition held_by (c : WekaContainer) (x : string) : Prop :=
  x ∈ status_Drives c \/ x ∈ (vd_PhysicalUUID <$> status_VirtualDrives c).

Lemma elem_of_foldl_physical (l : list VirtualDrive) (acc : gset string) x :
  x ∈ foldl (fun acc vd => {[vd_PhysicalUUID vd]} ∪ acc) acc l <-> x ∈ (vd_PhysicalUUID <$> l) \/ x ∈ acc.
Proof. revert acc. induction l as [|v l IH]; intros acc; simpl; [set_solver|]. rewrite IH. set_solver. Qed.

Lemma elem_of_aggregateNodeDrives containers x :
  x ∈ aggregateNodeDrivesAllocations containers <-> Exists (fun c => held_by c x) containers.
Proof.
  unfold aggregateNodeDrivesAllocations.
  enough (forall acc : gset string, x ∈ foldl (fun acc c =>
    match ct_Allocations c with
    | None => acc
    | Some a =>
        foldl (fun acc vd => {[vd_PhysicalUUID vd]} ∪ acc)
          (foldl (fun acc drive => {[drive]} ∪ acc) acc (ca_Drives a)) (ca_VirtualDrives a)
    end) acc containers <-> Exists (fun c => held_by c x) containers \/ x ∈ acc) as H
    by (rewrite H; set_solver).
  induction containers as [|c containers IH]; intros acc; simpl.
  { rewrite Exists_nil. tauto. }
  rewrite IH, Exists_cons.
  assert (Hc : held_by c x <-> match ct_Allocations c with
    | Some a => x ∈ ca_Drives a \/ x ∈ (vd_PhysicalUUID <$> ca_VirtualDrives a) | None => False end).
  { unfold held_by, status_Drives, status_VirtualDrives. destruct (ct_Allocations c); [done|set_solver]. }
  rewrite Hc. destruct (ct_Allocations c) as [a|]; [|tauto].
  rewrite elem_of_foldl_physical, elem_of_foldl_union. tauto.
Qed.

(** The drives offered: those of the node that are not allocated, without repetition. *)
Lemma available_spec info allocated serials :
  getAvailableDrivesFromStatus (Ok info) allocated = Ok serials ->
  (forall x, x ∈ serials <-> x ∈ (de_Serial <$> ni_AvailableDrives info) /\ x ∉ allocated) /\
  (NoDup (de_Serial <$> ni_AvailableDrives info) -> NoDup serials).
Proof.
  simpl. intros [= <-]. unfold SortDriveEntriesDesc. split.
  - intros x. rewrite list_elem_of_filter, sort_by_perm. tauto.
  - intros H. apply NoDup_filter. by rewrite sort_by_perm.
Qed.

(** Replacing whole drives is sound: the drives kept are those that did not fail, as many new
    ones as asked are added, no drive appears twice, and no new drive is held by another container
    of the node. It fails exactly when the node has fewer free drives than asked. *)
Theorem reallocateRegularDrives_sound info req containers :
  NoDup (de_Serial <$> ni_AvailableDrives info) -> NoDup (status_Drives (rr_Container req)) ->
  0 <= rr_NumNewDrives req ->
  match reallocateRegularDrives (Ok info) req containers with
  | Ok r =>
      rs_AllDrives r = filter (fun x => x ∉ rr_FailedDrives req) (status_Drives (rr_Container req)) ++ rs_NewDrives r /\
      len (rs_NewDrives r) = rr_NumNewDrives req /\ NoDup (rs_AllDrives r) /\
      forall x, x ∈ rs_NewDrives r -> x ∈ (de_Serial <$> ni_AvailableDrives info) /\
        forall c, c ∈ containers -> held_by c x -> x ∈ status_Drives (rr_Container req) /\ x ∈ rr_FailedDrives req
  | Err e => exists n, e = InsufficientDrivesError (rr_NumNewDrives req) n /\ n < rr_NumNewDrives req
  end.
Proof.
  intros Hnd Hcur Hn. unfold reallocateRegularDrives.
  set (kept := filter _ (status_Drives _)). set (alloc := foldl _ _ kept).
  destruct (getAvailableDrivesFromStatus (Ok info) alloc) as [l|] eqn:E; [|done].
  apply available_spec in E as [Hl Hnl]. case_decide as Hlen; [eexists; by split|]. simpl.
  assert (Htake : forall x, x ∈ take (Z.to_nat (rr_NumNewDrives req)) l -> x ∈ l).
  { intros x. rewrite <- (take_drop (Z.to_nat (rr_NumNewDrives req)) l) at 2. set_solver. }
  assert (Hfree : forall x, x ∈ l -> x ∉ alloc) by (intros x Hx; exact (proj2 (proj1 (Hl x) Hx))).
  unfold alloc in Hfree. setoid_rewrite elem_of_foldl_union in Hfree. setoid_rewrite elem_of_foldl_difference in Hfree.
  setoid_rewrite elem_of_aggregateNodeDrives in Hfree.
  split_and!; [done|rewrite length_take; lia| |].
  - apply NoDup_app. split_and!; [by apply NoDup_filter| |].
    + intros x Hx Hx'. apply (Hfree x (Htake x Hx')). by left.
    + eapply sublist_NoDup; [by apply Hnl|apply sublist_take].
  - intros x Hx%Htake. split; [exact (proj1 (proj1 (Hl x) Hx))|]. intros c Hc Hh. specialize (Hfree x Hx).
    assert (Hin : x ∈ status_Drives (rr_Container req)).
    { destruct (decide (x ∈ status_Drives (rr_Container req))); [done|]. exfalso. apply Hfree. right.
      split; [done|]. apply Exists_exists. eauto. }
    split; [done|]. destruct (decide (x ∈ rr_FailedDrives req)); [done|]. exfalso. apply Hfree. left.
    by apply list_elem_of_filter.
Qed.

Lemma reallocateRegularDrives_sound_witness :
  let c := mkContainer 2 0 0 None (Some (mkAllocations ["s1"; "s2"] (mkPortAlloc 0 0) [])) in
  let other := mkContainer 2 0 0 None (Some (mkAllocations ["s4"] (mkPortAlloc 0 0) [])) in
  let info := mkNodeInfo [mkEntry "s1" 100; mkEntry "s3" 100; mkEntry "s4" 300] [] in
  let req := mkRealloc c ["s2"] 1 0 false in
  reallocateRegularDrives (Ok info) req [c; other] = Ok (mkReallocResult ["s3"] ["s1"; "s3"] [] []) /\
  NoDup ["s1"; "s3"].
Proof.
  intros c other info req.
  assert (H : reallocateRegularDrives (Ok info) req [c; other] = Ok (mkReallocResult ["s3"] ["s1"; "s3"] [] []))
    by (vm_compute; reflexivity).
  split; [exact H|].
  pose proof (reallocateRegularDrives_sound info req [c; other]) as Ht. rewrite H in Ht.
  refine (proj1 (proj2 (proj2 (Ht _ _ _)))).
  - apply (bool_decide_unpack _). vm_compute. exact I.
  - apply (bool_decide_unpack _). vm_compute. exact I.
  - simpl. lia.
Defined.
