(* ===== verification/Api.v ===== *)
(** * The WekaContainer object (src/pkg/weka-k8s-api/api/v1alpha1/container_types.go)

    The fields of the custom resource the reconcilers read and write, its methods, the health predicate
    of controllers/utils/health.go, and the field updates the reconcilers make. *)

From S2P Require Import Prelude Types Cpu Sizing Ports Strategies VirtualDrives.

(** ** Modes and states *)

Definition WekaContainerModeDist : string := "dist".
Definition WekaContainerModeDriversDist : string := "drivers-dist".
Definition WekaContainerModeDriversLoader : string := "drivers-loader".
Definition WekaContainerModeDriversBuilder : string := "drivers-builder".
Definition WekaContainerModeDiscovery : string := "discovery".
Definition WekaContainerModeAdhocOpWC : string := "adhoc-op-with-container".
Definition WekaContainerModeAdhocOp : string := "adhoc-op".
Definition WekaContainerModeSSDProxy : string := "ssdproxy".
Definition WekaContainerModeTelemetry : string := "telemetry".

Definition ContainerStateActive : string := "active".
Definition ContainerStatePaused : string := "paused".
Definition ContainerStateDestroying : string := "destroying".
Definition ContainerStateDeleting : string := "deleting".

(** ** The object *)

(** [spec.resources]: the CPU quantities cpu.go reads, and the two hugepages-2Mi quantities in bytes. *)
Record ContainerResources := {
  cr_cpu : PodResources;
  cr_RequestsHugepages2Mi : Z;
  cr_LimitsHugepages2Mi : Z;
}.

Record ContainerSpec := {
  cs_Mode : string;
  cs_Image : string;
  cs_State : string;
  cs_CpuPolicy : string;
  cs_NumCores : Z;
  cs_ExtraCores : Z;
  cs_Resources : option ContainerResources;
  cs_Hugepages : Z;
  cs_HugepagesOffset : Z;
  cs_HugepagesSize : string;
  cs_NumDrives : Z;
  cs_DriveCapacity : Z;
  cs_ContainerCapacity : Z;
  cs_DriveTypesRatio : option DriveTypesRatio;
  cs_NodeAffinity : string;
  cs_RotatePod : bool;
  cs_NodeSelector : gmap string string;
  cs_DpdkBaseMemoryMb : Z;
}.

(** [cst_ManagementIps] is what [GetManagementIps] answers. *)
Record ContainerStatus := {
  cst_Status : string;
  cst_ManagementIps : list string;
  cst_NodeAffinity : string;
  cst_LastAppliedImage : string;
  cst_ClusterContainerID : option Z;
  cst_PodOutdated : bool;
  cst_Allocations : option ContainerAllocations;
}.

(** An owner reference: its kind and its name. *)
Record OwnerReference := { or_Kind : string; or_Name : string }.

(** A container; [cn_Deleted] tells whether the deletion timestamp is set, and the creation timestamp is
    in nanoseconds. *)
Record Container := {
  cn_Name : string;
  cn_Namespace : string;
  cn_CreationTimestamp : Z;
  cn_Deleted : bool;
  cn_OwnerReferences : list OwnerReference;
  cn_Spec : ContainerSpec;
  cn_Status : ContainerStatus;
}.

#[export] Instance DriveTypesRatio_eq_dec : EqDecision DriveTypesRatio.
Proof. solve_decision. Defined.
#[export] Instance PodResources_eq_dec : EqDecision PodResources.
Proof. solve_decision. Defined.
#[export] Instance VirtualDrive_eq_dec : EqDecision VirtualDrive.
Proof. solve_decision. Defined.
#[export] Instance PortAllocations_eq_dec : EqDecision PortAllocations.
Proof. solve_decision. Defined.
#[export] Instance ContainerAllocations_eq_dec : EqDecision ContainerAllocations.
Proof. solve_decision. Defined.
#[export] Instance ContainerResources_eq_dec : EqDecision ContainerResources.
Proof. solve_decision. Defined.
#[export] Instance ContainerSpec_eq_dec : EqDecision ContainerSpec.
Proof. solve_decision. Defined.
#[export] Instance ContainerStatus_eq_dec : EqDecision ContainerStatus.
Proof. solve_decision. Defined.
#[export] Instance OwnerReference_eq_dec : EqDecision OwnerReference.
Proof. solve_decision. Defined.
#[export] Instance Container_eq_dec : EqDecision Container.
Proof. solve_decision. Defined.

Abbreviation mode c := (cs_Mode (cn_Spec c)).

(** ** Methods *)

Definition GetNodeAffinity (c : Container) : string :=
  if decide (cs_NodeAffinity (cn_Spec c) <> "") then cs_NodeAffinity (cn_Spec c)
  else if decide (cst_NodeAffinity (cn_Status c) <> "") then cst_NodeAffinity (cn_Status c)
  else "".

Definition IsMarkedForDeletion (c : Container) : bool := cn_Deleted c.
Definition IsActive (c : Container) : bool := bool_decide (cs_State (cn_Spec c) = ContainerStateActive).
Definition IsPaused (c : Container) : bool := bool_decide (cs_State (cn_Spec c) = ContainerStatePaused).
Definition IsDestroyingState (c : Container) : bool := bool_decide (cs_State (cn_Spec c) = ContainerStateDestroying).
Definition IsDeletingState (c : Container) : bool := bool_decide (cs_State (cn_Spec c) = ContainerStateDeleting).

Definition container_UsesDriveSharing (c : Container) : bool :=
  bool_decide (cs_DriveCapacity (cn_Spec c) > 0 \/ cs_ContainerCapacity (cn_Spec c) > 0).

Definition IsBackend (c : Container) : bool :=
  bool_decide (mode c ∈ [WekaContainerModeDrive; WekaContainerModeCompute; WekaContainerModeS3;
    WekaContainerModeNfs; WekaContainerModeSmbw; WekaContainerModeDataServices]).

Definition IsDriveContainer (c : Container) : bool := bool_decide (mode c = WekaContainerModeDrive).
Definition IsEnvoy (c : Container) : bool := bool_decide (mode c = WekaContainerModeEnvoy).
Definition IsTelemetry (c : Container) : bool := bool_decide (mode c = WekaContainerModeTelemetry).
Definition IsSSDProxyContainer (c : Container) : bool := bool_decide (mode c = WekaContainerModeSSDProxy).

Definition IsDriversContainer (c : Container) : bool :=
  bool_decide (mode c ∈ [WekaContainerModeDist; WekaContainerModeDriversDist;
    WekaContainerModeDriversLoader; WekaContainerModeDriversBuilder]).

Definition IsWekaContainer (c : Container) : bool :=
  bool_decide (mode c ∈ [WekaContainerModeDrive; WekaContainerModeCompute; WekaContainerModeS3;
    WekaContainerModeClient; WekaContainerModeEnvoy; WekaContainerModeDist; WekaContainerModeDriversDist;
    WekaContainerModeDriversBuilder; WekaContainerModeNfs; WekaContainerModeSmbw; WekaContainerModeSSDProxy;
    WekaContainerModeTelemetry; WekaContainerModeDataServices]).

Definition IsAllocatable (c : Container) : bool :=
  bool_decide (mode c ∈ [WekaContainerModeDrive; WekaContainerModeCompute; WekaContainerModeEnvoy;
    WekaContainerModeS3; WekaContainerModeNfs; WekaContainerModeSmbw; WekaContainerModeTelemetry;
    WekaContainerModeDataServices]).

Definition HasAgent (c : Container) : bool :=
  bool_decide (mode c ∈ [WekaContainerModeDrive; WekaContainerModeCompute; WekaContainerModeS3;
    WekaContainerModeEnvoy; WekaContainerModeDist; WekaContainerModeDriversDist; WekaContainerModeDriversBuilder;
    WekaContainerModeAdhocOpWC; WekaContainerModeNfs; WekaContainerModeSmbw; WekaContainerModeSSDProxy;
    WekaContainerModeTelemetry; WekaContainerModeDataServices]).

Definition HasPersistentStorage (c : Container) : bool :=
  bool_decide (mode c ∈ [WekaContainerModeDrive; WekaContainerModeCompute; WekaContainerModeS3;
    WekaContainerModeEnvoy; WekaContainerModeClient; WekaContainerModeDist; WekaContainerModeDriversDist;
    WekaContainerModeNfs; WekaContainerModeSmbw; WekaContainerModeSSDProxy; WekaContainerModeTelemetry;
    WekaContainerModeDataServices]).

Definition IsServiceContainer (c : Container) : bool :=
  bool_decide (mode c ∈ [WekaContainerModeDist; WekaContainerModeDriversDist; WekaContainerModeDriversLoader;
    WekaContainerModeDiscovery; WekaContainerModeDriversBuilder; WekaContainerModeEnvoy;
    WekaContainerModeAdhocOpWC; WekaContainerModeAdhocOp]).

Definition IsOneOff (c : Container) : bool :=
  bool_decide (mode c ∈ [WekaContainerModeAdhocOpWC; WekaContainerModeDiscovery; WekaContainerModeAdhocOp;
    WekaContainerModeDriversBuilder; WekaContainerModeDriversLoader]).

Definition MustHaveNodeAffinity (c : Container) : bool :=
  IsAllocatable c && IsBackend c || IsEnvoy c || IsTelemetry c.

Definition RequiresDrivers (c : Container) : bool :=
  IsWekaContainer c && negb (IsDriversContainer c) && negb (IsEnvoy c) && negb (IsTelemetry c).

Definition ShouldJoinCluster (c : Container) : bool :=
  IsWekaContainer c && negb (IsDriversContainer c) && negb (IsEnvoy c) && negb (IsSSDProxyContainer c) &&
  negb (IsTelemetry c).

(** The hugepages-2Mi amount, in MiB, that [spec.resources] names, if it names one. *)
Definition NamedHugepages2MiMiB (s : ContainerSpec) : option Z :=
  match cs_Resources s with
  | None => None
  | Some r =>
      let q := if decide (cr_RequestsHugepages2Mi r = 0) then cr_LimitsHugepages2Mi r
               else cr_RequestsHugepages2Mi r in
      if decide (q = 0) then None else Some (q `quot` (1024 * 1024))
  end.

(** [utils.IsUnhealthy]: the flag and the reason; it never returns an error. *)
Definition IsUnhealthy (c : Container) : bool * string :=
  if IsMarkedForDeletion c then (true, "Marked for deletion") else (false, "").

(** What cpu.go reads of a spec. *)
Definition cpu_spec (s : ContainerSpec) : WekaContainerSpec := {|
  spec_Mode := cs_Mode s; spec_CpuPolicy := cs_CpuPolicy s; spec_NumCores := cs_NumCores s;
  spec_ExtraCores := cs_ExtraCores s; spec_Resources := cr_cpu <$> cs_Resources s |}.

(** ** Errors of the API server *)

(** The errors that the code tells apart, with their text. *)
Inductive api_error :=
  | NotFound (msg : string)
  | Conflict (msg : string)
  | OtherError (msg : string).

Definition error_text (e : api_error) : string :=
  match e with NotFound msg | Conflict msg | OtherError msg => msg end.

(** ** Field updates *)

Definition set_spec (s : ContainerSpec) (c : Container) : Container := {|
  cn_Name := cn_Name c; cn_Namespace := cn_Namespace c; cn_CreationTimestamp := cn_CreationTimestamp c;
  cn_Deleted := cn_Deleted c; cn_OwnerReferences := cn_OwnerReferences c; cn_Spec := s;
  cn_Status := cn_Status c |}.

Definition set_status (s : ContainerStatus) (c : Container) : Container := {|
  cn_Name := cn_Name c; cn_Namespace := cn_Namespace c; cn_CreationTimestamp := cn_CreationTimestamp c;
  cn_Deleted := cn_Deleted c; cn_OwnerReferences := cn_OwnerReferences c; cn_Spec := cn_Spec c;
  cn_Status := s |}.

(** Writes the sizing fields of a spec: cores, hugepages and offset, drives, capacity and ratio. *)
Definition spec_resize (cores hugepages offset drives capacity : Z) (ratio : option DriveTypesRatio)
    (s : ContainerSpec) : ContainerSpec := {|
  cs_Mode := cs_Mode s; cs_Image := cs_Image s; cs_State := cs_State s; cs_CpuPolicy := cs_CpuPolicy s;
  cs_NumCores := cores; cs_ExtraCores := cs_ExtraCores s; cs_Resources := cs_Resources s;
  cs_Hugepages := hugepages; cs_HugepagesOffset := offset; cs_HugepagesSize := cs_HugepagesSize s;
  cs_NumDrives := drives; cs_DriveCapacity := cs_DriveCapacity s; cs_ContainerCapacity := capacity;
  cs_DriveTypesRatio := ratio; cs_NodeAffinity := cs_NodeAffinity s; cs_RotatePod := cs_RotatePod s;
  cs_NodeSelector := cs_NodeSelector s; cs_DpdkBaseMemoryMb := cs_DpdkBaseMemoryMb s |}.

(** Writes the image and the rotation approval of a spec. *)
Definition spec_rollout (image : string) (rotate : bool) (s : ContainerSpec) : ContainerSpec := {|
  cs_Mode := cs_Mode s; cs_Image := image; cs_State := cs_State s; cs_CpuPolicy := cs_CpuPolicy s;
  cs_NumCores := cs_NumCores s; cs_ExtraCores := cs_ExtraCores s; cs_Resources := cs_Resources s;
  cs_Hugepages := cs_Hugepages s; cs_HugepagesOffset := cs_HugepagesOffset s;
  cs_HugepagesSize := cs_HugepagesSize s; cs_NumDrives := cs_NumDrives s;
  cs_DriveCapacity := cs_DriveCapacity s; cs_ContainerCapacity := cs_ContainerCapacity s;
  cs_DriveTypesRatio := cs_DriveTypesRatio s; cs_NodeAffinity := cs_NodeAffinity s; cs_RotatePod := rotate;
  cs_NodeSelector := cs_NodeSelector s; cs_DpdkBaseMemoryMb := cs_DpdkBaseMemoryMb s |}.

(** ** Lemmas *)

(** Every mode a predicate can tell apart. *)
Definition all_modes : list string :=
  [WekaContainerModeDrive; WekaContainerModeCompute; WekaContainerModeS3; WekaContainerModeNfs;
   WekaContainerModeSmbw; WekaContainerModeDataServices; WekaContainerModeClient; WekaContainerModeEnvoy;
   WekaContainerModeDist; WekaContainerModeDriversDist; WekaContainerModeDriversLoader;
   WekaContainerModeDriversBuilder; WekaContainerModeDiscovery; WekaContainerModeAdhocOpWC;
   WekaContainerModeAdhocOp; WekaContainerModeSSDProxy; WekaContainerModeTelemetry].

