(* ===== verification/Nodes.v ===== *)
(** * Kubernetes nodes as the operator reads them

    The node annotations that carry its drives (allocator/node_info.go, pkg/domain/drives.go), its failure
    domain (allocator/cluster_capacity_assignment.go), its CPU topology (inventory/collect.go), and whether
    it may receive a new pod (resources/node.go, pkg/util/tolerations.go).

    An annotation is kept as what decoding it gives: JSON decoding is not modelled. Whether a toleration
    matches a taint is the Kubernetes library's [ToleratesTaint], a parameter. *)

From S2P Require Import Prelude Fmt Types Strategies VirtualDrives.

(** ** The node *)

(** An annotation after decoding. For [weka-full-drives], whose readers test for the empty string, an
    empty annotation is [Absent]; elsewhere an empty string is not JSON, hence [Malformed]. *)
Inductive annotation (A : Type) : Type :=
  | Absent
  | Malformed (err : string)
  | Decoded (a : A).
Arguments Absent {_}.
Arguments Malformed {_} _.
Arguments Decoded {_} _.

Definition decoded {A} (zero : A) (a : annotation A) : A :=
  match a with Decoded x => x | _ => zero end.

Record Taint := { taint_Key : string; taint_Value : string; taint_Effect : string }.
Record Toleration := { tol_Key : string; tol_Operator : string; tol_Value : string; tol_Effect : string }.

(** A status condition: its type and its status. *)
Record NodeCondition := { cond_Type : string; cond_Status : string }.

(** What discovery.json says of the CPUs: hyper-threading, and the optional full-pcpus-only flag. *)
Record DiscoveryInfo := { disc_IsHt : bool; disc_NodeFullPcpusOnly : option bool }.

(** A node. The allocatable quantities are in milli-CPUs and in bytes. *)
Record Node := {
  n_Name : string;
  n_Labels : gmap string string;
  n_Unschedulable : bool;
  n_Taints : list Taint;
  n_Conditions : list NodeCondition;
  n_AllocatableCpuMilli : Z;
  n_AllocatableHugepages2Mi : Z;
  n_AllocatableMemory : Z;
  n_Discovery : annotation DiscoveryInfo;
  n_FullDrives : annotation (list DriveEntry);
  n_BlockedDrives : annotation (list string);
  n_SharedDrives : annotation (list SharedDriveInfo);
  n_BlockedPhysicalUuids : annotation (list string);
}.

(** ** Drives *)

Definition ReadDriveAnnotations (full : annotation (list DriveEntry)) : res string (list DriveEntry) :=
  match full with
  | Absent => Ok []
  | Malformed e => Err (Sprintf "failed to parse weka-full-drives: %s" [ArgS e])
  | Decoded entries => Ok (filter (fun e => de_CapacityGiB e > 0) entries)
  end.

Definition filterBlockedSharedDrives (drives : list SharedDriveInfo)
    (blockedDrivePhysicalUUIDs blockedDriveSerials : list string) : list SharedDriveInfo :=
  if decide (len blockedDrivePhysicalUUIDs = 0 /\ len blockedDriveSerials = 0) then drives
  else filter (fun d => sd_PhysicalUUID d ∉ blockedDrivePhysicalUUIDs /\ sd_Serial d ∉ blockedDriveSerials) drives.

Record AllocatorNodeInfo := { ani_Info : NodeInfo; ani_BlockedDriveCount : Z }.

Definition node_info (available : list DriveEntry) (shared : list SharedDriveInfo) (blocked : list string) :
    AllocatorNodeInfo :=
  {| ani_Info := mkNodeInfo available shared; ani_BlockedDriveCount := len blocked |}.

(** The info is returned on the error paths too, as far as it was filled. *)
Definition ParseAllocatorNodeInfo (node : Node) : AllocatorNodeInfo * option string :=
  match n_BlockedDrives node with
  | Malformed e => (node_info [] [] [], Some (Sprintf "failed to unmarshal blocked-drives: %s" [ArgS e]))
  | ann =>
      let blocked := decoded [] ann in
      match ReadDriveAnnotations (n_FullDrives node) with
      | Err e => (node_info [] [] blocked, Some (Sprintf "failed to read drive annotations: %s" [ArgS e]))
      | Ok entries =>
          let available := filter (fun e => de_Serial e ∉ blocked) entries in
          match n_SharedDrives node with
          | Absent => (node_info available [] blocked, None)
          | Malformed e =>
              (node_info available [] blocked, Some (Sprintf "failed to unmarshal shared-drives: %s" [ArgS e]))
          | Decoded shared =>
              match n_BlockedPhysicalUuids node with
              | Malformed e =>
                  (node_info available [] blocked,
                   Some (Sprintf "failed to unmarshal blocked-shared-drives: %s" [ArgS e]))
              | uuids =>
                  (node_info available (filterBlockedSharedDrives shared (decoded [] uuids) blocked) blocked, None)
              end
          end
      end
  end.

(** The answer as a value or an error. *)
Definition parsed_info (node : Node) : res string NodeInfo :=
  match ParseAllocatorNodeInfo node with
  | (info, None) => Ok (ani_Info info)
  | (_, Some e) => Err e
  end.

(** The drives, whether the node carries the annotation, and the error. *)
Definition SignedFullDrives (node : Node) : list DriveEntry * bool * option string :=
  match n_FullDrives node with
  | Absent => ([], false, None)
  | full =>
      match ReadDriveAnnotations full with
      | Err e => ([], true, Some (Sprintf "failed to read drive annotations: %s" [ArgS e]))
      | Ok entries =>
          match n_BlockedDrives node with
          | Malformed e => ([], true, Some (Sprintf "failed to unmarshal blocked-drives: %s" [ArgS e]))
          | ann => (SortDriveEntriesDesc (filter (fun d => de_Serial d ∉ decoded [] ann) entries), true, None)
          end
      end
  end.

Definition SignedFullDrivesGiB (node : Node) : list Z * bool * option string :=
  let '(drives, signed, err) := SignedFullDrives node in (de_CapacityGiB <$> drives, signed, err).

Definition RemoveDriveSerials (entries : list DriveEntry) (serials : list string) : list DriveEntry * bool :=
  let remaining := filter (fun e => de_Serial e ∉ serials) entries in
  (remaining, bool_decide (len remaining <> len entries)).

(** ** Failure domain *)

Record FailureDomain := { fd_Label : option string; fd_CompositeLabels : list string }.

Definition ResolveNodeFDValue (node : Node) (fd : option FailureDomain) : string :=
  match fd with
  | None => ""
  | Some fd =>
      match fd_Label fd with
      | Some label => default "" (n_Labels node !! label)
      | None =>
          if decide (len (fd_CompositeLabels fd) > 0)
          then strings_Join (omap (fun lbl => n_Labels node !! lbl) (fd_CompositeLabels fd)) "-"
          else ""
      end
  end.

(** [None] stands for the result [skip]. *)
Definition resolveInventoryFDValue (node : Node) (fdConfig : option FailureDomain) : option string :=
  let fdValue := ResolveNodeFDValue node fdConfig in
  if decide (fdConfig <> None /\ fdValue = "") then None
  else if decide (fdValue = "") then Some (n_Name node) else Some fdValue.

(** ** CPU topology *)

(** [forceFullPcpus] is the operator's configuration flag. *)
Definition nodeCPUTopology (forceFullPcpus : bool) (node : Node) : NodeCPUTopology :=
  let topo :=
    match n_Discovery node with
    | Decoded info => {| IsHt := disc_IsHt info; FullPcpusOnly := default false (disc_NodeFullPcpusOnly info) |}
    | _ => {| IsHt := false; FullPcpusOnly := false |}
    end in
  if forceFullPcpus then {| IsHt := IsHt topo; FullPcpusOnly := true |} else topo.

Definition buildNodeTopos (forceFullPcpus : bool) (nodes : list Node) : gmap string NodeCPUTopology :=
  foldl (fun m n => <[n_Name n := nodeCPUTopology forceFullPcpus n]> m) ∅ nodes.

(** ** Quantities *)

(** [Quantity.Value] of a milli-CPU quantity: rounded up to whole CPUs, away from zero. *)
Definition cpu_Value (milli : Z) : Z :=
  if decide (milli < 0) then - CeilDiv (- milli) 1000 else CeilDiv milli 1000.

Definition nodeAllocatableHugepagesMiB (node : Node) : Z := n_AllocatableHugepages2Mi node `quot` 2 ^ 20.
Definition nodeAllocatableMemoryMiB (node : Node) : Z := n_AllocatableMemory node `quot` 2 ^ 20.

(** ** Eligibility for new pods *)

Definition TaintEffectPreferNoSchedule : string := "PreferNoSchedule".
Definition CordonTaintKey : string := "node.kubernetes.io/unschedulable".
Definition CordonTaint : Taint :=
  {| taint_Key := CordonTaintKey; taint_Value := ""; taint_Effect := "NoSchedule" |}.

Section eligibility.
Context (ToleratesTaint : Toleration -> Taint -> bool).

(** One turn of the loop over the taints: whether it goes on to the next taint. *)
Definition taint_passes (tolerations : list Toleration) (ignoreTaints : list string) (taint : Taint) : bool :=
  bool_decide (taint_Effect taint = TaintEffectPreferNoSchedule) ||
  bool_decide (taint_Key taint ∈ ignoreTaints) ||
  existsb (fun t => ToleratesTaint t taint) tolerations.

Definition CheckTolerations (taints : list Taint) (tolerations : list Toleration) (ignoreTaints : list string) : bool :=
  forallb (taint_passes tolerations ignoreTaints) taints.

Definition tolerationsCoverCordon (tolerations : list Toleration) : bool :=
  CheckTolerations [CordonTaint] (filter (fun t => tol_Key t = CordonTaintKey) tolerations) [].

(** [None] is a nil node. *)
Definition NodeIsReady (node : option Node) : bool :=
  match node with
  | None => false
  | Some node =>
      existsb (fun c => bool_decide (cond_Type c = "Ready" /\ cond_Status c = "True")) (n_Conditions node)
  end.

Definition nodeIsCordoned (node : Node) : bool :=
  n_Unschedulable node || existsb (fun t => bool_decide (taint_Key t = CordonTaintKey)) (n_Taints node).

Definition NodeIneligibleReason (node : option Node) (tolerations : list Toleration) : string :=
  match node with
  | None => "not ready"
  | Some n =>
      if negb (NodeIsReady node) then "not ready"
      else if nodeIsCordoned n && negb (tolerationsCoverCordon tolerations) then "cordoned"
      else if negb (CheckTolerations (n_Taints n) tolerations []) then "untolerated taint"
      else ""
  end.

(** A node is a placement target exactly when it is ready, a cordon on it is met by a toleration that
    names the cordon key, and each of its hard taints is tolerated. *)
Theorem NodeIneligibleReason_empty n tolerations :
  NodeIneligibleReason (Some n) tolerations = "" <->
  NodeIsReady (Some n) = true /\
  (nodeIsCordoned n = true ->
     exists t, t ∈ tolerations /\ tol_Key t = CordonTaintKey /\ ToleratesTaint t CordonTaint = true) /\
  (forall taint, taint ∈ n_Taints n -> taint_Effect taint <> TaintEffectPreferNoSchedule ->
     exists t, t ∈ tolerations /\ ToleratesTaint t taint = true).
Proof.
  assert (Hcover : tolerationsCoverCordon tolerations = true <->
    exists t, t ∈ tolerations /\ tol_Key t = CordonTaintKey /\ ToleratesTaint t CordonTaint = true).
  { unfold tolerationsCoverCordon, CheckTolerations, taint_passes. simpl.
    rewrite andb_true_r, existsb_exists. setoid_rewrite <- list_elem_of_In.
    setoid_rewrite list_elem_of_filter. naive_solver. }
  assert (Htaints : CheckTolerations (n_Taints n) tolerations [] = true <->
    forall taint, taint ∈ n_Taints n -> taint_Effect taint <> TaintEffectPreferNoSchedule ->
      exists t, t ∈ tolerations /\ ToleratesTaint t taint = true).
  { unfold CheckTolerations, taint_passes. rewrite forallb_forall. setoid_rewrite <- list_elem_of_In.
    apply forall_proper. intros taint. rewrite !orb_true_iff, existsb_exists, !bool_decide_eq_true.
    setoid_rewrite <- list_elem_of_In.
    pose proof (not_elem_of_nil (taint_Key taint)).
    destruct (decide (taint_Effect taint = TaintEffectPreferNoSchedule)); naive_solver. }
  unfold NodeIneligibleReason. destruct (NodeIsReady (Some n)); simpl; [|naive_solver].
  rewrite <- Hcover, <- Htaints. destruct (nodeIsCordoned n), (tolerationsCoverCordon tolerations),
    (CheckTolerations (n_Taints n) tolerations []); simpl; naive_solver.
Qed.

End eligibility.

(** ** Drives: what the allocator is offered *)

Lemma elem_of_filterBlockedSharedDrives d drives uuids serials :
  d ∈ filterBlockedSharedDrives drives uuids serials <->
  d ∈ drives /\ sd_PhysicalUUID d ∉ uuids /\ sd_Serial d ∉ serials.
Proof.
  unfold filterBlockedSharedDrives. case_decide as Hb; [|rewrite list_elem_of_filter; tauto].
  destruct Hb as [Hu Hs], uuids, serials; [|done..]. set_solver.
Qed.

(** A parsed node offers exactly its signed drives of positive capacity and its shared drives, less the
    blocked ones. *)
Theorem ParseAllocatorNodeInfo_unblocked node info :
  parsed_info node = Ok info ->
  (forall d, d ∈ ni_AvailableDrives info <->
     d ∈ decoded [] (n_FullDrives node) /\ de_CapacityGiB d > 0 /\ de_Serial d ∉ decoded [] (n_BlockedDrives node)) /\
  (forall d, d ∈ ni_SharedDrives info <->
     d ∈ decoded [] (n_SharedDrives node) /\ sd_PhysicalUUID d ∉ decoded [] (n_BlockedPhysicalUuids node) /\
     sd_Serial d ∉ decoded [] (n_BlockedDrives node)).
Proof.
  unfold parsed_info, ParseAllocatorNodeInfo, ReadDriveAnnotations.
  destruct (n_BlockedDrives node), (n_FullDrives node), (n_SharedDrives node), (n_BlockedPhysicalUuids node);
    simpl; try done; intros [= <-]; simpl; split; intros d;
    rewrite ?elem_of_filterBlockedSharedDrives, ?list_elem_of_filter, ?elem_of_nil; naive_solver.
Qed.

(** The two readers of the full drives agree: where the node parses, [SignedFullDrives] is its available
    drives, largest first. *)
Theorem SignedFullDrives_agrees node info :
  parsed_info node = Ok info ->
  SignedFullDrives node =
    (SortDriveEntriesDesc (ni_AvailableDrives info), match n_FullDrives node with Absent => false | _ => true end, None).
Proof.
  unfold parsed_info, ParseAllocatorNodeInfo, SignedFullDrives, ReadDriveAnnotations.
  destruct (n_BlockedDrives node), (n_FullDrives node), (n_SharedDrives node), (n_BlockedPhysicalUuids node);
    simpl; try done; by intros [= <-].
Qed.
