(* ===== verification/Templates.v ===== *)
(** * Cluster templates and hugepages (allocator/templates.go, allocator/hugepages.go)

    The sizing part of a WekaCluster (wekacluster_types.go), the template derived from it with its
    defaults, and the hugepages of a container by role: from the template, or from a plan's figures.

    Parsing of numbers ([strconv.ParseFloat], the Kubernetes [ParseQuantity]) and reading a node are
    parameters; the operator configuration is an argument. *)

From S2P Require Import Prelude Float64 Fmt Types Sizing Strategies VirtualDrives Api Nodes.

(** ** The cluster *)

Record IntPerWekaRole := {
  role_Compute : Z; role_Drive : Z; role_S3 : Z; role_Envoy : Z; role_Nfs : Z; role_Smbw : Z;
  role_DataServices : Z }.

Record WekaClusterTemplate := {
  wt_ComputeContainers : Z; wt_DriveContainers : Z; wt_S3Containers : Z; wt_NfsContainers : Z;
  wt_SmbwContainers : Z; wt_DataServicesContainers : Z;
  wt_ComputeCores : Z; wt_DriveCores : Z; wt_S3Cores : Z; wt_EnvoyCores : Z; wt_NfsCores : Z;
  wt_SmbwCores : Z; wt_DataServicesCores : Z;
  wt_ComputeExtraCores : Z; wt_DriveExtraCores : Z; wt_S3ExtraCores : Z; wt_NfsExtraCores : Z;
  wt_SmbwExtraCores : Z; wt_DataServicesExtraCores : option Z; wt_DataServicesFeCores : option Z;
  wt_NumDrives : Z; wt_DriveCapacity : Z; wt_ContainerCapacity : Z; wt_ClusterCapacity : string;
  wt_DriveTypesRatio : option DriveTypesRatio;
  wt_DriveHugepages : Z; wt_DriveHugepagesOffset : Z; wt_ComputeHugepages : Z; wt_ComputeHugepagesOffset : Z;
  wt_S3FrontendHugepages : Z; wt_S3FrontendHugepagesOffset : Z; wt_NfsFrontendHugepages : Z;
  wt_NfsFrontendHugepagesOffset : Z; wt_SmbwFrontendHugepages : Z; wt_SmbwFrontendHugepagesOffset : Z;
  wt_DataServicesHugepages : Z; wt_DataServicesHugepagesOffset : Z }.

(** [&WekaClusterTemplate{}]. *)
Definition zero_template : WekaClusterTemplate := {|
  wt_ComputeContainers := 0; wt_DriveContainers := 0; wt_S3Containers := 0; wt_NfsContainers := 0;
  wt_SmbwContainers := 0; wt_DataServicesContainers := 0;
  wt_ComputeCores := 0; wt_DriveCores := 0; wt_S3Cores := 0; wt_EnvoyCores := 0; wt_NfsCores := 0;
  wt_SmbwCores := 0; wt_DataServicesCores := 0;
  wt_ComputeExtraCores := 0; wt_DriveExtraCores := 0; wt_S3ExtraCores := 0; wt_NfsExtraCores := 0;
  wt_SmbwExtraCores := 0; wt_DataServicesExtraCores := None; wt_DataServicesFeCores := None;
  wt_NumDrives := 0; wt_DriveCapacity := 0; wt_ContainerCapacity := 0; wt_ClusterCapacity := "";
  wt_DriveTypesRatio := None;
  wt_DriveHugepages := 0; wt_DriveHugepagesOffset := 0; wt_ComputeHugepages := 0; wt_ComputeHugepagesOffset := 0;
  wt_S3FrontendHugepages := 0; wt_S3FrontendHugepagesOffset := 0; wt_NfsFrontendHugepages := 0;
  wt_NfsFrontendHugepagesOffset := 0; wt_SmbwFrontendHugepages := 0; wt_SmbwFrontendHugepagesOffset := 0;
  wt_DataServicesHugepages := 0; wt_DataServicesHugepagesOffset := 0 |}.

(** [config.NumDrives = n]. *)
Definition set_NumDrives (n : Z) (t : WekaClusterTemplate) : WekaClusterTemplate := {|
  wt_ComputeContainers := wt_ComputeContainers t; wt_DriveContainers := wt_DriveContainers t;
  wt_S3Containers := wt_S3Containers t; wt_NfsContainers := wt_NfsContainers t;
  wt_SmbwContainers := wt_SmbwContainers t; wt_DataServicesContainers := wt_DataServicesContainers t;
  wt_ComputeCores := wt_ComputeCores t; wt_DriveCores := wt_DriveCores t; wt_S3Cores := wt_S3Cores t;
  wt_EnvoyCores := wt_EnvoyCores t; wt_NfsCores := wt_NfsCores t; wt_SmbwCores := wt_SmbwCores t;
  wt_DataServicesCores := wt_DataServicesCores t;
  wt_ComputeExtraCores := wt_ComputeExtraCores t; wt_DriveExtraCores := wt_DriveExtraCores t;
  wt_S3ExtraCores := wt_S3ExtraCores t; wt_NfsExtraCores := wt_NfsExtraCores t;
  wt_SmbwExtraCores := wt_SmbwExtraCores t; wt_DataServicesExtraCores := wt_DataServicesExtraCores t;
  wt_DataServicesFeCores := wt_DataServicesFeCores t;
  wt_NumDrives := n; wt_DriveCapacity := wt_DriveCapacity t; wt_ContainerCapacity := wt_ContainerCapacity t;
  wt_ClusterCapacity := wt_ClusterCapacity t; wt_DriveTypesRatio := wt_DriveTypesRatio t;
  wt_DriveHugepages := wt_DriveHugepages t; wt_DriveHugepagesOffset := wt_DriveHugepagesOffset t;
  wt_ComputeHugepages := wt_ComputeHugepages t; wt_ComputeHugepagesOffset := wt_ComputeHugepagesOffset t;
  wt_S3FrontendHugepages := wt_S3FrontendHugepages t;
  wt_S3FrontendHugepagesOffset := wt_S3FrontendHugepagesOffset t;
  wt_NfsFrontendHugepages := wt_NfsFrontendHugepages t;
  wt_NfsFrontendHugepagesOffset := wt_NfsFrontendHugepagesOffset t;
  wt_SmbwFrontendHugepages := wt_SmbwFrontendHugepages t;
  wt_SmbwFrontendHugepagesOffset := wt_SmbwFrontendHugepagesOffset t;
  wt_DataServicesHugepages := wt_DataServicesHugepages t;
  wt_DataServicesHugepagesOffset := wt_DataServicesHugepagesOffset t |}.

(** The cluster overrides the modelled code reads; [ov_DpdkBaseMemoryMb] has no envoy entry. *)
Record ClusterOverrides := {
  ov_DpdkBaseMemoryMb : IntPerWekaRole;
  ov_PodRotation : option bool;
  ov_UpgradePaused : bool;
  ov_UpgradeAllAtOnce : bool;
  ov_UpgradePausePreCompute : bool }.

Definition zero_roles : IntPerWekaRole := {|
  role_Compute := 0; role_Drive := 0; role_S3 := 0; role_Envoy := 0; role_Nfs := 0; role_Smbw := 0;
  role_DataServices := 0 |}.

Definition zero_overrides : ClusterOverrides := {|
  ov_DpdkBaseMemoryMb := zero_roles; ov_PodRotation := None; ov_UpgradePaused := false;
  ov_UpgradeAllAtOnce := false; ov_UpgradePausePreCompute := false |}.

(** The per-role node selectors. *)
Record RoleNodeSelector := {
  rns_Compute : option (gmap string string); rns_Drive : option (gmap string string);
  rns_S3 : option (gmap string string); rns_Nfs : option (gmap string string);
  rns_Smbw : option (gmap string string); rns_DataServices : option (gmap string string) }.

Record ClusterSpec := {
  csp_Dynamic : option WekaClusterTemplate;
  csp_StripeWidth : Z; csp_RedundancyLevel : Z; csp_HotSpare : Z;
  csp_CpuPolicy : string;
  csp_Image : string;
  csp_NodeSelector : gmap string string;
  csp_RoleNodeSelector : RoleNodeSelector;
  csp_FailureDomain : option FailureDomain;
  csp_Overrides : option ClusterOverrides }.

Definition GetOverrides (spec : ClusterSpec) : ClusterOverrides := default zero_overrides (csp_Overrides spec).

Definition GetNodeSelectorForRole (spec : ClusterSpec) (role : string) : gmap string string :=
  let r := csp_RoleNodeSelector spec in
  let roleNodeSelector :=
    if decide (role = "compute") then rns_Compute r
    else if decide (role = "drive") then rns_Drive r
    else if decide (role = "s3") then rns_S3 r
    else if decide (role = "nfs") then rns_Nfs r
    else if decide (role = "smbw") then rns_Smbw r
    else if decide (role = "data-services") then rns_DataServices r
    else None in
  default (csp_NodeSelector spec) roleNodeSelector.

(** [utils.GetDpdkBaseMemoryMbByRole] *)
Definition GetDpdkBaseMemoryMbByRole (spec : ClusterSpec) (role : string) : Z :=
  let m := ov_DpdkBaseMemoryMb (GetOverrides spec) in
  let v :=
    if decide (role = "compute") then role_Compute m
    else if decide (role = "drive") then role_Drive m
    else if decide (role = "s3") then role_S3 m
    else if decide (role = "nfs") then role_Nfs m
    else if decide (role = "smbw") then role_Smbw m
    else if decide (role = "data-services") then role_DataServices m
    else 0 in
  if decide (v <> 0) then v else 64.

(** The operator configuration the templates read. *)
Record OperatorConfig := {
  oc_Capacity : CapacityConfig;
  oc_DefaultStripeWidth : Z; oc_DefaultRedundancyLevel : Z; oc_DefaultHotSpare : Z;
  oc_HugepagesUpdateCompute : bool; oc_HugepagesUpdateDrive : bool;
  oc_FormClusterMinComputeContainers : Z; oc_FormClusterMinDriveContainers : Z;
  oc_FullPcpusOnly : bool }.

Definition ConstraintsForClusterSpec (cfg : OperatorConfig) (spec : ClusterSpec) : CapacityConstraints :=
  ApplyClusterSpecOverrides (CapacityConstraintsFromConfig (oc_Capacity cfg))
    (GetDpdkBaseMemoryMbByRole spec WekaContainerModeDrive)
    (GetDpdkBaseMemoryMbByRole spec WekaContainerModeCompute) (csp_CpuPolicy spec).

(** ** Sizing mode *)

(** [None] is a nil receiver. *)
Definition UsesClusterCapacity (d : option WekaClusterTemplate) : bool :=
  match d with None => false | Some d => bool_decide (strings_TrimSpace (wt_ClusterCapacity d) <> "") end.

Definition UsesAutoFullDrives (d : option WekaClusterTemplate) : bool :=
  match d with
  | None => true
  | Some t =>
      bool_decide (wt_ComputeContainers t <= 0 /\ wt_DriveContainers t <= 0 /\
                   wt_ContainerCapacity t <= 0 /\ wt_DriveCapacity t <= 0) && negb (UsesClusterCapacity d)
  end.

Definition IsPlannerManaged (d : option WekaClusterTemplate) : bool := UsesClusterCapacity d || UsesAutoFullDrives d.

Definition IsDriveSharing (spec : ClusterSpec) : bool :=
  match csp_Dynamic spec with
  | None => false
  | Some t => UsesClusterCapacity (Some t) || bool_decide (wt_DriveCapacity t > 0) ||
              bool_decide (wt_ContainerCapacity t > 0)
  end.

Definition S3ActsAsDaemonset (spec : ClusterSpec) : bool :=
  match csp_Dynamic spec with
  | None => false
  | Some t => bool_decide (wt_S3Containers t = -1) && UsesAutoFullDrives (Some t)
  end.

(** ** The capacity asked for *)

Section capacity.
Context (ParseFloat : string -> option float64) (ParseQuantity : string -> res string Z).

Definition giB : Z := 1024 * 1024 * 1024.

Definition decimal_suffixes : list (string * Z) :=
  [("pb", 1000000000000000); ("tb", 1000000000000); ("gb", 1000000000); ("mb", 1000000); ("kb", 1000)].

Definition binary_suffixes : list (string * string) :=
  [("pi", "Pi"); ("ti", "Ti"); ("gi", "Gi"); ("mi", "Mi"); ("ki", "Ki");
   ("p", "Pi"); ("t", "Ti"); ("g", "Gi"); ("m", "Mi"); ("k", "Ki")].

(** The suffix normalized to the one [ParseQuantity] knows. *)
Definition normalize_binary (s : string) : string :=
  match list_find (fun u => strings_HasSuffix s u.1 = true) binary_suffixes with
  | Some (_, u) => String.append (strings_TrimSuffix s u.1) u.2
  | None => s
  end.

(** [ParseQuantity] answers the value of the quantity in bytes. *)
Definition GetClusterCapacityGiB (d : WekaClusterTemplate) : res string Z :=
  let s := strings_TrimSpace (strings_ToLower (wt_ClusterCapacity d)) in
  if decide (s = "") then Err "clusterCapacity is empty"
  else
    match list_find (fun u => strings_HasSuffix s u.1 = true) decimal_suffixes with
    | Some (_, u) =>
        match ParseFloat (strings_TrimSpace (strings_TrimSuffix s u.1)) with
        | None => Err (Sprintf "invalid clusterCapacity %q" [ArgS (wt_ClusterCapacity d)])
        | Some f =>
            if f_lt f f_zero then Err (Sprintf "invalid clusterCapacity %q" [ArgS (wt_ClusterCapacity d)])
            else Ok (int_of_float (f_div (f_mul f (f_of_int u.2)) (f_of_int giB)))
        end
    | None =>
        match ParseQuantity (normalize_binary (strings_TrimSuffix s "b")) with
        | Err e => Err (Sprintf "invalid clusterCapacity %q: %s" [ArgS (wt_ClusterCapacity d); ArgS e])
        | Ok q => Ok (q `quot` giB)
        end
    end.
End capacity.

(** ** Templates *)

Record ClusterTemplate := {
  tpl_Containers : IntPerWekaRole;
  tpl_Cores : IntPerWekaRole;
  tpl_ExtraCores : IntPerWekaRole;
  tpl_NumDrives : Z;
  tpl_DriveCapacity : Z;
  tpl_ContainerCapacity : Z;
  tpl_DriveTypesRatio : option DriveTypesRatio }.

Definition GetNonZeroOrDefault (val defaultVal : Z) : Z := if decide (val = 0) then defaultVal else val.

Definition GetWekaContainerNumbers (cfg : OperatorConfig) (config : option WekaClusterTemplate) : IntPerWekaRole :=
  let t := default zero_template config in {|
  role_Compute := if decide (wt_ComputeContainers t = 0) then oc_FormClusterMinComputeContainers cfg
                  else wt_ComputeContainers t;
  role_Drive := if decide (wt_DriveContainers t = 0) then oc_FormClusterMinDriveContainers cfg
                else wt_DriveContainers t;
  role_S3 := wt_S3Containers t; role_Envoy := 0; role_Nfs := wt_NfsContainers t;
  role_Smbw := wt_SmbwContainers t; role_DataServices := wt_DataServicesContainers t |}.

(** [None] is the result [0, false]. *)
Definition RequiredDriveCoresForTemplate (cfg : OperatorConfig) (config : option WekaClusterTemplate) : option Z :=
  match config with
  | None => None
  | Some t =>
      let cons := CapacityConstraintsFromConfig (oc_Capacity cfg) in
      if decide (wt_ContainerCapacity t > 0) then
        let '(tlcGiB, qlcGiB) := GetTlcQlcCapacity (wt_ContainerCapacity t) (wt_DriveTypesRatio t) in
        Some (RequiredDriveCores tlcGiB qlcGiB cons)
      else if decide (wt_NumDrives t > 0 /\ wt_DriveCapacity t > 0) then
        Some (RequiredDriveCores (wt_DriveCapacity t * wt_NumDrives t) 0 cons)
      else None
  end.

Definition DerivedDriveCores (cfg : OperatorConfig) (config : option WekaClusterTemplate) : option Z :=
  match config, RequiredDriveCoresForTemplate cfg config with
  | Some t, Some required =>
      if decide (wt_NumDrives t > 0 /\ wt_DriveCapacity t > 0)
      then Some (Z.min required (wt_NumDrives t)) else Some required
  | _, _ => None
  end.

Definition getDriveCores (cfg : OperatorConfig) (t : WekaClusterTemplate) : Z :=
  if decide (wt_DriveCores t > 0) then wt_DriveCores t
  else default 1 (DerivedDriveCores cfg (Some t)).

Definition GetWekaContainerCores (cfg : OperatorConfig) (config : option WekaClusterTemplate) : IntPerWekaRole :=
  let t := default zero_template config in {|
  role_Compute := GetNonZeroOrDefault (wt_ComputeCores t) 1;
  role_Drive := getDriveCores cfg t;
  role_S3 := GetNonZeroOrDefault (wt_S3Cores t) 1;
  role_Envoy := GetNonZeroOrDefault (wt_EnvoyCores t) 1;
  role_Nfs := GetNonZeroOrDefault (wt_NfsCores t) 1;
  role_Smbw := GetNonZeroOrDefault (wt_SmbwCores t) 1;
  role_DataServices := GetNonZeroOrDefault (wt_DataServicesCores t) 1 |}.

Definition GetDataServicesFeCores (config : option WekaClusterTemplate) : Z :=
  match config with
  | Some t => default 1 (wt_DataServicesFeCores t)
  | None => 1
  end.

Definition GetDefaultDataServicesExtraCores (t : WekaClusterTemplate) : Z :=
  match wt_DataServicesExtraCores t with
  | Some n => n
  | None => if decide (GetDataServicesFeCores (Some t) > 0) then 4 else 0
  end.

Definition GetWekaContainerExtraCores (config : option WekaClusterTemplate) : IntPerWekaRole :=
  let t := default zero_template config in {|
  role_Compute := wt_ComputeExtraCores t;
  role_Drive := wt_DriveExtraCores t;
  role_S3 := GetNonZeroOrDefault (wt_S3ExtraCores t) 1;
  role_Envoy := 0;
  role_Nfs := GetNonZeroOrDefault (wt_NfsExtraCores t) 1;
  role_Smbw := GetNonZeroOrDefault (wt_SmbwExtraCores t) 1;
  role_DataServices := GetDefaultDataServicesExtraCores t |}.

(** The template, and the configuration as the function leaves it: the default of one drive is written
    through the pointer. *)
Definition GetWekaClusterTemplate (cfg : OperatorConfig) (config : option WekaClusterTemplate) :
    option WekaClusterTemplate * ClusterTemplate :=
  let t := default zero_template config in
  let t := if decide (wt_NumDrives t = 0 /\ wt_ContainerCapacity t = 0 /\ IsPlannerManaged (Some t) = false)
           then set_NumDrives 1 t else t in
  ((fun _ => t) <$> config, {|
    tpl_Containers := GetWekaContainerNumbers cfg (Some t);
    tpl_Cores := GetWekaContainerCores cfg (Some t);
    tpl_ExtraCores := GetWekaContainerExtraCores (Some t);
    tpl_NumDrives := wt_NumDrives t; tpl_DriveCapacity := wt_DriveCapacity t;
    tpl_ContainerCapacity := wt_ContainerCapacity t; tpl_DriveTypesRatio := wt_DriveTypesRatio t |}).

(** ** Hugepages of a container *)

Record ContainerHugepages := {
  hp_Mode : string;
  hp_Hugepages : Z;
  hp_HugepagesOffset : Z;
  hp_HugePageSize : string;
  hp_HugepagesUserSet : bool;
  hp_HugepagesOffsetUserSet : bool;
  hp_DpdkBaseMemoryMb : Z }.

(** The shared body of [ShouldPropagateHugepages] and [ShouldPropagateHugepagesOffset]. *)
Definition should_propagate (cfg : OperatorConfig) (userSet : bool) (mode : string) : bool :=
  if userSet then true
  else if oc_HugepagesUpdateCompute cfg && bool_decide (mode = WekaContainerModeCompute) then true
  else if oc_HugepagesUpdateDrive cfg && bool_decide (mode = WekaContainerModeDrive) then true
  else if decide (mode ∈ [WekaContainerModeDrive; WekaContainerModeCompute]) then false
  else true.

Definition ShouldPropagateHugepages (cfg : OperatorConfig) (c : ContainerHugepages) : bool :=
  should_propagate cfg (hp_HugepagesUserSet c) (hp_Mode c).
Definition ShouldPropagateHugepagesOffset (cfg : OperatorConfig) (c : ContainerHugepages) : bool :=
  should_propagate cfg (hp_HugepagesOffsetUserSet c) (hp_Mode c).

(** Constraints that carry the coefficients of the drive-hugepages formula only. *)
Definition hugepages_cons (driveDpdk : Z) : CapacityConstraints := {|
  TlcCapacityPerCoreGiB := 0; QlcCapacityPerCoreGiB := 0; MinChunkSizeGiB := 0; ImbalanceFactor := f_zero;
  HugepagesPerCoreMiB := default_HugepagesPerCoreMiB; MemoryBaseMiB := 0; MemoryPerCoreMiB := 0;
  DriveDpdkPerCoreMiB := driveDpdk; ComputeDpdkPerCoreMiB := 0; MaxCoresPerContainer := 0;
  ComputeHugepagesTlcRatio := 0; ComputeHugepagesQlcRatio := 0; ComputeMaxHugepagesMiB := 0;
  ComputeToTlcDriveCoreRatio := f_zero; ComputeToQlcDriveCoreRatio := f_zero;
  FullDrivesComputeToDriveCoreRatio := f_zero; AllowInPlaceGrowth := false; MinGrowthFraction := f_zero;
  MaxOverProvisionFraction := f_zero; CapacityDeadbandFraction := f_zero; AllowSingleParity := false;
  CpuPolicy := "" |}.

Definition noDpdkConstraints : CapacityConstraints := hugepages_cons 0.

Definition CalculateDriveHugepages (template : ClusterTemplate) : Z :=
  DriveContainerHugepagesMiB (role_Drive (tpl_Cores template)) (tpl_NumDrives template) noDpdkConstraints.

Definition CalculateDriveHugepagesOffset (template : ClusterTemplate) : Z :=
  DriveContainerHugepagesOffsetMiB (role_Drive (tpl_Cores template)) (tpl_NumDrives template) noDpdkConstraints.

Definition ComputeHugepagesFromPlan (spec : ClusterSpec) (plannedHugepagesMiB cores : Z) : ContainerHugepages :=
  let t := default zero_template (csp_Dynamic spec) in
  let dpdk := GetDpdkBaseMemoryMbByRole spec WekaContainerModeCompute in {|
  hp_Mode := WekaContainerModeCompute;
  hp_Hugepages := if decide (wt_ComputeHugepages t > 0) then wt_ComputeHugepages t else plannedHugepagesMiB;
  hp_HugepagesOffset := if decide (wt_ComputeHugepagesOffset t > 0) then wt_ComputeHugepagesOffset t
                        else 200 + dpdk * cores;
  hp_HugePageSize := "2Mi";
  hp_HugepagesUserSet := true;
  hp_HugepagesOffsetUserSet := bool_decide (wt_ComputeHugepagesOffset t > 0);
  hp_DpdkBaseMemoryMb := dpdk |}.

Definition DriveHugepagesFromPlan (spec : ClusterSpec) (cores drives : Z) : ContainerHugepages :=
  let t := default zero_template (csp_Dynamic spec) in
  let dpdk := GetDpdkBaseMemoryMbByRole spec WekaContainerModeDrive in
  let cons := hugepages_cons dpdk in {|
  hp_Mode := WekaContainerModeDrive;
  hp_Hugepages := if decide (wt_DriveHugepages t > 0) then wt_DriveHugepages t
                  else DriveContainerHugepagesMiB cores drives cons;
  hp_HugepagesOffset := if decide (wt_DriveHugepagesOffset t > 0) then wt_DriveHugepagesOffset t
                        else DriveContainerHugepagesOffsetMiB cores drives cons;
  hp_HugePageSize := "2Mi";
  hp_HugepagesUserSet := true;
  hp_HugepagesOffsetUserSet := true;
  hp_DpdkBaseMemoryMb := dpdk |}.

(** The errors of the hugepages calculation: the two sentinels, which wrapping keeps recognizable, and
    any other, with their messages. *)
Inductive hp_error : Type :=
  | ErrDriveAllocationPending (msg : string)
  | ErrPlannerManagedComputeHugepages (msg : string)
  | HpErrorf (msg : string).

Definition hp_wrap (prefix : string) (e : hp_error) : hp_error :=
  match e with
  | ErrDriveAllocationPending m => ErrDriveAllocationPending (String.append prefix m)
  | ErrPlannerManagedComputeHugepages m => ErrPlannerManagedComputeHugepages (String.append prefix m)
  | HpErrorf m => HpErrorf (String.append prefix m)
  end.

Definition hp_message (e : hp_error) : string :=
  match e with ErrDriveAllocationPending m | ErrPlannerManagedComputeHugepages m | HpErrorf m => m end.

(** *** Compute hugepages *)

Definition ComputeCapacityBasedHugepages (cfg : OperatorConfig)
    (totalRawCapacityGiB computeContainers computeCores : Z) (driveTypesRatio : option DriveTypesRatio) : Z :=
  let c := oc_Capacity cfg in
  let capacityBased :=
    if decide (computeContainers > 0 /\ totalRawCapacityGiB > 0) then
      let '(tlcCapGiB, qlcCapGiB) := GetTlcQlcCapacity totalRawCapacityGiB driveTypesRatio in
      let hugepagesTlcRatio := if decide (cfg_HugepagesTlcRatio c = 0) then 1000 else cfg_HugepagesTlcRatio c in
      let hugepagesQlcRatio := if decide (cfg_HugepagesQlcRatio c = 0) then 6000 else cfg_HugepagesQlcRatio c in
      let clusterHugepagesMiB :=
        (if decide (hugepagesTlcRatio > 0) then (tlcCapGiB * 1024) `quot` hugepagesTlcRatio else 0) +
        (if decide (hugepagesQlcRatio > 0) then (qlcCapGiB * 1024) `quot` hugepagesQlcRatio else 0) in
      clusterHugepagesMiB `quot` computeContainers
    else 0 in
  let hugepages := Z.max (capacityBased + 1700 * computeCores) (3000 * computeCores) in
  let hugepages := if decide (hugepages `rem` 2 <> 0) then hugepages + 1 else hugepages in
  let maxMiB := cfg_ComputeMaxHugepagesMiB c in
  if decide (maxMiB > 0 /\ hugepages > maxMiB) then maxMiB else hugepages.

Section compute_hugepages.
Context (get_node : string -> res string Node) (capacityGiB : WekaClusterTemplate -> res string Z).

(** Serial to capacity, the last entry of a serial winning. *)
Definition nodeDriveCapacityBySerial (nodeName : string) : res string (gmap string Z) :=
  match get_node nodeName with
  | Err e => Err (Sprintf "failed to get node %s for drive capacity lookup: %s" [ArgS nodeName; ArgS e])
  | Ok node =>
      match parsed_info node with
      | Err e => Err (Sprintf "failed to parse allocator node info for node %s: %s" [ArgS nodeName; ArgS e])
      | Ok info =>
          if decide (len (ni_AvailableDrives info) = 0)
          then Err (Sprintf "node %s has no available (non-blocked) full drives with capacity" [ArgS nodeName])
          else Ok (foldl (fun m e => <[de_Serial e := de_CapacityGiB e]> m) ∅ (ni_AvailableDrives info))
      end
  end.

(** The drives of [Status.Allocations], none for a nil pointer. *)
Definition allocated_drives (c : Container) : list string :=
  match cst_Allocations (cn_Status c) with Some a => ca_Drives a | None => [] end.

(** The loop that sums the capacities of the allocated serials. *)
Fixpoint sum_serials (nodeName : string) (capacityBySerial : gmap string Z) (serials : list string) (acc : Z) :
    res string Z :=
  match serials with
  | [] => Ok acc
  | serial :: serials =>
      match capacityBySerial !! serial with
      | None => Err (Sprintf "allocated drive %s on node %s not found in weka.io/weka-full-drives annotation"
                       [ArgS serial; ArgS nodeName])
      | Some capGiB =>
          if decide (capGiB = 0)
          then Err (Sprintf "allocated drive %s on node %s has zero capacity in weka.io/weka-full-drives annotation"
                      [ArgS serial; ArgS nodeName])
          else sum_serials nodeName capacityBySerial serials (acc + capGiB)
      end
  end.

Definition ComputeCapacityFromMostRecentDriveContainerAllocation (containers : list Container)
    (numDriveContainers numDrives : Z) : res hp_error Z :=
  if decide (numDrives <= 0) then
    Err (HpErrorf (Sprintf "numDrives must be > 0 for full-drives mode hugepages calculation, got %d" [ArgD numDrives]))
  else
    let candidates := filter (fun c => IsDriveContainer c = true /\ cst_Allocations (cn_Status c) <> None /\
                                len (allocated_drives c) = numDrives) containers in
    match sort_by (desc_then_name cn_CreationTimestamp cn_Name) candidates with
    | [] => Err (ErrDriveAllocationPending
              (Sprintf "drive allocation pending: no drive containers with %d allocated drives found yet" [ArgD numDrives]))
    | ref :: _ =>
        let nodeName := cst_NodeAffinity (cn_Status ref) in
        if decide (nodeName = "") then
          Err (HpErrorf (Sprintf "reference drive container %s has no node affinity in status" [ArgS (cn_Name ref)]))
        else
          match nodeDriveCapacityBySerial nodeName with
          | Err e => Err (HpErrorf e)
          | Ok capacityBySerial =>
              match sum_serials nodeName capacityBySerial (allocated_drives ref) 0 with
              | Err e => Err (HpErrorf e)
              | Ok perContainerGiB => Ok (perContainerGiB * numDriveContainers)
              end
          end
    end.

(** The raw capacity the compute hugepages are sized for. *)
Definition total_raw_capacity (cfg : OperatorConfig) (template : ClusterTemplate) (spec : ClusterSpec)
    (containers : list Container) : res hp_error Z :=
  if UsesClusterCapacity (csp_Dynamic spec) then
    match capacityGiB (default zero_template (csp_Dynamic spec)) with
    | Err e => Err (HpErrorf (Sprintf "clusterCapacity compute hugepages: %s" [ArgS e]))
    | Ok clusterCapGiB =>
        let '(sw, rl, hs) := EffectiveProtection (oc_DefaultStripeWidth cfg) (oc_DefaultRedundancyLevel cfg)
          (oc_DefaultHotSpare cfg) (csp_StripeWidth spec) (csp_RedundancyLevel spec) (csp_HotSpare spec) in
        Ok (RawCapacityGiB clusterCapGiB sw rl hs)
    end
  else if UsesAutoFullDrives (csp_Dynamic spec) then
    Err (ErrPlannerManagedComputeHugepages "auto full drives compute hugepages come from the planner's ComputeLayout via ComputeHugepagesFromPlan; GetContainerHugepages must not be used for planner-managed compute")
  else if decide (tpl_ContainerCapacity template > 0) then
    Ok (tpl_ContainerCapacity template * role_Drive (tpl_Containers template))
  else if decide (tpl_NumDrives template > 0 /\ tpl_DriveCapacity template > 0) then
    Ok (tpl_NumDrives template * tpl_DriveCapacity template * role_Drive (tpl_Containers template))
  else if decide (role_Drive (tpl_Containers template) > 0) then
    ComputeCapacityFromMostRecentDriveContainerAllocation containers (role_Drive (tpl_Containers template))
      (tpl_NumDrives template)
  else Err (HpErrorf "either containerCapacity or numDrives must be specified for dynamic template").

Definition calculateDynamicComputeHugepages (cfg : OperatorConfig) (template : ClusterTemplate)
    (spec : ClusterSpec) (containers : list Container) : res hp_error Z :=
  match total_raw_capacity cfg template spec containers with
  | Err e => Err e
  | Ok totalRawCapacityGiB =>
      if decide (totalRawCapacityGiB > 0) then
        Ok (ComputeCapacityBasedHugepages cfg totalRawCapacityGiB (role_Compute (tpl_Containers template))
              (role_Compute (tpl_Cores template)) (tpl_DriveTypesRatio template))
      else Ok (3000 * role_Compute (tpl_Cores template))
  end.

(** One case of the switch of [GetContainerHugepages]: the configured values, or the automatic ones, each
    with the flag that tells which. *)
Definition pick_hugepages (configured automatic : Z) : Z * bool :=
  if decide (configured > 0) then (configured, true) else (automatic, false).

(** The end of [GetContainerHugepages]: DPDK memory on top of the automatic values. *)
Definition add_dpdk (spec : ClusterSpec) (role : string) (hugepages offset : Z * bool) (numCores : Z) :
    ContainerHugepages :=
  let dpdk := GetDpdkBaseMemoryMbByRole spec role in
  let total := dpdk * numCores in {|
  hp_Mode := role;
  hp_Hugepages := if hugepages.2 then hugepages.1 else hugepages.1 + total;
  hp_HugepagesOffset := if offset.2 then offset.1 else offset.1 + total;
  hp_HugePageSize := "2Mi";
  hp_HugepagesUserSet := hugepages.2;
  hp_HugepagesOffsetUserSet := offset.2;
  hp_DpdkBaseMemoryMb := dpdk |}.

Definition GetContainerHugepages (cfg : OperatorConfig) (template : ClusterTemplate) (spec : ClusterSpec)
    (containers : list Container) (role : string) : res hp_error ContainerHugepages :=
  let t := default zero_template (csp_Dynamic spec) in
  let cores := tpl_Cores template in
  if decide (role = "envoy" \/ role = "telemetry") then
    Ok {| hp_Mode := role; hp_Hugepages := 0; hp_HugepagesOffset := 0; hp_HugePageSize := "2Mi";
          hp_HugepagesUserSet := false; hp_HugepagesOffsetUserSet := false; hp_DpdkBaseMemoryMb := 0 |}
  else if decide (role = "drive") then
    Ok (add_dpdk spec role (pick_hugepages (wt_DriveHugepages t) (CalculateDriveHugepages template))
          (pick_hugepages (wt_DriveHugepagesOffset t) (CalculateDriveHugepagesOffset template)) (role_Drive cores))
  else if decide (role = "compute") then
    let offset := pick_hugepages (wt_ComputeHugepagesOffset t) 200 in
    if decide (wt_ComputeHugepages t = 0) then
      match calculateDynamicComputeHugepages cfg template spec containers with
      | Err e => Err (hp_wrap "failed to calculate dynamic compute hugepages: " e)
      | Ok hpComputed => Ok (add_dpdk spec role (hpComputed, false) offset (role_Compute cores))
      end
    else Ok (add_dpdk spec role (wt_ComputeHugepages t, true) offset (role_Compute cores))
  else if decide (role = "s3") then
    Ok (add_dpdk spec role (pick_hugepages (wt_S3FrontendHugepages t) (1400 * role_S3 cores))
          (pick_hugepages (wt_S3FrontendHugepagesOffset t) 200) (role_S3 cores))
  else if decide (role = "nfs") then
    Ok (add_dpdk spec role (pick_hugepages (wt_NfsFrontendHugepages t) (1400 * role_Nfs cores))
          (pick_hugepages (wt_NfsFrontendHugepagesOffset t) 200) (role_Nfs cores))
  else if decide (role = "smbw") then
    Ok (add_dpdk spec role (pick_hugepages (wt_SmbwFrontendHugepages t) (1400 * role_Smbw cores))
          (pick_hugepages (wt_SmbwFrontendHugepagesOffset t) 200) (role_Smbw cores))
  else if decide (role = "data-services") then
    Ok (add_dpdk spec role (pick_hugepages (wt_DataServicesHugepages t) 1536)
          (pick_hugepages (wt_DataServicesHugepagesOffset t) 200) (role_DataServices cores))
  else Ok (add_dpdk spec role (0, false) (0, false) 0).

End compute_hugepages.

(** ** The formulas agree *)

(** The hugepages of a drive container: the template path and the planner path compute the same figures,
    and, unless they are configured, exactly the planner's formula, under which the node-fit gate reserves
    hugepages. *)
Theorem drive_hugepages_agree get_node capacityGiB cfg template spec containers hp :
  GetContainerHugepages get_node capacityGiB cfg template spec containers "drive" = Ok hp ->
  let t := default zero_template (csp_Dynamic spec) in
  let cons := ConstraintsForClusterSpec cfg spec in
  let cores := role_Drive (tpl_Cores template) in
  let planned := DriveHugepagesFromPlan spec cores (tpl_NumDrives template) in
  hp_Hugepages hp = hp_Hugepages planned /\ hp_HugepagesOffset hp = hp_HugepagesOffset planned /\
  (wt_DriveHugepages t <= 0 -> hp_Hugepages hp = DriveContainerHugepagesMiB cores (tpl_NumDrives template) cons) /\
  (wt_DriveHugepagesOffset t <= 0 ->
     hp_HugepagesOffset hp = DriveContainerHugepagesOffsetMiB cores (tpl_NumDrives template) cons).
Proof.
  unfold GetContainerHugepages. rewrite decide_False by naive_solver. rewrite decide_True by done.
  intros [= <-]. simpl.
  unfold pick_hugepages, CalculateDriveHugepages, CalculateDriveHugepagesOffset, DriveContainerHugepagesMiB,
    DriveContainerHugepagesOffsetMiB, driveHugepagesPerCoreMiB, DriveHugepagesPerCoreMiB, DriveHugepagesPerDriveMiB.
  simpl. change WekaContainerModeDrive with "drive". unfold default_HugepagesPerCoreMiB.
  repeat case_decide; simpl; split_and!; intros; try lia.
Qed.

(** The hugepages of a compute container: what the allocator computes for a raw capacity, with DPDK memory
    added, is the planner's estimate for the split of that capacity. *)
Theorem compute_hugepages_agree cfg spec total count cores ratio :
  0 < total ->
  let '(tlc, qlc) := GetTlcQlcCapacity total ratio in
  let cons := ConstraintsForClusterSpec cfg spec in
  ComputeCapacityBasedHugepages cfg total count cores ratio + GetDpdkBaseMemoryMbByRole spec "compute" * cores =
  ComputeContainerHugepagesMiB tlc qlc count cores cons.
Proof.
  intros Ht. destruct (GetTlcQlcCapacity total ratio) as [tlc qlc] eqn:E.
  unfold ComputeCapacityBasedHugepages, ComputeContainerHugepagesMiB, cap_even. rewrite E. simpl.
  change WekaContainerModeCompute with "compute". f_equal.
  assert (Hd : count > 0 /\ total > 0 <-> count > 0) by lia.
  rewrite (decide_ext _ _ _ _ Hd). done.
Qed.

(** More cores never need fewer hugepages, as long as the DPDK override is not negative. *)
Lemma DriveHugepagesFromPlan_mono spec cores cores' drives :
  0 <= GetDpdkBaseMemoryMbByRole spec "drive" -> cores <= cores' ->
  hp_Hugepages (DriveHugepagesFromPlan spec cores drives) <= hp_Hugepages (DriveHugepagesFromPlan spec cores' drives) /\
  hp_HugepagesOffset (DriveHugepagesFromPlan spec cores drives) <=
    hp_HugepagesOffset (DriveHugepagesFromPlan spec cores' drives).
Proof.
  intros Hd Hc. simpl. unfold DriveContainerHugepagesMiB, DriveContainerHugepagesOffsetMiB, driveHugepagesPerCoreMiB,
    DriveHugepagesPerCoreMiB, DriveHugepagesPerDriveMiB. simpl. change WekaContainerModeDrive with "drive".
  unfold default_HugepagesPerCoreMiB. split; repeat case_decide; nia.
Qed.
