(* ===== verification/Inventory.v ===== *)
(** * The inventory (internal/capacityplanner/inventory/collect.go)

    Builds the planner's inputs from Kubernetes: what every WekaContainer and every other pod already takes
    on each node, the free headroom of the nodes, the cluster's own containers, and the per-node detail the
    CLI prints. What the API server answers to a List is an argument. *)

From S2P Require Import Prelude Fmt Types Cpu Sizing Strategies VirtualDrives Api Nodes Templates.

(** ** Pods *)

(** The requests of a container: milli-CPUs, and bytes of memory and of 2Mi hugepages (0 when absent). *)
Record ResourceList := { rl_CpuMilli : Z; rl_Memory : Z; rl_Hugepages2Mi : Z }.

Record InitContainer := { ic_Requests : ResourceList; ic_RestartPolicy : option string }.

Record Pod := {
  pod_Namespace : string;
  pod_Name : string;
  pod_NodeName : string;
  pod_Phase : string;
  pod_Containers : list ResourceList;
  pod_InitContainers : list InitContainer;
}.

Definition zero_list : ResourceList := {| rl_CpuMilli := 0; rl_Memory := 0; rl_Hugepages2Mi := 0 |}.

Definition rl_add (a b : ResourceList) : ResourceList := {|
  rl_CpuMilli := rl_CpuMilli a + rl_CpuMilli b; rl_Memory := rl_Memory a + rl_Memory b;
  rl_Hugepages2Mi := rl_Hugepages2Mi a + rl_Hugepages2Mi b |}.

Definition rl_max (a b : ResourceList) : ResourceList := {|
  rl_CpuMilli := Z.max (rl_CpuMilli a) (rl_CpuMilli b); rl_Memory := Z.max (rl_Memory a) (rl_Memory b);
  rl_Hugepages2Mi := Z.max (rl_Hugepages2Mi a) (rl_Hugepages2Mi b) |}.

Definition is_sidecar (ic : InitContainer) : bool := bool_decide (ic_RestartPolicy ic = Some "Always").

(** Cores, hugepages and memory, the two latter in MiB. *)
Definition effectivePodResourceRequests (pod : Pod) : Z * Z * Z :=
  let regular := foldl rl_add zero_list (pod_Containers pod) in
  let '(sidecar, maxInit) :=
    foldl (fun '(sidecar, maxInit) ic =>
      if is_sidecar ic then (rl_add sidecar (ic_Requests ic), maxInit)
      else (sidecar, rl_max maxInit (ic_Requests ic))) (zero_list, zero_list) (pod_InitContainers pod) in
  let r := rl_max (rl_add regular sidecar) maxInit in
  ((rl_CpuMilli r + 999) `quot` 1000, rl_Hugepages2Mi r `quot` 2 ^ 20, rl_Memory r `quot` 2 ^ 20).

(** ** What the nodes already carry *)

(** Integer maps, where an absent key reads 0. *)
Definition at_key (m : gmap string Z) (k : string) : Z := default 0 (m !! k).
(** [m[k] += x]. *)
Definition add_at (k : string) (x : Z) (m : gmap string Z) : gmap string Z := <[k := at_key m k + x]> m.

Record nodeResources := {
  nr_tlc : gmap string Z; nr_qlc : gmap string Z; nr_cores : gmap string Z; nr_hugepages : gmap string Z;
  nr_memory : gmap string Z }.

Definition empty_resources : nodeResources :=
  {| nr_tlc := ∅; nr_qlc := ∅; nr_cores := ∅; nr_hugepages := ∅; nr_memory := ∅ |}.

Abbreviation podKey := (string * string)%type.
Definition containerPodKey (c : Container) : podKey := (cn_Namespace c, cn_Name c).
Definition pod_key (p : Pod) : podKey := (pod_Namespace p, pod_Name p).

Definition DriveContainerCapacities (c : Container) : Z * Z :=
  let s := cn_Spec c in
  if decide (cs_DriveCapacity s > 0) then (cs_DriveCapacity s * cs_NumDrives s, 0)
  else GetTlcQlcCapacity (cs_ContainerCapacity s) (cs_DriveTypesRatio s).

Definition spec2MiHugepages (c : Container) : Z :=
  let s := cn_Spec c in
  match NamedHugepages2MiMiB s with
  | Some named => named
  | None => if decide (cs_Hugepages s <= 0 \/ cs_HugepagesSize s = "1Gi") then 0 else cs_Hugepages s
  end.

Definition specHugepagesAndMemoryMiB (c : Container) (cons : CapacityConstraints) : Z * Z :=
  (spec2MiHugepages c, ComputeMemoryFootprintMiB (cs_NumCores (cn_Spec c)) cons).

Definition topo_of (topos : gmap string NodeCPUTopology) (node : string) : NodeCPUTopology :=
  default {| IsHt := false; FullPcpusOnly := false |} (topos !! node).

(** The switch of the loop body: the footprint of a container added on its node. *)
Definition charge_container (c : Container) (node : string) (cons : CapacityConstraints)
    (topos : gmap string NodeCPUTopology) (res : nodeResources) : nodeResources :=
  let cpu := CPURequestCores (cpu_spec (cn_Spec c)) (topo_of topos node) in
  if decide (mode c = WekaContainerModeDrive) then
    if negb (container_UsesDriveSharing c) then
      let '(hugepagesMiB, memoryMiB) := specHugepagesAndMemoryMiB c cons in {|
      nr_tlc := nr_tlc res; nr_qlc := nr_qlc res; nr_cores := add_at node cpu (nr_cores res);
      nr_hugepages := add_at node hugepagesMiB (nr_hugepages res);
      nr_memory := add_at node memoryMiB (nr_memory res) |}
    else
      let '(t, q) := DriveContainerCapacities c in
      let '(hugepagesMiB, memoryMiB) := RequiredDriveResources t q (cs_NumDrives (cn_Spec c)) cons in {|
      nr_tlc := add_at node t (nr_tlc res); nr_qlc := add_at node q (nr_qlc res);
      nr_cores := add_at node cpu (nr_cores res);
      nr_hugepages := add_at node hugepagesMiB (nr_hugepages res);
      nr_memory := add_at node memoryMiB (nr_memory res) |}
  else if decide (mode c = WekaContainerModeCompute) then
    let '(hugepagesMiB, memoryMiB) := specHugepagesAndMemoryMiB c cons in {|
    nr_tlc := nr_tlc res; nr_qlc := nr_qlc res; nr_cores := add_at node cpu (nr_cores res);
    nr_hugepages := add_at node hugepagesMiB (nr_hugepages res);
    nr_memory := add_at node memoryMiB (nr_memory res) |}
  else {|
    nr_tlc := nr_tlc res; nr_qlc := nr_qlc res; nr_cores := add_at node cpu (nr_cores res);
    nr_hugepages := add_at node (spec2MiHugepages c) (nr_hugepages res);
    nr_memory := nr_memory res |}.

(** The resources, and the keys of the pods of the containers that were charged. *)
Definition aggregateContainerResources (containers : list Container) (cons : CapacityConstraints)
    (topos : gmap string NodeCPUTopology) : nodeResources * gset podKey :=
  foldl (fun '(res, charged) c =>
    if IsMarkedForDeletion c then (res, charged)
    else
      let node := GetNodeAffinity c in
      if decide (node = "") then (res, charged)
      else (charge_container c node cons topos res, {[containerPodKey c]} ∪ charged))
    (empty_resources, ∅) containers.

(** The pods that hold resources of a node and are not the pod of a charged container. *)
Definition is_foreign (charged : gset podKey) (pod : Pod) : bool :=
  bool_decide (pod_NodeName pod <> "" /\ pod_Phase pod <> "Succeeded" /\ pod_Phase pod <> "Failed" /\
               pod_key pod ∉ charged).

Definition charge_pod (charged : gset podKey) (res : nodeResources) (pod : Pod) : nodeResources :=
  if is_foreign charged pod then
    let '(cpu, hugepagesMiB, memoryMiB) := effectivePodResourceRequests pod in {|
    nr_tlc := nr_tlc res; nr_qlc := nr_qlc res;
    nr_cores := add_at (pod_NodeName pod) cpu (nr_cores res);
    nr_hugepages := add_at (pod_NodeName pod) hugepagesMiB (nr_hugepages res);
    nr_memory := add_at (pod_NodeName pod) memoryMiB (nr_memory res) |}
  else res.

Definition chargeForeignPods (pods : res string (list Pod)) (res : nodeResources) (charged : gset podKey) :
    Prelude.res string nodeResources :=
  match pods with
  | Err e => Err (Sprintf "listing pods: %s" [ArgS e])
  | Ok pods => Ok (foldl (charge_pod charged) res pods)
  end.

Definition consumedNodeResources (pods : res string (list Pod)) (containers : list Container)
    (cons : CapacityConstraints) (topos : gmap string NodeCPUTopology) : res string nodeResources :=
  let '(res, charged) := aggregateContainerResources containers cons topos in
  match chargeForeignPods pods res charged with
  | Err e => Err (Sprintf "charging foreign pods: %s" [ArgS e])
  | Ok res => Ok res
  end.

(** Free CPU, hugepages and memory. *)
Definition nodeHeadroom_of (node : Node) (consumed : nodeResources) : Z * Z * Z :=
  (Z.max 0 (cpu_Value (n_AllocatableCpuMilli node) - at_key (nr_cores consumed) (n_Name node)),
   Z.max 0 (nodeAllocatableHugepagesMiB node - at_key (nr_hugepages consumed) (n_Name node)),
   Z.max 0 (nodeAllocatableMemoryMiB node - at_key (nr_memory consumed) (n_Name node))).

(** ** The cluster's own containers *)

Definition IsDeletingDriveContainer (c : Container) : bool :=
  bool_decide (mode c = WekaContainerModeDrive) && IsMarkedForDeletion c.

Definition nodesWithDeletingDriveContainer (ownContainers : list Container) : gset string :=
  foldl (fun out c =>
    if negb (IsDeletingDriveContainer c) then out
    else if decide (GetNodeAffinity c <> "") then {[GetNodeAffinity c]} ∪ out else out) ∅ ownContainers.

(** The entry of one container, if it is listed. *)
Definition existing_drive (fdConfig : option FailureDomain) (fdByNode : gmap string string) (c : Container) :
    option ExistingContainer :=
  if decide (mode c <> WekaContainerModeDrive) then None
  else if IsDeletingDriveContainer c then None
  else
    let node := GetNodeAffinity c in
    let fd := default "" (fdByNode !! node) in
    let fd := if decide (fd = "" /\ fdConfig = None) then node else fd in
    let '(tlcGiB, qlcGiB) := DriveContainerCapacities c in
    Some {| ec_Name := cn_Name c; ec_Node := node; ec_FDValue := fd; ec_TlcGiB := tlcGiB; ec_QlcGiB := qlcGiB;
            ec_NumCores := cs_NumCores (cn_Spec c);
            ec_Unscheduled := bool_decide (cst_NodeAffinity (cn_Status c) = "") |}.

Definition ExistingDrives (fdConfig : option FailureDomain) (ownContainers : list Container)
    (fdByNode : gmap string string) : list ExistingContainer :=
  omap (existing_drive fdConfig fdByNode) ownContainers.

Definition existing_compute (c : Container) : option ExistingComputeContainer :=
  if decide (mode c <> WekaContainerModeCompute) then None
  else if (IsUnhealthy c).1 then None
  else Some {| ecc_Name := cn_Name c; ecc_Node := GetNodeAffinity c; ecc_NumCores := cs_NumCores (cn_Spec c);
               ecc_HugepagesMiB := cs_Hugepages (cn_Spec c);
               ecc_Unscheduled := bool_decide (cst_NodeAffinity (cn_Status c) = "") |}.

Definition ExistingCompute (ownContainers : list Container) : list ExistingComputeContainer :=
  omap existing_compute ownContainers.

(** ** The node inventory *)

Definition sumSharedDriveCapacity (drives : list SharedDriveInfo) : Z * Z :=
  foldl (fun '(tlcGiB, qlcGiB) sd =>
    if decide (sd_Type sd = "TLC") then (tlcGiB + sd_CapacityGiB sd, qlcGiB)
    else if decide (sd_Type sd = "QLC") then (tlcGiB, qlcGiB + sd_CapacityGiB sd)
    else (tlcGiB, qlcGiB)) (0, 0) drives.

(** The loop body: the names listed so far, the inventory and the eligibility of the compute nodes. *)
Definition merge_step (acc : gset string * list NodeCapacity * gmap string bool) (nc : NodeCapacity) :
    gset string * list NodeCapacity * gmap string bool :=
  let '(index, inventory, computeNodes) := acc in
  let computeNodes := <[nc_NodeName nc := bool_decide (nc_IneligibleReason nc = "")]> computeNodes in
  if decide (nc_NodeName nc ∉ index)
  then ({[nc_NodeName nc]} ∪ index, inventory ++ [nc], computeNodes)
  else (index, inventory, computeNodes).

Definition mergeRoleNodes (driveInv computeInv : list NodeCapacity) : list NodeCapacity * gmap string bool :=
  let index : gset string := list_to_set (nc_NodeName <$> driveInv) in
  let '(_, inventory, computeNodes) := foldl merge_step (index, driveInv, ∅) computeInv in
  (inventory, computeNodes).

Section collector.
Context (ToleratesTaint : Toleration -> Taint -> bool) (tolerations : list Toleration) (cfg : OperatorConfig).
(** The answers of the API server: nodes by selector, all WekaContainers, all pods. *)
Context (list_nodes : gmap string string -> res string (list Node)).
Context (list_containers : res string (list Container)) (list_pods : res string (list Pod)).

Definition ListNodesForSelector (selector : gmap string string) : res string (list Node) :=
  match list_nodes selector with
  | Err e => Err (Sprintf "ListNodesForSelector: failed to list nodes: %s" [ArgS e])
  | Ok nodes => Ok nodes
  end.

Definition listRoleNodesAndTopos (spec : ClusterSpec) (errPrefix : string) :
    res string (list Node * list Node * gmap string NodeCPUTopology) :=
  let driveSelector := GetNodeSelectorForRole spec WekaContainerModeDrive in
  let computeSelector := GetNodeSelectorForRole spec WekaContainerModeCompute in
  match ListNodesForSelector driveSelector with
  | Err e => Err (Sprintf "%s: %s" [ArgS errPrefix; ArgS e])
  | Ok driveNodes =>
      let topos := buildNodeTopos (oc_FullPcpusOnly cfg) driveNodes in
      if decide (driveSelector = computeSelector) then Ok (driveNodes, driveNodes, topos)
      else
        match ListNodesForSelector computeSelector with
        | Err e => Err (Sprintf "%s: %s" [ArgS errPrefix; ArgS e])
        | Ok computeNodeList =>
            Ok (driveNodes, computeNodeList,
                foldl (fun m n => match m !! n_Name n with
                                  | Some _ => m
                                  | None => <[n_Name n := nodeCPUTopology (oc_FullPcpusOnly cfg) n]> m end)
                  topos computeNodeList)
        end
  end.

Definition listInventoryInputs (spec : ClusterSpec) (errPrefix : string) :
    res string (list Node * list Node * gmap string NodeCPUTopology * list Container) :=
  let? nodes := listRoleNodesAndTopos spec errPrefix in
  match list_containers with
  | Err e => Err (Sprintf "%s: listing weka containers: %s" [ArgS errPrefix; ArgS e])
  | Ok containers => Ok (nodes, containers)
  end.

(** The entry of a drive candidate. *)
Definition drive_entry (node : Node) (fdValue : string) (physTLC physQLC : Z) (consumed : nodeResources)
    (topos : gmap string NodeCPUTopology) (deleting : gset string) : NodeCapacity :=
  let '(cpu, hugepagesMiB, memoryMiB) := nodeHeadroom_of node consumed in
  let topo := topo_of topos (n_Name node) in {|
  nc_NodeName := n_Name node;
  nc_TlcGiB := Z.max 0 (physTLC - at_key (nr_tlc consumed) (n_Name node));
  nc_QlcGiB := Z.max 0 (physQLC - at_key (nr_qlc consumed) (n_Name node));
  nc_AllocatableCPU := cpu; nc_IsHt := IsHt topo; nc_FullPcpusOnly := FullPcpusOnly topo;
  nc_AvailableHugepagesMiB := hugepagesMiB; nc_AvailableMemoryMiB := memoryMiB; nc_FDValue := fdValue;
  nc_HasDeletingDriveContainer := bool_decide (n_Name node ∈ deleting);
  nc_IneligibleReason := NodeIneligibleReason ToleratesTaint (Some node) tolerations |}.

(** The loop over the drive nodes; [fdByNode] and [driveInv] are what it has built so far. *)
Fixpoint drive_candidates (fdConfig : option FailureDomain) (consumed : nodeResources)
    (topos : gmap string NodeCPUTopology) (deleting : gset string) (nodes : list Node)
    (fdByNode : gmap string string) (driveInv : list NodeCapacity) :
    res string (gmap string string * list NodeCapacity) :=
  match nodes with
  | [] => Ok (fdByNode, driveInv)
  | node :: nodes =>
      match resolveInventoryFDValue node fdConfig with
      | None => drive_candidates fdConfig consumed topos deleting nodes fdByNode driveInv
      | Some fdValue =>
          match parsed_info node with
          | Err e => Err (Sprintf "NodeInventory: reading node info for %q: %s" [ArgS (n_Name node); ArgS e])
          | Ok info =>
              let '(physTLC, physQLC) := sumSharedDriveCapacity (ni_SharedDrives info) in
              if decide (physTLC = 0 /\ physQLC = 0)
              then drive_candidates fdConfig consumed topos deleting nodes fdByNode driveInv
              else drive_candidates fdConfig consumed topos deleting nodes (<[n_Name node := fdValue]> fdByNode)
                     (driveInv ++ [drive_entry node fdValue physTLC physQLC consumed topos deleting])
          end
      end
  end.

(** The entry of a compute candidate, which has no drive capacity; [None] when the node is skipped. *)
Definition compute_entry (fdConfig : option FailureDomain) (consumed : nodeResources)
    (topos : gmap string NodeCPUTopology) (node : Node) : option NodeCapacity :=
  match resolveInventoryFDValue node fdConfig with
  | None => None
  | Some fdValue =>
      let '(cpu, hugepagesMiB, memoryMiB) := nodeHeadroom_of node consumed in
      let topo := topo_of topos (n_Name node) in
      Some {| nc_NodeName := n_Name node; nc_TlcGiB := 0; nc_QlcGiB := 0; nc_AllocatableCPU := cpu;
              nc_IsHt := IsHt topo; nc_FullPcpusOnly := FullPcpusOnly topo;
              nc_AvailableHugepagesMiB := hugepagesMiB; nc_AvailableMemoryMiB := memoryMiB;
              nc_FDValue := fdValue; nc_HasDeletingDriveContainer := false;
              nc_IneligibleReason := NodeIneligibleReason ToleratesTaint (Some node) tolerations |}
  end.

Definition nodeInventoryFromLists (spec : ClusterSpec) (ownContainers : list Container) (cons : CapacityConstraints)
    (driveNodes computeNodeList : list Node) (topos : gmap string NodeCPUTopology) (containers : list Container) :
    res string (gmap string string * list NodeCapacity * gmap string bool) :=
  let fdConfig := csp_FailureDomain spec in
  match consumedNodeResources list_pods containers cons topos with
  | Err e => Err (Sprintf "NodeInventory: %s" [ArgS e])
  | Ok consumed =>
      match drive_candidates fdConfig consumed topos (nodesWithDeletingDriveContainer ownContainers)
              driveNodes ∅ [] with
      | Err e => Err e
      | Ok (fdByNode, driveInv) =>
          let '(inventory, computeNodes) :=
            mergeRoleNodes driveInv (omap (compute_entry fdConfig consumed topos) computeNodeList) in
          Ok (fdByNode, inventory, computeNodes)
      end
  end.

Definition NodeInventory (spec : ClusterSpec) (ownContainers : list Container) (cons : CapacityConstraints) :
    res string (gmap string string * list NodeCapacity * gmap string bool) :=
  match listInventoryInputs spec "NodeInventory" with
  | Err e => Err e
  | Ok (driveNodes, computeNodeList, topos, containers) =>
      nodeInventoryFromLists spec ownContainers cons driveNodes computeNodeList topos containers
  end.

(** ** The detail of the nodes *)

Record Consumer := {
  con_Name : string; con_Namespace : string; con_Cluster : string; con_Role : string;
  con_TlcGiB : Z; con_QlcGiB : Z; con_Cores : Z; con_HugepagesMiB : Z; con_MemoryMiB : Z;
  con_NilRatio : bool; con_MarkedForDeletion : bool }.

Definition owningClusterName (c : Container) : string :=
  match list_find (fun ref => or_Kind ref = "WekaCluster") (cn_OwnerReferences c) with
  | Some (_, ref) => or_Name ref
  | None => ""
  end.

Definition consumerFrom (c : Container) (cons : CapacityConstraints) (topo : NodeCPUTopology) : Consumer :=
  let consumer tlc qlc cores hp mem nilRatio := {|
    con_Name := cn_Name c; con_Namespace := cn_Namespace c; con_Cluster := owningClusterName c;
    con_Role := mode c; con_TlcGiB := tlc; con_QlcGiB := qlc; con_Cores := cores; con_HugepagesMiB := hp;
    con_MemoryMiB := mem; con_NilRatio := nilRatio; con_MarkedForDeletion := IsMarkedForDeletion c |} in
  let cpu := CPURequestCores (cpu_spec (cn_Spec c)) topo in
  if decide (mode c = WekaContainerModeDrive) then
    if negb (container_UsesDriveSharing c) then
      let '(hp, mem) := specHugepagesAndMemoryMiB c cons in consumer 0 0 cpu hp mem false
    else
      let '(t, q) := DriveContainerCapacities c in
      let '(hp, mem) := RequiredDriveResources t q (cs_NumDrives (cn_Spec c)) cons in
      consumer t q cpu hp mem
        (bool_decide (cs_DriveCapacity (cn_Spec c) <= 0 /\ cs_DriveTypesRatio (cn_Spec c) = None))
  else if decide (mode c = WekaContainerModeCompute) then
    let '(hp, mem) := specHugepagesAndMemoryMiB c cons in consumer 0 0 cpu hp mem false
  else consumer 0 0 cpu (spec2MiHugepages c) 0 false.

(** The containers of a node, in the order of the list. *)
Definition consumers_on (allContainers : list Container) (cons : CapacityConstraints)
    (topos : gmap string NodeCPUTopology) (node : string) : list Consumer :=
  (fun c => consumerFrom c cons (topo_of topos node)) <$> filter (fun c => GetNodeAffinity c = node /\ node <> "") allContainers.

(** The serials already committed to a container of each node. *)
Definition allocatedNodeDrives (containers : list Container) : gmap string (gset string) :=
  foldl (fun out c =>
    match cst_Allocations (cn_Status c) with
    | None => out
    | Some a =>
        let node := GetNodeAffinity c in
        if decide (node = "") then out
        else
          let set := default ∅ (out !! node) in
          <[node := foldl (fun s vd => {[vd_PhysicalUUID vd]} ∪ s)
                      (foldl (fun s drive => {[drive]} ∪ s) set (ca_Drives a)) (ca_VirtualDrives a)]> out
    end) ∅ containers.

Definition filterAllocatedDrives (drives : list DriveEntry) (allocated : gset string) : list DriveEntry :=
  if decide (size allocated = 0%nat) then drives else filter (fun d => de_Serial d ∉ allocated) drives.

Definition selectDrivesBySerial (drives : list DriveEntry) (serials : gset string) : list DriveEntry :=
  if decide (size serials = 0%nat) then [] else filter (fun d => de_Serial d ∈ serials) drives.

Definition fullDriveCapacities (drives : list DriveEntry) : list Z := de_CapacityGiB <$> drives.

Definition sumFullDriveCapacity (drives : list DriveEntry) : Z :=
  foldl Z.add 0 (fullDriveCapacities drives).

Record NodeDetail := {
  nd_Node : string; nd_FDValue : string;
  nd_PhysTlcGiB : Z; nd_PhysQlcGiB : Z;
  nd_UsedTlcGiB : Z; nd_UsedQlcGiB : Z; nd_UsedCores : Z; nd_UsedHugepagesMiB : Z; nd_UsedMemoryMiB : Z;
  nd_AllocatableCores : Z; nd_AllocatableHugepagesMiB : Z; nd_AllocatableMemoryMiB : Z;
  nd_FreeTlcGiB : Z; nd_FreeQlcGiB : Z; nd_FreeCores : Z; nd_FreeHugepagesMiB : Z; nd_FreeMemoryMiB : Z;
  nd_HasDeletingDriveContainer : bool; nd_IsDriveCandidate : bool; nd_Consumers : list Consumer;
  nd_IneligibleReason : string; nd_Mode : string;
  nd_FreeFullDriveCount : Z; nd_PhysFullDriveCount : Z; nd_FreeFullTlcGiB : Z; nd_PhysFullTlcGiB : Z;
  nd_BlockedFullDriveCount : Z;
  nd_FreeFullDriveCapacitiesGiB : list Z; nd_ClaimedFullDriveCapacitiesGiB : list Z }.

(** The part of a detail that both views fill alike: what is physically there, what is used, what is
    allocatable, and the free amounts given. *)
Definition base_detail (node : Node) (fdValue : string) (physTLC physQLC : Z) (used : nodeResources)
    (free : Z * Z * Z * Z * Z) (deleting : bool) (consumers : list Consumer) : NodeDetail :=
  let '(freeTlc, freeQlc, freeCores, freeHp, freeMem) := free in {|
  nd_Node := n_Name node; nd_FDValue := fdValue; nd_PhysTlcGiB := physTLC; nd_PhysQlcGiB := physQLC;
  nd_UsedTlcGiB := at_key (nr_tlc used) (n_Name node); nd_UsedQlcGiB := at_key (nr_qlc used) (n_Name node);
  nd_UsedCores := at_key (nr_cores used) (n_Name node);
  nd_UsedHugepagesMiB := at_key (nr_hugepages used) (n_Name node);
  nd_UsedMemoryMiB := at_key (nr_memory used) (n_Name node);
  nd_AllocatableCores := cpu_Value (n_AllocatableCpuMilli node);
  nd_AllocatableHugepagesMiB := nodeAllocatableHugepagesMiB node;
  nd_AllocatableMemoryMiB := nodeAllocatableMemoryMiB node;
  nd_FreeTlcGiB := freeTlc; nd_FreeQlcGiB := freeQlc; nd_FreeCores := freeCores; nd_FreeHugepagesMiB := freeHp;
  nd_FreeMemoryMiB := freeMem; nd_HasDeletingDriveContainer := deleting;
  nd_IsDriveCandidate := bool_decide (physTLC > 0 \/ physQLC > 0); nd_Consumers := consumers;
  nd_IneligibleReason := ""; nd_Mode := "";
  nd_FreeFullDriveCount := 0; nd_PhysFullDriveCount := 0; nd_FreeFullTlcGiB := 0; nd_PhysFullTlcGiB := 0;
  nd_BlockedFullDriveCount := 0; nd_FreeFullDriveCapacitiesGiB := []; nd_ClaimedFullDriveCapacitiesGiB := [] |}.

(** Phys or allocatable minus used, clamped at 0. *)
Definition free_amounts (node : Node) (physTLC physQLC : Z) (used : nodeResources) : Z * Z * Z * Z * Z :=
  (Z.max 0 (physTLC - at_key (nr_tlc used) (n_Name node)),
   Z.max 0 (physQLC - at_key (nr_qlc used) (n_Name node)),
   Z.max 0 (cpu_Value (n_AllocatableCpuMilli node) - at_key (nr_cores used) (n_Name node)),
   Z.max 0 (nodeAllocatableHugepagesMiB node - at_key (nr_hugepages used) (n_Name node)),
   Z.max 0 (nodeAllocatableMemoryMiB node - at_key (nr_memory used) (n_Name node))).

(** The physical shared-drive capacity, 0 when the node's annotations do not parse. *)
Definition phys_capacity (node : Node) : Z * Z :=
  match parsed_info node with
  | Ok info => sumSharedDriveCapacity (ni_SharedDrives info)
  | Err _ => (0, 0)
  end.

(** The first node of each name. *)
Fixpoint dedup_nodes (seen : gset string) (nodes : list Node) : list Node :=
  match nodes with
  | [] => []
  | node :: nodes =>
      if decide (n_Name node ∈ seen) then dedup_nodes seen nodes
      else node :: dedup_nodes ({[n_Name node]} ∪ seen) nodes
  end.

Definition nodeDetailsFromLists (spec : ClusterSpec) (ownContainers : list Container) (cons : CapacityConstraints)
    (inv : list NodeCapacity) (fdByNode : gmap string string) (driveNodes computeNodeList : list Node)
    (topos : gmap string NodeCPUTopology) (allContainers : list Container) : list NodeDetail :=
  let deleting := nodesWithDeletingDriveContainer ownContainers in
  let invByNode := foldl (fun m nc => <[nc_NodeName nc := nc]> m) (∅ : gmap string NodeCapacity) inv in
  let nodes :=
    if decide (GetNodeSelectorForRole spec WekaContainerModeDrive = GetNodeSelectorForRole spec WekaContainerModeCompute)
    then driveNodes else driveNodes ++ computeNodeList in
  let used := (aggregateContainerResources allContainers cons topos).1 in
  (fun node =>
     let '(physTLC, physQLC) := phys_capacity node in
     let fdValue := default "" (fdByNode !! n_Name node) in
     let fdValue := if decide (fdValue = "")
                    then default "" (resolveInventoryFDValue node (csp_FailureDomain spec)) else fdValue in
     let free := match invByNode !! n_Name node with
                 | Some nc => (nc_TlcGiB nc, nc_QlcGiB nc, nc_AllocatableCPU nc, nc_AvailableHugepagesMiB nc,
                               nc_AvailableMemoryMiB nc)
                 | None => free_amounts node physTLC physQLC used
                 end in
     base_detail node fdValue physTLC physQLC used free (bool_decide (n_Name node ∈ deleting))
       (consumers_on allContainers cons topos (n_Name node))) <$> dedup_nodes ∅ nodes.

(** The detail of one explored node. *)
Definition explore_node (allContainers : list Container) (cons : CapacityConstraints)
    (topos : gmap string NodeCPUTopology) (node : Node) (fdValue : string) (baseTolerations : list Toleration) :
    NodeDetail :=
  let used := (aggregateContainerResources allContainers cons topos).1 in
  let allocated := default ∅ (allocatedNodeDrives allContainers !! n_Name node) in
  let info := (ParseAllocatorNodeInfo node).1 in
  let '(physTLC, physQLC) := phys_capacity node in
  let total := match parsed_info node with Ok info => ni_AvailableDrives info | Err _ => [] end in
  let free := filterAllocatedDrives total allocated in
  let claimed := selectDrivesBySerial total allocated in
  let d := base_detail node fdValue physTLC physQLC used (free_amounts node physTLC physQLC used) false
             (consumers_on allContainers cons topos (n_Name node)) in {|
  nd_Node := nd_Node d; nd_FDValue := nd_FDValue d; nd_PhysTlcGiB := nd_PhysTlcGiB d; nd_PhysQlcGiB := nd_PhysQlcGiB d;
  nd_UsedTlcGiB := nd_UsedTlcGiB d; nd_UsedQlcGiB := nd_UsedQlcGiB d; nd_UsedCores := nd_UsedCores d;
  nd_UsedHugepagesMiB := nd_UsedHugepagesMiB d; nd_UsedMemoryMiB := nd_UsedMemoryMiB d;
  nd_AllocatableCores := nd_AllocatableCores d; nd_AllocatableHugepagesMiB := nd_AllocatableHugepagesMiB d;
  nd_AllocatableMemoryMiB := nd_AllocatableMemoryMiB d; nd_FreeTlcGiB := nd_FreeTlcGiB d;
  nd_FreeQlcGiB := nd_FreeQlcGiB d; nd_FreeCores := nd_FreeCores d; nd_FreeHugepagesMiB := nd_FreeHugepagesMiB d;
  nd_FreeMemoryMiB := nd_FreeMemoryMiB d; nd_HasDeletingDriveContainer := nd_HasDeletingDriveContainer d;
  nd_IsDriveCandidate := nd_IsDriveCandidate d; nd_Consumers := nd_Consumers d;
  nd_IneligibleReason := NodeIneligibleReason ToleratesTaint (Some node) baseTolerations;
  nd_Mode := if decide (physTLC > 0 \/ physQLC > 0) then "shared" else if decide (len total > 0) then "full" else "-";
  nd_FreeFullDriveCount := len free; nd_PhysFullDriveCount := len total;
  nd_FreeFullTlcGiB := sumFullDriveCapacity free; nd_PhysFullTlcGiB := sumFullDriveCapacity total;
  nd_BlockedFullDriveCount := ani_BlockedDriveCount info;
  nd_FreeFullDriveCapacitiesGiB := SortDriveCapacitiesDesc (fullDriveCapacities free);
  nd_ClaimedFullDriveCapacitiesGiB := SortDriveCapacitiesDesc (fullDriveCapacities claimed) |}.

Definition ExploreNodes (selector : gmap string string) (fdConfig : option FailureDomain)
    (cons : CapacityConstraints) (baseTolerations : list Toleration) : res string (list NodeDetail) :=
  match ListNodesForSelector selector with
  | Err e => Err (Sprintf "ExploreNodes: %s" [ArgS e])
  | Ok nodes =>
      match list_containers with
      | Err e => Err (Sprintf "ExploreNodes: listing weka containers: %s" [ArgS e])
      | Ok allContainers =>
          let topos := buildNodeTopos (oc_FullPcpusOnly cfg) nodes in
          Ok (omap (fun node =>
            match resolveInventoryFDValue node fdConfig with
            | None => None
            | Some fdValue => Some (explore_node allContainers cons topos node fdValue baseTolerations)
            end) nodes)
      end
  end.

(** [Result], the planner inputs and the detail. *)
Record CollectResult := {
  col_Inventory : list NodeCapacity; col_ExistingDrives : list ExistingContainer;
  col_ExistingCompute : list ExistingComputeContainer; col_FDByNode : gmap string string;
  col_ComputeNodes : gmap string bool; col_Nodes : list NodeDetail }.

Definition Collect (spec : ClusterSpec) (ownContainers : list Container) (cons : CapacityConstraints) :
    res string CollectResult :=
  match listInventoryInputs spec "Collect" with
  | Err e => Err e
  | Ok (driveNodes, computeNodeList, topos, containers) =>
      match nodeInventoryFromLists spec ownContainers cons driveNodes computeNodeList topos containers with
      | Err e => Err e
      | Ok (fdByNode, inv, computeNodes) =>
          Ok {| col_Inventory := inv;
                col_ExistingDrives := ExistingDrives (csp_FailureDomain spec) ownContainers fdByNode;
                col_ExistingCompute := ExistingCompute ownContainers; col_FDByNode := fdByNode;
                col_ComputeNodes := computeNodes;
                col_Nodes := nodeDetailsFromLists spec ownContainers cons inv fdByNode driveNodes computeNodeList
                               topos containers |}
      end
  end.

End collector.
