(* ===== verification/InventoryFacts.v ===== *)
(** * Theorems on the inventory

    What the inventory charges to a node is exactly the footprint of the live containers and of the foreign
    pods there; its entries are distinct, sound nodes; and a plan made from it never gives out drive
    capacity that a node does not have. *)

From S2P Require Import Prelude Fmt Types Cpu Sizing NodeState Strategies VirtualDrives.
From S2P Require Import Planner Scenarios Correctness Api Nodes Templates Inventory.

(** ** Resource axes *)

Inductive axis := ax_tlc | ax_qlc | ax_cores | ax_hugepages | ax_memory.

Definition nr_at (a : axis) (r : nodeResources) : gmap string Z :=
  match a with ax_tlc => nr_tlc r | ax_qlc => nr_qlc r | ax_cores => nr_cores r
             | ax_hugepages => nr_hugepages r | ax_memory => nr_memory r end.

Definition con_at (a : axis) (c : Consumer) : Z :=
  match a with ax_tlc => con_TlcGiB c | ax_qlc => con_QlcGiB c | ax_cores => con_Cores c
             | ax_hugepages => con_HugepagesMiB c | ax_memory => con_MemoryMiB c end.

Definition pod_at (a : axis) (p : Pod) : Z :=
  match a with ax_tlc | ax_qlc => 0 | ax_cores => (effectivePodResourceRequests p).1.1
             | ax_hugepages => (effectivePodResourceRequests p).1.2
             | ax_memory => (effectivePodResourceRequests p).2 end.

Lemma at_key_add_at m k k' x : at_key (add_at k x m) k' = at_key m k' + (if decide (k = k') then x else 0).
Proof.
  unfold at_key, add_at. rewrite lookup_insert. case_decide as Hk; simpl; [|lia]. by rewrite <- Hk.
Qed.

Lemma charge_container_at a c node cons topos r n :
  at_key (nr_at a (charge_container c node cons topos r)) n =
  at_key (nr_at a r) n + (if decide (node = n) then con_at a (consumerFrom c cons (topo_of topos node)) else 0).
Proof.
  unfold charge_container, consumerFrom.
  destruct (specHugepagesAndMemoryMiB c cons) as [hp mem], (DriveContainerCapacities c) as [t q].
  destruct (RequiredDriveResources t q (cs_NumDrives (cn_Spec c)) cons) as [hp' mem'].
  repeat case_decide; destruct (container_UsesDriveSharing c); destruct a; simpl; rewrite ?at_key_add_at;
    split_decide; try lia; congruence.
Qed.

Lemma charge_pod_at a charged r p n :
  at_key (nr_at a (charge_pod charged r p)) n =
  at_key (nr_at a r) n + (if is_foreign charged p then if decide (pod_NodeName p = n) then pod_at a p else 0 else 0).
Proof.
  unfold charge_pod. destruct (is_foreign charged p); [|lia].
  destruct (effectivePodResourceRequests p) as [[cpu hp] mem] eqn:E.
  destruct a; simpl; rewrite ?at_key_add_at, ?E; split_decide; simpl; lia.
Qed.

(** ** What is charged *)

(** The live containers of a node. *)
Definition live_on (n : string) (containers : list Container) : list Container :=
  filter (fun c => IsMarkedForDeletion c = false /\ GetNodeAffinity c = n) containers.

(** The keys of the pods of the live, placed containers. *)
Definition charged_keys (containers : list Container) : gset podKey :=
  list_to_set (containerPodKey <$> filter (fun c => IsMarkedForDeletion c = false /\ GetNodeAffinity c <> "") containers).

Definition footprint (a : axis) (cons : CapacityConstraints) (topos : gmap string NodeCPUTopology) (c : Container) : Z :=
  con_at a (consumerFrom c cons (topo_of topos (GetNodeAffinity c))).

Lemma footprint_on a cons topos n c :
  GetNodeAffinity c = n -> con_at a (consumerFrom c cons (topo_of topos n)) = footprint a cons topos c.
Proof. by intros <-. Qed.

(** The loop over the containers, from any state. *)
Lemma aggregate_loop a cons topos n containers r charged :
  n <> "" ->
  let '(r', charged') := foldl (fun '(res, charged) c =>
    if IsMarkedForDeletion c then (res, charged)
    else
      let node := GetNodeAffinity c in
      if decide (node = "") then (res, charged)
      else (charge_container c node cons topos res, {[containerPodKey c]} ∪ charged))
    (r, charged) containers in
  at_key (nr_at a r') n = at_key (nr_at a r) n + sumZ (footprint a cons topos <$> live_on n containers) /\
  charged' = charged_keys containers ∪ charged.
Proof.
  intros Hn. revert r charged. induction containers as [|c l IH]; intros r charged; simpl.
  { split; [lia|set_solver]. }
  unfold live_on, charged_keys in *. rewrite !filter_cons.
  destruct (IsMarkedForDeletion c) eqn:Hd.
  { rewrite !decide_False by naive_solver. apply IH. }
  destruct (decide (GetNodeAffinity c = "")) as [He|He].
  { rewrite !decide_False by (rewrite He; naive_solver). apply IH. }
  specialize (IH (charge_container c (GetNodeAffinity c) cons topos r) ({[containerPodKey c]} ∪ charged)).
  destruct (foldl _ _ l) as [r' charged']. destruct IH as [-> ->]. rewrite charge_container_at.
  rewrite (decide_True (P := false = false /\ GetNodeAffinity c <> "")) by done. split; [|set_solver].
  destruct (decide (GetNodeAffinity c = n)) as [Hcn|Hcn].
  - rewrite decide_True, fmap_cons, sumZ_cons, (footprint_on a cons topos _ c eq_refl) by done. lia.
  - rewrite decide_False by naive_solver. lia.
Qed.

Lemma aggregate_spec a cons topos n containers :
  n <> "" ->
  let '(r, charged) := aggregateContainerResources containers cons topos in
  at_key (nr_at a r) n = sumZ (footprint a cons topos <$> live_on n containers) /\ charged = charged_keys containers.
Proof.
  intros Hn. unfold aggregateContainerResources.
  pose proof (aggregate_loop a cons topos n containers empty_resources ∅ Hn) as H.
  destruct (foldl _ _ _) as [r charged]. destruct H as [-> ->]. split; [|set_solver].
  destruct a; unfold at_key; simpl; rewrite lookup_empty; simpl; lia.
Qed.

(** The pods of a node that no live container accounts for. *)
Definition foreign_on (n : string) (containers : list Container) (pods : list Pod) : list Pod :=
  filter (fun p => is_foreign (charged_keys containers) p = true /\ pod_NodeName p = n) pods.

Lemma charge_pods_spec a charged n pods r :
  at_key (nr_at a (foldl (charge_pod charged) r pods)) n =
  at_key (nr_at a r) n + sumZ (pod_at a <$> filter (fun p => is_foreign charged p = true /\ pod_NodeName p = n) pods).
Proof.
  revert r. induction pods as [|p pods IH]; intros r; simpl; [lia|].
  rewrite IH, charge_pod_at, filter_cons. destruct (is_foreign charged p); [|rewrite decide_False by naive_solver; lia].
  destruct (decide (pod_NodeName p = n)); [rewrite decide_True, fmap_cons, sumZ_cons by done|rewrite decide_False by naive_solver]; lia.
Qed.

(** What the inventory takes as used on a node. *)
Definition used_on (a : axis) (cons : CapacityConstraints) (topos : gmap string NodeCPUTopology)
    (containers : list Container) (pods : list Pod) (n : string) : Z :=
  sumZ (footprint a cons topos <$> live_on n containers) + sumZ (pod_at a <$> foreign_on n containers pods).

Lemma consumed_used a cons topos containers pods r n :
  n <> "" -> consumedNodeResources (Ok pods) containers cons topos = Ok r ->
  at_key (nr_at a r) n = used_on a cons topos containers pods n.
Proof.
  intros Hn. unfold consumedNodeResources, chargeForeignPods.
  pose proof (aggregate_spec a cons topos n containers Hn) as H.
  destruct (aggregateContainerResources containers cons topos) as [r0 charged]. destruct H as [H ->].
  intros [= <-]. rewrite charge_pods_spec, H. done.
Qed.

(** ** The entries *)

(** What the planner sees of the shared drives of a node. *)
Definition phys_at (p : poolKind) (node : Node) : Z :=
  match p with poolTLC => (phys_capacity node).1 | poolQLC => (phys_capacity node).2 end.
Definition pool_axis (p : poolKind) : axis := match p with poolTLC => ax_tlc | poolQLC => ax_qlc end.
Definition nc_pool (p : poolKind) (c : NodeCapacity) : Z :=
  match p with poolTLC => nc_TlcGiB c | poolQLC => nc_QlcGiB c end.

Section entries.
Context (ToleratesTaint : Toleration -> Taint -> bool) (tolerations : list Toleration).
Context (fdConfig : option FailureDomain) (consumed : nodeResources) (topos : gmap string NodeCPUTopology).
Context (deleting : gset string).

Abbreviation drive_entry' := (drive_entry ToleratesTaint tolerations).
Abbreviation compute_entry' := (compute_entry ToleratesTaint tolerations fdConfig consumed topos).
Abbreviation drive_candidates' := (drive_candidates ToleratesTaint tolerations fdConfig consumed topos deleting).

(** The entry of a node that is a drive candidate. *)
Definition candidate (node : Node) : option NodeCapacity :=
  fd ← resolveInventoryFDValue node fdConfig;
  if decide (phys_capacity node = (0, 0)) then None
  else Some (drive_entry' node fd (phys_at poolTLC node) (phys_at poolQLC node) consumed topos deleting).

Lemma candidate_name node c : candidate node = Some c -> nc_NodeName c = n_Name node.
Proof.
  unfold candidate. destruct (resolveInventoryFDValue node fdConfig) as [fd|]; simpl; [|done].
  case_decide; [done|]. by intros [= <-].
Qed.

(** The loop lists the candidates in order, and records the failure domain of each. *)
Lemma drive_candidates_spec nodes fds inv fds' inv' :
  drive_candidates' nodes fds inv = Ok (fds', inv') ->
  inv' = inv ++ omap candidate nodes /\
  (forall n, n ∉ nc_NodeName <$> omap candidate nodes -> fds' !! n = fds !! n) /\
  (NoDup (n_Name <$> nodes) ->
   forall c, c ∈ omap candidate nodes -> fds' !! nc_NodeName c = Some (nc_FDValue c)).
Proof.
  revert fds inv. induction nodes as [|node nodes IH]; intros fds inv; simpl.
  { intros [= <- <-]. split_and!; [by rewrite app_nil_r|done|set_solver]. }
  assert (Hskip : candidate node = None -> drive_candidates' nodes fds inv = Ok (fds', inv') ->
    inv' = inv ++ omap candidate nodes /\
    (forall n, n ∉ nc_NodeName <$> omap candidate nodes -> fds' !! n = fds !! n) /\
    (NoDup (n_Name node :: (n_Name <$> nodes)) ->
     forall c, c ∈ omap candidate nodes -> fds' !! nc_NodeName c = Some (nc_FDValue c))).
  { intros _ (H1 & H2 & H3)%IH. split_and!; [done..|]. intros [_ Hnd]%NoDup_cons. by apply H3. }
  destruct (candidate node) as [c0|] eqn:Hcand; pose proof Hcand as Hname;
    unfold candidate, phys_at, phys_capacity in Hcand;
    destruct (resolveInventoryFDValue node fdConfig) as [fd|] eqn:Hfd; simpl in *; try done; try by apply Hskip.
  all: destruct (parsed_info node) as [info|e]; [|done].
  all: destruct (sumSharedDriveCapacity (ni_SharedDrives info)) as [t q]; simpl in *.
  2:{ case_decide; [|done]. rewrite decide_True by naive_solver. by apply Hskip. }
  case_decide; [done|]. rewrite decide_False by naive_solver. simplify_eq. intros (H1 & H2 & H3)%IH. split_and!.
  - by rewrite H1, <- app_assoc.
  - intros n Hn. rewrite not_elem_of_cons in Hn. rewrite H2 by naive_solver.
    rewrite lookup_insert_ne; [done|naive_solver].
  - intros [Hn Hnd]%NoDup_cons c. rewrite elem_of_cons. intros [->|Hc]; [|by apply H3]. simpl.
    rewrite H2; [by rewrite lookup_insert_eq|]. intros (c & Hc & Hin)%list_elem_of_fmap.
    apply list_elem_of_omap in Hin as (node' & Hin & Hcand'). apply candidate_name in Hcand'.
    apply Hn. rewrite Hc, Hcand'. apply list_elem_of_fmap_2, Hin.
Qed.
End entries.

(** ** Merging the two roles *)

(** Every entry of the result is an entry given to the loop, the names are those of both lists, once each,
    and the last compute entry of a name decides whether new compute may go there. *)
Lemma merge_loop computeInv index inv cn :
  index = list_to_set (nc_NodeName <$> inv) -> NoDup (nc_NodeName <$> inv) ->
  let '(index', inv', cn') := foldl merge_step (index, inv, cn) computeInv in
  (exists extra, inv' = inv ++ extra /\ extra ⊆ computeInv) /\ NoDup (nc_NodeName <$> inv') /\
  (forall n, n ∈ nc_NodeName <$> inv' <-> n ∈ nc_NodeName <$> inv \/ n ∈ nc_NodeName <$> computeInv) /\
  (forall n, n ∉ nc_NodeName <$> computeInv -> cn' !! n = cn !! n) /\
  (NoDup (nc_NodeName <$> computeInv) ->
   forall c, c ∈ computeInv -> cn' !! nc_NodeName c = Some (bool_decide (nc_IneligibleReason c = ""))).
Proof.
  revert index inv cn. induction computeInv as [|c l IH]; intros index inv cn Hi Hnd; simpl.
  { split_and!; try set_solver. exists []. by rewrite app_nil_r. }
  set (cn1 := <[nc_NodeName c := _]> cn).
  assert (Hcn : forall cn' : gmap string bool, (forall n, n ∉ nc_NodeName <$> l -> cn' !! n = cn1 !! n) ->
    (NoDup (nc_NodeName <$> l) ->
       forall c, c ∈ l -> cn' !! nc_NodeName c = Some (bool_decide (nc_IneligibleReason c = ""))) ->
    (forall n, n ∉ nc_NodeName c :: (nc_NodeName <$> l) -> cn' !! n = cn !! n) /\
    (NoDup (nc_NodeName c :: (nc_NodeName <$> l)) ->
       forall c', c' ∈ c :: l -> cn' !! nc_NodeName c' = Some (bool_decide (nc_IneligibleReason c' = "")))).
  { intros cn' H1 H2. split.
    - intros n Hn. rewrite not_elem_of_cons in Hn. rewrite H1 by naive_solver. apply lookup_insert_ne. naive_solver.
    - intros [Hn Hnd']%NoDup_cons c' [->|Hin]%elem_of_cons; [|by apply H2].
      rewrite H1 by done. apply lookup_insert_eq. }
  case_decide as Hin.
  - specialize (IH ({[nc_NodeName c]} ∪ index) (inv ++ [c]) cn1).
    destruct (foldl merge_step _ l) as [[index' inv'] cn'].
    destruct IH as ((extra & -> & Hsub) & H2 & H3 & H4 & H5); [rewrite fmap_app; set_solver| |].
    { rewrite fmap_app. apply NoDup_app. split_and!; [done|set_solver|by apply NoDup_singleton]. }
    split_and!; [|done| |by apply Hcn..].
    + exists (c :: extra). rewrite <- app_assoc. set_solver.
    + intros n. rewrite H3. rewrite fmap_app, elem_of_app. set_solver.
  - specialize (IH index inv cn1). destruct (foldl merge_step _ l) as [[index' inv'] cn'].
    destruct IH as ((extra & -> & Hsub) & H2 & H3 & H4 & H5); [done..|].
    split_and!; [|done| |by apply Hcn..]; [exists extra; set_solver|].
    intros n. rewrite H3. set_solver.
Qed.

Lemma mergeRoleNodes_spec driveInv computeInv inv cn :
  NoDup (nc_NodeName <$> driveInv) -> mergeRoleNodes driveInv computeInv = (inv, cn) ->
  (exists extra, inv = driveInv ++ extra /\ extra ⊆ computeInv) /\ NoDup (nc_NodeName <$> inv) /\
  (forall n, n ∈ nc_NodeName <$> inv <-> n ∈ nc_NodeName <$> driveInv \/ n ∈ nc_NodeName <$> computeInv) /\
  (forall n, n ∉ nc_NodeName <$> computeInv -> cn !! n = None) /\
  (NoDup (nc_NodeName <$> computeInv) ->
   forall c, c ∈ computeInv -> cn !! nc_NodeName c = Some (bool_decide (nc_IneligibleReason c = ""))).
Proof.
  intros Hnd. unfold mergeRoleNodes. pose proof (merge_loop computeInv _ driveInv ∅ eq_refl Hnd) as H.
  destruct (foldl merge_step _ computeInv) as [[index' inv'] cn']. intros [= <- <-].
  destruct H as (H1 & H2 & H3 & H4 & H5). auto.
Qed.

(** Mapping a list of nodes of distinct names to entries of their names gives entries of distinct names. *)
Lemma NoDup_omap_names (f : Node -> option NodeCapacity) nodes :
  (forall node c, f node = Some c -> nc_NodeName c = n_Name node) ->
  NoDup (n_Name <$> nodes) -> NoDup (nc_NodeName <$> omap f nodes).
Proof.
  intros Hf. induction nodes as [|node nodes IH]; simpl; [constructor|].
  intros [Hn Hnd]%NoDup_cons. destruct (f node) as [c|] eqn:Hc; [|by apply IH].
  simpl. constructor; [|by apply IH]. rewrite (Hf _ _ Hc). intros (c' & Hn' & Hin)%list_elem_of_fmap.
  apply list_elem_of_omap in Hin as (node' & Hin & Hc'). apply Hn. rewrite Hn', (Hf _ _ Hc').
  by apply list_elem_of_fmap_2.
Qed.

(** ** The node inventory *)

(** The capacity of a pool that the live drive-sharing containers of a node claim. *)
Definition claims (n : string) (c : Container) : bool :=
  bool_decide (IsMarkedForDeletion c = false /\ GetNodeAffinity c = n /\ mode c = WekaContainerModeDrive /\
               container_UsesDriveSharing c = true).
Definition container_pool (p : poolKind) (c : Container) : Z :=
  match p with poolTLC => (DriveContainerCapacities c).1 | poolQLC => (DriveContainerCapacities c).2 end.
Definition claimed (p : poolKind) (containers : list Container) (n : string) : Z :=
  sumZ (container_pool p <$> filter (fun c => claims n c = true) containers).

Lemma footprint_pool p cons topos c :
  footprint (pool_axis p) cons topos c =
  if decide (mode c = WekaContainerModeDrive /\ container_UsesDriveSharing c = true) then container_pool p c else 0.
Proof.
  unfold footprint, consumerFrom, container_pool.
  destruct (specHugepagesAndMemoryMiB c cons) as [hp mem], (DriveContainerCapacities c) as [t q].
  destruct (RequiredDriveResources t q (cs_NumDrives (cn_Spec c)) cons) as [hp' mem'].
  destruct (container_UsesDriveSharing c), p; simpl; split_decide; simpl; naive_solver.
Qed.

Lemma used_on_claimed p cons topos containers pods n :
  used_on (pool_axis p) cons topos containers pods n = claimed p containers n.
Proof.
  unfold used_on, claimed, live_on. replace (sumZ (pod_at (pool_axis p) <$> _)) with 0.
  2:{ induction (foreign_on n containers pods) as [|x l IH]; [done|]. rewrite fmap_cons, sumZ_cons, <- IH. by destruct p. }
  rewrite Z.add_0_r. induction containers as [|c l IH]; [done|]. rewrite !filter_cons.
  case_decide as H1; case_decide as H2; rewrite ?fmap_cons, ?sumZ_cons, IH, ?footprint_pool;
    unfold claims in H2; rewrite bool_decide_eq_true in H2.
  - rewrite decide_True by naive_solver. done.
  - rewrite decide_False by naive_solver. done.
  - naive_solver.
  - done.
Qed.

(** The loop of the inventory: what an entry says of its node. *)
Record entry_of (ToleratesTaint : Toleration -> Taint -> bool) (tolerations : list Toleration)
    (cons : CapacityConstraints) (topos : gmap string NodeCPUTopology) (containers : list Container)
    (pods : list Pod) (drive : bool) (node : Node) (c : NodeCapacity) : Prop := {
  eo_name : nc_NodeName c = n_Name node;
  eo_cpu : nc_AllocatableCPU c =
    Z.max 0 (cpu_Value (n_AllocatableCpuMilli node) - used_on ax_cores cons topos containers pods (n_Name node));
  eo_hugepages : nc_AvailableHugepagesMiB c =
    Z.max 0 (nodeAllocatableHugepagesMiB node - used_on ax_hugepages cons topos containers pods (n_Name node));
  eo_memory : nc_AvailableMemoryMiB c =
    Z.max 0 (nodeAllocatableMemoryMiB node - used_on ax_memory cons topos containers pods (n_Name node));
  eo_pool p : nc_pool p c =
    if drive then Z.max 0 (phys_at p node - claimed p containers (n_Name node)) else 0;
  eo_reason : nc_IneligibleReason c = NodeIneligibleReason ToleratesTaint (Some node) tolerations }.

Lemma entry_node_ok ToleratesTaint tolerations cons topos containers pods drive node c :
  entry_of ToleratesTaint tolerations cons topos containers pods drive node c -> node_ok (init_state c).
Proof.
  intros He. pose proof (eo_pool _ _ _ _ _ _ _ _ _ He poolTLC) as Ht.
  pose proof (eo_pool _ _ _ _ _ _ _ _ _ He poolQLC) as Hq. simpl in Ht, Hq.
  unfold node_ok. simpl. rewrite (eo_cpu _ _ _ _ _ _ _ _ _ He), (eo_hugepages _ _ _ _ _ _ _ _ _ He),
    (eo_memory _ _ _ _ _ _ _ _ _ He). destruct drive; lia.
Qed.

Section inventory.
Context (ToleratesTaint : Toleration -> Taint -> bool) (tolerations : list Toleration) (cfg : OperatorConfig).
Context (list_nodes : gmap string string -> res string (list Node)).
Context (list_containers : res string (list Container)) (list_pods : res string (list Pod)).
(** Kubernetes lists nodes under distinct, non-empty names. *)
Context (list_nodes_names : forall sel nodes, list_nodes sel = Ok nodes ->
  NoDup (n_Name <$> nodes) /\ Forall (fun node => n_Name node <> "") nodes).

Abbreviation NodeInventory' := (NodeInventory ToleratesTaint tolerations cfg list_nodes list_containers list_pods).
Abbreviation entry_of' := (entry_of ToleratesTaint tolerations).

Lemma ListNodesForSelector_ok sel nodes :
  ListNodesForSelector list_nodes sel = Ok nodes -> list_nodes sel = Ok nodes.
Proof. unfold ListNodesForSelector. by destruct (list_nodes sel). Qed.

Lemma listInventoryInputs_ok spec prefix dn cn topos containers :
  listInventoryInputs cfg list_nodes list_containers spec prefix = Ok (dn, cn, topos, containers) ->
  list_nodes (GetNodeSelectorForRole spec WekaContainerModeDrive) = Ok dn /\
  list_nodes (GetNodeSelectorForRole spec WekaContainerModeCompute) = Ok cn /\ list_containers = Ok containers.
Proof.
  unfold listInventoryInputs, listRoleNodesAndTopos.
  destruct (ListNodesForSelector _ _) as [nodes|e] eqn:Hd; [|done]. apply ListNodesForSelector_ok in Hd.
  destruct (decide (_ = _)) as [Heq|Hne]; simpl.
  - destruct list_containers; [|done]. intros [= <- <- <- <-]. by rewrite <- Heq.
  - destruct (ListNodesForSelector _ _) as [nodes'|e] eqn:Hc; [|done]. apply ListNodesForSelector_ok in Hc. simpl.
    destruct list_containers; [|done]. by intros [= <- <- <- <-].
Qed.

Lemma candidate_entry fdConfig consumed cons topos deleting containers pods node c :
  (forall a, at_key (nr_at a consumed) (n_Name node) = used_on a cons topos containers pods (n_Name node)) ->
  candidate ToleratesTaint tolerations fdConfig consumed topos deleting node = Some c ->
  entry_of' cons topos containers pods true node c.
Proof.
  intros Hu. unfold candidate. destruct (resolveInventoryFDValue node fdConfig); simpl; [|done].
  case_decide; [done|]. intros [= <-].
  pose proof (Hu ax_tlc) as Ht. pose proof (Hu ax_qlc) as Hq. pose proof (Hu ax_cores). pose proof (Hu ax_hugepages).
  pose proof (Hu ax_memory). rewrite (used_on_claimed poolTLC) in Ht. rewrite (used_on_claimed poolQLC) in Hq.
  simpl in *. split; simpl; try done; try congruence. intros []; simpl; congruence.
Qed.

Lemma compute_entry_spec fdConfig consumed cons topos containers pods node c :
  (forall a, at_key (nr_at a consumed) (n_Name node) = used_on a cons topos containers pods (n_Name node)) ->
  compute_entry ToleratesTaint tolerations fdConfig consumed topos node = Some c ->
  entry_of' cons topos containers pods false node c.
Proof.
  intros Hu. unfold compute_entry. destruct (resolveInventoryFDValue node fdConfig); simpl; [|done].
  intros [= <-]. pose proof (Hu ax_cores). pose proof (Hu ax_hugepages). pose proof (Hu ax_memory).
  simpl in *. split; simpl; try done; try congruence. by intros [].
Qed.

(** What a successful inventory was built from, and what it holds. *)
Lemma NodeInventory_ok spec own cons fds inv cn :
  NodeInventory' spec own cons = Ok (fds, inv, cn) ->
  exists dn cnl topos containers pods,
  list_nodes (GetNodeSelectorForRole spec WekaContainerModeDrive) = Ok dn /\
  list_nodes (GetNodeSelectorForRole spec WekaContainerModeCompute) = Ok cnl /\
  list_containers = Ok containers /\ list_pods = Ok pods /\ NoDup (nc_NodeName <$> inv) /\
  (forall c, c ∈ inv ->
     (exists node, node ∈ dn /\ entry_of' cons topos containers pods true node c /\
        fds !! nc_NodeName c = Some (nc_FDValue c)) \/
     (exists node, node ∈ cnl /\ entry_of' cons topos containers pods false node c)) /\
  (forall n, cn !! n = Some true -> exists node, node ∈ cnl /\ n_Name node = n /\
     NodeIneligibleReason ToleratesTaint (Some node) tolerations = "").
Proof using list_nodes_names.
  unfold NodeInventory. destruct (listInventoryInputs _ _ _ _ _) as [[[[dn cnl] topos] containers]|e] eqn:Hin; [|done].
  apply listInventoryInputs_ok in Hin as (Hdn & Hcnl & Hco).
  pose proof (list_nodes_names _ _ Hdn) as [Hnd Hne]. pose proof (list_nodes_names _ _ Hcnl) as [Hnd' Hne'].
  rewrite Forall_forall in Hne, Hne'.
  unfold nodeInventoryFromLists. destruct list_pods as [pods|e];
    [|unfold consumedNodeResources; by destruct (aggregateContainerResources _ _ _)].
  destruct (consumedNodeResources (Ok pods) containers cons topos) as [used|e] eqn:Hused; [|done].
  assert (Hu : forall node, n_Name node <> "" -> forall a,
    at_key (nr_at a used) (n_Name node) = used_on a cons topos containers pods (n_Name node))
    by (intros; by apply consumed_used).
  destruct (drive_candidates _ _ _ _ _ _ _ _ _) as [[fds' dinv]|e] eqn:Hdc; [|done].
  apply drive_candidates_spec in Hdc as (-> & _ & Hfds). simpl.
  destruct (mergeRoleNodes _ _) as [inv' cn'] eqn:Hm. intros [= <- <- <-].
  assert (Hcname : forall node c, compute_entry ToleratesTaint tolerations (csp_FailureDomain spec) used topos node = Some c ->
    nc_NodeName c = n_Name node).
  { intros node c. unfold compute_entry. destruct (resolveInventoryFDValue _ _); [by intros [= <-]|done]. }
  apply mergeRoleNodes_spec in Hm as ((extra & -> & Hsub) & H2 & _ & H4 & H5);
    [|apply NoDup_omap_names; [apply candidate_name|done]].
  specialize (H5 (NoDup_omap_names _ _ Hcname Hnd')).
  exists dn, cnl, topos, containers, pods. split_and!; [done..| |].
  - intros c [Hc|Hc]%elem_of_app.
    + left. pose proof (Hfds Hnd c Hc). apply list_elem_of_omap in Hc as (node & Hin & Hc). exists node.
      split_and!; [done| |done]. eapply candidate_entry; [|done]. by apply Hu, Hne.
    + right. apply Hsub, list_elem_of_omap in Hc as (node & Hin & Hc). exists node.
      split; [done|]. eapply compute_entry_spec; [|done]. by apply Hu, Hne'.
  - intros n Hn. destruct (decide (n ∈ nc_NodeName <$> omap (compute_entry ToleratesTaint tolerations
      (csp_FailureDomain spec) used topos) cnl)) as [Hin|Hin]; [|by rewrite H4 in Hn].
    apply list_elem_of_fmap in Hin as (c & -> & Hc). rewrite (H5 c Hc) in Hn.
    injection Hn as Hn%bool_decide_eq_true. apply list_elem_of_omap in Hc as (node & Hin & Hc).
    exists node. pose proof (Hcname _ _ Hc). split_and!; [done..|].
    apply compute_entry_spec with (cons := cons) (containers := containers) (pods := pods) in Hc;
      [by rewrite (eo_reason _ _ _ _ _ _ _ _ _ Hc) in Hn|by apply Hu, Hne'].
Qed.

(** ** Properties *)

(** The inventory is sound: its entries have distinct names, and each one is a node of the drive or of
    the compute role whose free CPU, hugepages, memory and drive capacity are what the node offers, less
    exactly the footprint of the live containers and of the foreign pods there, never below 0; the planner
    starts from budgets that are not overdrawn; and new compute goes only to compute nodes that may take
    new pods. *)
Theorem NodeInventory_sound spec own cons fds inv cn :
  NodeInventory' spec own cons = Ok (fds, inv, cn) ->
  NoDup (nc_NodeName <$> inv) /\ Forall (fun c => node_ok (init_state c)) inv /\
  exists dn cnl topos containers pods,
  list_nodes (GetNodeSelectorForRole spec WekaContainerModeDrive) = Ok dn /\
  list_nodes (GetNodeSelectorForRole spec WekaContainerModeCompute) = Ok cnl /\
  list_containers = Ok containers /\ list_pods = Ok pods /\
  (forall c, c ∈ inv ->
     (exists node, node ∈ dn /\ entry_of' cons topos containers pods true node c /\
        fds !! nc_NodeName c = Some (nc_FDValue c)) \/
     (exists node, node ∈ cnl /\ entry_of' cons topos containers pods false node c)) /\
  (forall n, cn !! n = Some true -> exists node, node ∈ cnl /\ n_Name node = n /\
     NodeIneligibleReason ToleratesTaint (Some node) tolerations = "").
Proof using list_nodes_names.
  intros (dn & cnl & topos & containers & pods & H1 & H2 & H3 & H4 & H5 & H6 & H7)%NodeInventory_ok.
  split_and!; [done| |by exists dn, cnl, topos, containers, pods].
  apply Forall_forall. intros c Hc.
  apply H6 in Hc as [(node & _ & He & _)|(node & _ & He)]; by eapply entry_node_ok.
Qed.

(** C6: planning on the collected inventory never gives out drive capacity a node does not have: where a
    feasible plan adds capacity of a type to a node, it is a node of the drive role, and what the live
    containers of every cluster claim there together with what the plan adds is within the unblocked
    physical capacity of that type. *)
Theorem planned_within_physical desired scheme spec own cons fds inv cn containers n p :
  let drives := ExistingDrives (csp_FailureDomain spec) own fds in
  let plan := PlanCapacity desired scheme drives (ExistingCompute own) inv (Some cn) cons in
  NodeInventory' spec own cons = Ok (fds, inv, cn) -> list_containers = Ok containers ->
  inputs_ok desired drives cons -> cons_ok cons -> Infeasible plan = "" -> 0 < taken drives plan n p ->
  exists dn node, list_nodes (GetNodeSelectorForRole spec WekaContainerModeDrive) = Ok dn /\ node ∈ dn /\
    n_Name node = n /\ claimed p containers n + taken drives plan n p <= phys_at p node.
Proof using list_nodes_names.
  intros drives plan (dn & cnl & topos & containers' & pods & H1 & H2 & H3 & H4 & H5 & H6 & H7)%NodeInventory_ok Hco.
  rewrite H3 in Hco. injection Hco as ->. intros Hin Hcons Hf Hpos.
  assert (Hok : Forall (fun c => node_ok (init_state c)) inv).
  { apply Forall_forall. intros c Hc.
    apply H6 in Hc as [(node & _ & He & _)|(node & _ & He)]; by eapply entry_node_ok. }
  pose proof (feasible_fits desired scheme drives (ExistingCompute own) inv (Some cn) cons n p Hin Hcons Hok Hf) as Hfit.
  fold plan in Hfit. rewrite lookup_total_alt in Hfit.
  destruct (init_states inv !! n) as [ns|] eqn:Hns; [|change (poolFree (default inhabitant None) p) with (poolFree inhabitant p) in Hfit;
      assert (poolFree inhabitant p = 0) by (by destruct p); lia].
  apply init_states_lookup in Hns as (c & Hc & Hname & ->). simpl in Hfit.
  assert (Hfree : poolFree (init_state c) p = nc_pool p c) by by destruct p. rewrite Hfree in Hfit.
  apply H6 in Hc as [(node & Hn & He & _)|(node & _ & He)]; rewrite (eo_pool _ _ _ _ _ _ _ _ _ He p) in Hfit; [|lia].
  rewrite (eo_name _ _ _ _ _ _ _ _ _ He) in Hname. exists dn, node. rewrite Hname in Hfit. split_and!; auto; lia.
Qed.
End inventory.

(** ** A concrete cluster *)

Definition ex_cluster_spec : ClusterSpec := {|
  csp_Dynamic := None; csp_StripeWidth := 3; csp_RedundancyLevel := 2; csp_HotSpare := 1; csp_CpuPolicy := "";
  csp_Image := "weka:4.4"; csp_NodeSelector := ∅;
  csp_RoleNodeSelector := {| rns_Compute := None; rns_Drive := None; rns_S3 := None; rns_Nfs := None;
    rns_Smbw := None; rns_DataServices := None |};
  csp_FailureDomain := None; csp_Overrides := None |}.

Definition ex_operator_config : OperatorConfig := {|
  oc_Capacity := default_config; oc_DefaultStripeWidth := 5; oc_DefaultRedundancyLevel := 2;
  oc_DefaultHotSpare := 1; oc_HugepagesUpdateCompute := false; oc_HugepagesUpdateDrive := false;
  oc_FormClusterMinComputeContainers := 5; oc_FormClusterMinDriveContainers := 5; oc_FullPcpusOnly := false |}.

(** A ready node with two TLC drives of 20 TiB. *)
Definition ex_node (name : string) : Node := {|
  n_Name := name; n_Labels := ∅; n_Unschedulable := false; n_Taints := [];
  n_Conditions := [{| cond_Type := "Ready"; cond_Status := "True" |}];
  n_AllocatableCpuMilli := 63910; n_AllocatableHugepages2Mi := 2 ^ 40; n_AllocatableMemory := 2 ^ 40;
  n_Discovery := Absent; n_FullDrives := Absent; n_BlockedDrives := Absent;
  n_SharedDrives := Decoded [mkShared (String.append name "-u1") (String.append name "-s1") (20 * tib) "TLC";
                             mkShared (String.append name "-u2") (String.append name "-s2") (20 * tib) "TLC"];
  n_BlockedPhysicalUuids := Absent |}.
Definition ex_nodes : list Node := ex_node <$> numbered "n" 6.

(** A drive container that shares [cap] GiB of TLC on a node. *)
Definition ex_drive (name node : string) (cap cores : Z) : Container := {|
  cn_Name := name; cn_Namespace := "weka"; cn_CreationTimestamp := 0; cn_Deleted := false;
  cn_OwnerReferences := [];
  cn_Spec := {| cs_Mode := WekaContainerModeDrive; cs_Image := "weka:4.4"; cs_State := ContainerStateActive;
    cs_CpuPolicy := "manual"; cs_NumCores := cores; cs_ExtraCores := 0; cs_Resources := None; cs_Hugepages := 1600 * cores;
    cs_HugepagesOffset := 0; cs_HugepagesSize := ""; cs_NumDrives := 0; cs_DriveCapacity := 0;
    cs_ContainerCapacity := cap; cs_DriveTypesRatio := Some {| ratio_Tlc := 1; ratio_Qlc := 0 |};
    cs_NodeAffinity := node; cs_RotatePod := false;
    cs_NodeSelector := ∅; cs_DpdkBaseMemoryMb := 0 |};
  cn_Status := {| cst_Status := "Running"; cst_ManagementIps := []; cst_NodeAffinity := node; cst_LastAppliedImage := "weka:4.4"; cst_ClusterContainerID := Some 1;
    cst_PodOutdated := false; cst_Allocations := None |} |}.

Definition ex_own : list Container := [ex_drive "drive-1" "n1" (4 * tib) 1].
Definition ex_pods : list Pod := [
  {| pod_Namespace := "default"; pod_Name := "web"; pod_NodeName := "n1"; pod_Phase := "Running";
     pod_Containers := [{| rl_CpuMilli := 1500; rl_Memory := 2 ^ 30; rl_Hugepages2Mi := 0 |}];
     pod_InitContainers := [] |};
  {| pod_Namespace := "weka"; pod_Name := "drive-1"; pod_NodeName := "n1"; pod_Phase := "Running";
     pod_Containers := [{| rl_CpuMilli := 2000; rl_Memory := 2 ^ 33; rl_Hugepages2Mi := 2 ^ 31 |}];
     pod_InitContainers := [] |}].

Definition ex_inventory_result : res string (gmap string string * list NodeCapacity * gmap string bool) :=
  NodeInventory (fun _ _ => false) [] ex_operator_config (fun _ => Ok ex_nodes) (Ok ex_own) (Ok ex_pods)
    ex_cluster_spec ex_own testCons.

(** The foreign pod takes 2 cores and the container 2 of the 64 of node n1; the container's own pod is not
    counted again. *)
Example ex_inventory_free :
  match ex_inventory_result with
  | Ok (_, inv, _) => (fun c => (nc_NodeName c, nc_TlcGiB c, nc_AllocatableCPU c)) <$> take 2 inv
  | Err _ => []
  end = [("n1", 36 * tib, 60); ("n2", 40 * tib, 64)].
Proof. vm_compute. reflexivity. Qed.

Lemma ex_nodes_names (sel : gmap string string) nodes :
  Ok (E := string) ex_nodes = Ok nodes -> NoDup (n_Name <$> nodes) /\ Forall (fun node => n_Name node <> "") nodes.
Proof. intros [= <-]. by_decide (NoDup (n_Name <$> ex_nodes) /\ Forall (fun node => n_Name node <> "") ex_nodes). Qed.

Definition ex_parts : gmap string string * list NodeCapacity * gmap string bool :=
  match ex_inventory_result with Ok r => r | Err _ => (∅, [], ∅) end.

Lemma ex_inventory_ok : ex_inventory_result = Ok (ex_parts.1.1, ex_parts.1.2, ex_parts.2).
Proof. vm_compute. reflexivity. Qed.

Lemma NodeInventory_sound_witness :
  ex_inventory_result = Ok (ex_parts.1.1, ex_parts.1.2, ex_parts.2) /\
  NoDup (nc_NodeName <$> ex_parts.1.2) /\ Forall (fun c => node_ok (init_state c)) ex_parts.1.2.
Proof.
  split; [exact ex_inventory_ok|].
  destruct (NodeInventory_sound (fun _ _ => false) [] ex_operator_config (fun _ => Ok ex_nodes) (Ok ex_own) (Ok ex_pods)
    ex_nodes_names ex_cluster_spec ex_own testCons ex_parts.1.1 ex_parts.1.2 ex_parts.2 ex_inventory_ok)
    as (H1 & H2 & _). exact (conj H1 H2).
Defined.

Definition ex_collected_drives : list ExistingContainer := ExistingDrives None ex_own ex_parts.1.1.
Definition ex_collected_plan : CapacityPlan :=
  PlanCapacity (desiredTlc (120 * tib)) testScheme ex_collected_drives (ExistingCompute ex_own) ex_parts.1.2
    (Some ex_parts.2) testCons.

Lemma planned_within_physical_witness :
  inputs_ok (desiredTlc (120 * tib)) ex_collected_drives testCons /\ Infeasible ex_collected_plan = "" /\
  0 < taken ex_collected_drives ex_collected_plan "n1" poolTLC /\
  exists dn node, Ok (E := string) ex_nodes = Ok dn /\ node ∈ dn /\ n_Name node = "n1" /\
    claimed poolTLC ex_own "n1" + taken ex_collected_drives ex_collected_plan "n1" poolTLC <= phys_at poolTLC node.
Proof.
  assert (Hin : inputs_ok (desiredTlc (120 * tib)) ex_collected_drives testCons)
    by by_decide (inputs_ok (desiredTlc (120 * tib)) ex_collected_drives testCons).
  assert (Hf : Infeasible ex_collected_plan = "") by (vm_compute; reflexivity).
  assert (Ht : 0 < taken ex_collected_drives ex_collected_plan "n1" poolTLC) by (vm_compute; reflexivity).
  split_and!; [exact Hin|exact Hf|exact Ht|].
  apply (planned_within_physical (fun _ _ => false) [] ex_operator_config (fun _ => Ok ex_nodes) (Ok ex_own) (Ok ex_pods)
    ex_nodes_names (desiredTlc (120 * tib)) testScheme ex_cluster_spec ex_own testCons ex_parts.1.1 ex_parts.1.2
    ex_parts.2 ex_own "n1" poolTLC ex_inventory_ok eq_refl Hin); [by_decide (cons_ok testCons)|exact Hf|exact Ht].
Defined.
