(* ===== verification/Upgrade.v ===== *)
(** * Image upgrade and pod rotation (upgrade/upgrade.go, wekacluster/funcs_upgrade.go, funcs_pod_rotation.go)

    The cluster reconciler replaces the image of the containers one at a time, phase by phase, and restarts
    outdated pods one at a time. Each call of [handleUpgrade] makes at most one move and then waits, so the
    guarantees are about sequences of calls interleaved with what happens to the containers meanwhile. *)

From S2P Require Import Prelude Float64 Fmt Types Sizing Api Nodes Templates.

(** ** Results of a step *)

(** What a step returns: nil, an error of the engine that asks to wait or to be expected, another error, or
    a run-time panic. *)
Inductive step_result :=
  | Done
  | Wait (msg : string)
  | Expected (msg : string)
  | Fail_ (msg : string)
  | Panic.

(** ** The rolling upgrade of a list of containers *)

(** The spec with another image. *)
Definition set_image (image : string) (c : Container) : Container :=
  set_spec (spec_rollout image (cs_RotatePod (cn_Spec c)) (cn_Spec c)) c.

(** The answers of the API server to a patch of a container's spec: the error, if any. *)
Definition patch_answer := Container -> option api_error.

Section controller.
Context (patch : patch_answer) (TargetImage : string).

Definition isContainerAligned (c : Container) : bool := bool_decide (cs_Image (cn_Spec c) = TargetImage).
Definition isContainerApplied (c : Container) : bool := bool_decide (cst_LastAppliedImage (cn_Status c) = TargetImage).

(** The container as the call leaves it, or the error. *)
Definition UpdateContainer (c : Container) : res string Container :=
  if isContainerAligned c then Ok c
  else match patch c with
       | Some e => Err (Sprintf "failed to patch container %s: %s" [ArgS (cn_Name c); ArgS (error_text e)])
       | None => Ok (set_image TargetImage c)
       end.

Definition AreUpgraded (containers : list Container) : bool :=
  forallb (fun c =>
    if negb (isContainerApplied c) && bool_decide (cst_ClusterContainerID (cn_Status c) = None) && isContainerAligned c
    then true else isContainerApplied c) containers.

Fixpoint update_all (containers : list Container) : list Container * option string :=
  match containers with
  | [] => ([], None)
  | c :: l =>
      match UpdateContainer c with
      | Err e => (c :: l, Some e)
      | Ok c' => let '(l', e) := update_all l in (c' :: l', e)
      end
  end.

Definition AllAtOnceUpgrade (containers : list Container) : list Container * step_result :=
  let '(containers, err) := update_all containers in
  match err with
  | Some e => (containers, Fail_ e)
  | None => (containers, if AreUpgraded containers then Done else Expected "container upgrade not finished yet")
  end.

(** The first loop of [RollingUpgrade]; [total] is the number of containers. *)
Fixpoint rolling_check (maxSkipPercent total skipped : Z) (containers : list Container) : option string :=
  match containers with
  | [] => None
  | c :: l =>
      if IsMarkedForDeletion c then
        let skipped := skipped + 1 in
        if decide (skipped > (total * maxSkipPercent) `quot` 100) then Some "too many containers marked for deletion"
        else rolling_check maxSkipPercent total skipped l
      else if isContainerAligned c && negb (isContainerApplied c) then
        if decide (GetNodeAffinity c = "") then rolling_check maxSkipPercent total skipped l
        else Some "container upgrade not finished yet"
      else rolling_check maxSkipPercent total skipped l
  end.

(** The second loop: the container it patched, if any. *)
Fixpoint rolling_start (containers : list Container) : option Container * step_result :=
  match containers with
  | [] => (None, Done)
  | c :: l =>
      if isContainerAligned c then rolling_start l
      else match UpdateContainer c with
           | Err e => (None, Fail_ e)
           | Ok c' => (Some c', Wait (Sprintf "starting upgrade of container %s" [ArgS (cn_Name c)]))
           end
  end.

(** Upgrades one container at a time. *)
Definition RollingUpgrade (maxSkipPercent : Z) (containers : list Container) : option Container * step_result :=
  match rolling_check maxSkipPercent (len containers) 0 containers with
  | Some msg => (None, Wait msg)
  | None => rolling_start containers
  end.

End controller.

(** ** Cluster health (services/cluster_health.go, services/weka.go) *)

Definition HealthyClusterStatuses : list string := ["OK"; "REDISTRIBUTING"].

Definition MeetsThreshold (active total thresholdPercent : Z) : bool :=
  if decide (total = 0) then true
  else f_le (f_div (f_mul (f_of_int total) (f_of_int thresholdPercent)) (f_of_int 100)) (f_of_int active).

Record ProtectionState := { ps_MiB : Z; ps_NumFailures : Z; ps_Percent : float64 }.

Definition IsFullyProtected (states : list ProtectionState) : bool :=
  forallb (fun s => negb (f_lt f_zero (ps_Percent s) && bool_decide (ps_NumFailures s > 0))) states.

(** What the upgrade reads of [weka status]. *)
Record WekaStatusResponse := {
  ws_Status : string; ws_ProtectionState : list ProtectionState; ws_DrivesActive : Z; ws_ComputesActive : Z }.

(** ** Pod rotation *)

Definition rotationRoleOrder : list string :=
  [WekaContainerModeDrive; WekaContainerModeCompute; WekaContainerModeDataServices;
   WekaContainerModeS3; WekaContainerModeNfs; WekaContainerModeSmbw].

(** [slices.Index]: -1 when absent. *)
Definition slices_Index (l : list string) (s : string) : Z :=
  match list_find (fun x => x = s) l with Some (i, _) => Z.of_nat i | None => -1 end.

(** The override, else the operator's setting; [None] when the settings are unresolved. *)
Definition podRotationEnabled (spec : ClusterSpec) (settings : option bool) : bool :=
  match ov_PodRotation (GetOverrides spec) with
  | Some v => v
  | None => default false settings
  end.

Definition rotationExempt (c : Container) : bool := IsMarkedForDeletion c || IsDeletingState c || IsDestroyingState c.

Definition anyApproved (containers : list Container) : bool :=
  existsb (fun c => cs_RotatePod (cn_Spec c)) containers.

Definition set_rotate (v : bool) (c : Container) : Container :=
  set_spec (spec_rollout (cs_Image (cn_Spec c)) v (cn_Spec c)) c.

Definition bool_verb (v : bool) : string := if v then "true" else "false".

(** The container as the patch leaves it, or the error; a container that is gone is no error. *)
Definition setRotatePod (patch : patch_answer) (c : Container) (v : bool) : res string Container :=
  match patch c with
  | Some (NotFound _) => Ok c
  | Some e =>
      Err (Sprintf "failed to set rotatePod=%s on %s: %s" [ArgS (bool_verb v); ArgS (cn_Name c); ArgS (error_text e)])
  | None => Ok (set_rotate v c)
  end.

(** The containers as it leaves them, the number in flight and the error. *)
Fixpoint clearFinishedRotations (patch : patch_answer) (containers : list Container) (inFlight : Z) :
    list Container * Z * option string :=
  match containers with
  | [] => ([], inFlight, None)
  | c :: l =>
      if negb (cs_RotatePod (cn_Spec c)) then
        let '(l, n, e) := clearFinishedRotations patch l inFlight in (c :: l, n, e)
      else if negb (cst_PodOutdated (cn_Status c)) || rotationExempt c then
        match setRotatePod patch c false with
        | Err e => (c :: l, inFlight, Some e)
        | Ok c => let '(l, n, e) := clearFinishedRotations patch l inFlight in (c :: l, n, e)
        end
      else let '(l, n, e) := clearFinishedRotations patch l (inFlight + 1) in (c :: l, n, e)
  end.

(** The order of the approvals: by role, then by name. *)
Definition rotation_lt (a b : Container) : bool :=
  let d := slices_Index rotationRoleOrder (mode a) - slices_Index rotationRoleOrder (mode b) in
  if decide (d <> 0) then bool_decide (d < 0) else str_lt (cn_Name a) (cn_Name b).

Fixpoint approve_all (patch : patch_answer) (candidates : list Container) : list Container * option string :=
  match candidates with
  | [] => ([], None)
  | c :: l =>
      match setRotatePod patch c true with
      | Err e => ([], Some e)
      | Ok c => let '(l, e) := approve_all patch l in (c :: l, e)
      end
  end.

(** ** The cluster *)

(** The containers of the cluster on the API server, the image and the annotations of the cluster object, and
    the commands that were run in a container, in order. *)
Record cluster_world := {
  cw_containers : list Container;
  cw_LastAppliedImage : string;
  cw_Annotations : gmap string string;
  cw_commands : list string;
}.

Definition container_key (c : Container) : string * string := (cn_Namespace c, cn_Name c).

(** Writes an object: it replaces the one of the same namespace and name. *)
Definition put (c' : Container) (l : list Container) : list Container :=
  (fun c => if decide (container_key c = container_key c') then c' else c) <$> l.
Definition put_all (cs l : list Container) : list Container := foldl (fun l c => put c l) l cs.

Definition with_containers (l : list Container) (w : cluster_world) : cluster_world := {|
  cw_containers := l; cw_LastAppliedImage := cw_LastAppliedImage w; cw_Annotations := cw_Annotations w;
  cw_commands := cw_commands w |}.
Definition with_command (op : string) (w : cluster_world) : cluster_world := {|
  cw_containers := cw_containers w; cw_LastAppliedImage := cw_LastAppliedImage w; cw_Annotations := cw_Annotations w;
  cw_commands := cw_commands w ++ [op] |}.
Definition with_applied (image : string) (w : cluster_world) : cluster_world := {|
  cw_containers := cw_containers w; cw_LastAppliedImage := image; cw_Annotations := cw_Annotations w;
  cw_commands := cw_commands w |}.
Definition with_annotations (m : gmap string string) (w : cluster_world) : cluster_world := {|
  cw_containers := cw_containers w; cw_LastAppliedImage := cw_LastAppliedImage w; cw_Annotations := m;
  cw_commands := cw_commands w |}.

(** What the rest of the system answers during one call. *)
Record upgrade_env := {
  ue_patch : patch_answer;                        (* patching a container *)
  ue_list : string -> option api_error;           (* listing the containers of a mode; "" for all *)
  ue_settings : option bool;                      (* the operator's pod-rotation setting *)
  ue_health : bool * string;                      (* the health gate of the rotation *)
  ue_prepull : string -> option string;           (* the pre-pull operation of a role *)
  ue_annotate : string -> bool;                   (* whether its annotation could be set *)
  ue_clear : bool;                                (* whether annotations could be cleared *)
  ue_executor : Container -> option string;       (* an executor in a container *)
  ue_exec : string -> option string;              (* a named command *)
  ue_status : res string WekaStatusResponse;      (* weka status *)
  ue_status_update : option api_error;            (* updating the cluster's status *)
  ue_aggregate : list string -> string;           (* the text of several errors *)
}.

(** The operator's configuration of upgrades. *)
Record upgrade_config := {
  uc_MaxDeactivatingContainersPercent : Z; uc_ImagePrePullEnabled : bool;
  uc_DriveThresholdPercent : Z; uc_ComputeThresholdPercent : Z }.

(** [if err := m; err != nil { return err }; k]. *)
Definition step_bind (m : cluster_world * step_result) (k : cluster_world -> cluster_world * step_result) :
    cluster_world * step_result :=
  match m.2 with Done => k m.1 | _ => m end.

Notation "'let!' w := m 'in' k" := (step_bind m (fun w => k))
  (at level 10, w name, m at level 100, k at level 200) : go_scope.

(** ** Pre-pulling the image (funcs_prepull.go) *)

Definition getAnnotationPrePull (mode : string) : string := Sprintf "weka.io/prepull-%s" [ArgS mode].

Definition needsPrePullForRole (image : string) (annotations : gmap string string) (role : string) : bool :=
  match annotations !! getAnnotationPrePull role with
  | None => true
  | Some prePulledImage => negb (bool_decide (prePulledImage = image))
  end.

Definition prepull_roles : list string := ["all"; "drive"; "compute"; "s3"; "nfs"].

(** The roles whose goroutine is launched; the flag is false when the loop returned before waiting for
    them. *)
Fixpoint prepull_launch (spec : ClusterSpec) (annotations : gmap string string) (roles : list string) :
    list string * bool :=
  match roles with
  | [] => ([], true)
  | role :: roles =>
      if decide (role <> "all" /\ csp_NodeSelector spec = GetNodeSelectorForRole spec role)
      then prepull_launch spec annotations roles
      else if negb (needsPrePullForRole (csp_Image spec) annotations role) then ([], false)
      else let '(l, b) := prepull_launch spec annotations roles in (role :: l, b)
  end.

(** The pre-pull of a role: the annotation is set once the operation succeeded. *)
Definition handleImagePrePullForRole (env : upgrade_env) (image role : string) (annotations : gmap string string) :
    gmap string string * option string :=
  match ue_prepull env role with
  | Some e => (annotations, Some e)
  | None => (if ue_annotate env role then <[getAnnotationPrePull role := image]> annotations else annotations, None)
  end.

(** The goroutines write annotations of different names; when several fail, the error of the first in the
    order of the roles stands for the one that fails first. *)
Definition handleImagePrePull (env : upgrade_env) (spec : ClusterSpec) (w : cluster_world) :
    cluster_world * step_result :=
  let '(launched, waited) := prepull_launch spec (cw_Annotations w) prepull_roles in
  let '(annotations, err) :=
    foldl (fun '(m, err) role =>
      let '(m, e) := handleImagePrePullForRole env (csp_Image spec) role m in
      (m, match err with Some e0 => Some e0 | None => e end)) (cw_Annotations w, None) launched in
  (with_annotations annotations w,
   if waited then match err with Some e => Fail_ e | None => Done end else Done).

Definition clearAllPrePullAnnotations (env : upgrade_env) (w : cluster_world) : cluster_world :=
  if ue_clear env then
    with_annotations (foldl (fun m role => delete (getAnnotationPrePull role) m) (cw_Annotations w)
                        ["drive"; "compute"; "s3"; "nfs"]) w
  else w.

(** ** The handlers *)

Section handlers.
Context (cfg : OperatorConfig) (uc : upgrade_config) (spec : ClusterSpec) (env : upgrade_env).

(** The uncached list of the backend containers. *)
Definition rotationContainers (w : cluster_world) : res string (list Container) :=
  match ue_list env "" with
  | Some e => Err (Sprintf "Failed to list containers for cluster: %s" [ArgS (error_text e)])
  | None => Ok (filter (fun c => IsBackend c = true) (cw_containers w))
  end.

(** The containers that may be rotated now. *)
Definition rotation_candidates (containers : list Container) : list Container :=
  filter (fun c => cst_PodOutdated (cn_Status c) = true /\ rotationExempt c = false /\ GetNodeAffinity c <> "") containers.

Definition handlePodRotation (w : cluster_world) : cluster_world * step_result :=
  match rotationContainers w with
  | Err e => (w, Fail_ e)
  | Ok containers =>
      let hadApproved := anyApproved containers in
      let '(containers, inFlight, err) := clearFinishedRotations (ue_patch env) containers 0 in
      let w := with_containers (put_all containers (cw_containers w)) w in
      match err with
      | Some e => (w, Fail_ e)
      | None =>
          if hadApproved then (w, Wait (Sprintf "pod rotation in progress (%d containers)" [ArgD inFlight]))
          else
            let candidates := rotation_candidates containers in
            if decide (len candidates = 0) then (w, Done)
            else if negb (podRotationEnabled spec (ue_settings env)) then (w, Done)
            else if ov_UpgradePaused (GetOverrides spec) then (w, Wait "pod rotation is paused")
            else if ov_UpgradeAllAtOnce (GetOverrides spec) then
              let '(approved, err) := approve_all (ue_patch env) candidates in
              (with_containers (put_all approved (cw_containers w)) w,
               match err with
               | Some e => Fail_ e
               | None => Wait (Sprintf "approved pod rotation of %d containers at once" [ArgD (len candidates)])
               end)
            else
              let '(ok, reason) := ue_health env in
              if negb ok then (w, Wait (String.append "pod rotation waiting for cluster health: " reason))
              else
                match sort_by rotation_lt candidates with
                | [] => (w, Done)
                | next :: _ =>
                    match setRotatePod (ue_patch env) next true with
                    | Err e => (w, Fail_ e)
                    | Ok c => (with_containers (put c (cw_containers w)) w,
                               Wait (Sprintf "approved pod rotation of %s" [ArgS (cn_Name next)]))
                    end
                end
      end
  end.

Definition targetImage : string := csp_Image spec.

(** [clusterService.GetOwnedContainers]; on an error the caller returns it. *)
Definition GetOwnedContainers (mode' : string) (w : cluster_world) : res string (list Container) :=
  match ue_list env mode' with
  | Some e => Err (error_text e)
  | None => Ok (filter (fun c => mode c = mode') (cw_containers w))
  end.

(** The loop that looks for a container of the phase that already runs the new image. *)
Definition prepare_needed (containers : list Container) : bool :=
  forallb (fun c => negb (bool_decide (cst_LastAppliedImage (cn_Status c) = targetImage /\
                                       cst_ClusterContainerID (cn_Status c) <> None))) containers.

(** Runs a command in the first container; indexing an empty list panics. *)
Definition run_prepare (op : string) (containers : list Container) (w : cluster_world) : cluster_world * step_result :=
  match containers with
  | [] => (w, Panic)
  | c :: _ =>
      match ue_executor env c with
      | Some e => (w, Fail_ (Sprintf "failed to get executor for upgrade preparation: %s" [ArgS e]))
      | None => match ue_exec env op with
                | Some e => (w, Fail_ (Sprintf "Failed to prepare for upgrade: %s" [ArgS e]))
                | None => (with_command op w, Done)
                end
      end
  end.

Definition prepareForUpgradeDrives := run_prepare "PrepareForUpgradeDrives".
Definition prepareForUpgradeCompute := run_prepare "PrepareForUpgradeCompute".
Definition prepareForUpgradeFrontend (containers : list Container) (w : cluster_world) : cluster_world * step_result :=
  if decide (len containers = 0) then (w, Done) else run_prepare "PrepareForUpgradeFrontend" containers w.
Definition prepareForUpgradeDataServices (containers : list Container) (w : cluster_world) : cluster_world * step_result :=
  if decide (len containers = 0) then (w, Done) else run_prepare "PrepareForUpgradeDataServices" containers w.

(** An executor that cannot be created is only logged; the error text omits the standard output. *)
Definition finalizeUpgrade (containers : list Container) (w : cluster_world) : cluster_world * step_result :=
  match containers with
  | [] => (w, Panic)
  | c :: _ =>
      match ue_executor env c with
      | Some _ => (w, Done)
      | None => match ue_exec env "FinalizeUpgrade" with
                | Some e => (w, Fail_ (Sprintf "Failed to finalize upgrade: STDERR: %s" [ArgS e]))
                | None => (with_command "FinalizeUpgrade" w, Done)
                end
      end
  end.

(** One phase: its preparation, when none of its containers runs the new image yet, and the rolling
    upgrade. *)
Definition upgrade_phase (prepare : list Container -> cluster_world -> cluster_world * step_result)
    (containers : list Container) (w : cluster_world) : cluster_world * step_result :=
  let! w := (if prepare_needed containers then prepare containers w else (w, Done)) in
  let '(patched, r) :=
    RollingUpgrade (ue_patch env) targetImage (uc_MaxDeactivatingContainersPercent uc) containers in
  (match patched with Some c => with_containers (put c (cw_containers w)) w | None => w end, r).

(** The override [upgradeAllAtOnce]: every container is patched concurrently. *)
Definition patch_image (c : Container) : res string Container :=
  if decide (cs_Image (cn_Spec c) = targetImage) then Ok c
  else match ue_patch env c with
       | Some e => Err (Sprintf "failed to update container spec %s: %s" [ArgS (cn_Name c); ArgS (error_text e)])
       | None => Ok (set_image targetImage c)
       end.

Definition upgrade_all_at_once (w : cluster_world) : cluster_world * step_result :=
  let containers := (fun c => match patch_image c with Ok c' => c' | Err _ => c end) <$> cw_containers w in
  let errs := omap (fun c => match patch_image c with Ok _ => None | Err e => Some e end) (cw_containers w) in
  let w := with_containers containers w in
  if decide (errs <> []) then (w, Fail_ (ue_aggregate env errs))
  else if negb (AreUpgraded targetImage containers) then (w, Wait "waiting for all containers to apply the new image")
  else match ue_status_update env with
       | Some e => (w, Fail_ (error_text e))
       | None => (with_applied targetImage w, Done)
       end.

(** The checks of the cluster before the first phase. [SelectActiveContainer] finds no container exactly when
    there is none; the rebuild status is left out of the text of the first wait. *)
Definition health_checks (w : cluster_world) : step_result :=
  let nums := GetWekaContainerNumbers cfg (csp_Dynamic spec) in
  if decide (cw_containers w = []) then Fail_ "No active container found"
  else
    match ue_status env with
    | Err e => Fail_ e
    | Ok status =>
        if negb (IsFullyProtected (ws_ProtectionState status))
        then Wait "Weka is not fully protected, waiting to stabilize"
        else if negb (bool_decide (ws_Status status ∈ HealthyClusterStatuses))
        then Wait (String.append "Weka status is not OK/REDISTRIBUTING, waiting to stabilize. status:" (ws_Status status))
        else if negb (MeetsThreshold (ws_DrivesActive status) (role_Drive nums) (uc_DriveThresholdPercent uc))
        then Wait (Sprintf "Not enough drives containers are active, waiting to stabilize, %d/%d"
                     [ArgD (ws_DrivesActive status); ArgD (role_Drive nums)])
        else if negb (MeetsThreshold (ws_ComputesActive status) (role_Compute nums) (uc_ComputeThresholdPercent uc))
        then Wait (Sprintf "Not enough computes containers are active, waiting to stabilize, %d/%d"
                     [ArgD (ws_ComputesActive status); ArgD (role_Compute nums)])
        else Done
    end.

(** Lists the containers of a mode and goes on with them. *)
Definition with_owned (m : string) (k : list Container -> cluster_world -> cluster_world * step_result)
    (w : cluster_world) : cluster_world * step_result :=
  match GetOwnedContainers m w with Err e => (w, Fail_ e) | Ok l => k l w end.

(** The phases, in order, and the end of the upgrade. [driveContainers] is the list read before the first
    phase. *)
Definition frontend_phase (driveContainers : list Container) (w : cluster_world) : cluster_world * step_result :=
  with_owned WekaContainerModeS3 (fun s3 => with_owned WekaContainerModeNfs (fun nfs =>
  with_owned WekaContainerModeSmbw (fun smbw w =>
    let! w := upgrade_phase prepareForUpgradeFrontend (s3 ++ nfs ++ smbw) w in
    let! w := finalizeUpgrade driveContainers w in
    let w := clearAllPrePullAnnotations env w in
    match ue_status_update env with
    | Some e => (w, Fail_ (error_text e))
    | None => (with_applied targetImage w, Done)
    end))) w.

Definition data_services_phase (driveContainers : list Container) (w : cluster_world) : cluster_world * step_result :=
  with_owned WekaContainerModeDataServices (fun ds w =>
    let! w := (if decide (len ds > 0) then upgrade_phase prepareForUpgradeDataServices ds w else (w, Done)) in
    frontend_phase driveContainers w) w.

Definition compute_phase (driveContainers : list Container) (w : cluster_world) : cluster_world * step_result :=
  with_owned WekaContainerModeCompute (fun computeContainers w =>
    if ov_UpgradePausePreCompute (GetOverrides spec) then (w, Wait "Upgrade paused before compute phase")
    else
      let! w := upgrade_phase prepareForUpgradeCompute computeContainers w in
      data_services_phase driveContainers w) w.

(** The drive containers are prepared before the health of the cluster is checked. *)
Definition drive_phase (w : cluster_world) : cluster_world * step_result :=
  with_owned WekaContainerModeDrive (fun driveContainers w =>
    let! w := (if prepare_needed driveContainers then prepareForUpgradeDrives driveContainers w else (w, Done)) in
    let! w := (w, health_checks w) in
    let '(patched, r) :=
      RollingUpgrade (ue_patch env) targetImage (uc_MaxDeactivatingContainersPercent uc) driveContainers in
    let! w := (match patched with Some c => with_containers (put c (cw_containers w)) w | None => w end, r) in
    compute_phase driveContainers w) w.

Definition handleImageUpgrade (w : cluster_world) : cluster_world * step_result :=
  if ov_UpgradePaused (GetOverrides spec) then (w, Wait "Upgrade is paused")
  else
    let! w := (if uc_ImagePrePullEnabled uc then handleImagePrePull env spec w else (w, Done)) in
    if ov_UpgradeAllAtOnce (GetOverrides spec) then upgrade_all_at_once w else drive_phase w.

Definition handleUpgrade (w : cluster_world) : cluster_world * step_result :=
  if decide (targetImage <> cw_LastAppliedImage w) then
    match rotationContainers w with
    | Err e => (w, Fail_ e)
    | Ok containers =>
        let hadApproved := anyApproved containers in
        let '(containers, _, err) := clearFinishedRotations (ue_patch env) containers 0 in
        let w := with_containers (put_all containers (cw_containers w)) w in
        match err with
        | Some e => (w, Fail_ e)
        | None =>
            if hadApproved then (w, Wait "image upgrade waits for the in-flight pod rotation")
            else handleImageUpgrade w
        end
    end
  else handlePodRotation w.

End handlers.

(** *** Progress *)

Record UpgradedCount := {
  TotalCompute : Z; TotalDrive : Z; TotalS3 : Z; TotalNfs : Z; TotalSmbw : Z; TotalDataServices : Z;
  UpgradedCompute : Z; UpgradedDrive : Z; UpgradedS3 : Z; UpgradedNfs : Z; UpgradedSmbw : Z;
  UpgradedDataServices : Z }.

Definition count_mode (m : string) (P : Container -> bool) (containers : list Container) : Z :=
  len (filter (fun c => mode c = m /\ P c = true) containers).

(** The loop counts a container under its mode, and again when the image is both set and applied. *)
Definition GetUpgradedCount (image : string) (containers : list Container) : UpgradedCount :=
  let upgraded c := bool_decide (cst_LastAppliedImage (cn_Status c) = image /\ cs_Image (cn_Spec c) = image) in
  let total m := count_mode m (fun _ => true) containers in
  let done_ m := count_mode m upgraded containers in {|
  TotalCompute := total WekaContainerModeCompute; TotalDrive := total WekaContainerModeDrive;
  TotalS3 := total WekaContainerModeS3; TotalNfs := total WekaContainerModeNfs;
  TotalSmbw := total WekaContainerModeSmbw; TotalDataServices := total WekaContainerModeDataServices;
  UpgradedCompute := done_ WekaContainerModeCompute; UpgradedDrive := done_ WekaContainerModeDrive;
  UpgradedS3 := done_ WekaContainerModeS3; UpgradedNfs := done_ WekaContainerModeNfs;
  UpgradedSmbw := done_ WekaContainerModeSmbw; UpgradedDataServices := done_ WekaContainerModeDataServices |}.
