(* ===== verification/UpgradeFacts.v ===== *)
(** * Theorems on image upgrade and pod rotation

    One container at a time, phase after phase, never together with a pod rotation, and to the end: stated on
    one call of the handlers, and on runs of calls interleaved with what happens to the containers. *)

From S2P Require Import Prelude Float64 Fmt Types Sizing Scenarios Correctness Api Nodes Templates Inventory InventoryFacts Upgrade.

(** ** The rolling upgrade *)

Section rolling.
Context (patch : patch_answer) (target : string).

Abbreviation aligned c := (isContainerAligned target c = true).
Abbreviation applied c := (isContainerApplied target c = true).

(** A container that the upgrade is waiting for: it has the new image, is on a node and is not being
    deleted, and has not applied the image yet. *)
Definition in_flight (c : Container) : bool :=
  negb (IsMarkedForDeletion c) && isContainerAligned target c && negb (isContainerApplied target c) &&
  negb (bool_decide (GetNodeAffinity c = "")).

Definition deleted_count (l : list Container) : Z := len (filter (fun c => IsMarkedForDeletion c = true) l).

(** The list may go on to the next container. *)
Definition settled (pct : Z) (l : list Container) : Prop :=
  Forall (fun c => in_flight c = false) l /\
  (deleted_count l = 0 \/ deleted_count l <= (len l * pct) `quot` 100).

#[export] Instance settled_dec pct l : Decision (settled pct l).
Proof. unfold settled. apply _. Defined.

Lemma deleted_count_cons c l :
  deleted_count (c :: l) = (if IsMarkedForDeletion c then 1 else 0) + deleted_count l.
Proof.
  unfold deleted_count. rewrite filter_cons. destruct (IsMarkedForDeletion c); simpl; lia.
Qed.

Lemma deleted_count_nonneg l : 0 <= deleted_count l.
Proof. unfold deleted_count. lia. Qed.

Lemma rolling_check_spec pct total skipped l :
  rolling_check target pct total skipped l = None <->
  Forall (fun c => in_flight c = false) l /\
  (deleted_count l = 0 \/ skipped + deleted_count l <= (total * pct) `quot` 100).
Proof.
  revert skipped. induction l as [|c l IH]; intros skipped; simpl.
  { split; [intros _; split; [constructor|by left]|done]. }
  rewrite Forall_cons, deleted_count_cons. unfold in_flight at 1.
  pose proof (deleted_count_nonneg l) as Hnn.
  destruct (IsMarkedForDeletion c) eqn:Hd; simpl.
  { case_decide as Hs; [split; [done|]; lia|]. rewrite IH. intuition lia. }
  destruct (isContainerAligned target c && negb (isContainerApplied target c)) eqn:Ha; simpl.
  - case_decide as Hn; simpl; [|split; [done|]].
    + rewrite IH, (bool_decide_eq_true_2 _ Hn). simpl. intuition.
    + rewrite (bool_decide_eq_false_2 _ Hn). simpl. intros [[[=] _] _].
  - rewrite IH. intuition.
Qed.

Lemma rolling_start_spec l patched r :
  rolling_start patch target l = (patched, r) ->
  match patched with
  | Some c' => exists l1 c l2, l = l1 ++ c :: l2 /\ Forall (fun x => aligned x) l1 /\
                 isContainerAligned target c = false /\ patch c = None /\ c' = set_image target c /\
                 exists msg, r = Wait msg
  | None => (r = Done /\ Forall (fun x => aligned x) l) \/
            (exists e, r = Fail_ e) /\ exists c, c ∈ l /\ isContainerAligned target c = false /\ patch c <> None
  end.
Proof.
  revert patched r. induction l as [|c l IH]; intros patched r; simpl.
  { intros [= <- <-]. left. by split; [|constructor]. }
  unfold UpdateContainer. destruct (isContainerAligned target c) eqn:Ha.
  - intros H. apply IH in H. destruct patched as [c'|].
    + destruct H as (l1 & x & l2 & -> & H1 & H2). exists (c :: l1), x, l2. split; [done|].
      split; [by constructor|done].
    + destruct H as [[-> H]|(He & x & Hx & Hp)]; [left; by split; [|constructor]|].
      right. split; [done|]. exists x. split; [by right|done].
  - destruct (patch c) as [e|] eqn:Hp.
    + intros [= <- <-]. right. split; [eauto|]. exists c. split_and!; [by left|done|congruence].
    + intros [= <- <-]. exists [], c, l. split_and!; eauto.
Qed.

(** A call patches one container, and only when the list is settled; otherwise it leaves everything as it
    is, and returns nil exactly when the list is settled and every container has the new image. *)
Lemma RollingUpgrade_spec pct l patched r :
  RollingUpgrade patch target pct l = (patched, r) ->
  match patched with
  | Some c' => settled pct l /\ exists l1 c l2, l = l1 ++ c :: l2 /\ Forall (fun x => aligned x) l1 /\
                 isContainerAligned target c = false /\ patch c = None /\ c' = set_image target c /\
                 exists msg, r = Wait msg
  | None => r = Done <-> settled pct l /\ Forall (fun x => aligned x) l
  end.
Proof.
  unfold RollingUpgrade. destruct (rolling_check _ _ _ _ _) as [msg|] eqn:Hc.
  - intros [= <- <-]. split; [done|]. intros [Hs _].
    assert (rolling_check target pct (len l) 0 l = None) by (apply rolling_check_spec; exact Hs). congruence.
  - apply rolling_check_spec in Hc. intros H%rolling_start_spec. destruct patched as [c'|]; [by split|].
    destruct H as [[-> H]|((e & ->) & c & Hin & Ha & _)]; [done|]. split; [done|]. intros [_ Hall].
    rewrite Forall_forall in Hall. apply Hall in Hin. congruence.
Qed.

(** ** Runs of the rolling upgrade *)

(** What may happen to a container between two calls: it keeps its name and image, is not taken off its
    node or brought back from deletion, and does not go back from the target image. *)
Definition container_evolves (c c' : Container) : Prop :=
  container_key c' = container_key c /\ cs_Image (cn_Spec c') = cs_Image (cn_Spec c) /\
  (GetNodeAffinity c <> "" -> GetNodeAffinity c' <> "") /\
  (IsMarkedForDeletion c = true -> IsMarkedForDeletion c' = true) /\ (applied c -> applied c').

Abbreviation keys l := (container_key <$> l).

(** A state of a run: the containers, and the ones the upgrade took down when they were on a node. *)
Inductive rollout_step (pct : Z) :
    list Container * gset (string * string) -> list Container * gset (string * string) -> Prop :=
  (** a call, which may read the list in any order *)
  | rollout_call l l' started patched r :
      l' ≡ₚ l -> RollingUpgrade patch target pct l' = (patched, r) ->
      rollout_step pct (l, started)
        (match patched with Some c => put c l | None => l end,
         match patched with
         | Some c => if decide (GetNodeAffinity c = "") then started else {[container_key c]} ∪ started
         | None => started
         end)
  (** containers evolve, disappear, or appear under a new name *)
  | rollout_env l l' started :
      NoDup (keys l') ->
      (forall c', c' ∈ l' -> (exists c, c ∈ l /\ container_evolves c c') \/
                             ((container_key c' ∉ (container_key <$> l)) /\ (container_key c' ∉ started))) ->
      rollout_step pct (l, started) (l', started).

(** Restarting: taken down by the upgrade, on a node, and neither back with the new image nor being
    deleted. *)
Definition restarting (started : gset (string * string)) (c : Container) : bool :=
  bool_decide (container_key c ∈ started) && negb (isContainerApplied target c) && negb (IsMarkedForDeletion c).

Record rollout_inv (s : list Container * gset (string * string)) : Prop := {
  ri_keys : NoDup (keys s.1);
  ri_started c : c ∈ s.1 -> container_key c ∈ s.2 -> aligned c /\ GetNodeAffinity c <> "";
  ri_one c1 c2 : c1 ∈ s.1 -> c2 ∈ s.1 -> restarting s.2 c1 = true -> restarting s.2 c2 = true ->
    container_key c1 = container_key c2 }.

Lemma elem_of_put c c' l : c ∈ put c' l -> c = c' \/ (c ∈ l /\ container_key c <> container_key c').
Proof.
  unfold put. intros (x & -> & Hx)%list_elem_of_fmap. case_decide; [by left|by right].
Qed.

Lemma keys_put c' l : keys (put c' l) = keys l.
Proof.
  unfold put. rewrite <- list_fmap_compose. apply list_fmap_ext. intros i c _. simpl. by case_decide.
Qed.

Lemma key_set_image c : container_key (set_image target c) = container_key c.
Proof. done. Qed.

(** A started container that is not in flight is not restarting. *)
Lemma settled_not_restarting pct l started c :
  (forall c, c ∈ l -> container_key c ∈ started -> aligned c /\ GetNodeAffinity c <> "") ->
  settled pct l -> c ∈ l -> restarting started c = false.
Proof.
  intros Hst [Hs _] Hc. rewrite Forall_forall in Hs. apply Hs in Hc as Hf. unfold restarting, in_flight in *.
  destruct (decide (container_key c ∈ started)) as [Hin|Hin]; [|by rewrite bool_decide_eq_false_2].
  destruct (Hst c Hc Hin) as [Ha Hn]. rewrite Ha, (bool_decide_eq_false_2 _ Hn) in Hf.
  destruct (IsMarkedForDeletion c), (isContainerApplied target c), (bool_decide _); done.
Qed.

Lemma rollout_inv_call pct l l' started patched r :
  rollout_inv (l, started) -> l' ≡ₚ l -> RollingUpgrade patch target pct l' = (patched, r) ->
  rollout_inv (match patched with Some c => put c l | None => l end,
    match patched with
    | Some c => if decide (GetNodeAffinity c = "") then started else {[container_key c]} ∪ started
    | None => started
    end).
Proof.
  intros [Hk Hst Hone] Hp Hr; simpl in *.
  apply RollingUpgrade_spec in Hr. destruct patched as [c'|]; [|by split].
  destruct Hr as ([Hset Hdel] & l1 & c & l2 & Hl & _ & Hna & _ & -> & _).
  assert (Hno : forall x, x ∈ l -> restarting started x = false).
  { intros x Hx. eapply settled_not_restarting with (l := l') (pct := pct);
      [intros y Hy; apply Hst; by rewrite <- Hp|done|by rewrite Hp]. }
  assert (Hc : c ∈ l) by (rewrite <- Hp, Hl; set_solver).
  change (GetNodeAffinity (set_image target c)) with (GetNodeAffinity c). rewrite key_set_image.
  split; simpl.
  - by rewrite keys_put.
  - intros x [->|[Hx Hne]]%elem_of_put Hin; rewrite ?key_set_image in *.
    + case_decide as Hn; [destruct (Hst c Hc Hin) as [Ha _]; congruence|]. split; [|done].
      by apply bool_decide_eq_true.
    + apply Hst; [done|]. case_decide; set_solver.
  - assert (Hr : forall x, x ∈ put (set_image target c) l ->
      restarting (if decide (GetNodeAffinity c = "") then started else {[container_key c]} ∪ started) x = true ->
      container_key x = container_key c).
    { intros x [->|[Hx Hne]]%elem_of_put Hres; [done|]. rewrite key_set_image in Hne.
      specialize (Hno x Hx). unfold restarting in *. exfalso. revert Hres Hno.
      case_decide; rewrite ?(bool_decide_ext (container_key x ∈ {[container_key c]} ∪ started)
        (container_key x ∈ started)) by set_solver; congruence. }
    intros c1 c2 H1 H2 R1 R2. by rewrite (Hr c1 H1 R1), (Hr c2 H2 R2).
Qed.

Lemma rollout_inv_env l l' started :
  rollout_inv (l, started) -> NoDup (keys l') ->
  (forall c', c' ∈ l' -> (exists c, c ∈ l /\ container_evolves c c') \/
                         ((container_key c' ∉ (container_key <$> l)) /\ (container_key c' ∉ started))) ->
  rollout_inv (l', started).
Proof.
  intros [Hk Hst Hone] Hnd Henv; simpl in *.
  assert (Hback : forall c', c' ∈ l' -> container_key c' ∈ started ->
    exists c, c ∈ l /\ container_evolves c c').
  { intros c' Hc' Hin. destruct (Henv c' Hc') as [?|[_ ?]]; [done|contradiction]. }
  assert (Hres : forall c', c' ∈ l' -> restarting started c' = true ->
    exists c, c ∈ l /\ container_key c = container_key c' /\ restarting started c = true).
  { intros c' Hc' Hr. unfold restarting in *. rewrite !andb_true_iff, bool_decide_eq_true in Hr.
    destruct Hr as [[Hin Hna] Hnd']. destruct (Hback c' Hc' Hin) as (c & Hc & He). exists c.
    destruct He as (Hkey & _ & _ & Hdel & Happ). split_and!; [done..|].
    rewrite !andb_true_iff, bool_decide_eq_true. rewrite <- Hkey. split_and!; [done| |].
    + destruct (isContainerApplied target c); [by rewrite Happ in Hna|done].
    + destruct (IsMarkedForDeletion c); [by rewrite Hdel in Hnd'|done]. }
  split; simpl; [done| |].
  - intros c' Hc' Hin. destruct (Hback c' Hc' Hin) as (c & Hc & Hkey & Him & Hnode & _ & _).
    rewrite Hkey in Hin. destruct (Hst c Hc Hin) as [Ha Hn]. split; [|by apply Hnode].
    unfold isContainerAligned in *. by rewrite Him.
  - intros c1 c2 H1 H2 R1 R2. destruct (Hres c1 H1 R1) as (d1 & ? & <- & ?), (Hres c2 H2 R2) as (d2 & ? & <- & ?).
    by apply Hone.
Qed.

Lemma rollout_inv_steps pct s s' : rtc (rollout_step pct) s s' -> rollout_inv s -> rollout_inv s'.
Proof.
  induction 1 as [|s1 s2 s3 Hstep _ IH]; [done|]. intros Hi. apply IH.
  destruct Hstep; [by eapply rollout_inv_call|by eapply rollout_inv_env].
Qed.


(** ** Termination *)

Definition unaligned_count (l : list Container) : nat :=
  length (filter (fun c => isContainerAligned target c = false) l).

Lemma unaligned_put c l :
  c ∈ l -> isContainerAligned target c = false -> (unaligned_count (put (set_image target c) l) < unaligned_count l)%nat.
Proof.
  assert (Hal : isContainerAligned target (set_image target c) = true) by by apply bool_decide_eq_true.
  assert (Hle : forall l, (unaligned_count (put (set_image target c) l) <= unaligned_count l)%nat).
  { intros k. induction k as [|x k IH]; [done|]. unfold unaligned_count, put in *. rewrite fmap_cons, !filter_cons.
    destruct (decide (container_key x = _)).
    - rewrite (decide_False (P := isContainerAligned target (set_image target c) = false)) by congruence.
      case_decide; rewrite ?length_cons; lia.
    - case_decide; rewrite ?length_cons; lia. }
  intros Hin Hc. induction l as [|x l IH]; [set_solver|].
  unfold unaligned_count, put in *. rewrite fmap_cons, !filter_cons. specialize (Hle l).
  apply elem_of_cons in Hin as [->|Hin].
  - rewrite (decide_True (P := container_key x = container_key (set_image target x))) by done.
    rewrite decide_False by congruence. rewrite decide_True, ?length_cons by done. lia.
  - specialize (IH Hin). destruct (decide (container_key x = _)).
    + rewrite (decide_False (P := isContainerAligned target (set_image target c) = false)) by congruence.
      case_decide; rewrite ?length_cons; lia.
    + case_decide; rewrite ?length_cons; lia.
Qed.

(** Calls until one returns nil; [env i] is what happens to the containers before the [i]-th call. *)
Fixpoint reconcile_loop (pct : Z) (env : nat -> list Container -> list Container) (fuel i : nat)
    (l : list Container) : option (list Container) :=
  match fuel with
  | O => None
  | S fuel =>
      let l := env i l in
      match RollingUpgrade patch target pct l with
      | (_, Done) => Some l
      | (Some c, _) => reconcile_loop pct env fuel (S i) (put c l)
      | (None, _) => reconcile_loop pct env fuel (S i) l
      end
  end.

(** C8: the rolling upgrade finishes: when patches succeed and every container that is waited for comes
    back before the next call, it takes one call per container that lacks the image, and one more, and
    then every container has the new image and nothing is in flight. *)
Theorem rolling_upgrade_completes pct env fuel i l :
  (forall c, patch c = None) ->
  (forall i l, settled pct (env i l) /\ (unaligned_count (env i l) <= unaligned_count l)%nat) ->
  (unaligned_count l < fuel)%nat ->
  exists l', reconcile_loop pct env fuel i l = Some l' /\ Forall (fun c => aligned c) l' /\ settled pct l'.
Proof.
  intros Hp Henv. revert i l. induction fuel as [|fuel IH]; intros i l Hf; [lia|].
  simpl. destruct (Henv i l) as [Hs Hle]. set (l1 := env i l) in *.
  destruct (RollingUpgrade patch target pct l1) as [patched r] eqn:Hr.
  pose proof (RollingUpgrade_spec _ _ _ _ Hr) as H. destruct patched as [c'|].
  - destruct H as (_ & l0 & c & l2 & Hl & _ & Hc & _ & -> & msg & ->). apply IH.
    assert (Hin : c ∈ l1) by (rewrite Hl; set_solver). pose proof (unaligned_put c l1 Hin Hc). lia.
  - assert (r = Done) as ->.
    { unfold RollingUpgrade in Hr. destruct Hs as [Hs1 Hs2].
      rewrite (proj2 (rolling_check_spec pct (len l1) 0 l1)) in Hr by (by split).
      apply rolling_start_spec in Hr as [[-> _]|(_ & c & _ & _ & Hx)]; [done|]. by rewrite Hp in Hx. }
    exists l1. split; [done|]. apply and_comm, H. done.
Qed.
End rolling.

(** ** Writing objects *)

Lemma put_id c l : NoDup (container_key <$> l) -> c ∈ l -> put c l = l.
Proof.
  intros Hnd Hc. unfold put. rewrite <- (list_fmap_id l) at 2. apply list_fmap_ext. intros i x Hx. simpl.
  apply list_elem_of_lookup_2 in Hx. case_decide as Hk; [|done].
  by apply (NoDup_fmap_eq container_key l).
Qed.

Lemma put_all_id cs l : NoDup (container_key <$> l) -> cs ⊆ l -> put_all cs l = l.
Proof.
  intros Hnd. unfold put_all. induction cs as [|c cs IH]; simpl; [done|]. intros Hsub.
  rewrite put_id by set_solver. apply IH. set_solver.
Qed.

Lemma keys_put_all cs l : container_key <$> put_all cs l = container_key <$> l.
Proof.
  unfold put_all. revert l. induction cs as [|c cs IH]; intros l; simpl; [done|]. by rewrite IH, keys_put.
Qed.

(** Every object of the result was there, or is one that was written. *)
Lemma elem_of_put_all c cs l : c ∈ put_all cs l -> c ∈ l \/ c ∈ cs.
Proof.
  unfold put_all. revert l. induction cs as [|x cs IH]; intros l; simpl; [by left|].
  intros [[->|[H _]]%elem_of_put|H]%IH; set_solver.
Qed.

(** A written object replaces the old one. *)
Lemma put_all_written c cs l :
  NoDup (container_key <$> cs) -> c ∈ put_all cs l -> container_key c ∈ container_key <$> cs -> c ∈ cs.
Proof.
  unfold put_all. revert l. induction cs as [|x cs IH]; intros l; simpl; [set_solver|].
  intros [Hx Hnd]%NoDup_cons Hin Hk. destruct (decide (container_key c ∈ container_key <$> cs)) as [Hc|Hc].
  - right. by apply (IH (put x l)).
  - apply elem_of_put_all in Hin as [Hin|Hin]; [|by right]. apply elem_of_put in Hin as [->|[_ Hne]]; [by left|].
    apply elem_of_cons in Hk as [?|?]; contradiction.
Qed.

(** ** Rotation *)

Lemma anyApproved_spec l : anyApproved l = false <-> Forall (fun c => cs_RotatePod (cn_Spec c) = false) l.
Proof.
  unfold anyApproved. induction l as [|c l IH]; simpl; [done|].
  rewrite orb_false_iff, Forall_cons, IH. done.
Qed.

Lemma clear_none patch l n :
  anyApproved l = false -> clearFinishedRotations patch l n = (l, n, None).
Proof.
  rewrite anyApproved_spec. revert n. induction l as [|c l IH]; intros n; simpl; [done|].
  intros [Hc Hl]%Forall_cons. rewrite Hc. simpl. by rewrite IH.
Qed.

Lemma setRotatePod_ok patch c v c' : setRotatePod patch c v = Ok c' -> c' = c \/ c' = set_rotate v c.
Proof. unfold setRotatePod. destruct (patch c) as [[]|]; naive_solver. Qed.

(** Clearing leaves every container as it is or withdraws its approval. *)
Lemma clear_spec patch l n l' m e :
  clearFinishedRotations patch l n = (l', m, e) ->
  Forall2 (fun c c' => c' = c \/ c' = set_rotate false c) l l'.
Proof.
  revert n l' m e. induction l as [|c l IH]; intros n l' m e; simpl; [intros [= <- <- <-]; constructor|].
  assert (Hrefl : Forall2 (fun c c' => c' = c \/ c' = set_rotate false c) l l).
  { apply Forall_Forall2_diag, Forall_true. by left. }
  destruct (negb (cs_RotatePod (cn_Spec c))).
  { destruct (clearFinishedRotations patch l n) as [[l1 m1] e1] eqn:H. intros [= <- <- <-].
    constructor; [by left|by eapply IH]. }
  destruct (negb (cst_PodOutdated (cn_Status c)) || rotationExempt c).
  - destruct (setRotatePod patch c false) as [c1|e1] eqn:Hr; [|intros [= <- <- <-]; constructor; [by left|done]].
    destruct (clearFinishedRotations patch l n) as [[l1 m1] e2] eqn:H. intros [= <- <- <-].
    constructor; [by eapply setRotatePod_ok|by eapply IH].
  - destruct (clearFinishedRotations patch l (n + 1)) as [[l1 m1] e1] eqn:H. intros [= <- <- <-].
    constructor; [by left|by eapply IH].
Qed.

(** Writing objects whose key and [f] are those of an object there keeps [f] everywhere. *)
Lemma fmap_put {A} (f : Container -> A) c' l :
  NoDup (container_key <$> l) -> (container_key c', f c') ∈ (fun c => (container_key c, f c)) <$> l ->
  f <$> put c' l = f <$> l.
Proof.
  intros Hnd (c & [Hk Hf]%pair_eq & Hc)%list_elem_of_fmap. unfold put. rewrite <- list_fmap_compose.
  apply list_fmap_ext. intros i x Hx. apply list_elem_of_lookup_2 in Hx. simpl. case_decide as He; [|done].
  rewrite Hf. f_equal. symmetry. apply (NoDup_fmap_eq container_key l); congruence.
Qed.

Lemma fmap_put_all {A} (f : Container -> A) cs l :
  NoDup (container_key <$> l) ->
  Forall (fun c' => (container_key c', f c') ∈ (fun c => (container_key c, f c)) <$> l) cs ->
  f <$> put_all cs l = f <$> l.
Proof.
  intros Hnd Hcs. enough ((fun c => (container_key c, f c)) <$> put_all cs l = (fun c => (container_key c, f c)) <$> l) as H.
  { apply (f_equal (fmap snd)) in H. by rewrite <- !list_fmap_compose in H. }
  revert l Hnd Hcs. unfold put_all. induction cs as [|c cs IH]; intros l Hnd Hcs; simpl; [done|].
  apply Forall_cons in Hcs as [Hc Hcs].
  assert (E : (fun c => (container_key c, f c)) <$> put c l = (fun c => (container_key c, f c)) <$> l).
  { apply fmap_put; [done|]. apply list_elem_of_fmap in Hc as (x & Hx & Hin). apply list_elem_of_fmap. exists x.
    split; [|done]. apply pair_eq in Hx as [-> ->]. done. }
  rewrite IH; [done| |by rewrite E]. by rewrite keys_put.
Qed.

(** ** The phases of an upgrade *)

Section phases.
Context (cfg : OperatorConfig) (uc : upgrade_config) (spec : ClusterSpec) (env : upgrade_env).

Abbreviation target := (csp_Image spec).
Abbreviation pct := (uc_MaxDeactivatingContainersPercent uc).
Definition of_mode (m : string) (l : list Container) : list Container := filter (fun c => mode c = m) l.

(** Drives, computes, data services, frontends. *)
Definition phase_list (k : nat) (l : list Container) : list Container :=
  match k with
  | 0 => of_mode WekaContainerModeDrive l
  | 1 => of_mode WekaContainerModeCompute l
  | 2 => of_mode WekaContainerModeDataServices l
  | 3 => of_mode WekaContainerModeS3 l ++ of_mode WekaContainerModeNfs l ++ of_mode WekaContainerModeSmbw l
  | _ => []
  end%nat.

Definition phase_complete (k : nat) (l : list Container) : Prop :=
  settled target pct (phase_list k l) /\ Forall (fun c => isContainerAligned target c = true) (phase_list k l).

(** What a call may do from phase [k] on: nothing; patch one container of a phase when the earlier ones are
    complete; or finish, when all are. *)
Inductive moves (k : nat) (w w' : cluster_world) : step_result -> Prop :=
  | moves_none r : cw_containers w' = cw_containers w -> cw_LastAppliedImage w' = cw_LastAppliedImage w -> r <> Done ->
      moves k w w' r
  | moves_patch j c msg : (k <= j)%nat -> c ∈ phase_list j (cw_containers w) -> isContainerAligned target c = false ->
      cw_containers w' = put (set_image target c) (cw_containers w) -> cw_LastAppliedImage w' = cw_LastAppliedImage w ->
      settled target pct (phase_list j (cw_containers w)) ->
      (forall i, (k <= i < j)%nat -> phase_complete i (cw_containers w)) -> moves k w w' (Wait msg)
  | moves_done : cw_containers w' = cw_containers w -> cw_LastAppliedImage w' = target ->
      (forall i, (k <= i)%nat -> phase_complete i (cw_containers w)) -> moves k w w' Done.

(** The parts of the world a call moves. *)
Definition same_world (w w' : cluster_world) : Prop :=
  cw_containers w' = cw_containers w /\ cw_LastAppliedImage w' = cw_LastAppliedImage w.

Lemma moves_stop k w w' r : same_world w w' -> r <> Done -> moves k w w' r.
Proof. intros [? ?]. by constructor. Qed.

Lemma moves_same k w w1 w' r : same_world w w1 -> moves k w1 w' r -> moves k w w' r.
Proof.
  intros [Hc Hl]. destruct 1; rewrite Hc, ?Hl in *; [by constructor|by econstructor|by constructor].
Qed.

Lemma phase_complete_nil k l : phase_list k l = [] -> phase_complete k l.
Proof. intros H. unfold phase_complete. rewrite H. split; [split; [constructor|by left]|constructor]. Qed.

(** A later phase, once this one is complete. *)
Lemma moves_next k w w' r : phase_complete k (cw_containers w) -> moves (S k) w w' r -> moves k w w' r.
Proof.
  assert (Hlater : forall i, (k <= i)%nat -> i = k \/ (S k <= i)%nat) by lia.
  intros Hk. destruct 1 as [r H1 H2 H3|j c msg H1 H2 H3 H4 H5 H6 H7|H1 H2 H3].
  - by apply moves_none.
  - eapply (moves_patch k w w' j c); [lia|done..|]. intros i Hi.
    destruct (Hlater i) as [->|Hi']; [lia|done|apply H7; lia].
  - apply moves_done; [done..|]. intros i Hi. destruct (Hlater i Hi) as [->|Hi']; [done|by apply H3].
Qed.

Lemma run_prepare_same op l w w' r : run_prepare env op l w = (w', r) -> same_world w w'.
Proof.
  unfold run_prepare. destruct l as [|c l]; [by intros [= <- <-]|].
  destruct (ue_executor env c); [by intros [= <- <-]|]. destruct (ue_exec env op); by intros [= <- <-].
Qed.

(** A rolling upgrade of the containers of a phase, and what follows it. *)
Lemma moves_rolling k l w w' r patched r0 (kont : cluster_world -> cluster_world * step_result) :
  l = phase_list k (cw_containers w) ->
  (forall w1 w' r, same_world w w1 -> kont w1 = (w', r) -> moves (S k) w1 w' r) ->
  RollingUpgrade (ue_patch env) target pct l = (patched, r0) ->
  step_bind (match patched with Some c => with_containers (put c (cw_containers w)) w | None => w end, r0) kont
  = (w', r) -> moves k w w' r.
Proof.
  intros Hl Hk Hr. pose proof (RollingUpgrade_spec _ _ _ _ _ _ Hr) as H. destruct patched as [c'|].
  - destruct H as (Hs & l1 & c & l2 & Hl' & _ & Hc & _ & -> & msg & ->). unfold step_bind. simpl. intros [= <- <-].
    eapply (moves_patch k _ _ k c); [lia|rewrite <- Hl, Hl'; set_solver|done..| |lia]. by rewrite <- Hl.
  - intros Hb. destruct r0; try (injection Hb as <- <-; by apply moves_stop).
    destruct H as [H _]. specialize (H eq_refl). simpl in Hb. rewrite Hl in H.
    apply moves_next; [exact H|]. by eapply Hk.
Qed.

Lemma with_owned_ok m kont w w' r k :
  (forall w' r, kont (of_mode m (cw_containers w)) w = (w', r) -> moves k w w' r) ->
  with_owned env m kont w = (w', r) -> moves k w w' r.
Proof.
  intros Hk. unfold with_owned, GetOwnedContainers. destruct (ue_list env m).
  - intros [= <- <-]. by apply moves_stop.
  - apply Hk.
Qed.

(** The first step of a sequence. *)
Lemma step_bind_cases m kont w' r :
  step_bind m kont = (w', r) -> (m = (w', r) /\ r <> Done) \/ (m.2 = Done /\ kont m.1 = (w', r)).
Proof. unfold step_bind. destruct m as [w1 r1]. destruct r1; simpl; naive_solver. Qed.

Lemma step_bind_assoc m f g : step_bind (step_bind m f) g = step_bind m (fun w => step_bind (f w) g).
Proof. unfold step_bind. destruct m as [w1 []]; done. Qed.

Lemma same_world_trans w1 w2 w3 : same_world w1 w2 -> same_world w2 w3 -> same_world w1 w3.
Proof. intros [] []. split; congruence. Qed.

Lemma moves_upgrade_phase k prepare l w w' r kont :
  (forall l w w' r, prepare l w = (w', r) -> same_world w w') ->
  l = phase_list k (cw_containers w) ->
  (forall w1 w' r, same_world w w1 -> kont w1 = (w', r) -> moves (S k) w1 w' r) ->
  step_bind (upgrade_phase uc spec env prepare l w) kont = (w', r) -> moves k w w' r.
Proof.
  intros Hp Hl Hk. unfold upgrade_phase. rewrite step_bind_assoc.
  intros [[Hb Hne]|[Hd Hb]]%step_bind_cases; destruct (prepare_needed spec l);
    try (by injection Hb as <- <-); simpl in *.
  - apply moves_stop; [by eapply Hp|done].
  - destruct (prepare l w) as [w1 r1] eqn:E. apply Hp in E as Hs. simpl in *.
    eapply moves_same; [exact Hs|].
    destruct (RollingUpgrade _ _ _ _) as [patched r2] eqn:Hr.
    eapply moves_rolling; [|intros w2 w3 r3 Hs2; apply Hk; by apply (same_world_trans w w1 w2)|exact Hr|exact Hb].
    by destruct Hs as [-> _].
  - destruct (RollingUpgrade _ _ _ _) as [patched r2] eqn:Hr. by eapply moves_rolling.
Qed.

Lemma frontend_moves drives w w' r : frontend_phase uc spec env drives w = (w', r) -> moves 3 w w' r.
Proof.
  unfold frontend_phase. apply with_owned_ok. intros w0 r0. apply with_owned_ok. intros w1 r1.
  apply with_owned_ok. intros w2 r2. apply moves_upgrade_phase; [|done|].
  { intros l w3 w4 r4. unfold prepareForUpgradeFrontend. case_decide; [by intros [= <- <-]|apply run_prepare_same]. }
  intros w3 w4 r4 Hs Hb.
  assert (Hfin : forall w5 r5, finalizeUpgrade env drives w3 = (w5, r5) -> same_world w3 w5).
  { intros w5 r5. unfold finalizeUpgrade. destruct drives as [|c drives]; [by intros [= <- <-]|].
    destruct (ue_executor env c); [by intros [= <- <-]|]. destruct (ue_exec env _); by intros [= <- <-]. }
  apply step_bind_cases in Hb as [[Hb Hne]|[Hd Hb]]; [apply moves_stop; [by eapply Hfin|done]|].
  destruct (finalizeUpgrade env drives w3) as [w5 r5]. simpl in *. specialize (Hfin w5 r5 eq_refl).
  assert (Hclear : same_world w5 (clearAllPrePullAnnotations env w5))
    by (unfold clearAllPrePullAnnotations; by destruct (ue_clear env)).
  destruct Hfin as [F1 F2], Hclear as [C1 C2].
  destruct (ue_status_update env); injection Hb as <- <-; [apply moves_stop; [split; congruence|done]|].
  apply moves_done; simpl; [congruence|done|]. intros i Hi. apply phase_complete_nil.
  do 4 (destruct i as [|i]; [lia|]). done.
Qed.

Lemma data_services_moves drives w w' r : data_services_phase uc spec env drives w = (w', r) -> moves 2 w w' r.
Proof.
  unfold data_services_phase. apply with_owned_ok. intros w0 r0. case_decide as Hlen.
  - apply moves_upgrade_phase; [|done|intros; by eapply frontend_moves].
    intros l w1 w2 r2. unfold prepareForUpgradeDataServices. case_decide; [by intros [= <- <-]|apply run_prepare_same].
  - intros Hb. apply moves_next; [|apply (frontend_moves drives); exact Hb]. apply phase_complete_nil. simpl.
    apply nil_length_inv. lia.
Qed.

Lemma compute_moves drives w w' r : compute_phase uc spec env drives w = (w', r) -> moves 1 w w' r.
Proof.
  unfold compute_phase. apply with_owned_ok. intros w0 r0. destruct (ov_UpgradePausePreCompute _).
  { intros [= <- <-]. by apply moves_stop. }
  apply moves_upgrade_phase; [intros l w1 w2 r2; apply run_prepare_same|done|intros; by eapply data_services_moves].
Qed.

Lemma drive_moves w w' r : drive_phase cfg uc spec env w = (w', r) -> moves 0 w w' r.
Proof.
  unfold drive_phase. apply with_owned_ok. intros w0 r0.
  set (l := of_mode WekaContainerModeDrive (cw_containers w)).
  set (m := if prepare_needed spec l then prepareForUpgradeDrives env l w else (w, Done)).
  assert (Hm : same_world w m.1).
  { unfold m. destruct (prepare_needed spec l); [|done].
    destruct (prepareForUpgradeDrives env l w) as [w1 r1] eqn:E. by eapply run_prepare_same. }
  intros [[Hb Hne]|[Hd Hb]]%step_bind_cases; [apply moves_stop; [by rewrite Hb in Hm|done]|].
  apply (moves_same _ _ _ _ _ Hm).
  apply step_bind_cases in Hb as [[Hb Hne]|[Hh Hb]]; [injection Hb as <- <-; by apply moves_stop|].
  simpl in Hb. destruct (RollingUpgrade _ _ _ _) as [patched r2] eqn:Hr.
  eapply moves_rolling; [|intros; by eapply compute_moves|exact Hr|exact Hb].
  unfold l. by destruct Hm as [-> _].
Qed.

Lemma prepull_same w w' r : handleImagePrePull env spec w = (w', r) -> same_world w w'.
Proof.
  unfold handleImagePrePull. destruct (prepull_launch _ _ _) as [launched waited].
  destruct (foldl _ _ launched) as [m err]. by intros [= <- <-].
Qed.

(** One call of the image upgrade, outside the all-at-once mode. *)
Lemma handleImageUpgrade_moves w w' r :
  ov_UpgradeAllAtOnce (GetOverrides spec) = false -> handleImageUpgrade cfg uc spec env w = (w', r) -> moves 0 w w' r.
Proof.
  intros Hall. unfold handleImageUpgrade. rewrite Hall. destruct (ov_UpgradePaused _).
  { intros [= <- <-]. by apply moves_stop. }
  destruct (uc_ImagePrePullEnabled uc); intros [[Hb Hne]|[Hd Hb]]%step_bind_cases; try (by injection Hb as <- <-);
    simpl in *; [|destruct (handleImagePrePull env spec w) as [w1 r1] eqn:E|].
  - apply moves_stop; [by eapply prepull_same|done].
  - eapply moves_same; [by eapply prepull_same|by apply drive_moves].
  - by apply drive_moves.
Qed.
End phases.

(** ** One call of [handleUpgrade] *)

Definition backends (l : list Container) : list Container := filter (fun c => IsBackend c = true) l.
Definition images (l : list Container) : list ((string * string) * string) :=
  (fun c => (container_key c, cs_Image (cn_Spec c))) <$> l.
(** Approved for a rotation. *)
Definition approved (c : Container) : bool := IsBackend c && cs_RotatePod (cn_Spec c).

Lemma set_rotate_backend v c : IsBackend (set_rotate v c) = IsBackend c.
Proof. done. Qed.

Lemma backends_sub l : backends l ⊆ l.
Proof. intros c [_ H]%list_elem_of_filter. done. Qed.

Lemma NoDup_backends l : NoDup (container_key <$> l) -> NoDup (container_key <$> backends l).
Proof. intros H. eapply sublist_NoDup; [exact H|]. apply fmap_sublist, sublist_filter. Qed.

Lemma anyApproved_none l c :
  anyApproved (backends l) = false -> c ∈ l -> approved c = false.
Proof.
  rewrite anyApproved_spec, Forall_forall. intros H Hc. unfold approved. destruct (IsBackend c) eqn:Hb; [|done].
  apply H. by apply list_elem_of_filter.
Qed.

(** The rotations that are cleared at the start of a call. *)
Section cleared.
Context (patch : patch_answer) (l l' : list Container) (n : Z) (e : option string).
Context (Hnd : NoDup (container_key <$> l)).
Context (Hcl : clearFinishedRotations patch (backends l) 0 = (l', n, e)).

Lemma cleared_elem c' : c' ∈ l' -> exists c, c ∈ backends l /\ (c' = c \/ c' = set_rotate false c).
Proof using Hcl.
  apply clear_spec in Hcl. intros Hc'. apply list_elem_of_lookup in Hc' as [i Hi].
  destruct (Forall2_lookup_r _ _ _ _ _ Hcl Hi) as (c & Hc & H). exists c. split; [|done].
  by apply list_elem_of_lookup_2 in Hc.
Qed.

Lemma cleared_images : images (put_all l' l) = images l.
Proof using Hcl Hnd.
  apply fmap_put_all; [done|]. apply Forall_forall. intros c' (c & Hc & H)%cleared_elem.
  apply list_elem_of_fmap. exists c. split; [|by apply backends_sub]. by destruct H as [-> | ->].
Qed.

Lemma cleared_approved c' :
  c' ∈ put_all l' l -> approved c' = true -> exists c, c ∈ l /\ container_key c = container_key c' /\ approved c = true.
Proof using Hcl.
  intros [Hc|Hc]%elem_of_put_all Ha; [by exists c'|].
  apply cleared_elem in Hc as (c & Hc & [-> | ->]); [exists c; split; [by apply backends_sub|done]|].
  unfold approved in Ha. rewrite andb_false_r in Ha. done.
Qed.
End cleared.

(** Writing back the containers when none was approved changes nothing. *)
Lemma cleared_nothing patch l :
  NoDup (container_key <$> l) -> anyApproved (backends l) = false ->
  clearFinishedRotations patch (backends l) 0 = (backends l, 0, None) /\ put_all (backends l) l = l.
Proof. intros Hnd Ha. split; [by apply clear_none|]. apply put_all_id; [done|apply backends_sub]. Qed.

Section calls.
Context (cfg : OperatorConfig) (uc : upgrade_config) (spec : ClusterSpec) (env : upgrade_env).

Abbreviation target := (csp_Image spec).
Abbreviation pct := (uc_MaxDeactivatingContainersPercent uc).

(** What an approval of the rotation requires. *)
Definition approves (l : list Container) (c : Container) : Prop :=
  c ∈ rotation_candidates (backends l) /\
  (forall x, x ∈ rotation_candidates (backends l) -> rotation_lt x c = false) /\
  anyApproved (backends l) = false /\ podRotationEnabled spec (ue_settings env) = true /\
  ov_UpgradePaused (GetOverrides spec) = false /\ (ue_health env).1 = true.

Lemma head_sort_by_min c l rest :
  sort_by rotation_lt l = c :: rest -> c ∈ l /\ forall x, x ∈ l -> rotation_lt x c = false.
Proof.
  intros H. split; [apply (elem_of_sort_by rotation_lt); rewrite H; by left|].
  assert (Hs : StronglySorted (fun x y => rotation_lt y x = false) (sort_by rotation_lt l)).
  { apply sort_by_sorted.
    - unfold rotation_lt. intros x y. split_decide; rewrite ?bool_decide_eq_true, ?bool_decide_eq_false; try lia.
      apply str_lt_asym.
    - unfold rotation_lt. intros x y z. split_decide; rewrite ?bool_decide_eq_false; try lia.
      apply str_le_trans. }
  rewrite H in Hs. inversion Hs as [|? ? _ Hall]; subst. rewrite Forall_forall in Hall.
  intros x Hx. apply (elem_of_sort_by rotation_lt) in Hx. rewrite H in Hx.
  apply elem_of_cons in Hx as [->|Hx]; [|by apply Hall]. unfold rotation_lt. rewrite decide_False by lia.
  by destruct (str_lt (cn_Name c) (cn_Name c)) eqn:E; [rewrite (str_lt_asym _ _ E) in E|].
Qed.

(** The approvals of [l'] were there in [l]. *)
Definition no_new_approval (l l' : list Container) : Prop :=
  forall c', c' ∈ l' -> approved c' = true -> exists c, c ∈ l /\ container_key c = container_key c' /\ approved c = true.

Lemma no_new_approval_refl l : no_new_approval l l.
Proof. intros c Hc Ha. by exists c. Qed.

Lemma rotationContainers_ok w l : rotationContainers env w = Ok l -> l = backends (cw_containers w).
Proof. unfold rotationContainers. destruct (ue_list env ""); [done|]. by intros [= <-]. Qed.

Lemma handlePodRotation_spec w w' r :
  NoDup (container_key <$> cw_containers w) -> ov_UpgradeAllAtOnce (GetOverrides spec) = false ->
  handlePodRotation spec env w = (w', r) ->
  cw_LastAppliedImage w' = cw_LastAppliedImage w /\ images (cw_containers w') = images (cw_containers w) /\
  (no_new_approval (cw_containers w) (cw_containers w') \/
   exists c, approves (cw_containers w) c /\ cw_containers w' = put (set_rotate true c) (cw_containers w)).
Proof.
  intros Hnd Hall. unfold handlePodRotation.
  destruct (rotationContainers env w) as [l0|e] eqn:Hrc;
    [|intros [= <- <-]; split_and!; [done..|left; apply no_new_approval_refl]].
  apply rotationContainers_ok in Hrc as ->. set (l := cw_containers w) in *.
  destruct (clearFinishedRotations (ue_patch env) (backends l) 0) as [[cl n] err] eqn:Hcl.
  pose proof (cleared_images _ _ _ _ _ Hnd Hcl) as Himg.
  assert (Hkeep : no_new_approval l (put_all cl l)) by (intros c'; by eapply cleared_approved).
  destruct err as [e|]; [intros [= <- <-]; split_and!; [done..|by left]|].
  destruct (anyApproved (backends l)) eqn:Happ; [intros [= <- <-]; split_and!; [done..|by left]|].
  destruct (cleared_nothing (ue_patch env) l Hnd Happ) as [Hcl' Hput].
  rewrite Hcl in Hcl'. injection Hcl' as -> ->. simpl. rewrite Hput in *.
  assert (Hid : forall r0 : step_result, (with_containers l w, r0) = (w', r) ->
    cw_LastAppliedImage w' = cw_LastAppliedImage w /\ images (cw_containers w') = images l /\
    (no_new_approval l (cw_containers w') \/
     exists c, approves l c /\ cw_containers w' = put (set_rotate true c) l)).
  { intros r0 [= <- _]. split_and!; [done..|by left]. }
  case_decide; [apply Hid|]. destruct (podRotationEnabled spec (ue_settings env)) eqn:Hen; simpl; [|apply Hid].
  destruct (ov_UpgradePaused (GetOverrides spec)) eqn:Hpa; [apply Hid|]. rewrite Hall.
  destruct (ue_health env) as [ok reason] eqn:Hh. destruct ok; simpl; [|apply Hid].
  destruct (sort_by rotation_lt _) as [|next rest] eqn:Hsort; [apply Hid|].
  apply head_sort_by_min in Hsort as [Hc Hmin].
  destruct (setRotatePod (ue_patch env) next true) as [c|e] eqn:Hr; [|apply Hid].
  assert (Hin : next ∈ l) by (apply list_elem_of_filter in Hc as [_ Hc]; by apply backends_sub).
  intros [= <- <-]. simpl.
  apply setRotatePod_ok in Hr as [-> | ->]; [rewrite put_id by done; split_and!; [done..|by left]|].
  split_and!; [done| |right; exists next; split; [|done]; unfold approves; by rewrite Hen, Hpa, Hh].
  apply fmap_put; [done|]. apply list_elem_of_fmap. by exists next.
Qed.

(** What one call does to images and approvals. *)
Record call_effect (w w' : cluster_world) (r : step_result) : Prop := {
  ce_images : images (cw_containers w') = images (cw_containers w) \/
    exists j c, c ∈ phase_list j (cw_containers w) /\ isContainerAligned target c = false /\
      cw_containers w' = put (set_image target c) (cw_containers w) /\
      settled target pct (phase_list j (cw_containers w)) /\
      (forall i, (i < j)%nat -> phase_complete uc spec i (cw_containers w)) /\
      anyApproved (backends (cw_containers w)) = false;
  ce_applied : cw_LastAppliedImage w' <> cw_LastAppliedImage w ->
    r = Done /\ forall i, phase_complete uc spec i (cw_containers w);
  ce_approvals : no_new_approval (cw_containers w) (cw_containers w') \/
    (cw_LastAppliedImage w = target /\
     exists c, approves (cw_containers w) c /\ cw_containers w' = put (set_rotate true c) (cw_containers w)) }.

Lemma phase_list_sub j l : phase_list j l ⊆ l.
Proof.
  intros c. do 4 (destruct j as [|j];
    [unfold phase_list, of_mode; rewrite ?elem_of_app, ?list_elem_of_filter; naive_solver|]).
  intros Hc. by apply not_elem_of_nil in Hc.
Qed.

Lemma call_effect_kept w w' r :
  images (cw_containers w') = images (cw_containers w) -> cw_LastAppliedImage w' = cw_LastAppliedImage w ->
  no_new_approval (cw_containers w) (cw_containers w') -> call_effect w w' r.
Proof. intros Hi Hl Ha. split; [by left|congruence|by left]. Qed.

Lemma handleUpgrade_call w w' r :
  NoDup (container_key <$> cw_containers w) -> ov_UpgradeAllAtOnce (GetOverrides spec) = false ->
  handleUpgrade cfg uc spec env w = (w', r) -> call_effect w w' r.
Proof.
  intros Hnd Hall. unfold handleUpgrade. case_decide as Hup.
  2:{ intros (Hl & Hi & Ha)%handlePodRotation_spec; [|done..]. split; [by left|congruence|].
      destruct Ha as [?|?]; [by left|right]. split; [|done]. by destruct (decide (cw_LastAppliedImage w = target)). }
  destruct (rotationContainers env w) as [l0|e] eqn:Hrc;
    [|intros [= <- <-]; apply call_effect_kept; [done..|apply no_new_approval_refl]].
  apply rotationContainers_ok in Hrc as ->. set (l := cw_containers w) in *.
  destruct (clearFinishedRotations (ue_patch env) (backends l) 0) as [[cl n] err] eqn:Hcl.
  pose proof (cleared_images _ _ _ _ _ Hnd Hcl) as Himg.
  assert (Hkeep : no_new_approval l (put_all cl l)) by (intros c'; by eapply cleared_approved).
  destruct err as [e|]; [intros [= <- <-]; by apply call_effect_kept|].
  destruct (anyApproved (backends l)) eqn:Happ; [intros [= <- <-]; by apply call_effect_kept|].
  destruct (cleared_nothing (ue_patch env) l Hnd Happ) as [Hcl' Hput].
  rewrite Hcl in Hcl'. injection Hcl' as -> ->. simpl. rewrite Hput.
  intros Hm%handleImageUpgrade_moves; [|done].
  destruct Hm as [r H1 H2 H3|j c msg H1 H2 H3 H4 H5 H6 H7|H1 H2 H3]; simpl in *.
  - apply call_effect_kept; rewrite ?H1; try done. apply no_new_approval_refl.
  - split; [right; exists j, c|done|left].
    { split_and!; try done. intros i Hi. apply H7. lia. }
    intros c'. rewrite H4. apply phase_list_sub in H2. intros [->|[Hin _]]%elem_of_put Ha; [by exists c|by exists c'].
  - split; [left; by rewrite H1| |left; rewrite H1; apply no_new_approval_refl].
    intros _. split; [done|]. intros i. apply H3. lia.
Qed.


(** The state of the cluster that an upgrade asks for. *)
Definition healthy : Prop :=
  exists status, ue_status env = Ok status /\ IsFullyProtected (ws_ProtectionState status) = true /\
    ws_Status status ∈ HealthyClusterStatuses /\
    MeetsThreshold (ws_DrivesActive status) (role_Drive (GetWekaContainerNumbers cfg (csp_Dynamic spec)))
      (uc_DriveThresholdPercent uc) = true /\
    MeetsThreshold (ws_ComputesActive status) (role_Compute (GetWekaContainerNumbers cfg (csp_Dynamic spec)))
      (uc_ComputeThresholdPercent uc) = true.

Lemma health_checks_done w : health_checks cfg uc spec env w = Done -> healthy.
Proof.
  unfold health_checks, healthy. case_decide; [done|]. destruct (ue_status env) as [status|e]; [|done].
  destruct (IsFullyProtected _) eqn:H1; simpl; [|done]. destruct (bool_decide _) eqn:H2; simpl; [|done].
  destruct (MeetsThreshold (ws_DrivesActive status) _ _) eqn:H3; simpl; [|done].
  destruct (MeetsThreshold (ws_ComputesActive status) _ _) eqn:H4; simpl; [|done].
  rewrite bool_decide_eq_true in H2. intros _. by exists status.
Qed.

Lemma drive_phase_health w w' r : drive_phase cfg uc spec env w = (w', r) -> healthy \/ same_world w w'.
Proof.
  unfold drive_phase, with_owned. destruct (GetOwnedContainers env _ w) as [l|e]; [|intros [= <- <-]; by right].
  set (m := if prepare_needed spec l then prepareForUpgradeDrives env l w else (w, Done)).
  assert (Hm : same_world w m.1).
  { unfold m. destruct (prepare_needed spec l); [|done].
    destruct (prepareForUpgradeDrives env l w) as [w1 r1] eqn:E. by eapply run_prepare_same. }
  intros [[Hb Hne]|[Hd Hb]]%step_bind_cases; [right; by rewrite Hb in Hm|].
  apply step_bind_cases in Hb as [[Hb Hne]|[Hh Hb]]; [injection Hb as <- <-; by right|].
  left. by apply health_checks_done in Hh.
Qed.

(** C10: no container is taken down in an unhealthy cluster: outside the all-at-once mode, a call of
    [handleUpgrade] that changes an image was made when weka reported the cluster fully protected, OK or
    redistributing, with the required share of drive and compute containers active, and the upgrade was
    not paused. *)
Theorem handleUpgrade_needs_health w w' r :
  NoDup (container_key <$> cw_containers w) -> ov_UpgradeAllAtOnce (GetOverrides spec) = false ->
  handleUpgrade cfg uc spec env w = (w', r) -> images (cw_containers w') <> images (cw_containers w) ->
  healthy /\ ov_UpgradePaused (GetOverrides spec) = false.
Proof.
  intros Hnd Hall. unfold handleUpgrade. case_decide as Hup.
  2:{ intros (Hl & Hi & Ha)%handlePodRotation_spec; done. }
  destruct (rotationContainers env w) as [l0|e] eqn:Hrc; [|by intros [= <- <-]].
  apply rotationContainers_ok in Hrc as ->.
  destruct (clearFinishedRotations (ue_patch env) (backends (cw_containers w)) 0) as [[cl n] err] eqn:Hcl.
  pose proof (cleared_images _ _ _ _ _ Hnd Hcl) as Himg.
  destruct err as [e|]; [by intros [= <- <-]|]. destruct (anyApproved _); [by intros [= <- <-]|].
  unfold handleImageUpgrade. rewrite Hall. set (w1 := with_containers _ w).
  destruct (ov_UpgradePaused _); [by intros [= <- <-]|]. intros Hb Hne. split; [|done].
  enough (healthy \/ same_world w1 w') as [?|[Hs _]]; [done| |].
  { destruct Hne. rewrite Hs. exact Himg. }
  destruct (uc_ImagePrePullEnabled uc); apply step_bind_cases in Hb as [[Hb Hn]|[Hd Hb]]; simpl in *.
  - right. by eapply prepull_same.
  - destruct (handleImagePrePull env spec w1) as [w2 r2] eqn:E. apply prepull_same in E.
    apply drive_phase_health in Hb as [?|Hs]; [by left|]. right. by eapply same_world_trans.
  - right. by injection Hb as <- <-.
  - by apply drive_phase_health in Hb.
Qed.

(** A rotation is approved for good reason: when a call of [handleUpgrade] approves a pod rotation,
    no image upgrade is pending, rotation is enabled and not paused, the cluster is healthy, no other backend
    container is approved, and the one container approved is outdated, on a node, neither deleted nor being
    torn down, and first among such containers by role and name; nothing else changes. *)
Theorem handleUpgrade_approval w w' r c' :
  NoDup (container_key <$> cw_containers w) -> ov_UpgradeAllAtOnce (GetOverrides spec) = false ->
  handleUpgrade cfg uc spec env w = (w', r) -> c' ∈ cw_containers w' -> approved c' = true ->
  Forall (fun c => container_key c = container_key c' -> approved c = false) (cw_containers w) ->
  cw_LastAppliedImage w = target /\
  exists c, approves (cw_containers w) c /\ c' = set_rotate true c /\
    cw_containers w' = put c' (cw_containers w).
Proof.
  intros Hnd Hall Hr%handleUpgrade_call Hc' Ha Hnew; [|done..]. rewrite Forall_forall in Hnew.
  destruct (ce_approvals _ _ _ Hr) as [Hno|(Hl & c & Hap & Hw)].
  - destruct (Hno c' Hc' Ha) as (c & Hc & Hk & Hac). rewrite Hnew in Hac; done.
  - split; [done|]. exists c. rewrite Hw in Hc'. apply elem_of_put in Hc' as [->|[Hin Hne]]; [done|].
    destruct Hap as (_ & _ & Hany & _). by rewrite (anyApproved_none _ _ Hany Hin) in Ha.
Qed.
End calls.

(** ** Runs of the cluster *)

(** A step of the cluster: a call of [handleUpgrade], with any configuration and any answers of the rest of
    the system but not in the all-at-once mode, or any change of the containers by others, who do not approve
    rotations. *)
Inductive cluster_step (cfg : OperatorConfig) : cluster_world -> cluster_world -> Prop :=
  | cluster_call uc spec env w w' r :
      ov_UpgradeAllAtOnce (GetOverrides spec) = false -> handleUpgrade cfg uc spec env w = (w', r) ->
      cluster_step cfg w w'
  | cluster_env w w' :
      NoDup (container_key <$> cw_containers w') -> no_new_approval (cw_containers w) (cw_containers w') ->
      cluster_step cfg w w'.

Record cluster_inv (w : cluster_world) : Prop := {
  ci_keys : NoDup (container_key <$> cw_containers w);
  ci_one c1 c2 : c1 ∈ cw_containers w -> c2 ∈ cw_containers w -> approved c1 = true -> approved c2 = true ->
    container_key c1 = container_key c2 }.

Lemma images_keys l l' : images l' = images l -> container_key <$> l' = container_key <$> l.
Proof. unfold images. intros H. apply (f_equal (fmap fst)) in H. by rewrite <- !list_fmap_compose in H. Qed.

Lemma cluster_inv_step cfg w w' : cluster_inv w -> cluster_step cfg w w' -> cluster_inv w'.
Proof.
  intros [Hk Hone] Hstep.
  assert (Hkeep : no_new_approval (cw_containers w) (cw_containers w') ->
    forall c1 c2, c1 ∈ cw_containers w' -> c2 ∈ cw_containers w' -> approved c1 = true -> approved c2 = true ->
    container_key c1 = container_key c2).
  { intros Hno c1 c2 H1 H2 A1 A2.
    destruct (Hno c1 H1 A1) as (d1 & ? & <- & ?), (Hno c2 H2 A2) as (d2 & ? & <- & ?). by apply Hone. }
  destruct Hstep as [uc spec env w w' r Hall Hr|w w' Hnd Hno]; [|split; auto].
  apply handleUpgrade_call in Hr as [Hi _ Ha]; [|done..]. split.
  - destruct Hi as [Hi|(j & c & _ & _ & -> & _)]; [by rewrite (images_keys _ _ Hi)|by rewrite keys_put].
  - destruct Ha as [Hno|(_ & c & (_ & _ & Hany & _) & Hw)]; [by apply Hkeep|].
    assert (Hc : forall x, x ∈ cw_containers w' -> approved x = true -> container_key x = container_key c).
    { intros x. rewrite Hw. intros [->|[Hx _]]%elem_of_put Hax; [done|].
      by rewrite (anyApproved_none _ _ Hany Hx) in Hax. }
    intros c1 c2 H1 H2 A1 A2. by rewrite (Hc c1 H1 A1), (Hc c2 H2 A2).
Qed.


(** ** A concrete cluster *)

(** A drive container of the example, with its image and the image it runs. *)
Definition ex_rollout (name node image applied : string) : Container :=
  let c := ex_drive name node (4 * tib) 1 in
  set_status {| cst_Status := "Running"; cst_ManagementIps := []; cst_NodeAffinity := node; cst_LastAppliedImage := applied; cst_ClusterContainerID := Some 1;
                cst_PodOutdated := true; cst_Allocations := None |} (set_image image c).

Definition ex_rollout_list : list Container := [ex_rollout "d1" "n1" "A" "A"; ex_rollout "d2" "n2" "A" "A"].
Definition ok_patch : patch_answer := fun _ => None.


(** Between two calls of the example, deleted containers go and the others apply their image. *)
Definition ex_settle (_ : nat) (l : list Container) : list Container :=
  (fun c => set_status {| cst_Status := cst_Status (cn_Status c);
     cst_ManagementIps := cst_ManagementIps (cn_Status c); cst_NodeAffinity := cst_NodeAffinity (cn_Status c);
     cst_LastAppliedImage := cs_Image (cn_Spec c); cst_ClusterContainerID := cst_ClusterContainerID (cn_Status c);
     cst_PodOutdated := false; cst_Allocations := cst_Allocations (cn_Status c) |} c) <$>
  filter (fun c => IsMarkedForDeletion c = false) l.

Lemma ex_settle_ok target pct i l :
  settled target pct (ex_settle i l) /\ (unaligned_count target (ex_settle i l) <= unaligned_count target l)%nat.
Proof.
  unfold ex_settle. split; [split|].
  - apply Forall_fmap, Forall_forall. intros c _. unfold compose, in_flight, isContainerAligned, isContainerApplied.
    simpl. destruct (bool_decide (cs_Image (cn_Spec c) = target)); simpl; by rewrite ?andb_false_r.
  - left. unfold deleted_count. induction l as [|c l IH]; [done|]. rewrite filter_cons.
    case_decide as Hd; [|done]. rewrite fmap_cons, filter_cons, decide_False; [done|]. simpl.
    unfold IsMarkedForDeletion in *. simpl. congruence.
  - unfold unaligned_count. induction l as [|c l IH]; [done|]. rewrite !filter_cons.
    case_decide as Hd; [rewrite fmap_cons, filter_cons; unfold isContainerAligned in *; simpl|];
      repeat case_decide; rewrite ?length_cons; unfold isContainerAligned in *; try lia; done.
Qed.

Lemma rolling_upgrade_completes_witness :
  (unaligned_count "B" ex_rollout_list < 3)%nat /\
  exists l', reconcile_loop ok_patch "B" 10 ex_settle 3 0 ex_rollout_list = Some l' /\
    Forall (fun c => isContainerAligned "B" c = true) l' /\ settled "B" 10 l'.
Proof.
  assert (Hf : (unaligned_count "B" ex_rollout_list < 3)%nat) by (vm_compute; lia).
  split; [exact Hf|].
  apply (rolling_upgrade_completes ok_patch "B" 10 ex_settle 3 0 ex_rollout_list);
    [reflexivity|apply (ex_settle_ok "B" 10)|exact Hf].
Defined.

(** A cluster to upgrade from image A to image B, and answers without errors. *)
Definition ex_compute (name node image applied : string) : Container :=
  let c := ex_rollout name node image applied in
  set_spec {| cs_Mode := WekaContainerModeCompute; cs_Image := image; cs_State := ContainerStateActive;
    cs_CpuPolicy := "manual"; cs_NumCores := 1; cs_ExtraCores := 0; cs_Resources := None; cs_Hugepages := 3000;
    cs_HugepagesOffset := 0; cs_HugepagesSize := ""; cs_NumDrives := 0; cs_DriveCapacity := 0;
    cs_ContainerCapacity := 0; cs_DriveTypesRatio := None; cs_NodeAffinity := node; cs_RotatePod := false;
    cs_NodeSelector := ∅; cs_DpdkBaseMemoryMb := 0 |} c.

Definition ex_upgrade_spec (image : string) : ClusterSpec := {|
  csp_Dynamic := None; csp_StripeWidth := 3; csp_RedundancyLevel := 2; csp_HotSpare := 1; csp_CpuPolicy := "";
  csp_Image := image; csp_NodeSelector := ∅; csp_RoleNodeSelector := csp_RoleNodeSelector ex_cluster_spec;
  csp_FailureDomain := None;
  csp_Overrides := Some {| ov_DpdkBaseMemoryMb := zero_roles; ov_PodRotation := Some true; ov_UpgradePaused := false;
    ov_UpgradeAllAtOnce := false; ov_UpgradePausePreCompute := false |} |}.

Definition ex_upgrade_config : upgrade_config := {|
  uc_MaxDeactivatingContainersPercent := 10; uc_ImagePrePullEnabled := false; uc_DriveThresholdPercent := 90;
  uc_ComputeThresholdPercent := 90 |}.

Definition ex_env (executor : Container -> option string) : upgrade_env := {|
  ue_patch := ok_patch; ue_list := fun _ => None; ue_settings := Some true; ue_health := (true, "");
  ue_prepull := fun _ => None; ue_annotate := fun _ => true; ue_clear := true; ue_executor := executor;
  ue_exec := fun _ => None;
  ue_status := Ok {| ws_Status := "OK"; ws_ProtectionState := []; ws_DrivesActive := 5; ws_ComputesActive := 5 |};
  ue_status_update := None; ue_aggregate := fun l => strings_Join l "; " |}.

Definition ex_world (applied : string) (l : list Container) : cluster_world := {|
  cw_containers := l; cw_LastAppliedImage := applied; cw_Annotations := ∅; cw_commands := [] |}.

(** The drive is done, and the first compute is next. *)
Definition ex_mid : cluster_world :=
  ex_world "A" [ex_rollout "d1" "n1" "B" "B"; ex_compute "c1" "n1" "A" "A"; ex_compute "c2" "n2" "A" "A"].

Definition ex_call : cluster_world * step_result :=
  handleUpgrade ex_operator_config ex_upgrade_config (ex_upgrade_spec "B") (ex_env (fun _ => None)) ex_mid.

Example ex_call_images :
  images (cw_containers ex_call.1) = [(("weka", "d1"), "B"); (("weka", "c1"), "B"); (("weka", "c2"), "A")] /\
  cw_commands ex_call.1 = ["PrepareForUpgradeCompute"].
Proof. vm_compute. split; reflexivity. Qed.

Lemma ex_mid_keys : NoDup (container_key <$> cw_containers ex_mid).
Proof. by_decide (NoDup (container_key <$> cw_containers ex_mid)). Qed.


Lemma handleUpgrade_needs_health_witness :
  images (cw_containers ex_call.1) <> images (cw_containers ex_mid) /\
  healthy ex_operator_config ex_upgrade_config (ex_upgrade_spec "B") (ex_env (fun _ => None)).
Proof.
  assert (Hne : images (cw_containers ex_call.1) <> images (cw_containers ex_mid)) by (vm_compute; discriminate).
  split; [exact Hne|].
  exact (proj1 (handleUpgrade_needs_health ex_operator_config ex_upgrade_config (ex_upgrade_spec "B") (ex_env (fun _ => None))
    ex_mid ex_call.1 ex_call.2 ex_mid_keys eq_refl (surjective_pairing _) Hne)).
Defined.

(** The upgrade is over, and two drives have outdated pods. *)
Definition ex_outdated : cluster_world :=
  ex_world "B" [ex_rollout "d2" "n2" "B" "B"; ex_compute "c1" "n1" "B" "B"; ex_rollout "d1" "n1" "B" "B"].
Definition ex_rotated : cluster_world * step_result :=
  handleUpgrade ex_operator_config ex_upgrade_config (ex_upgrade_spec "B") (ex_env (fun _ => None)) ex_outdated.
Definition ex_d1 : Container := set_rotate true (ex_rollout "d1" "n1" "B" "B").

Lemma ex_outdated_keys : NoDup (container_key <$> cw_containers ex_outdated).
Proof. by_decide (NoDup (container_key <$> cw_containers ex_outdated)). Qed.

Lemma ex_rotated_d1 : ex_d1 ∈ cw_containers ex_rotated.1.
Proof. by_decide (ex_d1 ∈ cw_containers ex_rotated.1). Qed.

Lemma handleUpgrade_approval_witness :
  ex_d1 ∈ cw_containers ex_rotated.1 /\
  exists c, approves (ex_upgrade_spec "B") (ex_env (fun _ => None)) (cw_containers ex_outdated) c /\ ex_d1 = set_rotate true c.
Proof.
  split; [exact ex_rotated_d1|].
  destruct (handleUpgrade_approval ex_operator_config ex_upgrade_config (ex_upgrade_spec "B") (ex_env (fun _ => None))
    ex_outdated ex_rotated.1 ex_rotated.2 ex_d1 ex_outdated_keys eq_refl (surjective_pairing _) ex_rotated_d1 eq_refl)
    as (_ & c & H1 & H2 & _).
  - by_decide (Forall (fun c => container_key c = container_key ex_d1 -> approved c = false) (cw_containers ex_outdated)).
  - exists c. exact (conj H1 H2).
Defined.


(** ** Departures from the intent *)

(** The image is changed again, to C, while d2 is still restarting with B: the container that is down is not
    aligned with C, so it is not waited for, and d1, which runs, is taken down as well. *)
Example retarget_takes_down_a_second_container :
  let l := [ex_rollout "d1" "n1" "B" "B"; ex_rollout "d2" "n2" "B" "A"] in
  (exists msg, RollingUpgrade ok_patch "B" 10 l = (None, Wait msg)) /\
  (RollingUpgrade ok_patch "C" 10 l).1 = Some (ex_rollout "d1" "n1" "C" "B").
Proof. vm_compute. eauto. Qed.

(** Role selectors differ, and only the common pre-pull has succeeded: the loop returns at the first role
    that is done, so the image is never pre-pulled for the drive nodes. *)
Example prepull_stops_at_a_finished_role :
  let spec := {| csp_Dynamic := None; csp_StripeWidth := 3; csp_RedundancyLevel := 2; csp_HotSpare := 1;
    csp_CpuPolicy := ""; csp_Image := "B"; csp_NodeSelector := ∅;
    csp_RoleNodeSelector := {| rns_Compute := None; rns_Drive := Some {["disk" := "nvme"]}; rns_S3 := None;
      rns_Nfs := None; rns_Smbw := None; rns_DataServices := None |};
    csp_FailureDomain := None; csp_Overrides := None |} in
  let annotations := {["weka.io/prepull-all" := "B"]} in
  needsPrePullForRole "B" annotations "drive" = true /\
  prepull_launch spec annotations prepull_roles = ([], false) /\
  prepull_launch spec ∅ prepull_roles = (["all"; "drive"], true).
Proof. vm_compute. auto. Qed.

(** All containers run B, but no executor can be made in the first drive container: the upgrade is declared
    applied although the last phase was not finished. *)
Example finalize_is_skipped_silently :
  let w := ex_world "A" [ex_rollout "d1" "n1" "B" "B"; ex_compute "c1" "n1" "B" "B"] in
  let r := handleUpgrade ex_operator_config ex_upgrade_config (ex_upgrade_spec "B") (ex_env (fun _ => Some "no pod")) w in
  r.2 = Done /\ cw_LastAppliedImage r.1 = "B" /\ cw_commands r.1 = [].
Proof. vm_compute. auto. Qed.

(** A cluster whose drives are upgraded and that has no compute containers: the preparation of the compute
    phase indexes an empty list. *)
Example no_compute_panics :
  (handleUpgrade ex_operator_config ex_upgrade_config (ex_upgrade_spec "B") (ex_env (fun _ => None))
     (ex_world "A" [ex_rollout "d1" "n1" "B" "B"])).2 = Panic.
Proof. vm_compute. reflexivity. Qed.
