(* ===== verification/Apply.v ===== *)
(** * Applying a capacity plan (wekacluster/funcs_fd_planning.go, steps_planner_apply.go)

    The cluster reconciler plans the capacity of a cluster and turns the plan into containers: existing ones
    grow in place, through updates that are retried on conflicts, and new ones are built from the plan. *)

From S2P Require Import Prelude Float64 Fmt Types Cpu Sizing NodeState ComputeLayout Planner.
From S2P Require Import Api Nodes Templates Inventory Upgrade.

(** ** Sizes as text (pkg/util/size.go) *)

Definition humanReadableSizeParts (bytes : Z) : string * string :=
  let abs := Z.abs bytes in
  let scaled unit := show_float1 (f_div (f_of_int bytes) (f_of_int unit)) in
  if decide (abs >= 2 ^ 40) then (scaled (2 ^ 40), "TiB")
  else if decide (abs >= 2 ^ 30) then (scaled (2 ^ 30), "GiB")
  else if decide (abs >= 2 ^ 20) then (scaled (2 ^ 20), "MiB")
  else if decide (abs >= 2 ^ 10) then (scaled (2 ^ 10), "KiB")
  else if decide (abs = 0) then ("0", "B")
  else (show_int bytes, "B").

Definition humanReadableGiBParts (gib : Z) : string * string := humanReadableSizeParts (gib * 1024 * 1024 * 1024).

Definition HumanReadableGiB (gib : Z) : string :=
  let '(num, unit) := humanReadableGiBParts gib in String.append num unit.

Definition FormatTlcQlcColumn (tlcGiB qlcGiB : Z) : string :=
  if decide (tlcGiB > 0 /\ qlcGiB > 0) then
    let '(tn, tu) := humanReadableGiBParts tlcGiB in
    let '(qn, qu) := humanReadableGiBParts qlcGiB in
    if decide (tu = qu) then Sprintf "T/Q %s/%s %s" [ArgS tn; ArgS qn; ArgS tu]
    else Sprintf "T/Q %s%s/%s%s" [ArgS tn; ArgS tu; ArgS qn; ArgS qu]
  else if decide (qlcGiB > 0) then Sprintf "Q %s" [ArgS (HumanReadableGiB qlcGiB)]
  else if decide (tlcGiB > 0) then Sprintf "T %s" [ArgS (HumanReadableGiB tlcGiB)]
  else "".

(** ** What the cluster has *)

Record driveCapacitySummary := { dcs_tlcGiB : Z; dcs_qlcGiB : Z; dcs_totalTlcDriveCores : Z }.

Definition summarizeDriveContainers (containers : list Container) (cons : CapacityConstraints) : driveCapacitySummary :=
  foldl (fun sum c =>
    if decide (mode c <> WekaContainerModeDrive) then sum
    else if IsDeletingDriveContainer c then sum
    else
      let '(tlcGiB, qlcGiB) := DriveContainerCapacities c in {|
      dcs_tlcGiB := dcs_tlcGiB sum + tlcGiB; dcs_qlcGiB := dcs_qlcGiB sum + qlcGiB;
      dcs_totalTlcDriveCores := dcs_totalTlcDriveCores sum + TlcDriveCores tlcGiB cons |})
    {| dcs_tlcGiB := 0; dcs_qlcGiB := 0; dcs_totalTlcDriveCores := 0 |} containers.

Record computeCapacitySummary := { ccs_count : Z; ccs_minCores : Z; ccs_totalCores : Z }.

Definition summarizeComputeContainers (containers : list Container) : computeCapacitySummary :=
  foldl (fun sum c =>
    if decide (mode c <> WekaContainerModeCompute) then sum
    else if (IsUnhealthy c).1 then sum
    else
      let cores := cs_NumCores (cn_Spec c) in {|
      ccs_minCores := if decide (ccs_count sum = 0 \/ cores < ccs_minCores sum) then cores else ccs_minCores sum;
      ccs_totalCores := ccs_totalCores sum + cores; ccs_count := ccs_count sum + 1 |})
    {| ccs_count := 0; ccs_minCores := 0; ccs_totalCores := 0 |} containers.

(** The first alive drive container with capacity that has no node. *)
Definition firstUnscheduledDriveContainer (containers : list Container) : option string :=
  first_some (fun c =>
    if decide (mode c <> WekaContainerModeDrive) then None
    else if decide (DriveContainerCapacities c = (0, 0)) then None
    else if IsMarkedForDeletion c || IsDeletingState c || IsDestroyingState c then None
    else if decide (cst_NodeAffinity (cn_Status c) = "") then Some (cn_Name c)
    else None) containers.

(** A plan that changes nothing. *)
Definition sizing_plan (containers cores tlcCores required : Z) : CapacityPlan := {|
  Grow := []; Create := []; TotalTlcDriveCores := tlcCores; TotalQlcDriveCores := 0;
  plan_RequiredComputeCores := required; plan_ComputeContainers := containers; plan_ComputeCores := cores;
  ComputeNodes := []; ComputeLayout := []; Warnings := []; ShrinkEvents := []; OverProvisions := [];
  Infeasible := ""; Infeasibility := None |}.

Definition noopCapacityPlan (containers : list Container) (cons : CapacityConstraints) : CapacityPlan :=
  let drv := summarizeDriveContainers containers cons in
  let cmp := summarizeComputeContainers containers in
  sizing_plan (ccs_count cmp) (ccs_minCores cmp) (dcs_totalTlcDriveCores drv) 0.

(** ** Events *)

(** The reason and the text of an event. *)
Abbreviation event := (string * string)%type.

(** The closure [emitShrink]. *)
Definition emitShrink (cons : CapacityConstraints) (pool : string) (cur want : Z) : list event :=
  if decide (cur - want <= OverProvisionCapGiB want cons) then []
  else [("ClusterCapacityShrink",
         Sprintf "%s capacity is over-provisioned by %d GiB (desired %d, current %d); delete WekaContainers manually to shrink — the operator never auto-shrinks"
           [ArgS pool; ArgD (cur - want); ArgD want; ArgD cur])].

(** The no-op plan of the fast path with its events; [None] when the full plan has to run. *)
Definition steadyStatePlan (containers : list Container) (desired : DesiredCapacity) (s : ProtectionScheme)
    (cons : CapacityConstraints) : option (CapacityPlan * list event) :=
  let drv := summarizeDriveContainers containers cons in
  if CapacityShort (dcs_tlcGiB drv) (TlcRawGiB desired) cons || CapacityShort (dcs_qlcGiB drv) (QlcRawGiB desired) cons
  then None
  else
    let cmp := summarizeComputeContainers containers in
    let requiredComputeCores := RequiredComputeCores (dcs_totalTlcDriveCores drv) 0 false (Some cons) in
    if ComputeLayoutWouldGrow (ComputeContainers desired) (ComputeCores desired) requiredComputeCores (MinFdNum s)
         (MaxCoresPerContainer cons) (ccs_count cmp) (ccs_minCores cmp) (ccs_totalCores cmp)
    then None
    else Some (sizing_plan (ccs_count cmp) (ccs_minCores cmp) (dcs_totalTlcDriveCores drv) requiredComputeCores,
               emitShrink cons "TLC" (dcs_tlcGiB drv) (TlcRawGiB desired) ++
               emitShrink cons "QLC" (dcs_qlcGiB drv) (QlcRawGiB desired)).

Definition nonZeroKinds (mixed tlcOnly qlcOnly : Z) : list string :=
  (if decide (mixed > 0) then [Sprintf "%d mixed" [ArgD mixed]] else []) ++
  (if decide (tlcOnly > 0) then [Sprintf "%d TLC" [ArgD tlcOnly]] else []) ++
  (if decide (qlcOnly > 0) then [Sprintf "%d QLC" [ArgD qlcOnly]] else []).

Definition soleKindLabel (tlcOnly qlcOnly : Z) : string :=
  if decide (tlcOnly > 0) then "TLC" else if decide (qlcOnly > 0) then "QLC" else "mixed".

(** The create leg, and the TLC and QLC capacity it places. *)
Definition create_leg (create : list NewContainer) : list string * Z * Z :=
  if decide (len create > 0) then
    let nodes : gset string := list_to_set (new_Node <$> create) in
    let fds : gset string := list_to_set (filter (fun v => v <> "") (new_FDValue <$> create)) in
    let createTlc := sumZ (new_TlcGiB <$> create) in
    let createQlc := sumZ (new_QlcGiB <$> create) in
    let mixed := len (filter (fun c => new_TlcGiB c > 0 /\ new_QlcGiB c > 0) create) in
    let qlcOnly := len (filter (fun c => ~ (new_TlcGiB c > 0) /\ new_QlcGiB c > 0) create) in
    let tlcOnly := len (filter (fun c => ~ (new_QlcGiB c > 0)) create) in
    let fdCount := Z.of_nat (size fds) in
    let kinds := nonZeroKinds mixed tlcOnly qlcOnly in
    let text :=
      if decide (len kinds = 1)
      then Sprintf "creating %d %s drive container(s) across %d node(s) / %d failure domain(s)"
             [ArgD (len create); ArgS (soleKindLabel tlcOnly qlcOnly); ArgD (Z.of_nat (size nodes)); ArgD fdCount]
      else Sprintf "creating %d drive container(s) [%s] across %d node(s) / %d failure domain(s)"
             [ArgD (len create); ArgS (strings_Join kinds ", "); ArgD (Z.of_nat (size nodes)); ArgD fdCount] in
    let text := if decide (fdCount > 0)
                then String.append text (Sprintf " @ ~%s/FD" [ArgS (HumanReadableGiB ((createTlc + createQlc) `quot` fdCount))])
                else text in
    ([String.append text (Sprintf ", placing %s" [ArgS (FormatTlcQlcColumn createTlc createQlc)])], createTlc, createQlc)
  else ([], 0, 0).

(** The records of the growth entries that have an existing container, paired with it. *)
Definition grown_pairs (grow : list ContainerGrowth) (existing : list ExistingContainer) :
    list (ContainerGrowth * ExistingContainer) :=
  let oldByName := foldl (fun m e => <[ec_Name e := e]> m) (∅ : gmap string ExistingContainer) existing in
  omap (fun g => (fun e => (g, e)) <$> oldByName !! cg_Name g) grow.

(** The grow leg, and the TLC and QLC capacity it adds. *)
Definition grow_leg (grow : list ContainerGrowth) (existing : list ExistingContainer) : list string * Z * Z :=
  match grown_pairs grow existing with
  | [] => ([], 0, 0)
  | (g0, e0) :: _ as pairs =>
      let addedTlc := sumZ ((fun '(g, e) => cg_NewTlcGiB g - ec_TlcGiB e) <$> pairs) in
      let addedQlc := sumZ ((fun '(g, e) => cg_NewQlcGiB g - ec_QlcGiB e) <$> pairs) in
      let addedCores := sumZ ((fun '(g, e) => cg_NewCores g - ec_NumCores e) <$> pairs) in
      let uniform := forallb (fun '(g, e) => bool_decide (ec_NumCores e = ec_NumCores e0 /\ cg_NewCores g = cg_NewCores g0)) pairs in
      let text := Sprintf "growing %d existing container(s) (+%s" [ArgD (len pairs); ArgS (FormatTlcQlcColumn addedTlc addedQlc)] in
      ([String.append text
          (if uniform then Sprintf ", cores %d→%d)" [ArgD (ec_NumCores e0); ArgD (cg_NewCores g0)]
           else Sprintf ", cores +%d)" [ArgD addedCores])], addedTlc, addedQlc)
  end.

Definition compute_leg (plan : CapacityPlan) : list string :=
  if decide (len (ComputeLayout plan) > 0) then
    let nodes : gset string := list_to_set (ccs_Node <$> ComputeLayout plan) in
    [Sprintf "compute %d container(s), %d cores on %d node(s)"
       [ArgD (len (ComputeLayout plan)); ArgD (sumZ (ccs_NumCores <$> ComputeLayout plan)); ArgD (Z.of_nat (size nodes))]]
  else if decide (plan_ComputeContainers plan > 0) then
    let count := if decide (len (ComputeNodes plan) > 0) then len (ComputeNodes plan) else plan_ComputeContainers plan in
    [Sprintf "compute %d×%d cores on %d node(s)"
       [ArgD (plan_ComputeContainers plan); ArgD (plan_ComputeCores plan); ArgD count]]
  else [].

Definition formatCapacityPlanSummary (plan : CapacityPlan) (desired : DesiredCapacity) (s : ProtectionScheme)
    (existingDrives : list ExistingContainer) : string :=
  let '(create, createTlc, createQlc) := create_leg (Create plan) in
  let '(grow, growTlc, growQlc) := grow_leg (Grow plan) existingDrives in
  let placed := createTlc + createQlc + growTlc + growQlc in
  Sprintf "clusterCapacity plan applied: %s; minFdNum %d; target raw %s (placed %s), protection %d+%d+%d"
    [ArgS (strings_Join (create ++ grow ++ compute_leg plan) "; "); ArgD (MinFdNum s);
     ArgS (FormatTlcQlcColumn (TlcRawGiB desired) (QlcRawGiB desired)); ArgS (HumanReadableGiB placed);
     ArgD (StripeWidth s); ArgD (RedundancyLevel s); ArgD (HotSpare s)].

(** ** Planning *)

Definition protectionScheme (cfg : OperatorConfig) (spec : ClusterSpec) : ProtectionScheme :=
  let '(sw, rl, hs) := EffectiveProtection (oc_DefaultStripeWidth cfg) (oc_DefaultRedundancyLevel cfg)
    (oc_DefaultHotSpare cfg) (csp_StripeWidth spec) (csp_RedundancyLevel spec) (csp_HotSpare spec) in
  {| StripeWidth := sw; RedundancyLevel := rl; HotSpare := hs |}.

(** The outcome of planning: an error, a wait, or a plan. *)
Inductive plan_result :=
  | PlanError (msg : string)
  | PlanWait (msg : string)
  | Planned (plan : CapacityPlan).

Section planning.
Context (ParseFloat : string -> option float64) (ParseQuantity : string -> res string Z).
Context (cfg : OperatorConfig).
(** [col.NodeInventory] with this cluster and its containers. *)
Context (inventory : ClusterSpec -> list Container -> CapacityConstraints ->
  res string (gmap string string * list NodeCapacity * gmap string bool)).

(** The capacity the spec asks for. *)
Definition desired_capacity (t : WekaClusterTemplate) (s : ProtectionScheme) (capGiB : Z) : DesiredCapacity :=
  let raw := RawCapacityGiB capGiB (StripeWidth s) (RedundancyLevel s) (HotSpare s) in
  let '(tlcRaw, qlcRaw) := GetTlcQlcCapacity raw (wt_DriveTypesRatio t) in {|
  TlcRawGiB := tlcRaw; QlcRawGiB := qlcRaw; ComputeContainers := wt_ComputeContainers t;
  ComputeCores := wt_ComputeCores t; DriveContainers := wt_DriveContainers t; DriveCores := wt_DriveCores t |}.

(** The events and the outcome; [spec.dynamic] is set in this mode. *)
Definition planClusterCapacity (spec : ClusterSpec) (containers : list Container) : list event * plan_result :=
  let s := protectionScheme cfg spec in
  let t := default zero_template (csp_Dynamic spec) in
  match GetClusterCapacityGiB ParseFloat ParseQuantity t with
  | Err e => ([], PlanError e)
  | Ok capGiB =>
      let desired := desired_capacity t s capGiB in
      let cons := ConstraintsForClusterSpec cfg spec in
      match firstUnscheduledDriveContainer containers with
      | Some name =>
          ([("ClusterCapacityDeferred",
             Sprintf "deferring clusterCapacity planning: drive container %s is unscheduled (pod (re)scheduling); will retry once it settles"
               [ArgS name])], Planned (noopCapacityPlan containers cons))
      | None =>
          match steadyStatePlan containers desired s cons with
          | Some (plan, events) => (events, Planned plan)
          | None =>
              match inventory spec containers cons with
              | Err e => ([], PlanError e)
              | Ok (fdByNode, nodeInv, computeNodes) =>
                  let existingDrives := ExistingDrives (csp_FailureDomain spec) containers fdByNode in
                  let existingCompute := ExistingCompute containers in
                  let plan := PlanCapacity desired s existingDrives existingCompute nodeInv (Some computeNodes) cons in
                  if decide (Infeasible plan <> "") then
                    ([("ClusterCapacityInfeasible", Infeasible plan)],
                     PlanWait (Sprintf "clusterCapacity infeasible: %s" [ArgS (Infeasible plan)]))
                  else
                    (((fun m => ("ClusterCapacityShrink", m)) <$> ShrinkEvents plan) ++
                     ((fun m => ("ClusterCapacityHeterogeneousGrowth", m)) <$> Warnings plan) ++
                     ((fun m => ("ClusterCapacityOverProvisioned", m)) <$> OverProvisions plan) ++
                     (if decide (len (Create plan) > 0 \/ len (Grow plan) > 0)
                      then [("ClusterCapacityPlanned", formatCapacityPlanSummary plan desired s existingDrives)] else []),
                     Planned plan)
              end
          end
      end
  end.
End planning.

(** ** Updates that are retried on conflicts *)

(** What the API server answers to one attempt: to the read, and to the write. *)
Record attempt := { at_get : res api_error Container; at_update : option api_error }.

Definition is_conflict (e : api_error) : bool := match e with Conflict _ => true | _ => false end.

(** [retry.DefaultRetry] makes five attempts. *)
Definition DefaultRetry_Steps : nat := 5.

(** [mutate] answers the changed copy, or [None] when there is nothing to do. The result is the copy that
    was written, whether the last attempt was skipped, and the error; attempt [i] is answered by
    [server i]. *)
Fixpoint retry_on_conflict (mutate : Container -> option Container) (server : nat -> attempt)
    (steps i : nat) (skipped : bool) (last : option api_error) : option Container * bool * option api_error :=
  match steps with
  | O => (None, skipped, last)
  | S steps =>
      let retry_or_fail skipped e :=
        if is_conflict e then retry_on_conflict mutate server steps (S i) skipped (Some e)
        else (None, skipped, Some e) in
      match at_get (server i) with
      | Err e => retry_or_fail skipped e
      | Ok latest =>
          match mutate latest with
          | None => (None, true, None)
          | Some latest' =>
              match at_update (server i) with
              | Some e => retry_or_fail false e
              | None => (Some latest', false, None)
              end
          end
      end
  end.

Definition updateContainerWithRetry (mutate : Container -> option Container) (server : nat -> attempt) :
    option Container * bool * option api_error :=
  retry_on_conflict mutate server DefaultRetry_Steps 0 false None.

(** ** Growth *)

(** The last container of a name: [byName] keeps the last one, and holds pointers into the list. *)
Definition by_name (name : string) (containers : list Container) : option Container :=
  snd <$> list_find (fun c => cn_Name c = name) (reverse containers).

(** The server copy replaces the container in the list. *)
Definition write_back (written : option Container) (containers : list Container) : list Container :=
  match written with Some c => put c containers | None => containers end.

(** The closure of [applyPlannerDriveGrowth], for the cached container [c]. *)
Definition grow_drive_mutate (spec : ClusterSpec) (g : ContainerGrowth) (c latest : Container) : option Container :=
  let newCap := cg_NewTlcGiB g + cg_NewQlcGiB g in
  let coresChanged := bool_decide (cg_NewCores g > cs_NumCores (cn_Spec c)) in
  let hp := DriveHugepagesFromPlan spec (cg_NewCores g) 0 in
  let s := cn_Spec latest in
  let latestGrowsOwn := bool_decide (newCap > cs_ContainerCapacity s) in
  let latestCoresChanged := coresChanged && bool_decide (cg_NewCores g > cs_NumCores s) in
  if negb latestGrowsOwn && negb latestCoresChanged then None
  else Some (set_spec (spec_resize
         (if latestCoresChanged then cg_NewCores g else cs_NumCores s)
         (if coresChanged then hp_Hugepages hp else cs_Hugepages s)
         (if coresChanged then hp_HugepagesOffset hp else cs_HugepagesOffset s)
         (cs_NumDrives s)
         (if latestGrowsOwn then newCap else cs_ContainerCapacity s)
         (if latestGrowsOwn then Some (RatioFromCaps (cg_NewTlcGiB g) (cg_NewQlcGiB g)) else cs_DriveTypesRatio s) s)
         latest).

(** One growth record: the containers after it, and its error. *)
Definition grow_drive (spec : ClusterSpec) (server : string -> nat -> attempt) (g : ContainerGrowth)
    (containers : list Container) : list Container * option string :=
  match by_name (cg_Name g) containers with
  | None => (containers, None)
  | Some c =>
      if decide (cg_NewTlcGiB g + cg_NewQlcGiB g <= cs_ContainerCapacity (cn_Spec c)) then (containers, None)
      else
        let '(written, _, err) := updateContainerWithRetry (grow_drive_mutate spec g c) (server (cn_Name c)) in
        (write_back written containers,
         (fun e => Sprintf "applyPlannerDriveGrowth: failed to update container %s: %s"
                     [ArgS (cn_Name c); ArgS (error_text e)]) <$> err)
  end.

Definition applyPlannerDriveGrowth (spec : ClusterSpec) (server : string -> nat -> attempt) (plan : CapacityPlan)
    (containers : list Container) : list Container * list string :=
  foldl (fun '(containers, errs) g =>
    let '(containers, e) := grow_drive spec server g containers in
    (containers, errs ++ option_list e)) (containers, []) (Grow plan).

(** The closure of [applyPlannerComputeGrowth]. *)
Definition grow_compute_mutate (entry : ComputeContainerSpec) (hp : ContainerHugepages) (latest : Container) :
    option Container :=
  let s := cn_Spec latest in
  if decide (ccs_NumCores entry < cs_NumCores s) then None
  else if decide (ccs_NumCores entry <= cs_NumCores s /\ hp_Hugepages hp <= cs_Hugepages s) then None
  else Some (set_spec (spec_resize (ccs_NumCores entry) (Z.max (hp_Hugepages hp) (cs_Hugepages s))
              (hp_HugepagesOffset hp) (cs_NumDrives s) (cs_ContainerCapacity s) (cs_DriveTypesRatio s) s) latest).

(** One container: the containers after it, and its error. *)
Definition grow_compute (spec : ClusterSpec) (server : string -> nat -> attempt)
    (targetByNode : gmap string ComputeContainerSpec) (c : Container) (containers : list Container) :
    list Container * option string :=
  if decide (mode c <> WekaContainerModeCompute) then (containers, None)
  else if (IsUnhealthy c).1 then (containers, None)
  else
    match targetByNode !! GetNodeAffinity c with
    | None => (containers, None)
    | Some entry =>
        if decide (ccs_NumCores entry < cs_NumCores (cn_Spec c)) then (containers, None)
        else
          let hp := ComputeHugepagesFromPlan spec (ccs_HugepagesMiB entry) (ccs_NumCores entry) in
          if decide (ccs_NumCores entry <= cs_NumCores (cn_Spec c) /\ hp_Hugepages hp <= cs_Hugepages (cn_Spec c))
          then (containers, None)
          else
            let '(written, _, err) := updateContainerWithRetry (grow_compute_mutate entry hp) (server (cn_Name c)) in
            (write_back written containers,
             (fun e => Sprintf "applyPlannerComputeGrowth: failed to update container %s: %s"
                         [ArgS (cn_Name c); ArgS (error_text e)]) <$> err)
    end.

Definition compute_targets (layout : list ComputeContainerSpec) : gmap string ComputeContainerSpec :=
  foldl (fun m e => if decide (ccs_Node e <> "") then <[ccs_Node e := e]> m else m) ∅ layout.

(** The loop ranges over the list as it was at its start. *)
Definition applyPlannerComputeGrowth (spec : ClusterSpec) (server : string -> nat -> attempt) (plan : CapacityPlan)
    (containers : list Container) : list Container * list string :=
  foldl (fun '(cs, errs) c =>
    let '(cs, e) := grow_compute spec server (compute_targets (ComputeLayout plan)) c cs in
    (cs, errs ++ option_list e)) (containers, []) containers.

(** ** New containers (factory/container_factory.go) *)

(** The fields of the cluster object that name its containers. *)
Record cluster_meta := { cm_Name : string; cm_Namespace : string }.

(** The cores, extra cores and drive sizing of a role. *)
Definition role_sizing (template : ClusterTemplate) (role : string) : Z * Z * (Z * Z * Z) :=
  let cores := tpl_Cores template in
  let extra := tpl_ExtraCores template in
  if decide (role = "compute") then (role_Compute cores, role_Compute extra, (0, 0, 0))
  else if decide (role = "drive") then
    (role_Drive cores, role_Drive extra,
     (tpl_NumDrives template, tpl_DriveCapacity template, tpl_ContainerCapacity template))
  else if decide (role = "s3") then (role_S3 cores, role_S3 extra, (0, 0, 0))
  else if decide (role = "nfs") then (role_Nfs cores, role_Nfs extra, (0, 0, 0))
  else if decide (role = "smbw") then (role_Smbw cores, role_Smbw extra, (0, 0, 0))
  else if decide (role = "data-services") then (role_DataServices cores, role_DataServices extra, (0, 0, 0))
  else if decide (role = "envoy") then (role_Envoy cores, 0, (0, 0, 0))
  else (0, 0, (0, 0, 0)).

(** Envoy sticks to s3 and telemetry to compute, so they get no selector of their own. *)
Definition factory_selector (spec : ClusterSpec) (role : string) : gmap string string :=
  if decide (role = WekaContainerModeEnvoy \/ role = WekaContainerModeTelemetry) then ∅
  else GetNodeSelectorForRole spec role.

(** The sizing part of the object; [wekahome] is the error of the Weka Home configuration, if any. *)
Definition NewWekaContainerForWekaCluster (meta : cluster_meta) (spec : ClusterSpec) (wekahome : option string)
    (template : ClusterTemplate) (hp : ContainerHugepages) (role name : string) : res string Container :=
  let '(numCores, extraCores, (numDrives, driveCapacity, containerCapacity)) := role_sizing template role in
  match wekahome with
  | Some e => Err e
  | None => Ok {|
      cn_Name := Sprintf "%s-%s" [ArgS (cm_Name meta); ArgS name]; cn_Namespace := cm_Namespace meta;
      cn_CreationTimestamp := 0; cn_Deleted := false; cn_OwnerReferences := [];
      cn_Spec := {|
        cs_Mode := role; cs_Image := csp_Image spec; cs_State := ""; cs_CpuPolicy := csp_CpuPolicy spec;
        cs_NumCores := numCores; cs_ExtraCores := extraCores; cs_Resources := None;
        cs_Hugepages := hp_Hugepages hp; cs_HugepagesOffset := hp_HugepagesOffset hp;
        cs_HugepagesSize := hp_HugePageSize hp; cs_NumDrives := numDrives; cs_DriveCapacity := driveCapacity;
        cs_ContainerCapacity := containerCapacity; cs_DriveTypesRatio := tpl_DriveTypesRatio template;
        cs_NodeAffinity := ""; cs_RotatePod := false;
        cs_NodeSelector := factory_selector spec role; cs_DpdkBaseMemoryMb := GetDpdkBaseMemoryMbByRole spec role |};
      cn_Status := {| cst_Status := ""; cst_ManagementIps := []; cst_NodeAffinity := ""; cst_LastAppliedImage := ""; cst_ClusterContainerID := None;
        cst_PodOutdated := false; cst_Allocations := None |} |}
  end.

(** [perTemplate.Cores.Drive = cores], on a copy. *)
Definition with_drive_cores (cores : Z) (t : ClusterTemplate) : ClusterTemplate := {|
  tpl_Containers := tpl_Containers t;
  tpl_Cores := {| role_Compute := role_Compute (tpl_Cores t); role_Drive := cores; role_S3 := role_S3 (tpl_Cores t);
    role_Envoy := role_Envoy (tpl_Cores t); role_Nfs := role_Nfs (tpl_Cores t); role_Smbw := role_Smbw (tpl_Cores t);
    role_DataServices := role_DataServices (tpl_Cores t) |};
  tpl_ExtraCores := tpl_ExtraCores t; tpl_NumDrives := tpl_NumDrives t; tpl_DriveCapacity := tpl_DriveCapacity t;
  tpl_ContainerCapacity := tpl_ContainerCapacity t; tpl_DriveTypesRatio := tpl_DriveTypesRatio t |}.

(** The last three assignments to a built container. *)
Definition place_container (pc : NewContainer) (c : Container) : Container :=
  let s := cn_Spec c in
  set_spec {|
    cs_Mode := cs_Mode s; cs_Image := cs_Image s; cs_State := cs_State s; cs_CpuPolicy := cs_CpuPolicy s;
    cs_NumCores := cs_NumCores s; cs_ExtraCores := cs_ExtraCores s; cs_Resources := cs_Resources s;
    cs_Hugepages := cs_Hugepages s; cs_HugepagesOffset := cs_HugepagesOffset s; cs_HugepagesSize := cs_HugepagesSize s;
    cs_NumDrives := cs_NumDrives s; cs_DriveCapacity := cs_DriveCapacity s;
    cs_ContainerCapacity := new_TlcGiB pc + new_QlcGiB pc; cs_DriveTypesRatio := new_Ratio pc;
    cs_NodeAffinity := new_Node pc; cs_RotatePod := cs_RotatePod s;
    cs_NodeSelector := cs_NodeSelector s; cs_DpdkBaseMemoryMb := cs_DpdkBaseMemoryMb s |} c.

(** One container of [plan.Create]; [guid] is the fresh identifier of its name. *)
Definition build_drive (meta : cluster_meta) (spec : ClusterSpec) (wekahome : option string) (template : ClusterTemplate)
    (guid : string) (pc : NewContainer) : res string Container :=
  let name := Sprintf "%s-%s" [ArgS WekaContainerModeDrive; ArgS guid] in
  let hp := DriveHugepagesFromPlan spec (new_NumCores pc) 0 in
  match NewWekaContainerForWekaCluster meta spec wekahome (with_drive_cores (new_NumCores pc) template) hp
          WekaContainerModeDrive name with
  | Err e => Err (Sprintf "role drive container %s: %s" [ArgS name; ArgS e])
  | Ok c => Ok (place_container pc c)
  end.

(** The outcome: the new containers and the skipped ones, with the existing containers as they were
    grown. *)
Inductive build_result :=
  | BuildError (msg : string) (containers : list Container)
  | BuildWait (msg : string)
  | Built (created : list Container) (skipped : list string) (plan : CapacityPlan) (containers : list Container).

(** [errors.Join]: one message per line. *)
Definition errors_Join (errs : list string) : string :=
  strings_Join errs (String (Ascii.ascii_of_nat 10) EmptyString).

Definition buildPlannerDriveContainers (cfg : OperatorConfig) (meta : cluster_meta) (spec : ClusterSpec)
    (wekahome : option string) (server : string -> nat -> attempt) (guids : list string)
    (planned : plan_result) (containers : list Container) : build_result :=
  match planned with
  | PlanError e => BuildError e containers
  | PlanWait e => BuildWait e
  | Planned plan =>
      let '(containers, errs) := applyPlannerDriveGrowth spec server plan containers in
      if decide (errs <> []) then BuildError (errors_Join errs) containers
      else
        let '(containers, errs) := applyPlannerComputeGrowth spec server plan containers in
        if decide (errs <> []) then BuildError (errors_Join errs) containers
        else
          let template := (GetWekaClusterTemplate cfg (csp_Dynamic spec)).2 in
          let built := zip_with (build_drive meta spec wekahome template) guids (Create plan) in
          Built (omap (fun r => match r with Ok c => Some c | Err _ => None end) built)
                (omap (fun r => match r with Ok _ => None | Err e => Some e end) built) plan containers
  end.
