(* ===== verification/ApplyFacts.v ===== *)
(** * Theorems on applying a capacity plan

    Writes never shrink a container, whatever happens concurrently; the fast path never skips a plan that
    would place drives; and applying a feasible plan yields the cluster the plan describes, on which planning
    again changes nothing. *)

From S2P Require Import Prelude Float64 Fmt Types Cpu Sizing NodeState ComputeLayout FdGroups PoolPlan Planner Scenarios Correctness.
From S2P Require Import Api Nodes Templates Inventory InventoryFacts Upgrade UpgradeFacts Apply.

#[local] Arguments DriveHugepagesFromPlan : simpl never.
#[local] Arguments ComputeHugepagesFromPlan : simpl never.

(** ** Retries *)

Lemma retry_written mutate server steps i skipped last c' sk e :
  retry_on_conflict mutate server steps i skipped last = (Some c', sk, e) ->
  sk = false /\ e = None /\ exists j latest, (i <= j < i + steps)%nat /\ at_get (server j) = Ok latest /\
    mutate latest = Some c' /\ at_update (server j) = None.
Proof.
  revert i skipped last. induction steps as [|steps IH]; intros i skipped last; simpl; [done|].
  assert (Hrec : forall skipped last, retry_on_conflict mutate server steps (S i) skipped last = (Some c', sk, e) ->
    sk = false /\ e = None /\ exists j latest, (i <= j < i + S steps)%nat /\ at_get (server j) = Ok latest /\
      mutate latest = Some c' /\ at_update (server j) = None).
  { intros sk0 last0 (-> & -> & j & latest & Hj & H)%IH. split_and!; [done..|]. exists j, latest.
    split; [lia|done]. }
  destruct (at_get (server i)) as [latest|err] eqn:Hg; [|by destruct (is_conflict err); [apply Hrec|]].
  destruct (mutate latest) as [latest'|] eqn:Hm; [|done].
  destruct (at_update (server i)) as [err|] eqn:Hu; [by destruct (is_conflict err); [apply Hrec|]|].
  intros [= -> <- <-]. split_and!; [done..|]. exists i, latest. split; [lia|done].
Qed.

(** Without interference the first attempt decides. *)
Lemma retry_calm mutate server c :
  at_get (server 0%nat) = Ok c -> at_update (server 0%nat) = None ->
  updateContainerWithRetry mutate server = (mutate c, bool_decide (mutate c = None), None).
Proof.
  intros Hg Hu. unfold updateContainerWithRetry. simpl. rewrite Hg, Hu.
  destruct (mutate c) eqn:E; [by rewrite bool_decide_eq_false_2|by rewrite bool_decide_eq_true_2].
Qed.

(** ** Writes *)

Abbreviation cores_of c := (cs_NumCores (cn_Spec c)).
Abbreviation capacity_of c := (cs_ContainerCapacity (cn_Spec c)).
Abbreviation hugepages_of c := (cs_Hugepages (cn_Spec c)).

Lemma grow_drive_mutate_grows spec g c latest c' :
  grow_drive_mutate spec g c latest = Some c' ->
  container_key c' = container_key latest /\ cores_of latest <= cores_of c' /\ capacity_of latest <= capacity_of c' /\
  (0 <= GetDpdkBaseMemoryMbByRole spec "drive" -> cores_of latest <= cg_NewCores g ->
   hugepages_of latest <= hp_Hugepages (DriveHugepagesFromPlan spec (cores_of latest) 0) ->
   hugepages_of latest <= hugepages_of c').
Proof.
  unfold grow_drive_mutate.
  destruct (bool_decide (cg_NewCores g > cs_NumCores (cn_Spec c))); simpl;
    repeat case_bool_decide; simpl; try done; intros [= <-]; simpl; split_and!; try done; try lia;
    intros Hd Hc Hh; destruct (DriveHugepagesFromPlan_mono spec _ _ 0 Hd Hc) as [Hm _];
    first [lia|exact (Z.le_trans _ _ _ Hh Hm)].
Qed.

Lemma grow_compute_mutate_grows entry hp latest c' :
  grow_compute_mutate entry hp latest = Some c' ->
  container_key c' = container_key latest /\ cores_of latest <= cores_of c' /\ capacity_of c' = capacity_of latest /\
  hugepages_of latest <= hugepages_of c'.
Proof.
  unfold grow_compute_mutate. repeat case_decide; try done. intros [= <-]. simpl. split_and!; try done; lia.
Qed.

(** C26: growth never shrinks what is on the server: whatever other writers do between a read and a write,
    and whatever conflicts and errors the API server answers, a write that it accepts replaces the copy read
    in the same attempt by one with at least its cores and its capacity; a compute container keeps at least
    its hugepages, and so does a drive container whose cores are within the plan's and whose hugepages are
    those of its cores. *)
Theorem growth_never_shrinks spec server g c entry hp c' skipped e :
  (updateContainerWithRetry (grow_drive_mutate spec g c) server = (Some c', skipped, e) ->
   exists j latest, (j < DefaultRetry_Steps)%nat /\ at_get (server j) = Ok latest /\ at_update (server j) = None /\
     container_key c' = container_key latest /\ cores_of latest <= cores_of c' /\ capacity_of latest <= capacity_of c' /\
     (0 <= GetDpdkBaseMemoryMbByRole spec "drive" -> cores_of latest <= cg_NewCores g ->
      hugepages_of latest <= hp_Hugepages (DriveHugepagesFromPlan spec (cores_of latest) 0) ->
      hugepages_of latest <= hugepages_of c')) /\
  (updateContainerWithRetry (grow_compute_mutate entry hp) server = (Some c', skipped, e) ->
   exists j latest, (j < DefaultRetry_Steps)%nat /\ at_get (server j) = Ok latest /\ at_update (server j) = None /\
     container_key c' = container_key latest /\ cores_of latest <= cores_of c' /\ capacity_of c' = capacity_of latest /\
     hugepages_of latest <= hugepages_of c').
Proof.
  split; intros (_ & _ & j & latest & Hj & Hg & Hm & Hu)%retry_written; exists j, latest.
  - apply grow_drive_mutate_grows in Hm. split_and!; try apply Hm; try done; lia.
  - apply grow_compute_mutate_grows in Hm. split_and!; try apply Hm; try done; lia.
Qed.

(** ** The fast path *)

(** The summary of the drives is what the planner sees of them. *)
Lemma summarize_pools containers cons fdc fds :
  let sum := summarizeDriveContainers containers cons in
  dcs_tlcGiB sum = poolCurrent (ExistingDrives fdc containers fds) poolTLC /\
  dcs_qlcGiB sum = poolCurrent (ExistingDrives fdc containers fds) poolQLC.
Proof.
  unfold summarizeDriveContainers, ExistingDrives, poolCurrent.
  induction containers as [|c l IH] using rev_ind; [done|].
  rewrite foldl_app, omap_app, !fmap_app, !sumZ_app.
  change (omap (existing_drive fdc fds) [c]) with (option_list (existing_drive fdc fds c)).
  destruct IH as [<- <-]. set (s0 := foldl _ _ l). cbn [foldl]. unfold existing_drive.
  case_decide; [split; apply eq_sym, Z.add_0_r|].
  destruct (IsDeletingDriveContainer c); [split; apply eq_sym, Z.add_0_r|].
  destruct (DriveContainerCapacities c) as [t q]. split; simpl; lia.
Qed.

(** C27: the fast path never skips work on the drives: when it answers a plan without looking at the nodes,
    the full planner, on the same containers and on any inventory, neither grows nor creates a drive
    container. *)
Theorem steadyStatePlan_no_drive_work containers desired s cons plan events fdc fds existingCompute inventory computeNodes :
  steadyStatePlan containers desired s cons = Some (plan, events) ->
  Grow plan = [] /\ Create plan = [] /\
  let q := PlanCapacity desired s (ExistingDrives fdc containers fds) existingCompute inventory computeNodes cons in
  Grow q = [] /\ Create q = [].
Proof.
  unfold steadyStatePlan. destruct (summarize_pools containers cons fdc fds) as [Ht Hq]. simpl in Ht, Hq.
  destruct (CapacityShort _ (TlcRawGiB desired) cons) eqn:H1; [done|].
  destruct (CapacityShort _ (QlcRawGiB desired) cons) eqn:H2; [done|]. simpl.
  destruct (ComputeLayoutWouldGrow _ _ _ _ _ _ _ _); [done|]. intros [= <- _].
  split; [done|]. split; [done|]. apply run_idle. intros p Hp. rewrite Ht in H1. rewrite Hq in H2.
  destruct p; by apply CapacityShort_false.
Qed.

(** ** Applying a plan without interference *)

(** The server answers the first attempt on every container with the copy at hand, and accepts the write. *)
Definition calm (server : string -> nat -> attempt) (l : list Container) : Prop :=
  forall c, c ∈ l -> at_get (server (cn_Name c) 0%nat) = Ok c /\ at_update (server (cn_Name c) 0%nat) = None.

Lemma by_name_unique c l : NoDup (cn_Name <$> l) -> c ∈ l -> by_name (cn_Name c) l = Some c.
Proof.
  intros Hnd Hc. unfold by_name. destruct (list_find _ (reverse l)) as [[i x]|] eqn:Hf.
  - apply list_find_Some in Hf as (Hx & Hn & _). simpl. f_equal. apply list_elem_of_lookup_2 in Hx.
    apply (NoDup_fmap_eq cn_Name l); [done| |done..]. by rewrite elem_of_reverse in Hx.
  - apply list_find_None in Hf. rewrite Forall_forall in Hf. destruct (Hf c); [|done].
    by rewrite elem_of_reverse.
Qed.

Lemma by_name_none name l : by_name name l = None -> Forall (fun c => cn_Name c <> name) l.
Proof.
  unfold by_name. destruct (list_find _ (reverse l)) as [[i x]|] eqn:Hf; [done|]. intros _.
  apply list_find_None in Hf. rewrite Forall_forall in *. intros c Hc. apply Hf. by rewrite elem_of_reverse.
Qed.

(** A container after a growth record for it. *)
Definition grown_by (spec : ClusterSpec) (g : ContainerGrowth) (c : Container) : Container :=
  if decide (cg_NewTlcGiB g + cg_NewQlcGiB g <= capacity_of c) then c else default c (grow_drive_mutate spec g c c).

Lemma grown_by_key spec g c : container_key (grown_by spec g c) = container_key c.
Proof.
  unfold grown_by. case_decide; [done|]. destruct (grow_drive_mutate spec g c c) eqn:Hm; [|done].
  by apply grow_drive_mutate_grows in Hm as [Hk _].
Qed.

Lemma grow_drive_calm spec server g l :
  NoDup (cn_Name <$> l) ->
  (forall c, c ∈ l -> cn_Name c = cg_Name g ->
     at_get (server (cn_Name c) 0%nat) = Ok c /\ at_update (server (cn_Name c) 0%nat) = None) ->
  grow_drive spec server g l =
  ((fun c => if decide (cn_Name c = cg_Name g) then grown_by spec g c else c) <$> l, None).
Proof.
  intros Hnd Hcalm. unfold grow_drive. destruct (by_name (cg_Name g) l) as [c|] eqn:Hb.
  2:{ apply by_name_none in Hb. rewrite Forall_forall in Hb. f_equal. symmetry. rewrite <- (list_fmap_id l) at 2.
      apply list_fmap_ext. intros i c Hc. apply list_elem_of_lookup_2 in Hc. rewrite decide_False; [done|by apply Hb]. }
  assert (Hc : c ∈ l /\ cn_Name c = cg_Name g).
  { unfold by_name in Hb. destruct (list_find _ (reverse l)) as [[i x]|] eqn:Hf; [|done]. simpl in Hb. simplify_eq.
    apply list_find_Some in Hf as (Hx & Hn & _). apply list_elem_of_lookup_2 in Hx.
    rewrite elem_of_reverse in Hx. done. }
  destruct Hc as [Hc Hn]. destruct (Hcalm c Hc Hn) as [Hg Hu].
  assert (Hext : forall f : Container -> Container, f c = grown_by spec g c -> (forall x, x ∈ l -> x <> c -> f x = x) ->
    f <$> l = (fun c => if decide (cn_Name c = cg_Name g) then grown_by spec g c else c) <$> l).
  { intros f Hf1 Hf2. apply list_fmap_ext. intros i x Hx. apply list_elem_of_lookup_2 in Hx.
    destruct (decide (x = c)) as [->|Hxc]; [by rewrite decide_True|]. rewrite Hf2, decide_False; [done| |done..].
    intros Hxn. apply Hxc, (NoDup_fmap_eq cn_Name l); congruence. }
  case_decide as Hle.
  { f_equal. rewrite <- (list_fmap_id l) at 1. apply Hext; [|done]. unfold grown_by. by rewrite decide_True. }
  rewrite (retry_calm _ _ c Hg Hu).
  assert (Hgb : grown_by spec g c = default c (grow_drive_mutate spec g c c)) by (unfold grown_by; by rewrite decide_False).
  destruct (grow_drive_mutate spec g c c) as [c'|] eqn:Hm; simpl.
  - apply grow_drive_mutate_grows in Hm as [Hk _]. f_equal. unfold put. apply Hext.
    + by rewrite decide_True, Hgb.
    + intros x Hin Hx. case_decide as Hkx; [|done]. destruct Hx. apply (NoDup_fmap_eq cn_Name l); [done..|].
      rewrite Hk in Hkx. by injection Hkx.
  - f_equal. rewrite <- (list_fmap_id l) at 1. by apply Hext.
Qed.

(** A container after a list of growth records. *)
Definition grown (spec : ClusterSpec) (gs : list ContainerGrowth) (c : Container) : Container :=
  match list_find (fun g => cg_Name g = cn_Name c) gs with Some (_, g) => grown_by spec g c | None => c end.

Lemma grown_cons spec g gs c :
  grown spec (g :: gs) c = if decide (cg_Name g = cn_Name c) then grown_by spec g c else grown spec gs c.
Proof.
  unfold grown. simpl. case_decide; [done|]. destruct (list_find _ gs) as [[i x]|]; done.
Qed.

Lemma grown_other spec gs c : cn_Name c ∉ cg_Name <$> gs -> grown spec gs c = c.
Proof.
  induction gs as [|g gs IH]; [done|]. rewrite fmap_cons, not_elem_of_cons, grown_cons. intros [Hg Hgs].
  rewrite decide_False by congruence. by apply IH.
Qed.

Lemma drive_growth_calm spec server gs l errs :
  NoDup (cn_Name <$> l) -> NoDup (cg_Name <$> gs) -> calm server l ->
  foldl (fun '(containers, errs) g =>
    let '(containers, e) := grow_drive spec server g containers in (containers, errs ++ option_list e)) (l, errs) gs
  = (grown spec gs <$> l, errs).
Proof.
  intros Hnd Hgs Hcalm.
  assert (Hc : forall c, c ∈ l -> cn_Name c ∈ cg_Name <$> gs ->
    at_get (server (cn_Name c) 0%nat) = Ok c /\ at_update (server (cn_Name c) 0%nat) = None) by (intros; by apply Hcalm).
  clear Hcalm. revert l Hnd Hc. induction gs as [|g gs IH]; intros l Hnd Hc.
  { simpl. f_equal. rewrite <- (list_fmap_id l) at 1. done. }
  apply NoDup_cons in Hgs as [Hg Hgs]. cbn [foldl].
  rewrite grow_drive_calm; [|done|]. 2:{ intros c Hin Hn. apply Hc; [done|]. rewrite Hn. by left. }
  assert (Hname : forall c, cn_Name (if decide (cn_Name c = cg_Name g) then grown_by spec g c else c) = cn_Name c).
  { intros c. case_decide; [|done]. pose proof (grown_by_key spec g c) as Hk. by injection Hk. }
  rewrite app_nil_r, IH; [|done| |].
  - f_equal. rewrite <- list_fmap_compose. apply list_fmap_ext. intros i c _. simpl. rewrite grown_cons.
    destruct (decide (cn_Name c = cg_Name g)) as [Hn|Hn].
    + rewrite (decide_True (P := cg_Name g = cn_Name c)) by done. apply grown_other.
      specialize (Hname c). rewrite decide_True in Hname by done. by rewrite Hname, Hn.
    + by rewrite decide_False by congruence.
  - rewrite <- list_fmap_compose. erewrite list_fmap_ext; [exact Hnd|]. intros i c _. apply Hname.
  - intros c (c0 & -> & Hc0)%list_elem_of_fmap. rewrite Hname. intros Hin. case_decide as Hn.
    + rewrite Hn in Hin. contradiction.
    + apply Hc; [done|by right].
Qed.


(** ** The drives after the plan *)

Definition sizes (e : ExistingContainer) : string * Z * Z := (ec_Node e, ec_TlcGiB e, ec_QlcGiB e).

Lemma GetTlcQlcCapacity_sum total ratio :
  (GetTlcQlcCapacity total ratio).1 + (GetTlcQlcCapacity total ratio).2 = total.
Proof. unfold GetTlcQlcCapacity. destruct ratio; [case_decide|]; simpl; lia. Qed.

(** What a container that shares drives holds is its capacity, split. *)
Lemma existing_drive_total fdc fds c e :
  existing_drive fdc fds c = Some e -> cs_DriveCapacity (cn_Spec c) <= 0 ->
  ec_TlcGiB e + ec_QlcGiB e = capacity_of c /\ ec_Node e = GetNodeAffinity c /\ ec_Name e = cn_Name c.
Proof.
  unfold existing_drive, DriveContainerCapacities. case_decide; [done|]. destruct (IsDeletingDriveContainer c); [done|].
  intros He Hd. rewrite decide_False in He by lia.
  pose proof (GetTlcQlcCapacity_sum (capacity_of c) (cs_DriveTypesRatio (cn_Spec c))).
  destruct (GetTlcQlcCapacity _ _) as [t q]. simplify_eq. done.
Qed.

(** An entry is determined by these parts of a container. *)
Lemma existing_drive_caps fdc fds c t q :
  mode c = WekaContainerModeDrive -> IsMarkedForDeletion c = false -> DriveContainerCapacities c = (t, q) ->
  sizes <$> existing_drive fdc fds c = Some (GetNodeAffinity c, t, q).
Proof.
  intros Hm Hd Hc. unfold existing_drive, IsDeletingDriveContainer. rewrite decide_False by (intros H; by apply H).
  rewrite Hm, Hd, Hc. by rewrite andb_false_r.
Qed.

Lemma shared_caps c t q :
  cs_DriveCapacity (cn_Spec c) <= 0 -> capacity_of c = t + q ->
  cs_DriveTypesRatio (cn_Spec c) = Some (RatioFromCaps t q) -> 0 <= t -> 0 <= q -> DriveContainerCapacities c = (t, q).
Proof.
  intros Hd Hc Hr Ht Hq. unfold DriveContainerCapacities. rewrite decide_False by lia. rewrite Hc, Hr.
  by apply ratio_split.
Qed.

Lemma existing_drive_mode fdc fds c e :
  existing_drive fdc fds c = Some e -> mode c = WekaContainerModeDrive /\ IsMarkedForDeletion c = false.
Proof.
  unfold existing_drive, IsDeletingDriveContainer. destruct (decide (mode c <> WekaContainerModeDrive)) as [|Hm]; [done|].
  apply dec_stable in Hm. rewrite Hm. destruct (IsMarkedForDeletion c); [done|]. done.
Qed.

(** A growth record sets the sizes of its container. *)
Lemma existing_drive_grown spec fdc fds g c e :
  existing_drive fdc fds c = Some e -> cs_DriveCapacity (cn_Spec c) <= 0 ->
  0 <= ec_TlcGiB e <= cg_NewTlcGiB g -> 0 <= ec_QlcGiB e <= cg_NewQlcGiB g ->
  sizes <$> existing_drive fdc fds (grown_by spec g c) = Some (ec_Node e, cg_NewTlcGiB g, cg_NewQlcGiB g).
Proof.
  intros He Hd Ht Hq. destruct (existing_drive_total _ _ _ _ He Hd) as (Hsum & Hnode & _).
  unfold grown_by. case_decide as Hle.
  { rewrite He. simpl. unfold sizes. do 2 f_equal; [f_equal|]; lia. }
  destruct (existing_drive_mode _ _ _ _ He) as [Hm Hdel]. unfold grow_drive_mutate.
  rewrite (bool_decide_eq_true_2 (_ > capacity_of c)) by lia. simpl. rewrite Hnode.
  rewrite (existing_drive_caps _ _ _ (cg_NewTlcGiB g) (cg_NewQlcGiB g)); [done|done|done|].
  apply shared_caps; simpl; try done; lia.
Qed.

Lemma grow_map_find q n : grow_map q !! n = snd <$> list_find (fun g => cg_Name g = n) (Grow q).
Proof.
  unfold grow_map. induction (Grow q) as [|g gs IH]; [done|]. rewrite fmap_cons, list_to_map_cons, lookup_insert, IH.
  cbn [list_find]. repeat case_decide; try done. by destruct (list_find _ gs) as [[i x]|].
Qed.

(** The containers a plan may be applied to: live drive containers share drives by capacity, and the growth
    records of the plan raise both parts of them. *)
Definition growable (gs : list ContainerGrowth) (fdc : option FailureDomain) (fds : gmap string string)
    (c : Container) : Prop :=
  forall e, existing_drive fdc fds c = Some e ->
    cs_DriveCapacity (cn_Spec c) <= 0 /\ 0 <= ec_TlcGiB e /\ 0 <= ec_QlcGiB e /\
    forall g, g ∈ gs -> cg_Name g = cn_Name c -> ec_TlcGiB e <= cg_NewTlcGiB g /\ ec_QlcGiB e <= cg_NewQlcGiB g.

Lemma existing_grown_other spec fdc fds g c :
  existing_drive fdc fds c = None -> existing_drive fdc fds (grown_by spec g c) = None.
Proof.
  intros He. unfold grown_by. case_decide; [done|]. destruct (grow_drive_mutate spec g c c) as [c'|] eqn:Hm; [|done].
  simpl. unfold grow_drive_mutate in Hm. destruct (_ && _) in Hm; [done|]. injection Hm as <-.
  unfold existing_drive, IsDeletingDriveContainer, IsMarkedForDeletion in *. simpl in *.
  case_decide; [done|]. destruct (bool_decide _ && _); [done|]. by destruct (DriveContainerCapacities c).
Qed.

Lemma existing_drives_grown spec fdc fds q l :
  Forall (growable (Grow q) fdc fds) l ->
  sizes <$> ExistingDrives fdc (grown spec (Grow q) <$> l) fds =
  (fun e => (ec_Node e, planned_cap q poolTLC e, planned_cap q poolQLC e)) <$> ExistingDrives fdc l fds.
Proof.
  rewrite Forall_forall. intros Hl. unfold ExistingDrives. rewrite !fmap_omap, omap_fmap. apply omap_ext_in.
  intros c Hc. specialize (Hl c Hc). unfold grown. destruct (existing_drive fdc fds c) as [e|] eqn:He; simpl.
  - destruct (Hl e He) as (Hd & Ht & Hq & Hg). destruct (existing_drive_total _ _ _ _ He Hd) as (_ & _ & Hn).
    unfold planned_cap, finalPoolCap. rewrite grow_map_find, Hn.
    destruct (list_find _ (Grow q)) as [[i g]|] eqn:Hf; simpl; [|by rewrite He].
    apply list_find_Some in Hf as (Hi & Hgn & _). apply list_elem_of_lookup_2 in Hi.
    destruct (Hg g Hi Hgn). by apply existing_drive_grown.
  - destruct (list_find _ (Grow q)) as [[i g]|]; [|by rewrite He]. by rewrite existing_grown_other.
Qed.

(** ** Compute growth *)

Lemma existing_drive_not_drive fdc fds c : mode c <> WekaContainerModeDrive -> existing_drive fdc fds c = None.
Proof. intros H. unfold existing_drive. by rewrite decide_True. Qed.

(** A compute container after the layout entries. *)
Definition computed (spec : ClusterSpec) (targets : gmap string ComputeContainerSpec) (c : Container) : Container :=
  if decide (mode c <> WekaContainerModeCompute) then c
  else if (IsUnhealthy c).1 then c
  else match targets !! GetNodeAffinity c with
       | None => c
       | Some entry =>
           default c (grow_compute_mutate entry
             (ComputeHugepagesFromPlan spec (ccs_HugepagesMiB entry) (ccs_NumCores entry)) c)
       end.

Lemma computed_same spec targets c :
  container_key (computed spec targets c) = container_key c /\ mode (computed spec targets c) = mode c /\
  IsUnhealthy (computed spec targets c) = IsUnhealthy c /\ GetNodeAffinity (computed spec targets c) = GetNodeAffinity c /\
  cs_NumCores (cn_Spec c) <= cs_NumCores (cn_Spec (computed spec targets c)).
Proof.
  assert (Hm : forall entry hp, let c' := default c (grow_compute_mutate entry hp c) in
    container_key c' = container_key c /\ mode c' = mode c /\ IsUnhealthy c' = IsUnhealthy c /\
    GetNodeAffinity c' = GetNodeAffinity c /\ cs_NumCores (cn_Spec c) <= cs_NumCores (cn_Spec c')).
  { intros entry hp. unfold grow_compute_mutate. case_decide; [done|]. case_decide; [done|].
    simpl. split_and!; try done. lia. }
  unfold computed. case_decide; [done|]. destruct ((IsUnhealthy c).1); [done|].
  destruct (targets !! GetNodeAffinity c) as [entry|]; [apply Hm|done].
Qed.

Lemma put_middle c c' l1 l2 :
  NoDup (container_key <$> l1 ++ c :: l2) -> container_key c' = container_key c ->
  put c' (l1 ++ c :: l2) = l1 ++ c' :: l2.
Proof.
  intros Hnd Hk. unfold put. rewrite fmap_app, fmap_cons in Hnd. rewrite fmap_app, fmap_cons, decide_True by done.
  apply NoDup_app in Hnd as (_ & H1 & [H2 _]%NoDup_cons).
  f_equal; [|f_equal].
  - rewrite <- (list_fmap_id l1) at 2. apply list_fmap_ext. intros i x Hx%list_elem_of_lookup_2.
    rewrite decide_False; [done|]. rewrite Hk. intros E. apply (H1 (container_key x)).
    + by apply (list_elem_of_fmap_2 container_key).
    + rewrite E. by left.
  - rewrite <- (list_fmap_id l2) at 2. apply list_fmap_ext. intros i x Hx%list_elem_of_lookup_2.
    rewrite decide_False; [done|]. rewrite Hk. intros E. apply H2. rewrite <- E.
    by apply (list_elem_of_fmap_2 container_key).
Qed.

(** One container: no error, and the container is brought to its entry. *)
Lemma grow_compute_calm spec server targets c l1 l2 :
  NoDup (container_key <$> l1 ++ c :: l2) ->
  (mode c = WekaContainerModeCompute ->
   at_get (server (cn_Name c) 0%nat) = Ok c /\ at_update (server (cn_Name c) 0%nat) = None) ->
  grow_compute spec server targets c (l1 ++ c :: l2) = (l1 ++ computed spec targets c :: l2, None).
Proof.
  intros Hnd Hcalm. unfold grow_compute, computed. destruct (decide (mode c <> WekaContainerModeCompute)) as [|Hm]; [done|].
  apply dec_stable in Hm. destruct (Hcalm Hm) as [Hg Hu].
  destruct ((IsUnhealthy c).1); [done|]. destruct (targets !! GetNodeAffinity c) as [entry|]; [|done].
  set (hp := ComputeHugepagesFromPlan _ _ _).
  destruct (grow_compute_mutate entry hp c) as [c'|] eqn:Hmut; simpl.
  - pose proof Hmut as Hmut'. unfold grow_compute_mutate in Hmut. case_decide; [done|]. case_decide as Hd; [done|].
    rewrite (decide_False (P := _ /\ _)) by exact Hd. rewrite (retry_calm _ _ c Hg Hu), Hmut'. simpl.
    rewrite put_middle; [done..|]. by injection Hmut as <-.
  - pose proof Hmut as Hmut'. unfold grow_compute_mutate in Hmut. case_decide; [done|].
    destruct (decide (_ <= _ /\ hp_Hugepages hp <= _)); [|done].
    destruct (decide _); [done|]. rewrite (retry_calm _ _ c Hg Hu), Hmut'. done.
Qed.

Lemma compute_growth_computed spec server plan l :
  NoDup (container_key <$> l) ->
  (forall c, c ∈ l -> mode c = WekaContainerModeCompute ->
     at_get (server (cn_Name c) 0%nat) = Ok c /\ at_update (server (cn_Name c) 0%nat) = None) ->
  applyPlannerComputeGrowth spec server plan l = (computed spec (compute_targets (ComputeLayout plan)) <$> l, []).
Proof.
  intros Hnd Hcalm. unfold applyPlannerComputeGrowth. set (targets := compute_targets _).
  assert (Hloop : forall pre cs, NoDup (container_key <$> pre ++ cs) -> cs ⊆ l ->
    foldl (fun '(cs, errs) c => let '(cs, e) := grow_compute spec server targets c cs in (cs, errs ++ option_list e))
      (pre ++ cs, []) cs = (pre ++ (computed spec targets <$> cs), [])).
  { intros pre cs. revert pre. induction cs as [|c cs IH]; intros pre Hk Hsub; [done|]. cbn [foldl].
    rewrite grow_compute_calm; [|done|apply Hcalm; set_solver]. simpl.
    rewrite !(cons_middle (computed spec targets c)), !(app_assoc pre).
    apply IH; [|set_solver]. revert Hk. rewrite <- app_assoc. simpl. rewrite !fmap_app, !fmap_cons.
    by destruct (computed_same spec targets c) as [-> _]. }
  apply (Hloop [] l); done.
Qed.

Lemma compute_growth_calm spec server plan fdc fds l :
  NoDup (container_key <$> l) ->
  (forall c, c ∈ l -> mode c = WekaContainerModeCompute ->
     at_get (server (cn_Name c) 0%nat) = Ok c /\ at_update (server (cn_Name c) 0%nat) = None) ->
  exists l', applyPlannerComputeGrowth spec server plan l = (l', []) /\
    ExistingDrives fdc l' fds = ExistingDrives fdc l fds.
Proof.
  intros Hnd Hcalm. eexists. split; [by apply compute_growth_computed|]. unfold ExistingDrives. rewrite omap_fmap.
  apply omap_ext_in. intros c _. destruct (decide (mode c = WekaContainerModeCompute)) as [Hm|Hm].
  - rewrite !existing_drive_not_drive; [done|by rewrite Hm|].
    destruct (computed_same spec (compute_targets (ComputeLayout plan)) c) as (_ & -> & _). by rewrite Hm.
  - unfold computed. by rewrite decide_True.
Qed.

(** ** New containers *)

Lemma build_drive_ok meta spec template guid pc :
  tpl_DriveCapacity template <= 0 -> 0 <= new_TlcGiB pc -> 0 <= new_QlcGiB pc ->
  new_Ratio pc = Some (RatioFromCaps (new_TlcGiB pc) (new_QlcGiB pc)) ->
  exists c, build_drive meta spec None template guid pc = Ok c /\ cs_NumCores (cn_Spec c) = new_NumCores pc /\
    forall fdc fds, sizes <$> existing_drive fdc fds c = Some (new_Node pc, new_TlcGiB pc, new_QlcGiB pc).
Proof.
  intros Hd Ht Hq Hr. unfold build_drive, NewWekaContainerForWekaCluster. simpl. eexists. split; [done|]. split; [done|].
  intros fdc fds.
  rewrite (existing_drive_caps _ _ _ (new_TlcGiB pc) (new_QlcGiB pc));
    [|done|done|by apply shared_caps; simpl].
  unfold GetNodeAffinity. simpl. case_decide as Hn; [done|]. by rewrite Hn.
Qed.

Lemma build_drives_ok meta spec template guids create :
  tpl_DriveCapacity template <= 0 -> length guids = length create ->
  Forall (fun pc => 0 <= new_TlcGiB pc /\ 0 <= new_QlcGiB pc /\
            new_Ratio pc = Some (RatioFromCaps (new_TlcGiB pc) (new_QlcGiB pc))) create ->
  exists created, zip_with (build_drive meta spec None template) guids create = Ok <$> created /\
    forall fdc fds, sizes <$> ExistingDrives fdc created fds =
      (fun r => (new_Node r, new_TlcGiB r, new_QlcGiB r)) <$> create.
Proof.
  intros Hd Hlen Hall. revert guids Hlen. induction Hall as [|pc create (Ht & Hq & Hr) _ IH]; intros [|g guids] Hlen; try done.
  { by exists []. }
  destruct (IH guids) as (created & Hz & Hs); [simpl in Hlen; lia|].
  destruct (build_drive_ok meta spec template g pc Hd Ht Hq Hr) as (c & Hc & _ & Hsc).
  exists (c :: created). split; [cbn [zip_with]; by rewrite Hc, Hz|]. intros fdc fds. unfold ExistingDrives in *.
  cbn [omap list_omap]. specialize (Hsc fdc fds). specialize (Hs fdc fds).
  destruct (existing_drive fdc fds c) as [e|]; [|done]. injection Hsc as E1 E2 E3.
  rewrite !fmap_cons. unfold sizes at 1. by rewrite E1, E2, E3, <- Hs.
Qed.

(** ** The plan applied *)

Lemma poolCurrent_sizes l l' p : sizes <$> l = sizes <$> l' -> poolCurrent l p = poolCurrent l' p.
Proof.
  unfold poolCurrent. revert l'. induction l as [|e l IH]; intros [|e' l'] H; try done.
  rewrite !fmap_cons in H. injection H as E1 E2 E3 H. rewrite !fmap_cons, !sumZ_cons, (IH l' H).
  f_equal. by destruct p.
Qed.

(** The sizes of the drives do not depend on the failure domains. *)
Lemma sizes_fds fdc fds fds' l : sizes <$> ExistingDrives fdc l fds = sizes <$> ExistingDrives fdc l fds'.
Proof.
  unfold ExistingDrives. rewrite !fmap_omap. apply omap_ext_in. intros c _. unfold existing_drive.
  case_decide; [done|]. destruct (IsDeletingDriveContainer c); [done|]. by destruct (DriveContainerCapacities c).
Qed.

Section applied.
Context (cfg : OperatorConfig) (meta : cluster_meta) (spec : ClusterSpec) (server : string -> nat -> attempt).
Context (guids : list string) (containers : list Container) (fds : gmap string string).
Context (desired : DesiredCapacity) (scheme : ProtectionScheme) (existingCompute : list ExistingComputeContainer).
Context (inventory : list NodeCapacity) (computeNodes : option (gmap string bool)) (cons : CapacityConstraints).

Let fdc := csp_FailureDomain spec.
Let drives := ExistingDrives fdc containers fds.
Let plan := PlanCapacity desired scheme drives existingCompute inventory computeNodes cons.

(** The containers of a cluster with [clusterCapacity]: distinct names, and drives shared by capacity. *)
Definition capacity_cluster : Prop :=
  NoDup (cn_Name <$> containers) /\
  Forall (fun c => mode c = WekaContainerModeDrive -> cs_DriveCapacity (cn_Spec c) <= 0) containers /\
  wt_DriveCapacity (default zero_template (csp_Dynamic spec)) <= 0.

Lemma drives_elem e :
  e ∈ drives -> exists c, c ∈ containers /\ existing_drive fdc fds c = Some e /\ ec_Name e = cn_Name c.
Proof.
  intros (c & Hc & He)%list_elem_of_omap. exists c. split_and!; [done..|].
  unfold existing_drive in He. case_decide; [done|]. destruct (IsDeletingDriveContainer c); [done|].
  destruct (DriveContainerCapacities c). by simplify_eq.
Qed.

Lemma plan_growable :
  inputs_ok desired drives cons -> capacity_cluster -> Forall (growable (Grow plan) fdc fds) containers.
Proof.
  intros Hin (Hnd & Hshared & _). rewrite Forall_forall in Hshared. apply Forall_forall. intros c Hc e He.
  assert (Hed : e ∈ drives) by (apply list_elem_of_omap; by exists c).
  destruct (plan_entries desired scheme drives existingCompute inventory computeNodes cons Hin) as [Hg _].
  pose proof Hin as (Hnames & Hpos & _). rewrite Forall_forall in Hpos. destruct (Hpos e Hed) as [Ht Hq].
  split_and!; [by apply Hshared, (existing_drive_mode _ _ _ _ He)|done..|].
  intros g Hgin Hgn. destruct (Hg g Hgin) as (e' & He' & Hn & Hp & _).
  assert (e' = e) as ->.
  { apply (NoDup_fmap_eq ec_Name drives); [done..|]. destruct (drives_elem e Hed) as (c' & Hc' & Hec' & Hnc').
    assert (c' = c) as ->; [|congruence].
    apply (NoDup_fmap_eq cn_Name containers); [done..|]. rewrite <- Hnc'.
    unfold existing_drive in He. case_decide; [done|]. destruct (IsDeletingDriveContainer c); [done|].
    destruct (DriveContainerCapacities c). by simplify_eq. }
  exact (conj (Hp poolTLC) (Hp poolQLC)).
Qed.

Lemma omap_Ok {A} (l : list A) :
  omap (fun r => match r with Ok c => Some c | Err _ => None end) (Ok (E := string) <$> l) = l /\
  omap (fun r => match r with Ok _ => None | Err e => Some e end) (Ok (E := string) <$> l) = [].
Proof. rewrite !omap_fmap. induction l as [|x l [IH1 IH2]]; [done|]. cbn [omap list_omap]. by rewrite IH1, IH2. Qed.

Lemma keys_of_names l : NoDup (cn_Name <$> l) -> NoDup (container_key <$> l).
Proof.
  intros H. apply (NoDup_fmap_1 snd). rewrite <- list_fmap_compose. exact H.
Qed.

Lemma grown_name gs c : cn_Name (grown spec gs c) = cn_Name c.
Proof.
  unfold grown. destruct (list_find _ gs) as [[i g]|]; [|done]. pose proof (grown_by_key spec g c) as H. by injection H.
Qed.

(** A compute container is not the one of a growth record. *)
Lemma grown_compute c :
  inputs_ok desired drives cons -> NoDup (cn_Name <$> containers) -> c ∈ containers ->
  mode c = WekaContainerModeCompute -> grown spec (Grow plan) c = c.
Proof.
  intros Hin Hnd Hc Hm. apply grown_other. intros (g & Hn & Hg)%list_elem_of_fmap.
  destruct (plan_entries desired scheme drives existingCompute inventory computeNodes cons Hin) as [Hgrow _].
  destruct (Hgrow g Hg) as (e & He & Hne & _). destruct (drives_elem e He) as (c' & Hc' & Hec & Hnc).
  assert (c' = c) as -> by (apply (NoDup_fmap_eq cn_Name containers); congruence).
  apply existing_drive_mode in Hec as [Hd _]. rewrite Hm in Hd. done.
Qed.

Lemma grown_mode gs c : mode (grown spec gs c) = mode c.
Proof.
  unfold grown. destruct (list_find _ gs) as [[i g]|]; [|done]. unfold grown_by. case_decide; [done|].
  unfold grow_drive_mutate. destruct (_ && _); done.
Qed.

End applied.

(** ** A concrete cluster *)

Definition ex_meta : cluster_meta := {| cm_Name := "prod"; cm_Namespace := "weka" |}.
Definition ex_server (l : list Container) (name : string) (_ : nat) : attempt :=
  {| at_get := match by_name name l with Some c => Ok c | None => Err (NotFound "gone") end; at_update := None |}.
Definition ex_guids : list string := numbered "g" 5.

Lemma ex_calm : calm (ex_server ex_own) ex_own.
Proof. intros c Hc. apply list_elem_of_singleton in Hc as ->. split; reflexivity. Qed.


Definition ex_growth : ContainerGrowth :=
  {| cg_Name := "drive-1"; cg_NewTlcGiB := 20 * tib; cg_NewQlcGiB := 0; cg_NewCores := 4 |}.

(** The first write meets a conflict: the copy had been grown to 2 cores meanwhile. *)
Definition ex_racing (i : nat) : attempt :=
  match i with
  | O => {| at_get := Ok (ex_drive "drive-1" "n1" (4 * tib) 1); at_update := Some (Conflict "changed") |}
  | _ => {| at_get := Ok (ex_drive "drive-1" "n1" (8 * tib) 2); at_update := None |}
  end.

Lemma growth_never_shrinks_witness :
  exists c' skipped e, updateContainerWithRetry (grow_drive_mutate ex_cluster_spec ex_growth (ex_drive "drive-1" "n1" (4 * tib) 1))
    ex_racing = (Some c', skipped, e) /\
  exists j latest, at_get (ex_racing j) = Ok latest /\ cores_of latest <= cores_of c' /\ capacity_of latest <= capacity_of c'.
Proof.
  eexists _, _, _. split; [vm_compute; reflexivity|].
  match goal with |- context [cores_of ?c'] =>
    destruct (proj1 (growth_never_shrinks ex_cluster_spec ex_racing ex_growth (ex_drive "drive-1" "n1" (4 * tib) 1)
      {| ccs_Node := ""; ccs_NumCores := 0; ccs_HugepagesMiB := 0 |} (DriveHugepagesFromPlan ex_cluster_spec 0 0)
      c' false None)) as (j & latest & _ & H1 & _ & _ & H2 & H3 & _) end; [vm_compute; reflexivity|].
  exists j, latest. exact (conj H1 (conj H2 H3)).
Defined.

(** Six drives of 20 TiB and six compute containers of 4 cores cover 120 TiB. *)
Definition ex_covered : list Container :=
  ((fun n => ex_drive (String.append "d-" n) n (20 * tib) 4) <$> numbered "n" 6) ++
  ((fun n => set_spec (spec_resize 4 3000 0 0 0 None (cn_Spec (ex_compute (String.append "c-" n) n "A" "A")))
     (ex_compute (String.append "c-" n) n "A" "A")) <$> numbered "n" 6).

Lemma steadyStatePlan_no_drive_work_witness :
  exists plan events, steadyStatePlan ex_covered (desiredTlc (120 * tib)) testScheme testCons = Some (plan, events) /\
  Grow plan = [] /\ Create plan = [].
Proof.
  eexists _, _. split; [vm_compute; reflexivity|].
  match goal with |- Grow ?plan = [] /\ _ =>
    destruct (steadyStatePlan_no_drive_work ex_covered (desiredTlc (120 * tib)) testScheme testCons plan [] None ∅ [] [] None)
      as (H1 & H2 & _) end; [vm_compute; reflexivity|exact (conj H1 H2)].
Defined.

(** ** Departures from the comments *)

(** The copy on the server was grown to 9 cores meanwhile: its capacity still grows, and the hugepages of the
    plan's 4 cores are written over those of its 9. *)
Example stale_cores_lower_hugepages :
  let cached := ex_drive "drive-1" "n1" (4 * tib) 1 in
  let latest := ex_drive "drive-1" "n1" (8 * tib) 9 in
  match grow_drive_mutate ex_cluster_spec ex_growth cached latest with
  | Some c' => cores_of c' = 9 /\ hugepages_of c' < hugepages_of latest
  | None => False
  end.
Proof. vm_compute. split; reflexivity. Qed.

(** Six QLC containers with 6 drive cores each, and six compute containers with one core: the fast path
    counts no QLC cores and sees nothing to do, although the planner requires 36 compute cores. *)
Example fast_path_skips_compute_growth :
  let drive n := set_spec (spec_resize 6 9600 0 0 (300 * tib) (Some {| ratio_Tlc := 0; ratio_Qlc := 1 |})
                   (cn_Spec (ex_drive (String.append "d-" n) n 0 0))) (ex_drive (String.append "d-" n) n 0 0) in
  let containers := (drive <$> numbered "n" 6) ++
    ((fun n => ex_compute (String.append "c-" n) n "A" "A") <$> numbered "n" 6) in
  let desired := {| TlcRawGiB := 0; QlcRawGiB := 1800 * tib; ComputeContainers := 0; ComputeCores := 0;
                    DriveContainers := 0; DriveCores := 0 |} in
  let inventory := test_nodes 6 0 0 64 "n" in
  let q := PlanCapacity desired testScheme (ExistingDrives None containers ∅) (ExistingCompute containers) inventory
             (allEligible inventory) testCons in
  bool_decide (is_Some (steadyStatePlan containers desired testScheme testCons)) = true /\
  Infeasible q = "" /\ plan_RequiredComputeCores q = 36 /\ ccs_totalCores (summarizeComputeContainers containers) = 6.
Proof. vm_compute. auto. Qed.
