(* ===== verification/Daemonset.v ===== *)
(** * Act-as-daemonset (wekacluster/daemonset.go)

    A cluster with no counts and no capacity gets one drive and one compute container on each matching node,
    and optionally one S3 container: the input of a pass, the plan, and the containers raised and built from
    it. *)

From S2P Require Import Prelude Float64 Fmt Types Cpu Sizing Strategies VirtualDrives.
From S2P Require Import Api Nodes Templates Inventory Upgrade Apply.

(** ** Data *)

Record dsNode := {
  dn_driveRole : bool; dn_computeRole : bool; dn_s3Role : bool;
  dn_ineligible : string;
  dn_drivesGiB : list Z;
  dn_badAnnotation : string;
  dn_entries : list DriveEntry;
  dn_listed : bool;
  dn_availGiB : list Z }.

(** The zero value of a missing map entry. *)
Definition zero_dsNode : dsNode := {|
  dn_driveRole := false; dn_computeRole := false; dn_s3Role := false; dn_ineligible := ""; dn_drivesGiB := [];
  dn_badAnnotation := ""; dn_entries := []; dn_listed := false; dn_availGiB := [] |}.

Record daemonsetInput := {
  di_nodes : gmap string dsNode;
  di_live : gmap string (gmap string Container);
  di_deleting : gmap string (gset string);
  di_numDrivesPin : Z; di_driveCoresPin : Z; di_computeCoresPin : Z;
  di_hugepagesPin : gmap string bool; di_hugepagesOffsetPin : gmap string bool;
  di_cons : CapacityConstraints;
  di_s3 : bool }.

Definition live_of (i : daemonsetInput) (m : string) : gmap string Container := default ∅ (di_live i !! m).
Definition deleting_of (i : daemonsetInput) (m : string) : gset string := default ∅ (di_deleting i !! m).
Definition node_of (i : daemonsetInput) (name : string) : dsNode := default zero_dsNode (di_nodes i !! name).

Record dsContainerTarget := {
  dt_node : string; dt_mode : string;
  dt_paired : bool;
  dt_numDrives : Z;
  dt_drivesFollowFree : bool;
  dt_cores : Z;
  dt_tlcGiB : Z;
  dt_computeHugepagesMiB : Z }.

#[export] Instance dsContainerTarget_eq_dec : EqDecision dsContainerTarget.
Proof. solve_decision. Defined.

Record daemonsetPlan := {
  dp_targets : list dsContainerTarget;
  dp_unsigned : list string; dp_unused : list string; dp_capped : list string; dp_noFree : list string;
  dp_ineligible : gmap string string;
  dp_driveCores : Z; dp_computeCores : Z;
  dp_statusDesiredS3 : Z }.

(** An append to one of the event lists of the plan, or an entry of [ineligible]. *)
Inductive ds_note :=
  | Unsigned (frag : string)
  | Unused (frag : string)
  | Capped (frag : string)
  | NoFree (frag : string)
  | Ineligible (node reason : string).

Definition add_note (p : daemonsetPlan) (n : ds_note) : daemonsetPlan := {|
  dp_targets := dp_targets p;
  dp_unsigned := match n with Unsigned s => dp_unsigned p ++ [s] | _ => dp_unsigned p end;
  dp_unused := match n with Unused s => dp_unused p ++ [s] | _ => dp_unused p end;
  dp_capped := match n with Capped s => dp_capped p ++ [s] | _ => dp_capped p end;
  dp_noFree := match n with NoFree s => dp_noFree p ++ [s] | _ => dp_noFree p end;
  dp_ineligible := match n with Ineligible k r => <[k := r]> (dp_ineligible p) | _ => dp_ineligible p end;
  dp_driveCores := dp_driveCores p; dp_computeCores := dp_computeCores p;
  dp_statusDesiredS3 := dp_statusDesiredS3 p |}.

(** ** Helpers *)

(** [cmp.Or] on integers. *)
Definition cmp_Or (a b : Z) : Z := if decide (a = 0) then b else a.

(** The capacities of the container's drives that the node still signs, and whether one is missing. *)
Definition heldCapacities (c : Container) (entries : list DriveEntry) : list Z * bool :=
  foldl (fun '(caps, missing) serial =>
    match list_find (fun d => de_Serial d = serial) entries with
    | None => (caps, true)
    | Some (_, d) => (caps ++ [de_CapacityGiB d], missing)
    end) ([], false) (allocated_drives c).

(** Removes the first occurrence of [g], if any. *)
Fixpoint delete_first (g : Z) (l : list Z) : list Z :=
  match l with
  | [] => []
  | x :: l => if decide (x = g) then l else x :: delete_first g l
  end.

Definition withoutCapacities (pool remove : list Z) : list Z := foldl (fun out g => delete_first g out) pool remove.

Definition olderThan (a b : Container) : bool :=
  if decide (cn_CreationTimestamp a <> cn_CreationTimestamp b)
  then bool_decide (cn_CreationTimestamp a < cn_CreationTimestamp b)
  else str_lt (cn_Name a) (cn_Name b).

(** ** The plan *)

(** The live drive container of a node. *)
Definition live_drive (i : daemonsetInput) (name : string) : option Container :=
  live_of i WekaContainerModeDrive !! name.

(** The drives the node can give: those listed as available, or all the signed ones. *)
Definition drive_pool (i : daemonsetInput) (name : string) : list Z :=
  let n := node_of i name in if dn_listed n then dn_availGiB n else dn_drivesGiB n.

(** [heldCaps] and [holdsBlocked]. *)
Definition held_of (i : daemonsetInput) (name : string) : list Z * bool :=
  match live_drive i name with Some c => heldCapacities c (dn_entries (node_of i name)) | None => ([], false) end.

(** [followFree]. *)
Definition follow_free (i : daemonsetInput) (name : string) : bool :=
  bool_decide (live_drive i name <> None) && dn_listed (node_of i name) && bool_decide (di_numDrivesPin i = 0) &&
  negb (held_of i name).2.

(** The number of drives of the container. *)
Definition drive_count (i : daemonsetInput) (name : string) : Z :=
  match live_drive i name with
  | None => cmp_Or (di_numDrivesPin i) (len (drive_pool i name))
  | Some c => if follow_free i name then Z.max (len (drive_pool i name)) 1
              else Z.max (cs_NumDrives (cn_Spec c)) (di_numDrivesPin i)
  end.

(** The early exits of the loop that decides the drive containers, with what they report. *)
Definition drive_skip (i : daemonsetInput) (name : string) : option (list ds_note) :=
  let n := node_of i name in
  let signed := len (dn_drivesGiB n) in
  match live_drive i name with
  | Some _ => None
  | None =>
      if decide (name ∈ deleting_of i WekaContainerModeDrive) then Some []
      else if negb (dn_driveRole n) then Some []
      else if decide (signed = 0) then
        Some [Unsigned (if decide (dn_badAnnotation n = "") then name
                        else Sprintf "%s (unparsable annotation: %s)" [ArgS name; ArgS (dn_badAnnotation n)])]
      else if decide (dn_ineligible n <> "") then Some [Ineligible name (dn_ineligible n)]
      else if decide (drive_count i name = 0) then
        Some [NoFree (Sprintf "%s (%d signed, %d held by other containers)"
                        [ArgS name; ArgD signed; ArgD (signed - len (drive_pool i name))])]
      else None
  end.

(** The target of a node that is not skipped. *)
Definition drive_size (i : daemonsetInput) (name : string) : dsContainerTarget :=
  let drives := drive_count i name in
  let cores := cmp_Or (di_driveCoresPin i) (FullDriveCores drives (Some (di_cons i))) in
  let exCores := match live_drive i name with Some c => cs_NumCores (cn_Spec c) | None => 0 end in
  let heldCaps := (held_of i name).1 in
  let tlcGiB :=
    match live_drive i name with
    | None => sumZ (take (Z.to_nat drives) (drive_pool i name))
    | Some _ => sumZ heldCaps +
        sumZ (take (Z.to_nat (Z.max (drives - len heldCaps) 0)) (withoutCapacities (drive_pool i name) heldCaps))
    end in
  {| dt_node := name; dt_mode := WekaContainerModeDrive; dt_paired := false; dt_numDrives := drives;
     dt_drivesFollowFree := follow_free i name; dt_cores := Z.max exCores cores; dt_tlcGiB := tlcGiB;
     dt_computeHugepagesMiB := 0 |}.

(** The body of the loop over the nodes that decides their drive container. *)
Definition drive_step (i : daemonsetInput) (name : string) : option dsContainerTarget * list ds_note :=
  match drive_skip i name with
  | Some notes => (None, notes)
  | None =>
      let signed := len (dn_drivesGiB (node_of i name)) in
      let drives := drive_count i name in
      let noFree :=
        if decide (follow_free i name = true /\ len (drive_pool i name) = 0) then
          [NoFree (Sprintf "%s (%d signed, %d held by other containers; container waits for a free drive)"
                     [ArgS name; ArgD signed; ArgD signed])] else [] in
      let unused :=
        if decide (di_numDrivesPin i > 0 /\ drives < signed) then
          [Unused (Sprintf "%d of %d signed drives unused on %s (numDrives pin=%d)"
                     [ArgD (signed - drives); ArgD signed; ArgS name; ArgD (di_numDrivesPin i)])] else [] in
      (Some (drive_size i name), noFree ++ unused)
  end.

(** The closure [capAt]. *)
Definition capAt (cons : CapacityConstraints) (x : Z) : Z :=
  if decide (MaxCoresPerContainer cons > 0 /\ x > MaxCoresPerContainer cons) then MaxCoresPerContainer cons else x.

(** What the second loop finds on a node: nothing, a compute-only node, or one paired with its drives. *)
Inductive compute_step_result :=
  | NoCompute
  | ComputeOnly
  | Paired (t : dsContainerTarget) (tlcGiB : Z).

(** The cores a live compute container has. *)
Definition live_cores (i : daemonsetInput) (name : string) : option Z :=
  (fun c => cs_NumCores (cn_Spec c)) <$> live_of i WekaContainerModeCompute !! name.

(** The early exits of the loop that decides the compute containers. *)
Definition compute_skip (i : daemonsetInput) (driveT : gmap string dsContainerTarget) (name : string) :
    option (list ds_note) :=
  let n := node_of i name in
  match live_cores i name with
  | Some _ => None
  | None =>
      if decide (name ∈ deleting_of i WekaContainerModeCompute) then Some []
      else if negb (dn_computeRole n) then Some []
      else if decide (dn_ineligible n <> "") then Some [Ineligible name (dn_ineligible n)]
      else if dn_driveRole n && bool_decide (driveT !! name = None \/ dn_drivesGiB n = []) then Some []
      else None
  end.

(** The cores the drives of a node want, and those its compute container gets. *)
Definition wanted_cores (i : daemonsetInput) (d : dsContainerTarget) : Z :=
  Z.max (RequiredComputeCores (dt_cores d) 0 true (Some (di_cons i))) 1.

Definition paired_cores (i : daemonsetInput) (name : string) (d : dsContainerTarget) : Z :=
  Z.max (default 0 (live_cores i name))
    (if decide (di_computeCoresPin i = 0) then capAt (di_cons i) (wanted_cores i d) else di_computeCoresPin i).

Definition compute_step (i : daemonsetInput) (driveT : gmap string dsContainerTarget) (name : string) :
    compute_step_result * list ds_note :=
  match compute_skip i driveT name with
  | Some notes => (NoCompute, notes)
  | None =>
      match driveT !! name with
      | None => (ComputeOnly, [])
      | Some d =>
          let cores := paired_cores i name d in
          (Paired {| dt_node := name; dt_mode := WekaContainerModeCompute; dt_paired := true; dt_numDrives := 0;
                     dt_drivesFollowFree := false; dt_cores := cores; dt_tlcGiB := 0;
                     dt_computeHugepagesMiB := ComputeContainerHugepagesMiB (dt_tlcGiB d) 0 1 cores (di_cons i) |}
                  (dt_tlcGiB d),
           if decide (di_computeCoresPin i = 0 /\ cores < wanted_cores i d)
           then [Capped (Sprintf "%s (%d cores wanted)" [ArgS name; ArgD (wanted_cores i d)])] else [])
      end
  end.

Definition index_targets (ts : list dsContainerTarget) : gmap string dsContainerTarget :=
  list_to_map ((fun t => (dt_node t, t)) <$> ts).

Definition paired_of (r : compute_step_result) : option (dsContainerTarget * Z) :=
  match r with Paired t tlc => Some (t, tlc) | _ => None end.
Definition is_only (r : compute_step_result) : bool := match r with ComputeOnly => true | _ => false end.

(** The compute-only nodes share the cores and the capacity the paired ones leave. *)
Definition compute_only (i : daemonsetInput) (totalCores totalTlc pairedCores pairedTlc : Z) (only : list string) :
    list dsContainerTarget * list ds_note :=
  let cons := di_cons i in
  let m := len only in
  let rem := RequiredComputeCores totalCores 0 true (Some cons) - pairedCores in
  let want := if decide (di_computeCoresPin i = 0) then Z.max ((rem + m - 1) `quot` m) 1 else 0 in
  let cores := if decide (di_computeCoresPin i = 0) then capAt cons want else di_computeCoresPin i in
  let remTlc := Z.max (totalTlc - pairedTlc) 0 in
  let ts := (fun name =>
    let c := match live_cores i name with Some ex => Z.max ex cores | None => cores end in
    {| dt_node := name; dt_mode := WekaContainerModeCompute; dt_paired := false; dt_numDrives := 0;
       dt_drivesFollowFree := false; dt_cores := c; dt_tlcGiB := 0;
       dt_computeHugepagesMiB := ComputeContainerHugepagesMiB remTlc 0 m c cons |}) <$> only in
  let capped := len (filter (fun t => dt_cores t < want) ts) in
  (ts, if decide (capped > 0) then [Capped (Sprintf "%d compute-only node(s) (%d cores wanted)" [ArgD capped; ArgD want])]
       else []).

Definition set_paired (b : bool) (t : dsContainerTarget) : dsContainerTarget := {|
  dt_node := dt_node t; dt_mode := dt_mode t; dt_paired := b; dt_numDrives := dt_numDrives t;
  dt_drivesFollowFree := dt_drivesFollowFree t; dt_cores := dt_cores t; dt_tlcGiB := dt_tlcGiB t;
  dt_computeHugepagesMiB := dt_computeHugepagesMiB t |}.

(** The S3 targets, the notes and the desired count of one node. *)
Definition s3_step (i : daemonsetInput) (name : string) : option dsContainerTarget * list ds_note * Z :=
  let n := node_of i name in
  if decide (live_of i WekaContainerModeS3 !! name <> None) then (None, [], 1)
  else if decide (dn_ineligible n <> "") then (None, [Ineligible name (dn_ineligible n)], 0)
  else ((if decide (name ∈ deleting_of i WekaContainerModeS3) then None
         else Some {| dt_node := name; dt_mode := WekaContainerModeS3; dt_paired := false; dt_numDrives := 0;
                      dt_drivesFollowFree := false; dt_cores := 0; dt_tlcGiB := 0; dt_computeHugepagesMiB := 0 |}),
        [], 1).

Definition s3_names (i : daemonsetInput) : list string :=
  sort_strings (elements (dom (filter (fun kn => dn_s3Role kn.2 = true) (di_nodes i)) ∪ dom (live_of i WekaContainerModeS3))).

Definition planDaemonsetS3 (i : daemonsetInput) (p : daemonsetPlan) : daemonsetPlan :=
  let steps := s3_step i <$> s3_names i in
  let p := foldl add_note p (concat ((fun s => s.1.2) <$> steps)) in {|
  dp_targets := dp_targets p ++ omap (fun s => s.1.1) steps;
  dp_unsigned := dp_unsigned p; dp_unused := dp_unused p; dp_capped := dp_capped p; dp_noFree := dp_noFree p;
  dp_ineligible := dp_ineligible p; dp_driveCores := dp_driveCores p; dp_computeCores := dp_computeCores p;
  dp_statusDesiredS3 := dp_statusDesiredS3 p + sumZ ((fun s => s.2) <$> steps) |}.

Definition ds_names (i : daemonsetInput) : list string :=
  sort_strings (elements (dom (di_nodes i) ∪ dom (live_of i WekaContainerModeDrive) ∪ dom (live_of i WekaContainerModeCompute))).

(** The drive targets of a plan, in the order of their nodes. *)
Definition drive_targets (i : daemonsetInput) : list dsContainerTarget :=
  omap (fun name => (drive_step i name).1) (ds_names i).

(** The compute targets: those paired with drives, and those of the compute-only nodes. *)
Definition paired_targets (i : daemonsetInput) : list (dsContainerTarget * Z) :=
  omap (fun name => paired_of (compute_step i (index_targets (drive_targets i)) name).1) (ds_names i).

Definition only_names (i : daemonsetInput) : list string :=
  filter (fun name => is_only (compute_step i (index_targets (drive_targets i)) name).1 = true) (ds_names i).

Definition planDaemonset (i : daemonsetInput) : daemonsetPlan :=
  let names := ds_names i in
  let driveTs := drive_targets i in
  let driveT := index_targets driveTs in
  let totalCores := sumZ (dt_cores <$> driveTs) in
  let totalTlc := sumZ (dt_tlcGiB <$> driveTs) in
  let paired := paired_targets i in
  let only := only_names i in
  let pairedCores := sumZ ((fun p => dt_cores p.1) <$> paired) in
  let '(onlyTs, onlyNotes) :=
    if decide (len only > 0) then compute_only i totalCores totalTlc pairedCores (sumZ paired.*2) only else ([], []) in
  let computeT := index_targets (paired.*1 ++ onlyTs) in
  let notes := concat ((fun name => (drive_step i name).2) <$> names) ++
               concat ((fun name => (compute_step i driveT name).2) <$> names) ++ onlyNotes in
  let p := foldl add_note {|
    dp_targets := ((fun t => set_paired (bool_decide (is_Some (computeT !! dt_node t))) t) <$> driveTs) ++
                  omap (fun name => computeT !! name) names;
    dp_unsigned := []; dp_unused := []; dp_capped := []; dp_noFree := []; dp_ineligible := ∅;
    dp_driveCores := totalCores; dp_computeCores := pairedCores + sumZ (dt_cores <$> onlyTs);
    dp_statusDesiredS3 := 0 |} notes in
  if di_s3 i then planDaemonsetS3 i p else p.

(** ** The input of a pass *)

Definition daemonsetModes : list string := [WekaContainerModeDrive; WekaContainerModeCompute; WekaContainerModeS3].

Definition going_away (c : Container) : bool := IsMarkedForDeletion c || IsDeletingState c || IsDestroyingState c.

(** The loop body of [containersByMode]. *)
Definition by_mode_step (acc : gmap string (gmap string Container) * gmap string (gset string)) (c : Container) :
    gmap string (gmap string Container) * gmap string (gset string) :=
  let '(live, deleting) := acc in
  let node := GetNodeAffinity c in
  if decide (live !! mode c = None \/ node = "") then (live, deleting)
  else if going_away c then (live, <[mode c := {[node]} ∪ default ∅ (deleting !! mode c)]> deleting)
  else (<[mode c := <[node := c]> (default ∅ (live !! mode c))]> live, deleting).

Definition containersByMode (containers : list Container) :
    gmap string (gmap string Container) * gmap string (gset string) :=
  foldl by_mode_step
    (list_to_map ((fun m => (m, ∅)) <$> daemonsetModes), list_to_map ((fun m => (m, ∅)) <$> daemonsetModes)) containers.

Definition set_avail (avail : list Z) (n : dsNode) : dsNode := {|
  dn_driveRole := dn_driveRole n; dn_computeRole := dn_computeRole n; dn_s3Role := dn_s3Role n;
  dn_ineligible := dn_ineligible n; dn_drivesGiB := dn_drivesGiB n; dn_badAnnotation := dn_badAnnotation n;
  dn_entries := dn_entries n; dn_listed := true; dn_availGiB := avail |}.

Definition set_nodes (nodes : gmap string dsNode) (i : daemonsetInput) : daemonsetInput := {|
  di_nodes := nodes; di_live := di_live i; di_deleting := di_deleting i; di_numDrivesPin := di_numDrivesPin i;
  di_driveCoresPin := di_driveCoresPin i; di_computeCoresPin := di_computeCoresPin i;
  di_hugepagesPin := di_hugepagesPin i; di_hugepagesOffsetPin := di_hugepagesOffsetPin i; di_cons := di_cons i;
  di_s3 := di_s3 i |}.

(** Whether the free drives of a node have to be looked up. *)
Definition free_candidate (i : daemonsetInput) (name : string) (n : dsNode) : bool :=
  if decide (len (dn_entries n) = 0) then false
  else match live_of i WekaContainerModeDrive !! name with
       | None => dn_driveRole n && bool_decide (dn_ineligible n = "") &&
                 negb (bool_decide (name ∈ deleting_of i WekaContainerModeDrive))
       | Some c =>
           let held := len (allocated_drives c) in
           bool_decide (held = 0 \/ cs_NumDrives (cn_Spec c) > held \/ held < len (dn_entries n))
       end.

(** What the loop over all drive containers collects: the serials the others hold, those our own hold, and
    the drives claimed but not yet allocated, by node. *)
Record drive_claims := { cl_held : gset string; cl_own : gset string; cl_reserved : gmap string Z }.

(** Whether a listed container is the cluster's own live container of its node. *)
Definition is_live_here (i : daemonsetInput) (c : Container) : bool :=
  match live_of i WekaContainerModeDrive !! GetNodeAffinity c with
  | Some lc => bool_decide (cn_Namespace lc = cn_Namespace c /\ cn_Name lc = cn_Name c)
  | None => false
  end.

Definition claim_step (i : daemonsetInput) (ownKeys : gset string) (cl : drive_claims) (c : Container) : drive_claims :=
  let node := GetNodeAffinity c in
  if decide (node = "" \/ container_UsesDriveSharing c = true) then cl
  else
    let serials := allocated_drives c in
    let mine := is_live_here i c in
    let held := if mine then cl_held cl else list_to_set serials ∪ cl_held cl in
    let own := if mine then list_to_set serials ∪ cl_own cl else cl_own cl in
    let newer := match live_of i WekaContainerModeDrive !! node with
                 | Some lc => negb (olderThan c lc) | None => false end in
    {| cl_held := held; cl_own := own;
       cl_reserved :=
         if bool_decide (Sprintf "%s/%s" [ArgS (cn_Namespace c); ArgS (cn_Name c)] ∈ ownKeys) || going_away c || newer
         then cl_reserved cl
         else add_at node (Z.max (cs_NumDrives (cn_Spec c) - len serials) 0) (cl_reserved cl) |}.

(** The drives the container of a node may have: its own, then the free ones less those reserved. *)
Definition available_drives (cl : drive_claims) (name : string) (entries : list DriveEntry) : list Z :=
  let mine := filter (fun d => de_Serial d ∈ cl_own cl) entries in
  let free := filter (fun d => (de_Serial d ∉ cl_own cl) /\ de_Serial d ∉ cl_held cl) entries in
  SortDriveCapacitiesDesc ((de_CapacityGiB <$> mine) ++
    drop (Z.to_nat (at_key (cl_reserved cl) name)) (de_CapacityGiB <$> free)).

(** [list] is what the API server answers for the drive containers of all clusters. *)
Definition listFreeDrives (containers : list Container) (list : res string (list Container)) (i : daemonsetInput) :
    res string daemonsetInput :=
  if decide (map_filter (fun kn => free_candidate i kn.1 kn.2 = true) _ (di_nodes i) = ∅) then Ok i
  else
    match list with
    | Err e => Err (Sprintf "listFreeDrives: failed to list drive containers: %s" [ArgS e])
    | Ok items =>
        let ownKeys := list_to_set ((fun c => Sprintf "%s/%s" [ArgS (cn_Namespace c); ArgS (cn_Name c)]) <$> containers) in
        let cl := foldl (claim_step i ownKeys) {| cl_held := ∅; cl_own := ∅; cl_reserved := ∅ |} items in
        Ok (set_nodes (map_imap (fun name n =>
              Some (if free_candidate i name n then set_avail (available_drives cl name (dn_entries n)) n else n))
              (di_nodes i)) i)
    end.

Section collect.
Context (ToleratesTaint : Toleration -> Taint -> bool) (tolerations : list Toleration) (cfg : OperatorConfig).
Context (list_nodes : gmap string string -> res string (list Node)).

(** A node seen for the first time. *)
Definition new_dsNode (spec : ClusterSpec) (node : Node) : dsNode :=
  let reason := NodeIneligibleReason ToleratesTaint (Some node) tolerations in
  let '(entries, _, err) := SignedFullDrives node in {|
  dn_driveRole := false; dn_computeRole := false; dn_s3Role := false;
  dn_ineligible :=
    if decide (reason = "" /\ csp_FailureDomain spec <> None /\ ResolveNodeFDValue node (csp_FailureDomain spec) = "")
    then "missing FD label" else reason;
  dn_drivesGiB := de_CapacityGiB <$> entries;
  dn_badAnnotation := default "" err;
  dn_entries := entries; dn_listed := false; dn_availGiB := [] |}.

Definition set_role (role : string) (n : dsNode) : dsNode := {|
  dn_driveRole := dn_driveRole n || bool_decide (role = WekaContainerModeDrive);
  dn_computeRole := dn_computeRole n || bool_decide (role = WekaContainerModeCompute);
  dn_s3Role := dn_s3Role n || bool_decide (role <> WekaContainerModeDrive /\ role <> WekaContainerModeCompute);
  dn_ineligible := dn_ineligible n; dn_drivesGiB := dn_drivesGiB n; dn_badAnnotation := dn_badAnnotation n;
  dn_entries := dn_entries n; dn_listed := dn_listed n; dn_availGiB := dn_availGiB n |}.

(** The closure [add]. *)
Definition add_nodes (spec : ClusterSpec) (list : list Node) (role : string) (nodes : gmap string dsNode) :
    gmap string dsNode :=
  foldl (fun m node =>
    let n := match m !! n_Name node with Some n => n | None => new_dsNode spec node end in
    <[n_Name node := set_role role n]> m) nodes list.

(** [formed] is the condition that the cluster was created. *)
Definition daemonset_input (spec : ClusterSpec) (formed : bool) (containers : list Container)
    (nodes : gmap string dsNode) : daemonsetInput :=
  let dyn := default zero_template (csp_Dynamic spec) in
  let '(live, deleting) := containersByMode containers in {|
  di_nodes := nodes; di_live := live; di_deleting := deleting;
  di_numDrivesPin := wt_NumDrives dyn; di_driveCoresPin := wt_DriveCores dyn; di_computeCoresPin := wt_ComputeCores dyn;
  di_hugepagesPin := {[ WekaContainerModeDrive := bool_decide (wt_DriveHugepages dyn > 0);
                        WekaContainerModeCompute := bool_decide (wt_ComputeHugepages dyn > 0) ]};
  di_hugepagesOffsetPin := {[ WekaContainerModeDrive := bool_decide (wt_DriveHugepagesOffset dyn > 0);
                              WekaContainerModeCompute := bool_decide (wt_ComputeHugepagesOffset dyn > 0) ]};
  di_cons := ConstraintsForClusterSpec cfg spec;
  di_s3 := S3ActsAsDaemonset spec && formed |}.

(** [ListNodesForSelector], with the message of its caller. *)
Definition list_role_nodes (selector : gmap string string) (what : string) : res string (list Node) :=
  match ListNodesForSelector list_nodes selector with
  | Err e => Err (Sprintf "collectDaemonsetInput: failed to list %s nodes: %s" [ArgS what; ArgS e])
  | Ok nodes => Ok nodes
  end.

Definition collectDaemonsetInput (spec : ClusterSpec) (formed : bool) (containers : list Container)
    (list : res string (list Container)) : res string daemonsetInput :=
  let driveSel := GetNodeSelectorForRole spec WekaContainerModeDrive in
  let computeSel := GetNodeSelectorForRole spec WekaContainerModeCompute in
  let? driveNodes := list_role_nodes driveSel "drive" in
  let nodes := add_nodes spec driveNodes WekaContainerModeDrive ∅ in
  let? computeNodes := (if decide (driveSel = computeSel) then Ok driveNodes else list_role_nodes computeSel "compute") in
  let nodes := add_nodes spec computeNodes WekaContainerModeCompute nodes in
  let? s3Nodes := (if S3ActsAsDaemonset spec && formed
                   then list_role_nodes (GetNodeSelectorForRole spec WekaContainerModeS3) "s3" else Ok []) in
  let nodes := add_nodes spec s3Nodes WekaContainerModeS3 nodes in
  listFreeDrives containers list (daemonset_input spec formed containers nodes).
End collect.

(** ** Raising and building containers *)

(** The template without its hugepages pins. *)
Definition unpin_hugepages (t : WekaClusterTemplate) : WekaClusterTemplate := {|
  wt_ComputeContainers := wt_ComputeContainers t; wt_DriveContainers := wt_DriveContainers t;
  wt_S3Containers := wt_S3Containers t; wt_NfsContainers := wt_NfsContainers t;
  wt_SmbwContainers := wt_SmbwContainers t; wt_DataServicesContainers := wt_DataServicesContainers t;
  wt_ComputeCores := wt_ComputeCores t; wt_DriveCores := wt_DriveCores t; wt_S3Cores := wt_S3Cores t;
  wt_EnvoyCores := wt_EnvoyCores t; wt_NfsCores := wt_NfsCores t; wt_SmbwCores := wt_SmbwCores t;
  wt_DataServicesCores := wt_DataServicesCores t; wt_ComputeExtraCores := wt_ComputeExtraCores t;
  wt_DriveExtraCores := wt_DriveExtraCores t; wt_S3ExtraCores := wt_S3ExtraCores t;
  wt_NfsExtraCores := wt_NfsExtraCores t; wt_SmbwExtraCores := wt_SmbwExtraCores t;
  wt_DataServicesExtraCores := wt_DataServicesExtraCores t; wt_DataServicesFeCores := wt_DataServicesFeCores t;
  wt_NumDrives := wt_NumDrives t; wt_DriveCapacity := wt_DriveCapacity t;
  wt_ContainerCapacity := wt_ContainerCapacity t; wt_ClusterCapacity := wt_ClusterCapacity t;
  wt_DriveTypesRatio := wt_DriveTypesRatio t;
  wt_DriveHugepages := 0; wt_DriveHugepagesOffset := 0; wt_ComputeHugepages := 0; wt_ComputeHugepagesOffset := 0;
  wt_S3FrontendHugepages := wt_S3FrontendHugepages t;
  wt_S3FrontendHugepagesOffset := wt_S3FrontendHugepagesOffset t;
  wt_NfsFrontendHugepages := wt_NfsFrontendHugepages t;
  wt_NfsFrontendHugepagesOffset := wt_NfsFrontendHugepagesOffset t;
  wt_SmbwFrontendHugepages := wt_SmbwFrontendHugepages t;
  wt_SmbwFrontendHugepagesOffset := wt_SmbwFrontendHugepagesOffset t;
  wt_DataServicesHugepages := wt_DataServicesHugepages t;
  wt_DataServicesHugepagesOffset := wt_DataServicesHugepagesOffset t |}.

Definition with_dynamic (t : WekaClusterTemplate) (spec : ClusterSpec) : ClusterSpec := {|
  csp_Dynamic := Some t; csp_StripeWidth := csp_StripeWidth spec; csp_RedundancyLevel := csp_RedundancyLevel spec;
  csp_HotSpare := csp_HotSpare spec; csp_CpuPolicy := csp_CpuPolicy spec; csp_Image := csp_Image spec;
  csp_NodeSelector := csp_NodeSelector spec; csp_RoleNodeSelector := csp_RoleNodeSelector spec;
  csp_FailureDomain := csp_FailureDomain spec; csp_Overrides := csp_Overrides spec |}.

(** The hugepages of a sizing, by the mode of its target. *)
Definition plan_hugepages (spec : ClusterSpec) (t : dsContainerTarget) (cores drives : Z) : ContainerHugepages :=
  if decide (dt_mode t = WekaContainerModeDrive) then DriveHugepagesFromPlan spec cores drives
  else ComputeHugepagesFromPlan spec (dt_computeHugepagesMiB t) cores.

Definition autoHugepagesFor (spec : ClusterSpec) (t : dsContainerTarget) (cores drives : Z) : ContainerHugepages :=
  plan_hugepages (with_dynamic (unpin_hugepages (default zero_template (csp_Dynamic spec))) spec) t cores drives.

(** The closure [floor], and the fragment for a pin below the automatic value. *)
Definition floor_pin (name field : string) (isPinned : bool) (pin auto cur : Z) : Z * list string :=
  if negb isPinned then (auto, [])
  else if decide (pin >= auto) then (pin, [])
  else (auto, [Sprintf "%s/%s pin=%d auto=%d current=%d" [ArgS name; ArgS field; ArgD pin; ArgD auto; ArgD cur]]).

Definition floorHugepages (name : string) (pinned auto : ContainerHugepages) (curHp curOff : Z) (pinHp pinOff : bool) :
    Z * Z * list string :=
  let '(hugepages, below1) := floor_pin name "hugepages" pinHp (hp_Hugepages pinned) (hp_Hugepages auto) curHp in
  let '(offset, below2) := floor_pin name "hugepagesOffset" pinOff (hp_HugepagesOffset pinned) (hp_HugepagesOffset auto) curOff in
  (hugepages, offset, below1 ++ below2).

Definition pinned_at (pins : gmap string bool) (m : string) : bool := default false (pins !! m).

Section build.
Context (spec : ClusterSpec).

(** The sizing [raiseDaemonsetContainer] computes from a copy: cores, drives, hugepages, offset, fragments. *)
Definition raise_sizing (t : dsContainerTarget) (pinHp pinOff : bool) (name : string) (latest : Container) :
    Z * Z * (Z * Z * list string) :=
  let s := cn_Spec latest in
  let cores := Z.max (cs_NumCores s) (dt_cores t) in
  let drives := if dt_drivesFollowFree t then dt_numDrives t else Z.max (cs_NumDrives s) (dt_numDrives t) in
  (cores, drives, floorHugepages name (plan_hugepages spec t cores drives) (autoHugepagesFor spec t cores drives)
                    (cs_Hugepages s) (cs_HugepagesOffset s) pinHp pinOff).

(** The closure [mutate]; the fragments it leaves in [below] are those of its last call. *)
Definition raise_mutate (t : dsContainerTarget) (pinHp pinOff : bool) (name : string) (latest : Container) :
    option Container :=
  let s := cn_Spec latest in
  let '(cores, drives, (hugepages, offset, _)) := raise_sizing t pinHp pinOff name latest in
  if decide (cores = cs_NumCores s /\ drives = cs_NumDrives s /\ hugepages = cs_Hugepages s /\ offset = cs_HugepagesOffset s)
  then None
  else Some (set_spec (spec_resize cores hugepages offset
               (if decide (dt_mode t = WekaContainerModeDrive) then drives else cs_NumDrives s)
               (cs_ContainerCapacity s) (cs_DriveTypesRatio s) s) latest).

(** [numDrives a→b, ...] for the fields that changed. *)
Definition resize_changes (old new : ContainerSpec) : string :=
  strings_Join (omap (fun '(field, from, to) =>
    if decide (from = to) then None else Some (Sprintf "%s %d→%d" [ArgS field; ArgD from; ArgD to]))
    [("numDrives", cs_NumDrives old, cs_NumDrives new); ("cores", cs_NumCores old, cs_NumCores new);
     ("hugepages", cs_Hugepages old, cs_Hugepages new);
     ("hugepagesOffset", cs_HugepagesOffset old, cs_HugepagesOffset new)]) ", ".

(** The written copy, the summary, and the error. *)
Definition raiseDaemonsetContainer (server : string -> nat -> attempt) (c : Container) (t : dsContainerTarget)
    (pinHp pinOff : bool) : option Container * string * option string :=
  match raise_mutate t pinHp pinOff (cn_Name c) c with
  | None => (None, "", None)
  | Some _ =>
      let '(written, skipped, err) :=
        updateContainerWithRetry (raise_mutate t pinHp pinOff (cn_Name c)) (server (cn_Name c)) in
      match err with
      | Some e => (written, "", Some (Sprintf "failed to raise container %s: %s" [ArgS (cn_Name c); ArgS (error_text e)]))
      | None =>
          if skipped then (written, "", None)
          else (written, Sprintf "%s on %s (%s)" [ArgS (cn_Name c); ArgS (dt_node t);
                  ArgS (resize_changes (cn_Spec c) (cn_Spec (default c written)))], None)
      end
  end.

(** The loop over the targets: those without a container, the containers, the summaries and the errors. *)
Definition raise_step (i : daemonsetInput) (server : string -> nat -> attempt)
    (acc : list dsContainerTarget * list Container * list string * list string) (t : dsContainerTarget) :
    list dsContainerTarget * list Container * list string * list string :=
  let '(missing, containers, grown, errs) := acc in
  match live_of i (dt_mode t) !! dt_node t with
  | None => (missing ++ [t], containers, grown, errs)
  | Some c =>
      let '(written, summary, err) :=
        raiseDaemonsetContainer server c t (pinned_at (di_hugepagesPin i) (dt_mode t))
          (pinned_at (di_hugepagesOffsetPin i) (dt_mode t)) in
      (missing, write_back written containers,
       if decide (err = None /\ summary <> "") then grown ++ [summary] else grown, errs ++ option_list err)
  end.

(** Nodes that get both containers come first. *)
Definition missing_lt (a b : dsContainerTarget) : bool :=
  if decide (dt_paired a <> dt_paired b) then dt_paired a else str_lt (dt_node a) (dt_node b).

(** The room of a role, which only drive and compute have. *)
Definition take_room (room : gmap string Z) (m : string) : option (gmap string Z) :=
  match room !! m with
  | None => Some room
  | Some n => if decide (n <= 0) then None else Some (<[m := n - 1]> room)
  end.

Definition set_template_cores (m : string) (cores count : Z) (t : ClusterTemplate) : ClusterTemplate :=
  let c := tpl_Cores t in
  if decide (m = WekaContainerModeDrive) then with_drive_cores cores t
  else if decide (m = WekaContainerModeCompute) then {|
    tpl_Containers := {| role_Compute := count; role_Drive := role_Drive (tpl_Containers t);
      role_S3 := role_S3 (tpl_Containers t); role_Envoy := role_Envoy (tpl_Containers t);
      role_Nfs := role_Nfs (tpl_Containers t); role_Smbw := role_Smbw (tpl_Containers t);
      role_DataServices := role_DataServices (tpl_Containers t) |};
    tpl_Cores := {| role_Compute := cores; role_Drive := role_Drive c; role_S3 := role_S3 c; role_Envoy := role_Envoy c;
      role_Nfs := role_Nfs c; role_Smbw := role_Smbw c; role_DataServices := role_DataServices c |};
    tpl_ExtraCores := tpl_ExtraCores t; tpl_NumDrives := tpl_NumDrives t; tpl_DriveCapacity := tpl_DriveCapacity t;
    tpl_ContainerCapacity := tpl_ContainerCapacity t; tpl_DriveTypesRatio := tpl_DriveTypesRatio t |}
  else t.

(** [container.Spec.NodeAffinity = node], and the drives of a drive container. *)
Definition pin_container (node : string) (drives : option Z) (c : Container) : Container :=
  let s := cn_Spec c in
  set_spec {|
    cs_Mode := cs_Mode s; cs_Image := cs_Image s; cs_State := cs_State s; cs_CpuPolicy := cs_CpuPolicy s;
    cs_NumCores := cs_NumCores s; cs_ExtraCores := cs_ExtraCores s; cs_Resources := cs_Resources s;
    cs_Hugepages := cs_Hugepages s; cs_HugepagesOffset := cs_HugepagesOffset s; cs_HugepagesSize := cs_HugepagesSize s;
    cs_NumDrives := default (cs_NumDrives s) drives; cs_DriveCapacity := cs_DriveCapacity s;
    cs_ContainerCapacity := cs_ContainerCapacity s; cs_DriveTypesRatio := cs_DriveTypesRatio s;
    cs_NodeAffinity := node; cs_RotatePod := cs_RotatePod s;
    cs_NodeSelector := cs_NodeSelector s; cs_DpdkBaseMemoryMb := cs_DpdkBaseMemoryMb s |} c.

Definition set_hugepages (h o : Z) (hp : ContainerHugepages) : ContainerHugepages := {|
  hp_Mode := hp_Mode hp; hp_Hugepages := h; hp_HugepagesOffset := o; hp_HugePageSize := hp_HugePageSize hp;
  hp_HugepagesUserSet := hp_HugepagesUserSet hp; hp_HugepagesOffsetUserSet := hp_HugepagesOffsetUserSet hp;
  hp_DpdkBaseMemoryMb := hp_DpdkBaseMemoryMb hp |}.

Context (meta : cluster_meta) (wekahome : option string).
(** What [GetContainerHugepages] reads, and the fresh identifier of the name of a target's container. *)
Context (get_node : string -> res string Node) (capacityGiB : WekaClusterTemplate -> res string Z) (cfg : OperatorConfig).
Context (guid : dsContainerTarget -> string).

(** One missing container, or the reason it is skipped. *)
Definition build_target (i : daemonsetInput) (containers : list Container) (baseTemplate : ClusterTemplate)
    (computeCount : Z) (t : dsContainerTarget) : res string Container :=
  let m := dt_mode t in
  let template := set_template_cores m (dt_cores t) computeCount baseTemplate in
  let hp :=
    if decide (m = WekaContainerModeDrive \/ m = WekaContainerModeCompute) then
      let hp := plan_hugepages spec t (dt_cores t) (dt_numDrives t) in
      let '(h, o, _) :=
        floorHugepages (Sprintf "new %s on %s" [ArgS m; ArgS (dt_node t)]) hp
          (autoHugepagesFor spec t (dt_cores t) (dt_numDrives t)) 0 0
          (pinned_at (di_hugepagesPin i) m) (pinned_at (di_hugepagesOffsetPin i) m) in
      Ok (set_hugepages h o hp)
    else GetContainerHugepages get_node capacityGiB cfg template spec containers m in
  match hp with
  | Err e => Err (Sprintf "role %s hugepages: %s" [ArgS m; ArgS (hp_message e)])
  | Ok hp =>
      let name := Sprintf "%s-%s" [ArgS m; ArgS (guid t)] in
      match NewWekaContainerForWekaCluster meta spec wekahome template hp m name with
      | Err e => Err (Sprintf "role %s container %s: %s" [ArgS m; ArgS name; ArgS e])
      | Ok c => Ok (pin_container (dt_node t)
                      (if decide (m = WekaContainerModeDrive) then Some (dt_numDrives t) else None) c)
      end
  end.

(** The loop over the missing targets, within the room of their roles. *)
Fixpoint build_missing (i : daemonsetInput) (containers : list Container) (baseTemplate : ClusterTemplate)
    (computeCount : Z) (room : gmap string Z) (missing : list dsContainerTarget) : list Container * list string :=
  match missing with
  | [] => ([], [])
  | t :: missing =>
      match take_room room (dt_mode t) with
      | None => build_missing i containers baseTemplate computeCount room missing
      | Some room =>
          let '(built, skipped) := build_missing i containers baseTemplate computeCount room missing in
          match build_target i containers baseTemplate computeCount t with
          | Ok c => (c :: built, skipped)
          | Err e => (built, e :: skipped)
          end
      end
  end.

Definition count_targets (m : string) (ts : list dsContainerTarget) : Z := len (filter (fun t => dt_mode t = m) ts).

(** [want] is [desiredRoleCounts] of the cluster; the result is the containers built, the number of compute
    containers, the skipped ones, the errors of the raises, and the existing containers as they were raised. *)
Definition buildDaemonsetContainers (want : IntPerWekaRole -> gmap string Z)
    (server : string -> nat -> attempt) (i : daemonsetInput) (containers : list Container) :
    list Container * Z * list string * list string * list Container :=
  let p := planDaemonset i in
  let targets := {| role_Compute := count_targets WekaContainerModeCompute (dp_targets p);
    role_Drive := count_targets WekaContainerModeDrive (dp_targets p); role_S3 := 0; role_Envoy := 0; role_Nfs := 0;
    role_Smbw := 0; role_DataServices := 0 |} in
  let computeCount := role_Compute targets in
  let '(missing, containers, _, errs) := foldl (raise_step i server) ([], containers, [], []) (dp_targets p) in
  let room := list_to_map ((fun m => (m, default 0 (want targets !! m) - Z.of_nat (size (live_of i m)))) <$>
                [WekaContainerModeDrive; WekaContainerModeCompute]) in
  let '(built, skipped) :=
    build_missing i containers (GetWekaClusterTemplate cfg (csp_Dynamic spec)).2 computeCount room (sort_by missing_lt missing) in
  (built, computeCount, skipped, errs, containers).
End build.

(** ** Events *)

(** [JoinCapped] of pkg/util/slices.go. *)
Definition JoinCapped (items : list string) (sep : string) (n : Z) : string :=
  if decide (len items <= n) then strings_Join items sep
  else Sprintf "%s (+%d more)" [ArgS (strings_Join (take (Z.to_nat n) items) sep); ArgD (len items - n)].

(** The events of a plan: reason and text. *)
Definition emitDaemonsetEvents (p : daemonsetPlan) (ratio : float64) : list event :=
  let nodes := sort_strings (elements (dom (dp_ineligible p))) in
  let frags := (fun node => Sprintf "%s (%s)" [ArgS node; ArgS (default "" (dp_ineligible p !! node))]) <$> nodes in
  let when (b : bool) (e : event) := if b then [e] else [] in
  when (bool_decide (len (dp_unsigned p) > 0)) ("AutoFullDrivesUnsignedDriveNodes",
    Sprintf "%d drive-role node(s) have no signed full drives and get no containers: %s"
      [ArgD (len (dp_unsigned p)); ArgS (JoinCapped (dp_unsigned p) "; " 10)]) ++
  when (bool_decide (dp_ineligible p <> ∅)) ("AutoFullDrivesNodeIneligible",
    Sprintf "%d node(s) get no new containers: %s" [ArgD (len frags); ArgS (JoinCapped frags "; " 10)]) ++
  when (bool_decide (len (dp_noFree p) > 0)) ("AutoFullDrivesNoFreeDrives",
    Sprintf "%d drive-role node(s) have no free full drives and get no containers: %s"
      [ArgD (len (dp_noFree p)); ArgS (JoinCapped (dp_noFree p) "; " 10)]) ++
  when (bool_decide (len (dp_unused p) > 0)) ("AutoFullDrivesUnusedDrivesOnNode", JoinCapped (dp_unused p) "; " 10) ++
  when (bool_decide (len (dp_capped p) > 0)) ("AutoFullDrivesComputeCoresCapped",
    Sprintf "compute cores capped at the per-container maximum for %s; desired compute:drive core ratio %.2f, achieved %.2f"
      [ArgS (JoinCapped (dp_capped p) "; " 10); ArgF (if f_lt ratio (f_of_int 1) then f_of_int 1 else ratio);
       ArgF (f_div (f_of_int (dp_computeCores p)) (f_of_int (dp_driveCores p)))]).
