(* ===== verification/DaemonsetFacts.v ===== *)
(** * Theorems on act-as-daemonset *)

From S2P Require Import Prelude Float64 Fmt Types Cpu Sizing Scenarios Ports Strategies VirtualDrives.
From S2P Require Import Api Nodes Templates Inventory InventoryFacts Upgrade Apply ApplyFacts Daemonset.

(** ** The plan, node by node *)

Lemma NoDup_sort_elements (X : gset string) : NoDup (sort_strings (elements X)).
Proof. unfold sort_strings. rewrite sort_by_perm. apply NoDup_elements. Qed.

Lemma elem_of_sort_elements n (X : gset string) : n ∈ sort_strings (elements X) <-> n ∈ X.
Proof. unfold sort_strings. by rewrite elem_of_sort_by, elem_of_elements. Qed.

(** Targets chosen node by node, indexed by node. *)
Lemma index_targets_omap (f : string -> option dsContainerTarget) names n :
  (forall x t, f x = Some t -> dt_node t = x) -> NoDup names -> (n ∉ names -> f n = None) ->
  index_targets (omap f names) !! n = f n.
Proof.
  intros Hf. unfold index_targets. induction names as [|x names IH]; intros Hnd Hout.
  - rewrite Hout by set_solver. done.
  - apply NoDup_cons in Hnd as [Hx Hnd]. cbn.
    assert (Hrec : n <> x -> (list_to_map ((fun t => (dt_node t, t)) <$> omap f names) : gmap string _) !! n = f n).
    { intros Hne. destruct (decide (n ∈ names)) as [Hin|Hin]; [apply IH; [done | intros; done] |].
      rewrite Hout by set_solver. apply not_elem_of_list_to_map_1.
      intros (? & -> & (t & -> & (y & Hy & Hft)%list_elem_of_omap)%list_elem_of_fmap)%list_elem_of_fmap.
      cbn in Hin. apply Hf in Hft. congruence. }
    destruct (f x) as [t|] eqn:Hft; cbn.
    + rewrite (Hf _ _ Hft). destruct (decide (n = x)) as [->|Hne].
      * by rewrite lookup_insert_eq, Hft.
      * rewrite lookup_insert_ne by done. by apply Hrec.
    + destruct (decide (n = x)) as [->|Hne]; [| by apply Hrec].
      rewrite Hft. apply not_elem_of_list_to_map_1.
      intros (? & -> & (t & -> & (y & Hy & Hft')%list_elem_of_omap)%list_elem_of_fmap)%list_elem_of_fmap.
      cbn in Hx. apply Hf in Hft'. congruence.
Qed.

Section plan.
Context (i : daemonsetInput).

Lemma elem_of_ds_names name :
  name ∈ ds_names i <-> is_Some (di_nodes i !! name) \/ is_Some (live_drive i name) \/ is_Some (live_cores i name).
Proof.
  unfold ds_names, live_drive, live_cores. rewrite elem_of_sort_elements, !elem_of_union, !elem_of_dom, fmap_is_Some. tauto.
Qed.

Lemma NoDup_ds_names : NoDup (ds_names i).
Proof. apply NoDup_sort_elements. Qed.

Lemma outside_ds_names name :
  name ∉ ds_names i -> node_of i name = zero_dsNode /\ live_drive i name = None /\ live_cores i name = None.
Proof.
  rewrite elem_of_ds_names. intros Hn. unfold node_of.
  destruct (di_nodes i !! name) eqn:?; [destruct Hn; eauto |].
  destruct (live_drive i name); [destruct Hn; eauto |]. destruct (live_cores i name); [destruct Hn; eauto | done].
Qed.

Lemma drive_step_fst name :
  (drive_step i name).1 = match drive_skip i name with Some _ => None | None => Some (drive_size i name) end.
Proof. unfold drive_step. by destruct (drive_skip i name). Qed.

(** The drive target of a node. *)
Lemma driveT_lookup name : index_targets (drive_targets i) !! name = (drive_step i name).1.
Proof.
  apply (index_targets_omap (fun name => (drive_step i name).1)); [| apply NoDup_ds_names |].
  - intros x t. rewrite drive_step_fst. destruct (drive_skip i x); [done | by intros [= <-]].
  - intros (Hn & Hd & _)%outside_ds_names. rewrite drive_step_fst. unfold drive_skip. rewrite Hd, Hn.
    by destruct (decide _).
Qed.

Definition only_targets : list dsContainerTarget :=
  if decide (len (only_names i) > 0) then
    (compute_only i (sumZ (dt_cores <$> drive_targets i)) (sumZ (dt_tlcGiB <$> drive_targets i))
       (sumZ ((fun p => dt_cores p.1) <$> paired_targets i)) (sumZ (paired_targets i).*2) (only_names i)).1
  else [].

(** The target of a compute-only node. *)
Definition only_cores : Z :=
  let m := len (only_names i) in
  let rem := RequiredComputeCores (sumZ (dt_cores <$> drive_targets i)) 0 true (Some (di_cons i)) -
             sumZ ((fun p => dt_cores p.1) <$> paired_targets i) in
  if decide (di_computeCoresPin i = 0) then capAt (di_cons i) (Z.max ((rem + m - 1) `quot` m) 1) else di_computeCoresPin i.

Definition only_target (name : string) : dsContainerTarget :=
  let c := match live_cores i name with Some ex => Z.max ex only_cores | None => only_cores end in
  {| dt_node := name; dt_mode := WekaContainerModeCompute; dt_paired := false; dt_numDrives := 0;
     dt_drivesFollowFree := false; dt_cores := c; dt_tlcGiB := 0;
     dt_computeHugepagesMiB :=
       ComputeContainerHugepagesMiB
         (Z.max (sumZ (dt_tlcGiB <$> drive_targets i) - sumZ (paired_targets i).*2) 0) 0 (len (only_names i)) c (di_cons i) |}.

Lemma only_targets_eq : only_targets = only_target <$> only_names i.
Proof.
  unfold only_targets. destruct (decide _) as [|Hn].
  - unfold compute_only. cbn -[Z.of_nat]. apply list_fmap_ext. intros k name _. unfold only_target, only_cores.
    destruct (decide (di_computeCoresPin i = 0)); done.
  - by destruct (only_names i) eqn:E; [| cbn in Hn; lia].
Qed.

Definition step_of (name : string) : compute_step_result := (compute_step i (index_targets (drive_targets i)) name).1.

(** The compute target of a node. *)
Definition compute_of (name : string) : option dsContainerTarget :=
  match step_of name with
  | NoCompute => None
  | ComputeOnly => Some (only_target name)
  | Paired t _ => Some t
  end.

Lemma step_of_eq name :
  step_of name =
  match compute_skip i (index_targets (drive_targets i)) name with
  | Some _ => NoCompute
  | None =>
      match (drive_step i name).1 with
      | None => ComputeOnly
      | Some d =>
          let cores := paired_cores i name d in
          Paired {| dt_node := name; dt_mode := WekaContainerModeCompute; dt_paired := true; dt_numDrives := 0;
                    dt_drivesFollowFree := false; dt_cores := cores; dt_tlcGiB := 0;
                    dt_computeHugepagesMiB := ComputeContainerHugepagesMiB (dt_tlcGiB d) 0 1 cores (di_cons i) |}
                 (dt_tlcGiB d)
      end
  end.
Proof.
  unfold step_of, compute_step. rewrite driveT_lookup.
  destruct (compute_skip _ _ _); [done |]. by destruct ((drive_step i name).1).
Qed.

Lemma step_of_outside name : name ∉ ds_names i -> step_of name = NoCompute.
Proof.
  intros (Hn & Hd & Hc)%outside_ds_names. rewrite step_of_eq. unfold compute_skip. rewrite Hc, Hn.
  by destruct (decide _).
Qed.

Lemma compute_of_node name t : compute_of name = Some t -> dt_node t = name /\ dt_mode t = WekaContainerModeCompute.
Proof.
  unfold compute_of. rewrite step_of_eq. destruct (compute_skip _ _ _); [done |].
  destruct ((drive_step i name).1); by intros [= <-].
Qed.

Lemma computeT_lookup name : index_targets ((paired_targets i).*1 ++ only_targets) !! name = compute_of name.
Proof.
  rewrite only_targets_eq. unfold index_targets. rewrite fmap_app, list_to_map_app.
  pose (fp := fun name => fst <$> paired_of (step_of name)).
  pose (fo := fun name => if is_only (step_of name) then Some (only_target name) else None).
  assert (Hp : (paired_targets i).*1 = omap fp (ds_names i)) by apply fmap_omap.
  assert (Ho : only_target <$> only_names i = omap fo (ds_names i)).
  { unfold only_names, fo, step_of. apply fmap_filter_omap. }
  assert (Lp : forall x, index_targets (omap fp (ds_names i)) !! x = fp x).
  { intros x. apply index_targets_omap; [| apply NoDup_ds_names |].
    - intros y t. unfold fp. rewrite step_of_eq. destruct (compute_skip _ _ _); [done |].
      destruct ((drive_step i y).1); by intros [= <-].
    - intros Hx. unfold fp. by rewrite step_of_outside. }
  assert (Lo : forall x, index_targets (omap fo (ds_names i)) !! x = fo x).
  { intros x. apply index_targets_omap; [| apply NoDup_ds_names |].
    - intros y t. unfold fo. destruct (is_only _); [by intros [= <-] | done].
    - intros Hx. unfold fo. by rewrite step_of_outside. }
  rewrite Hp, Ho. unfold index_targets in Lp, Lo. rewrite lookup_union, Lp, Lo.
  unfold fp, fo, compute_of. by destruct (step_of name).
Qed.

Lemma foldl_add_note notes p :
  dp_targets (foldl add_note p notes) = dp_targets p /\ dp_driveCores (foldl add_note p notes) = dp_driveCores p /\
  dp_computeCores (foldl add_note p notes) = dp_computeCores p.
Proof. revert p. induction notes as [|n notes IH]; intros p; [done |]. cbn. destruct (IH (add_note p n)) as (-> & -> & ->). by destruct n. Qed.

(** The drive target of a node, with its pairing. *)
Definition drive_of (name : string) : option dsContainerTarget :=
  set_paired (bool_decide (is_Some (compute_of name))) <$> (drive_step i name).1.

Definition s3_of (name : string) : option dsContainerTarget := (s3_step i name).1.1.

Lemma planDaemonset_targets_eq :
  dp_targets (planDaemonset i) =
  omap drive_of (ds_names i) ++ omap compute_of (ds_names i) ++ (if di_s3 i then omap s3_of (s3_names i) else []).
Proof.
  assert (Hd : (fun t => set_paired (bool_decide (is_Some (index_targets ((paired_targets i).*1 ++ only_targets) !! dt_node t))) t)
                 <$> drive_targets i = omap drive_of (ds_names i)).
  { unfold drive_targets. rewrite fmap_omap. apply omap_ext_in. intros name _. unfold drive_of. rewrite drive_step_fst.
    destruct (drive_skip i name); [done |]. cbn. by rewrite computeT_lookup. }
  assert (Hc : omap (fun name => index_targets ((paired_targets i).*1 ++ only_targets) !! name) (ds_names i) =
               omap compute_of (ds_names i)) by (apply omap_ext_in; intros; apply computeT_lookup).
  unfold planDaemonset. fold only_targets in *. unfold only_targets in Hd, Hc.
  destruct (decide (len (only_names i) > 0)); [destruct (compute_only _ _ _ _ _ _) as [onlyTs onlyNotes] |];
    (destruct (di_s3 i); [unfold planDaemonsetS3; cbn [dp_targets] |]);
    rewrite ?(proj1 (foldl_add_note _ _)); cbn [dp_targets]; cbn [fst] in *; rewrite Hd, Hc;
    rewrite ?app_nil_r, <- ?app_assoc; try done; rewrite omap_fmap; done.
Qed.
End plan.

(** ** Where the targets are *)

(** The node selector of the target's mode matches the node. *)
Definition has_role (n : dsNode) (m : string) : bool :=
  if decide (m = WekaContainerModeDrive) then dn_driveRole n
  else if decide (m = WekaContainerModeCompute) then dn_computeRole n else dn_s3Role n.

(** What a target says of a container that exists, and of one that is to be created. *)
Definition target_ok (i : daemonsetInput) (t : dsContainerTarget) : Prop :=
  match live_of i (dt_mode t) !! dt_node t with
  | Some c =>
      dt_mode t <> WekaContainerModeS3 /\ cs_NumCores (cn_Spec c) <= dt_cores t /\
      (dt_mode t = WekaContainerModeDrive -> dt_drivesFollowFree t = false -> cs_NumDrives (cn_Spec c) <= dt_numDrives t)
  | None =>
      let n := node_of i (dt_node t) in
      (dt_node t ∉ deleting_of i (dt_mode t)) /\ dn_ineligible n = "" /\ has_role n (dt_mode t) = true /\
      (dt_mode t = WekaContainerModeDrive -> dn_drivesGiB n <> [] /\ dt_numDrives t <> 0)
  end.

Section targets.
Context (i : daemonsetInput).

Lemma drive_of_Some name t :
  drive_of i name = Some t ->
  drive_skip i name = None /\ t = set_paired (bool_decide (is_Some (compute_of i name))) (drive_size i name).
Proof. unfold drive_of. rewrite drive_step_fst. destruct (drive_skip i name); [done |]. by intros [= <-]. Qed.

(** A node without a container that is not skipped. *)
Lemma drive_skip_new name :
  live_drive i name = None ->
  drive_skip i name = None <->
  (name ∉ deleting_of i WekaContainerModeDrive) /\ dn_driveRole (node_of i name) = true /\
  dn_drivesGiB (node_of i name) <> [] /\ dn_ineligible (node_of i name) = "" /\ drive_count i name <> 0.
Proof.
  intros Hl. unfold drive_skip. rewrite Hl.
  destruct (decide (name ∈ deleting_of _ _)); [naive_solver |].
  destruct (dn_driveRole _); [| naive_solver]. cbn.
  destruct (decide (len _ = 0)) as [E|E]; [split; [done |]; intros (_ & _ & E' & _); destruct (dn_drivesGiB _); [done | cbn in E; lia] |].
  destruct (decide (dn_ineligible _ <> "")) as [E2|E2%dec_stable]; [naive_solver |].
  destruct (decide (drive_count i name = 0)); [naive_solver |].
  split; [intros _; split_and!; try done; intros E'; by rewrite E' in E | done].
Qed.

Lemma drive_of_ok name t : drive_of i name = Some t -> target_ok i t.
Proof.
  intros [Hs ->]%drive_of_Some. unfold target_ok. cbn. fold (live_drive i name).
  destruct (live_drive i name) as [c|] eqn:Hl.
  - split_and!; [done | lia |]. intros _ Hf. unfold drive_count. rewrite Hl, Hf. lia.
  - apply drive_skip_new in Hs as (? & ? & ? & ? & ?); done.
Qed.

(** The target of a compute container has at least the cores the container has. *)
Lemma compute_of_ok name t : compute_of i name = Some t -> target_ok i t.
Proof.
  intros Ht. pose proof (compute_of_node _ _ _ Ht) as [Hn Hm]. unfold target_ok. rewrite Hn, Hm. cbn.
  unfold compute_of in Ht. rewrite step_of_eq in Ht.
  destruct (compute_skip i _ name) as [|] eqn:Hs; [done |]. unfold compute_skip, live_cores in Hs.
  destruct (live_of i WekaContainerModeCompute !! name) as [c|] eqn:Hl.
  - split_and!; [done | | done]. destruct ((drive_step i name).1); injection Ht as <-; cbn;
      unfold paired_cores, live_cores; rewrite Hl; cbn; lia.
  - cbn in Hs. destruct (decide (name ∈ _)); [done |]. destruct (dn_computeRole _) eqn:Hr; [| done]. cbn in Hs.
    destruct (decide (dn_ineligible _ <> "")) as [|E%dec_stable]; [done |]. by split_and!.
Qed.

Lemma s3_of_ok name t : name ∈ s3_names i -> s3_of i name = Some t -> target_ok i t.
Proof.
  unfold s3_of, s3_step, s3_names. rewrite elem_of_sort_elements, elem_of_union, !elem_of_dom. intros Hin Ht.
  repeat case_decide; simplify_eq/=. unfold target_ok. cbn.
  rewrite H. split_and!; [done | done | | done].
  destruct Hin as [[n (Hn & Hr)%map_lookup_filter_Some]|[c Hc]]; [| congruence]. unfold node_of. by rewrite Hn.
Qed.

Lemma s3_of_node name t : s3_of i name = Some t -> dt_node t = name /\ dt_mode t = WekaContainerModeS3.
Proof. unfold s3_of, s3_step. repeat case_decide; by intros [= <-]. Qed.

Lemma drive_of_node name t : drive_of i name = Some t -> dt_node t = name /\ dt_mode t = WekaContainerModeDrive.
Proof. by intros [_ ->]%drive_of_Some. Qed.

(** Membership in the plan. *)
Lemma elem_of_targets t :
  t ∈ dp_targets (planDaemonset i) <->
  (drive_of i (dt_node t) = Some t) \/ (compute_of i (dt_node t) = Some t) \/
  (di_s3 i = true /\ dt_node t ∈ s3_names i /\ s3_of i (dt_node t) = Some t).
Proof.
  rewrite planDaemonset_targets_eq, !elem_of_app, !list_elem_of_omap.
  assert (Hd : forall x, drive_of i x <> None -> x ∈ ds_names i).
  { intros x Hx. destruct (decide (x ∈ ds_names i)) as [|(Hn & Hl & _)%outside_ds_names]; [done |].
    destruct Hx. unfold drive_of. rewrite drive_step_fst. unfold drive_skip. rewrite Hl, Hn. by destruct (decide _). }
  assert (Hc : forall x, compute_of i x <> None -> x ∈ ds_names i).
  { intros x Hx. destruct (decide (x ∈ ds_names i)) as [|Hn]; [done |]. destruct Hx. unfold compute_of.
    by rewrite step_of_outside. }
  split.
  - intros [(x & _ & Ht)|[(x & _ & Ht)|Ht]].
    + left. pose proof (drive_of_node _ _ Ht) as [-> _]. done.
    + right; left. pose proof (compute_of_node _ _ _ Ht) as [-> _]. done.
    + right; right. destruct (di_s3 i); [| by apply not_elem_of_nil in Ht].
      apply list_elem_of_omap in Ht as (x & Hx & Ht). pose proof (s3_of_node _ _ Ht) as [-> _]. done.
  - intros [Ht|[Ht|(Hs & Hx & Ht)]].
    + left. exists (dt_node t). split; [apply Hd; congruence | done].
    + right; left. exists (dt_node t). split; [apply Hc; congruence | done].
    + right; right. rewrite Hs. apply list_elem_of_omap. eauto.
Qed.

Lemma NoDup_omap_node (f : string -> option dsContainerTarget) m names :
  (forall x t, f x = Some t -> dt_node t = x /\ dt_mode t = m) -> NoDup names ->
  NoDup ((fun t => (dt_mode t, dt_node t)) <$> omap f names).
Proof.
  intros Hf. induction 1 as [|x names Hx _ IH]; [constructor |]. cbn. destruct (f x) as [t|] eqn:Ht; [| done].
  cbn. constructor; [| done]. intros (t' & Heq & (y & Hy & Ht')%list_elem_of_omap)%list_elem_of_fmap.
  apply Hf in Ht as [??], Ht' as [??]. congruence.
Qed.

Lemma targets_NoDup : NoDup ((fun t => (dt_mode t, dt_node t)) <$> dp_targets (planDaemonset i)).
Proof.
  rewrite planDaemonset_targets_eq, !fmap_app, !NoDup_app.
  assert (Hm : forall (f : string -> option dsContainerTarget) m (names : list string) (x : string * string), (forall x t, f x = Some t -> dt_node t = x /\ dt_mode t = m) ->
            x ∈ (fun t => (dt_mode t, dt_node t)) <$> omap f names -> x.1 = m).
  { intros f m names x Hf (t & -> & (y & _ & Ht)%list_elem_of_omap)%list_elem_of_fmap. by apply Hf in Ht as [_ ->]. }
  assert (Hs : forall x : string * string, x ∈ (fun t => (dt_mode t, dt_node t)) <$> (if di_s3 i then omap (s3_of i) (s3_names i) else []) ->
             x.1 = WekaContainerModeS3).
  { intros x. destruct (di_s3 i); [apply (Hm _ _ _ _ s3_of_node) | by intros ?%not_elem_of_nil]. }
  split_and!.
  - apply (NoDup_omap_node _ _ _ drive_of_node), NoDup_ds_names.
  - intros x Hx. apply (Hm _ _ _ _ drive_of_node) in Hx. rewrite elem_of_app.
    intros [Hy|Hy]; [apply (Hm _ _ _ _ (compute_of_node i)) in Hy | apply Hs in Hy]; by rewrite Hx in Hy.
  - apply (NoDup_omap_node _ _ _ (compute_of_node i)), NoDup_ds_names.
  - intros x Hx Hy. apply (Hm _ _ _ _ (compute_of_node i)) in Hx. apply Hs in Hy. by rewrite Hx in Hy.
  - destruct (di_s3 i); [| constructor]. apply (NoDup_omap_node _ _ _ s3_of_node), NoDup_sort_elements.
Qed.
End targets.

(** The daemonset plan never takes anything away and never overreaches: it has at most one target per
    mode and node; a target of an existing container keeps its cores, and its number of drives unless it
    follows the free drives of the node; a target without a container is on an eligible node of its role
    where none is being deleted, with signed drives if it is a drive container; and every live drive or
    compute container has a target. *)
Theorem planDaemonset_targets i :
  NoDup ((fun t => (dt_mode t, dt_node t)) <$> dp_targets (planDaemonset i)) /\
  (forall t, t ∈ dp_targets (planDaemonset i) -> target_ok i t) /\
  (forall m name, m = WekaContainerModeDrive \/ m = WekaContainerModeCompute -> is_Some (live_of i m !! name) ->
     exists t, t ∈ dp_targets (planDaemonset i) /\ dt_mode t = m /\ dt_node t = name).
Proof.
  split_and!; [apply targets_NoDup | |].
  - intros t [Ht|[Ht|(_ & Hx & Ht)]]%elem_of_targets;
      [by eapply drive_of_ok | by eapply compute_of_ok | by eapply s3_of_ok].
  - intros m name [->| ->] [c Hc].
    + destruct (drive_of i name) as [t|] eqn:Ht.
      * pose proof (drive_of_node _ _ _ Ht) as [Hn Hm]. exists t. rewrite elem_of_targets, Hn. auto.
      * unfold drive_of in Ht. rewrite drive_step_fst in Ht. unfold drive_skip, live_drive in Ht. by rewrite Hc in Ht.
    + destruct (compute_of i name) as [t|] eqn:Ht.
      * pose proof (compute_of_node _ _ _ Ht) as [Hn Hm]. exists t. rewrite elem_of_targets, Hn. auto.
      * exfalso. unfold compute_of in Ht. rewrite step_of_eq in Ht. unfold compute_skip, live_cores in Ht.
        rewrite Hc in Ht. cbn in Ht. by destruct ((drive_step i name).1).
Qed.

(** ** The cores of the plan *)

Definition capped_of (n : ds_note) : option string := match n with Capped s => Some s | _ => None end.

Lemma foldl_add_note_capped notes p : dp_capped (foldl add_note p notes) = dp_capped p ++ omap capped_of notes.
Proof.
  revert p. induction notes as [|n notes IH]; intros p; cbn; [by rewrite app_nil_r |].
  rewrite IH. destruct n; cbn; by rewrite <- ?app_assoc.
Qed.

Section cores.
Context (i : daemonsetInput).

Lemma planDaemonset_cores_eq :
  dp_driveCores (planDaemonset i) = sumZ (dt_cores <$> drive_targets i) /\
  dp_computeCores (planDaemonset i) =
    sumZ ((fun p => dt_cores p.1) <$> paired_targets i) + sumZ (dt_cores <$> only_targets i).
Proof.
  unfold planDaemonset, only_targets.
  destruct (decide (len (only_names i) > 0)); [destruct (compute_only _ _ _ _ _ _) as [onlyTs onlyNotes] |];
    (destruct (di_s3 i); [unfold planDaemonsetS3; cbn [dp_driveCores dp_computeCores] |]);
    rewrite !(proj1 (proj2 (foldl_add_note _ _))), !(proj2 (proj2 (foldl_add_note _ _))); done.
Qed.

Lemma s3_notes_capped p : dp_capped (planDaemonsetS3 i p) = dp_capped p.
Proof.
  unfold planDaemonsetS3. cbn. rewrite foldl_add_note_capped.
  enough (omap capped_of (concat ((fun s => s.1.2) <$> (s3_step i <$> s3_names i))) = []) as ->; [apply app_nil_r |].
  induction (s3_names i) as [|x l IH]; [done |]. cbn. rewrite omap_app, IH, app_nil_r.
  unfold s3_step. by repeat case_decide.
Qed.

(** A plan that reports no cap reports none for any node. *)
Lemma uncapped_steps :
  dp_capped (planDaemonset i) = [] ->
  (forall name, name ∈ ds_names i -> omap capped_of (compute_step i (index_targets (drive_targets i)) name).2 = []) /\
  (len (only_names i) > 0 ->
   omap capped_of (compute_only i (sumZ (dt_cores <$> drive_targets i)) (sumZ (dt_tlcGiB <$> drive_targets i))
     (sumZ ((fun p => dt_cores p.1) <$> paired_targets i)) (sumZ (paired_targets i).*2) (only_names i)).2 = []).
Proof.
  assert (Hc : forall (names : list string) (f : string -> list ds_note),
             omap capped_of (concat (f <$> names)) = [] -> forall name, name ∈ names -> omap capped_of (f name) = []).
  { intros names f. induction names as [|x l IH]; [by intros _ name ?%not_elem_of_nil |]. cbn. rewrite omap_app.
    intros [Hx Hl]%app_nil. intros name [->|]%elem_of_cons; eauto. }
  unfold planDaemonset.
  destruct (decide (len (only_names i) > 0)); [destruct (compute_only _ _ _ _ _ _) as [onlyTs onlyNotes] |];
    (destruct (di_s3 i); [rewrite s3_notes_capped |]); rewrite foldl_add_note_capped, !omap_app; cbn [dp_capped];
    intros [_ [_ [Hs Ho]%app_nil]%app_nil]%app_nil; (split; [by apply Hc | done]).
Qed.

(** The cores of the compute targets are those of the paired and of the compute-only ones. *)
Lemma sum_compute_targets :
  sumZ (dt_cores <$> omap (compute_of i) (ds_names i)) =
  sumZ ((fun p => dt_cores p.1) <$> paired_targets i) + sumZ (dt_cores <$> only_targets i).
Proof.
  rewrite only_targets_eq. unfold paired_targets, only_names, compute_of, step_of.
  induction (ds_names i) as [|x l IH] in |- *; [done |]. rewrite filter_cons. cbn [omap list_omap].
  destruct (compute_step i (index_targets (drive_targets i)) x).1; cbn [paired_of is_only];
    [rewrite decide_False by done | rewrite decide_True by done | rewrite decide_False by done];
    rewrite ?fmap_cons, ?sumZ_cons, IH; cbn [fst]; lia.
Qed.

Lemma sum_drive_targets : sumZ (dt_cores <$> omap (drive_of i) (ds_names i)) = sumZ (dt_cores <$> drive_targets i).
Proof.
  unfold drive_targets. rewrite !fmap_omap. f_equal. apply omap_ext_in. intros x _. unfold drive_of.
  by destruct ((drive_step i x).1).
Qed.

(** The targets of one mode. *)
Lemma filter_mode_omap (f : string -> option dsContainerTarget) m m' names :
  (forall x t, f x = Some t -> dt_node t = x /\ dt_mode t = m') ->
  filter (fun t => dt_mode t = m) (omap f names) = if decide (m' = m) then omap f names else [].
Proof.
  intros Hf. induction names as [|x l IH]; [by destruct (decide _) |]. cbn. destruct (f x) as [t|] eqn:Ht; [| done].
  apply Hf in Ht as [_ Ht]. rewrite filter_cons, IH, Ht. by destruct (decide (m' = m)).
Qed.

Lemma filter_targets m :
  m = WekaContainerModeDrive \/ m = WekaContainerModeCompute ->
  filter (fun t => dt_mode t = m) (dp_targets (planDaemonset i)) =
  if decide (m = WekaContainerModeDrive) then omap (drive_of i) (ds_names i) else omap (compute_of i) (ds_names i).
Proof.
  intros Hm. rewrite planDaemonset_targets_eq, !filter_app.
  rewrite (filter_mode_omap _ m _ _ (drive_of_node i)), (filter_mode_omap _ m _ _ (compute_of_node i)).
  assert (filter (fun t => dt_mode t = m) (if di_s3 i then omap (s3_of i) (s3_names i) else []) = []) as ->.
  { destruct (di_s3 i); [| done]. rewrite (filter_mode_omap _ m _ _ (s3_of_node i)). by destruct Hm as [->| ->]. }
  destruct Hm as [->| ->]; cbn; by rewrite ?app_nil_r.
Qed.

Lemma capAt_le x : capAt (di_cons i) x <= x.
Proof. unfold capAt. case_decide; lia. Qed.

(** Without a report, the container paired with a drive container has the cores it wants. *)
Lemma paired_supply name d :
  di_computeCoresPin i = 0 -> dp_capped (planDaemonset i) = [] -> (drive_step i name).1 = Some d ->
  compute_skip i (index_targets (drive_targets i)) name = None -> wanted_cores i d <= paired_cores i name d.
Proof.
  intros Hp Hc Hd Hs. apply uncapped_steps in Hc as [Hc _].
  assert (Hin : name ∈ ds_names i).
  { destruct (decide (name ∈ ds_names i)) as [|Hn]; [done |]. apply step_of_outside in Hn. rewrite step_of_eq, Hs, Hd in Hn. done. }
  specialize (Hc name Hin). unfold compute_step in Hc. rewrite Hs, driveT_lookup, Hd in Hc.
  destruct (decide (di_computeCoresPin i = 0 /\ _)) as [|Hn]; [done |]. lia.
Qed.

(** Without a report, the compute-only containers make up for the rest. *)
Lemma only_supply :
  di_computeCoresPin i = 0 -> dp_capped (planDaemonset i) = [] -> len (only_names i) > 0 ->
  RequiredComputeCores (sumZ (dt_cores <$> drive_targets i)) 0 true (Some (di_cons i)) <=
  sumZ ((fun p => dt_cores p.1) <$> paired_targets i) + sumZ (dt_cores <$> only_targets i).
Proof.
  intros Hp Hc Hm. apply uncapped_steps in Hc as [_ Hc]. specialize (Hc Hm). rewrite only_targets_eq.
  unfold compute_only in Hc. rewrite !(decide_True _ _ Hp) in Hc. cbn [snd] in Hc.
  set (rem := RequiredComputeCores _ _ _ _ - _) in Hc. set (m := len (only_names i)) in *.
  set (want := Z.max ((rem + m - 1) `quot` m) 1) in *.
  case_decide as Hcap; [done |].
  assert (Hall : Forall (fun x => want <= x) (dt_cores <$> (only_target i <$> only_names i))).
  { apply Forall_fmap, Forall_forall. intros t Ht. destruct (decide (dt_cores t < want)) as [Hlt|]; [| cbn; lia].
    destruct Hcap. match goal with |- len ?l > 0 => destruct l eqn:E; [| cbn; lia] end.
    exfalso. apply (not_elem_of_nil t). rewrite <- E. apply list_elem_of_filter. split; [done |].
    erewrite list_fmap_ext; [exact Ht |]. intros k name _. unfold only_target, only_cores. by rewrite (decide_True _ _ Hp). }
  apply sumZ_ge_const in Hall. rewrite !length_fmap in Hall. fold m in Hall.
  assert (Hq : rem <= m * want).
  { destruct (decide (0 < rem)) as [Hr|]; [| nia].
    pose proof (CeilDiv_cover rem m ltac:(lia)) as Hcd. unfold CeilDiv in Hcd.
    rewrite decide_False in Hcd by lia. unfold want. nia. }
  unfold rem in Hq. lia.
Qed.
End cores.

(** Compute keeps up with the drives: when no cap is reported and the cores are not pinned, the compute
    container of a node with drives has the cores those drives require, and as soon as there is a
    compute-only node the containers of the plan together have the cores that all drives together require.
    The totals of the plan are those of its targets. *)
Theorem planDaemonset_compute i (p := planDaemonset i) (cons := Some (di_cons i)) :
  di_computeCoresPin i = 0 -> dp_capped p = [] ->
  dp_driveCores p = sumZ (dt_cores <$> filter (fun t => dt_mode t = WekaContainerModeDrive) (dp_targets p)) /\
  dp_computeCores p = sumZ (dt_cores <$> filter (fun t => dt_mode t = WekaContainerModeCompute) (dp_targets p)) /\
  (forall d c, d ∈ dp_targets p -> c ∈ dp_targets p -> dt_mode d = WekaContainerModeDrive ->
     dt_mode c = WekaContainerModeCompute -> dt_node d = dt_node c ->
     RequiredComputeCores (dt_cores d) 0 true cons <= dt_cores c) /\
  ((exists c, c ∈ dp_targets p /\ dt_mode c = WekaContainerModeCompute /\ dt_paired c = false) ->
     RequiredComputeCores (dp_driveCores p) 0 true cons <= dp_computeCores p).
Proof.
  intros Hp Hc. subst p cons. destruct (planDaemonset_cores_eq i) as [Hd Hcc].
  rewrite !filter_targets by auto. rewrite decide_True, decide_False by done. rewrite sum_drive_targets, sum_compute_targets. split_and!; [done | done | |].
  - intros d c Hid Hic Hmd Hmc Hn.
    assert (Hdd : drive_of i (dt_node d) = Some d).
    { apply elem_of_targets in Hid as [?|[H|(_ & _ & H)]]; [done | |];
        [apply compute_of_node in H as [_ H] | apply s3_of_node in H as [_ H]]; by rewrite H in Hmd. }
    assert (Hcd : compute_of i (dt_node d) = Some c).
    { rewrite Hn. apply elem_of_targets in Hic as [H|[?|(_ & _ & H)]]; [| done |];
        [apply drive_of_node in H as [_ H] | apply s3_of_node in H as [_ H]]; by rewrite H in Hmc. }
    unfold drive_of in Hdd. destruct ((drive_step i (dt_node d)).1) as [d0|] eqn:Hds; [| done].
    injection Hdd as Hdd. unfold compute_of in Hcd. rewrite step_of_eq, Hds in Hcd.
    destruct (compute_skip _ _ _) eqn:Hs; [done |]. injection Hcd as <-. cbn [dt_cores].
    pose proof (paired_supply _ _ _ Hp Hc Hds Hs) as Hsup. unfold wanted_cores in Hsup.
    assert (dt_cores d = dt_cores d0) as -> by (by rewrite <- Hdd). lia.
  - intros (c & Hic & Hmc & Hpc). rewrite Hd, Hcc. apply only_supply; [done | done |].
    assert (Hcd : compute_of i (dt_node c) = Some c).
    { apply elem_of_targets in Hic as [H|[?|(_ & _ & H)]]; [| done |];
        [apply drive_of_node in H as [_ H] | apply s3_of_node in H as [_ H]]; by rewrite H in Hmc. }
    assert (Hin : dt_node c ∈ only_names i).
    { unfold only_names. apply list_elem_of_filter. fold (step_of i (dt_node c)). unfold compute_of in Hcd.
      destruct (decide (dt_node c ∈ ds_names i)) as [Hin|Hn]; [| apply step_of_outside in Hn; by rewrite Hn in Hcd].
      split; [| done]. rewrite step_of_eq in *. destruct (compute_skip _ _ _); [done |].
      destruct ((drive_step i _).1); [| done]. injection Hcd as Hcd. by rewrite <- Hcd in Hpc. }
    destruct (only_names i); [by apply not_elem_of_nil in Hin | cbn; lia].
Qed.

(** ** The free drives of a node *)

Section claims.
Context (i : daemonsetInput) (ownKeys : gset string).

(** The containers whose drives are counted. *)
Definition counted (c : Container) : bool :=
  negb (bool_decide (GetNodeAffinity c = "")) && negb (container_UsesDriveSharing c).

(** Whether a counted container that is not the cluster's own live one holds the drive. *)
Definition held_by_others (items : list Container) (serial : string) : bool :=
  existsb (fun c => counted c && negb (is_live_here i c) && bool_decide (serial ∈ allocated_drives c)) items.

(** The same, for the cluster's own live containers. *)
Definition held_by_own (items : list Container) (serial : string) : bool :=
  existsb (fun c => counted c && is_live_here i c && bool_decide (serial ∈ allocated_drives c)) items.

Lemma claim_step_spec cl c s :
  (s ∈ cl_held (claim_step i ownKeys cl c) <->
     s ∈ cl_held cl \/ counted c && negb (is_live_here i c) && bool_decide (s ∈ allocated_drives c) = true) /\
  (s ∈ cl_own (claim_step i ownKeys cl c) <->
     s ∈ cl_own cl \/ counted c && is_live_here i c && bool_decide (s ∈ allocated_drives c) = true).
Proof.
  unfold claim_step, counted. destruct (decide (GetNodeAffinity c = "")) as [Hn|Hn];
    [rewrite (bool_decide_eq_true_2 _ Hn) | rewrite (bool_decide_eq_false_2 _ Hn)]; cbn [negb andb].
  - rewrite decide_True by auto. naive_solver.
  - destruct (container_UsesDriveSharing c) eqn:Hd; cbn [negb andb]; [rewrite decide_True by auto; naive_solver |].
    rewrite decide_False by (intros [?|?]; congruence). cbn [cl_held cl_own].
    destruct (is_live_here i c); cbn [negb andb]; rewrite ?bool_decide_eq_true, ?elem_of_union, ?elem_of_list_to_set; naive_solver.
Qed.

Lemma claims_spec items cl s :
  (s ∈ cl_held (foldl (claim_step i ownKeys) cl items) <-> s ∈ cl_held cl \/ held_by_others items s = true) /\
  (s ∈ cl_own (foldl (claim_step i ownKeys) cl items) <-> s ∈ cl_own cl \/ held_by_own items s = true).
Proof.
  revert cl. induction items as [|c items IH]; intros cl; cbn; [naive_solver |].
  destruct (IH (claim_step i ownKeys cl c)) as [-> ->]. destruct (claim_step_spec cl c s) as [-> ->].
  rewrite !orb_true_iff. tauto.
Qed.
End claims.

Lemma length_SortDriveCapacitiesDesc l : length (SortDriveCapacitiesDesc l) = length l.
Proof. apply length_sort_by. Qed.

(** The number of drives offered to the container of a node. *)
Lemma available_drives_bounds cl name entries serials :
  NoDup serials -> (forall s, s ∈ serials -> s ∈ cl_own cl /\ s ∈ de_Serial <$> entries) ->
  len serials <= len (available_drives cl name entries) /\
  len (available_drives cl name entries) <=
    len (filter (fun d => de_Serial d ∈ cl_own cl \/ de_Serial d ∉ cl_held cl) entries).
Proof.
  intros Hnd Hin. unfold available_drives.
  rewrite length_SortDriveCapacitiesDesc, length_app, length_drop, !length_fmap.
  split.
  - assert (Hsub : serials ⊆+ de_Serial <$> filter (fun d => de_Serial d ∈ cl_own cl) entries).
    { apply NoDup_submseteq; [done |]. intros s Hs. apply Hin in Hs as [Ho (d & -> & Hd)%list_elem_of_fmap].
      apply list_elem_of_fmap_2, list_elem_of_filter. done. }
    apply submseteq_length in Hsub. rewrite length_fmap in Hsub. lia.
  - assert (Hsum : (length (filter (fun d => de_Serial d ∈ cl_own cl) entries) +
                   length (filter (fun d => (de_Serial d ∉ cl_own cl) /\ de_Serial d ∉ cl_held cl) entries) =
                   length (filter (fun d => de_Serial d ∈ cl_own cl \/ de_Serial d ∉ cl_held cl) entries))%nat).
    { clear. induction entries as [|d l IH]; [done |]. rewrite !filter_cons.
      repeat case_decide; cbn; try lia; naive_solver. }
    lia.
Qed.

(** A container whose drives are all signed. *)
Lemma heldCapacities_signed c entries :
  (heldCapacities c entries).2 = false -> forall s, s ∈ allocated_drives c -> s ∈ de_Serial <$> entries.
Proof.
  unfold heldCapacities. intros Hm s Hs.
  enough (Hgen : forall serials caps, (foldl (fun '(caps, missing) serial =>
      match list_find (fun d => de_Serial d = serial) entries with
      | None => (caps, true) | Some (_, d) => (caps ++ [de_CapacityGiB d], missing) end) (caps, false) serials).2 = false ->
      s ∈ serials -> s ∈ de_Serial <$> entries) by eauto.
  assert (Hstuck : forall serials caps, (foldl (fun '(caps, missing) serial =>
      match list_find (fun d => de_Serial d = serial) entries with
      | None => (caps, true) | Some (_, d) => (caps ++ [de_CapacityGiB d], missing) end) (caps, true) serials).2 = true).
  { induction serials as [|x l IH]; intros caps; [done |]. cbn. destruct (list_find _ _) as [[??]|]; apply IH. }
  clear Hm Hs. induction serials as [|x l IH]; intros caps; cbn; [by intros _ ?%not_elem_of_nil |].
  destruct (list_find _ entries) as [[k d]|] eqn:Hf; [| by rewrite Hstuck].
  intros Hm [->|Hs]%elem_of_cons; [| by eapply IH].
  apply list_find_Some in Hf as (Hk & Hd & _). rewrite <- Hd. apply list_elem_of_fmap_2. by eapply list_elem_of_lookup_2.
Qed.

(** What [containersByMode] records as live: invariant of its loop. *)
Definition live_ok (containers : list Container) (live : gmap string (gmap string Container)) : Prop :=
  forall m n c, default ∅ (live !! m) !! n = Some c ->
    c ∈ containers /\ mode c = m /\ GetNodeAffinity c = n /\ n <> "" /\ going_away c = false.

Lemma by_mode_step_ok containers acc c : c ∈ containers -> live_ok containers acc.1 -> live_ok containers (by_mode_step acc c).1.
Proof.
  destruct acc as [live deleting]. intros Hc Hacc m n c'. unfold by_mode_step.
  destruct (decide _) as [|Hn]; [apply Hacc |]. destruct (going_away c) eqn:Hg; cbn [fst]; [apply Hacc |].
  destruct (decide (m = mode c)) as [->|]; [| rewrite lookup_insert_ne by done; apply Hacc].
  rewrite lookup_insert_eq. cbn. destruct (decide (n = GetNodeAffinity c)) as [->|];
    [| rewrite lookup_insert_ne by done; apply Hacc].
  rewrite lookup_insert_eq. intros [= <-]. tauto.
Qed.

Lemma containersByMode_live containers : live_ok containers (containersByMode containers).1.
Proof.
  unfold containersByMode.
  enough (Hgen : forall l acc, l ⊆ containers -> live_ok containers acc.1 -> live_ok containers (foldl by_mode_step acc l).1).
  { apply Hgen; [done |]. intros m n c. cbn.
    destruct (decide (m = WekaContainerModeDrive)) as [->|?]; [done |]. rewrite lookup_insert_ne by done.
    destruct (decide (m = WekaContainerModeCompute)) as [->|?]; [done |]. rewrite lookup_insert_ne by done.
    destruct (decide (m = WekaContainerModeS3)) as [->|?]; [done |]. by rewrite lookup_insert_ne. }
  induction l as [|x l IH]; intros acc Hl Hacc; [done |]. cbn [foldl].
  apply IH; [set_solver |]. apply by_mode_step_ok; [set_solver | done].
Qed.

(** The input after the free drives were listed. *)
Lemma listFreeDrives_spec containers items i0 i :
  listFreeDrives containers (Ok items) i0 = Ok i ->
  di_live i = di_live i0 /\
  forall name, dn_entries (node_of i name) = dn_entries (node_of i0 name) /\
    (dn_listed (node_of i name) = true -> dn_listed (node_of i0 name) = false ->
     exists ownKeys, dn_availGiB (node_of i name) =
       available_drives (foldl (claim_step i0 ownKeys) {| cl_held := ∅; cl_own := ∅; cl_reserved := ∅ |} items)
         name (dn_entries (node_of i0 name))).
Proof.
  unfold listFreeDrives. destruct (decide _).
  - intros [= <-]. split; [done |]. intros name. split; [done |]. congruence.
  - intros [= <-]. split; [done |]. intros name. unfold node_of. cbn. rewrite map_lookup_imap.
    destruct (di_nodes i0 !! name) as [dn|]; cbn; [| done]. destruct (free_candidate i0 name dn); cbn; [eauto | naive_solver congruence].
Qed.

Section collected.
Context (ToleratesTaint : Toleration -> Taint -> bool) (tolerations : list Toleration) (cfg : OperatorConfig).
Context (list_nodes : gmap string string -> res string (list Node)).

Lemma add_nodes_unlisted spec nodes role m :
  (forall k n, m !! k = Some n -> dn_listed n = false) ->
  forall k n, add_nodes ToleratesTaint tolerations spec nodes role m !! k = Some n -> dn_listed n = false.
Proof.
  unfold add_nodes. revert m. induction nodes as [|x nodes IH]; intros m Hm k n; cbn; [apply Hm |].
  apply IH. clear k n. intros k n. destruct (decide (k = n_Name x)) as [->|];
    [rewrite lookup_insert_eq | rewrite lookup_insert_ne by done; apply Hm].
  intros [= <-]. destruct (m !! n_Name x) as [n0|] eqn:Hx; cbn; [by eapply Hm |].
  unfold new_dsNode. by destruct (SignedFullDrives x) as [[??]?].
Qed.

(** The collected input: its live containers, and the drives of its listed nodes. *)
Lemma collect_spec spec formed containers items i :
  collectDaemonsetInput ToleratesTaint tolerations cfg list_nodes spec formed containers (Ok items) = Ok i ->
  di_live i = (containersByMode containers).1 /\
  forall name, dn_listed (node_of i name) = true ->
  exists i0 ownKeys, di_live i0 = di_live i /\ dn_entries (node_of i name) = dn_entries (node_of i0 name) /\
    dn_availGiB (node_of i name) =
      available_drives (foldl (claim_step i0 ownKeys) {| cl_held := ∅; cl_own := ∅; cl_reserved := ∅ |} items)
        name (dn_entries (node_of i name)).
Proof.
  unfold collectDaemonsetInput.
  destruct (list_role_nodes _ _ "drive") as [dn|]; [cbn [res_bind] | done].
  do 2 (match goal with |- context [res_bind ?m _] => destruct m as [?ns|] end; [cbn [res_bind] | done]).
  set (nodes := add_nodes _ _ spec _ WekaContainerModeS3 _).
  assert (Hu : forall k n, nodes !! k = Some n -> dn_listed n = false).
  { apply add_nodes_unlisted, add_nodes_unlisted, add_nodes_unlisted. by intros k n ?%lookup_empty_Some. }
  clearbody nodes. intros [Hl Hi]%listFreeDrives_spec.
  assert (Hlive : di_live (daemonset_input cfg spec formed containers nodes) = (containersByMode containers).1)
    by (unfold daemonset_input; by destruct (containersByMode containers)).
  split; [congruence |]. intros name Hn. destruct (Hi name) as [He Ha].
  destruct Ha as [ownKeys Ha]; [done | |].
  { unfold node_of, daemonset_input. destruct (containersByMode containers). cbn.
    destruct (nodes !! name) eqn:E; [by eapply Hu | done]. }
  exists (daemonset_input cfg spec formed containers nodes), ownKeys. by rewrite He.
Qed.

(** A container whose number of drives follows the free drives of its node is never asked to give up a
    drive it holds, and never asks for one that another container holds: with the drives of its own
    containers not held twice, the planned number lies between the drives it holds and the signed drives
    that no other container holds (one at least). *)
Theorem follow_free_bounds spec formed containers items i t c :
  collectDaemonsetInput ToleratesTaint tolerations cfg list_nodes spec formed containers (Ok items) = Ok i ->
  t ∈ dp_targets (planDaemonset i) -> dt_mode t = WekaContainerModeDrive -> dt_drivesFollowFree t = true ->
  live_of i WekaContainerModeDrive !! dt_node t = Some c ->
  c ∈ items -> container_UsesDriveSharing c = false -> NoDup (allocated_drives c) ->
  (forall c' s, c' ∈ items -> is_live_here i c' = true -> s ∈ allocated_drives c' -> held_by_others i items s = false) ->
  len (allocated_drives c) <= dt_numDrives t /\
  dt_numDrives t <= Z.max 1 (len (filter (fun d => held_by_others i items (de_Serial d) = false) (dn_entries (node_of i (dt_node t))))).
Proof.
  intros Hcol Ht Hm Hf Hl Hc Hsh Hnd Hdis. apply collect_spec in Hcol as [Hlive Hcol].
  set (name := dt_node t) in *.
  assert (Hd : drive_of i name = Some t).
  { apply elem_of_targets in Ht as [?|[H|(_ & _ & H)]]; [done | |];
      [apply compute_of_node in H as [_ H] | apply s3_of_node in H as [_ H]]; by rewrite H in Hm. }
  apply drive_of_Some in Hd as [_ Hd]. rewrite Hd in Hf |- *. cbn in Hf |- *.
  unfold drive_count, live_drive. rewrite Hl, Hf. unfold follow_free, held_of, live_drive in Hf. rewrite Hl in Hf.
  rewrite !andb_true_iff, negb_true_iff in Hf. destruct Hf as [[[_ Hli] _] Hmiss].
  unfold drive_pool. rewrite Hli. destruct (Hcol name Hli) as (i0 & ownKeys & Hli0 & _ & Ha). rewrite Ha.
  assert (Hhere : forall x, is_live_here i0 x = is_live_here i x) by (intros; unfold is_live_here, live_of; by rewrite Hli0).
  assert (Hho : forall s, held_by_others i0 items s = held_by_others i items s).
  { intros s. unfold held_by_others. clear -Hhere. induction items as [|x l IH]; [done |]. cbn. by rewrite Hhere, IH. }
  set (cl := foldl _ _ _) in *.
  assert (Hheld : forall s, s ∈ cl_held cl <-> held_by_others i items s = true).
  { intros s. unfold cl. rewrite (proj1 (claims_spec _ _ _ _ s)), Hho. cbn. set_solver. }
  assert (Hown : forall s, s ∈ cl_own cl <-> held_by_own i0 items s = true).
  { intros s. unfold cl. rewrite (proj2 (claims_spec _ _ _ _ s)). cbn. set_solver. }
  destruct (containersByMode_live containers WekaContainerModeDrive name c) as (_ & _ & Hna & Hne & _).
  { unfold live_of in Hl. by rewrite Hlive in Hl. }
  destruct (available_drives_bounds cl name (dn_entries (node_of i name)) (allocated_drives c) Hnd) as [Hlo Hhi].
  { intros s Hs. split; [| by eapply heldCapacities_signed]. apply Hown. unfold held_by_own. apply existsb_exists.
    exists c. split; [by apply list_elem_of_In |]. rewrite Hhere. unfold counted, is_live_here. rewrite Hna, Hsh, Hl.
    rewrite (bool_decide_eq_false_2 (name = "")), !bool_decide_eq_true_2 by done. done. }
  split; [lia |]. apply Z.max_lub; [| lia]. etrans; [exact Hhi |]. apply Z.max_le_iff. right. apply inj_le.
  apply sublist_length, filter_mono. intros d [Ho|Hh]; [| rewrite Hheld in Hh; by destruct (held_by_others _ _ _)].
  apply Hown in Ho. unfold held_by_own in Ho. apply existsb_exists in Ho as (x & Hx & Hp).
  rewrite !andb_true_iff, bool_decide_eq_true, Hhere in Hp. eapply Hdis; [by apply list_elem_of_In | tauto | tauto].
Qed.
End collected.

(** ** A pass settles *)

(** The values [floorHugepages] picks do not depend on the name or on the current values. *)
Lemma floorHugepages_values n n' p a x x' y y' ph po :
  (floorHugepages n p a x y ph po).1 = (floorHugepages n' p a x' y' ph po).1.
Proof. unfold floorHugepages, floor_pin. destruct ph, po; cbn; repeat case_decide; done. Qed.

(** The hugepages a pin yields are never below the automatic ones. *)
Lemma floorHugepages_ge_auto n p a x y ph po :
  hp_Hugepages a <= (floorHugepages n p a x y ph po).1.1 /\ hp_HugepagesOffset a <= (floorHugepages n p a x y ph po).1.2.
Proof. unfold floorHugepages, floor_pin. destruct ph, po; cbn; repeat case_decide; cbn; lia. Qed.

Definition set_follow (b : bool) (t : dsContainerTarget) : dsContainerTarget := {|
  dt_node := dt_node t; dt_mode := dt_mode t; dt_paired := dt_paired t; dt_numDrives := dt_numDrives t;
  dt_drivesFollowFree := b; dt_cores := dt_cores t; dt_tlcGiB := dt_tlcGiB t;
  dt_computeHugepagesMiB := dt_computeHugepagesMiB t |}.

Section settle.
Context (spec : ClusterSpec) (meta : cluster_meta) (wekahome : option string).
Context (get_node : string -> res string Node) (capacityGiB : WekaClusterTemplate -> res string Z) (cfg : OperatorConfig).
Context (guid : dsContainerTarget -> string).

(** The hugepages a target asks for. *)
Definition target_hugepages (i : daemonsetInput) (t : dsContainerTarget) : Z * Z :=
  (floorHugepages "" (plan_hugepages spec t (dt_cores t) (dt_numDrives t))
     (autoHugepagesFor spec t (dt_cores t) (dt_numDrives t)) 0 0
     (pinned_at (di_hugepagesPin i) (dt_mode t)) (pinned_at (di_hugepagesOffsetPin i) (dt_mode t))).1.

(** A container that has the sizing of its target. *)
Definition at_target (i : daemonsetInput) (t : dsContainerTarget) (c : Container) : Prop :=
  cs_NumCores (cn_Spec c) = dt_cores t /\
  (dt_mode t = WekaContainerModeDrive -> cs_NumDrives (cn_Spec c) = dt_numDrives t) /\
  Z.max (cs_NumDrives (cn_Spec c)) (dt_numDrives t) = cs_NumDrives (cn_Spec c) /\
  (cs_Hugepages (cn_Spec c), cs_HugepagesOffset (cn_Spec c)) = target_hugepages i t.

(** [raise_mutate] of a target, with the pins of its mode. *)
Definition raise_target (i : daemonsetInput) (t : dsContainerTarget) (c : Container) : option Container :=
  raise_mutate spec t (pinned_at (di_hugepagesPin i) (dt_mode t)) (pinned_at (di_hugepagesOffsetPin i) (dt_mode t))
    (cn_Name c) c.

(** Hugepages do not depend on the drives for a compute target. *)
Lemma plan_hugepages_drives s t cores d d' :
  dt_mode t <> WekaContainerModeDrive -> plan_hugepages s t cores d = plan_hugepages s t cores d'.
Proof. intros Hm. unfold plan_hugepages. by rewrite !decide_False. Qed.

(** The hugepages of a target at its cores, for a number of drives that is that of the target unless it is
    not a drive container. *)
Lemma target_hugepages_at i t n drives x y :
  (dt_mode t = WekaContainerModeDrive -> drives = dt_numDrives t) ->
  (floorHugepages n (plan_hugepages spec t (dt_cores t) drives) (autoHugepagesFor spec t (dt_cores t) drives) x y
     (pinned_at (di_hugepagesPin i) (dt_mode t)) (pinned_at (di_hugepagesOffsetPin i) (dt_mode t))).1 =
  target_hugepages i t.
Proof.
  intros Hd. unfold target_hugepages. rewrite (floorHugepages_values n "" _ _ x 0 y 0).
  destruct (decide (dt_mode t = WekaContainerModeDrive)) as [Hm|Hm]; [by rewrite Hd |].
  unfold autoHugepagesFor. by rewrite !(plan_hugepages_drives _ _ _ drives (dt_numDrives t)).
Qed.

(** The sizing computed for a container below its target. *)
Definition raisable (t : dsContainerTarget) (c : Container) : Prop :=
  cs_NumCores (cn_Spec c) <= dt_cores t /\
  (dt_mode t = WekaContainerModeDrive -> dt_drivesFollowFree t = false -> cs_NumDrives (cn_Spec c) <= dt_numDrives t) /\
  (dt_mode t <> WekaContainerModeDrive ->
     dt_drivesFollowFree t = false /\ dt_numDrives t = 0 /\ 0 <= cs_NumDrives (cn_Spec c)).

Lemma raise_sizing_at i t name c :
  raisable t c ->
  exists drives below,
    raise_sizing spec t (pinned_at (di_hugepagesPin i) (dt_mode t)) (pinned_at (di_hugepagesOffsetPin i) (dt_mode t)) name c =
      (dt_cores t, drives, (target_hugepages i t, below)) /\
    (dt_mode t = WekaContainerModeDrive -> drives = dt_numDrives t) /\
    (dt_mode t <> WekaContainerModeDrive -> drives = cs_NumDrives (cn_Spec c)).
Proof.
  intros (Hc & Hd & Hn). unfold raise_sizing. rewrite Z.max_r by done.
  set (drives := if dt_drivesFollowFree t then _ else _).
  assert (H1 : dt_mode t = WekaContainerModeDrive -> drives = dt_numDrives t)
    by (intros Hm; unfold drives; destruct (dt_drivesFollowFree t) eqn:E; [done |]; specialize (Hd Hm eq_refl); lia).
  assert (H2 : dt_mode t <> WekaContainerModeDrive -> drives = cs_NumDrives (cn_Spec c))
    by (intros (E & E' & ?)%Hn; unfold drives; rewrite E, E'; lia).
  clearbody drives.
  pose proof (target_hugepages_at i t name drives (cs_Hugepages (cn_Spec c)) (cs_HugepagesOffset (cn_Spec c)) H1) as Hv.
  destruct (floorHugepages _ _ _ _ _ _ _) as [v below]. cbn in Hv. subst v. by exists drives, below.
Qed.

(** Raising a container brings it to its target. *)
Lemma raise_settles i t c c' :
  raisable t c -> raise_target i t c = Some c' \/ (raise_target i t c = None /\ c' = c) ->
  at_target i t c' /\ cn_Status c' = cn_Status c.
Proof.
  intros Hr Hc'. pose proof Hr as (Hc & Hd & Hn). destruct (raise_sizing_at i t (cn_Name c) c Hr) as (drives & below & Hs & Hdd & Hnd).
  unfold raise_target, raise_mutate in Hc'. rewrite Hs in Hc'. destruct (target_hugepages i t) as [h o] eqn:Hh.
  unfold at_target. rewrite Hh.
  assert (Hmax : forall x, (dt_mode t = WekaContainerModeDrive -> x = dt_numDrives t) ->
            (dt_mode t <> WekaContainerModeDrive -> x = cs_NumDrives (cn_Spec c)) -> Z.max x (dt_numDrives t) = x).
  { intros x H1 H2. destruct (decide (dt_mode t = WekaContainerModeDrive)) as [Hm|Hm]; [rewrite H1 by done; lia |].
    rewrite H2 by done. destruct (Hn Hm) as (_ & -> & ?). lia. }
  destruct (decide _) as [(E1 & E2 & E3 & E4)|].
  - destruct Hc' as [?|[_ ->]]; [done |]. split; [| done]. split_and!; [done | intros Hm; rewrite <- E2; by apply Hdd | | by rewrite E3, E4].
    apply Hmax; [intros Hm; rewrite <- E2; by apply Hdd | done].
  - destruct Hc' as [[= <-]|[? _]]; [| done]. split; [| done]. cbn.
    split_and!; [done | intros Hm; rewrite decide_True by done; by apply Hdd | | done].
    apply Hmax; [intros Hm; rewrite decide_True by done; by apply Hdd | intros Hm; by rewrite decide_False].
Qed.

(** A container at its target has nothing to raise, whatever the target says of free drives. *)
Lemma at_target_idle i t b c :
  at_target i t c -> (b = true -> dt_mode t = WekaContainerModeDrive) -> raise_target i (set_follow b t) c = None.
Proof.
  intros (Hc & Hd & Hmax & Hh) Hb. unfold raise_target, raise_mutate.
  destruct (raise_sizing spec (set_follow b t) _ _ _ _) as [[cores drives] [[h o] below]] eqn:Hs.
  unfold raise_sizing in Hs. cbn in Hs. injection Hs as H1 H2 H3.
  assert (cores = dt_cores t) as -> by lia.
  assert (Hdr : drives = cs_NumDrives (cn_Spec c)).
  { subst drives. destruct b; [rewrite Hd by auto; done | done]. }
  rewrite H1, H2 in H3. change (plan_hugepages spec (set_follow b t)) with (plan_hugepages spec t) in H3.
  change (autoHugepagesFor spec (set_follow b t)) with (autoHugepagesFor spec t) in H3.
  apply (f_equal fst) in H3. rewrite target_hugepages_at in H3 by (intros; rewrite Hdr; auto).
  rewrite <- Hh in H3. injection H3 as -> ->. by rewrite decide_True.
Qed.

(** A container built for a target is pinned to its node. *)
Lemma build_target_place i containers base count t c :
  build_target spec meta wekahome get_node capacityGiB cfg guid i containers base count t = Ok c ->
  allocated_drives c = [] /\ mode c = dt_mode t /\ GetNodeAffinity c = dt_node t /\ going_away c = false.
Proof.
  unfold build_target.
  match goal with |- context [if ?b then ?x else ?y] => destruct (if b then x else y) as [hp|]; [| done] end.
  unfold NewWekaContainerForWekaCluster. destruct (role_sizing _ _) as [[nc ec] [[nd dc] cc]].
  destruct wekahome; [done |]. intros [= <-]. split_and!; unfold GetNodeAffinity; cbn; try done.
  by destruct (decide (dt_node t = "")) as [->|]; [| rewrite decide_True].
Qed.

(** A container built for a target is at it. *)
Lemma build_settles i containers base count t c :
  dt_mode t = WekaContainerModeDrive \/ (dt_mode t = WekaContainerModeCompute /\ dt_numDrives t = 0) ->
  build_target spec meta wekahome get_node capacityGiB cfg guid i containers base count t = Ok c ->
  at_target i t c.
Proof.
  intros Hm. unfold build_target. rewrite decide_True by tauto.
  pose proof (target_hugepages_at i t (Sprintf "new %s on %s" [ArgS (dt_mode t); ArgS (dt_node t)]) (dt_numDrives t) 0 0 (fun _ => eq_refl)) as Hv.
  destruct (floorHugepages _ _ _ _ _ _ _) as [[h o] below]. cbn in Hv.
  unfold NewWekaContainerForWekaCluster. destruct (role_sizing _ _) as [[nc ec] [[nd dc] cc]] eqn:Hr.
  destruct wekahome; [done |]. intros [= <-]. unfold at_target. rewrite <- Hv. cbn.
  destruct Hm as [Hm|[Hm Hn]]; rewrite Hm in Hr |- *; cbn in Hr |- *; injection Hr as <- <- <- <- <-;
    split_and!; cbn; by rewrite ?Hn, ?Z.max_id.
Qed.
End settle.

(** The target of a mode on a node. *)
Definition target_at (i : daemonsetInput) (m name : string) : option dsContainerTarget :=
  if decide (m = WekaContainerModeDrive) then drive_of i name
  else if decide (m = WekaContainerModeCompute) then compute_of i name
  else if di_s3 i && bool_decide (name ∈ s3_names i) then s3_of i name else None.

Section settled.
Context (spec : ClusterSpec) (meta : cluster_meta) (wekahome : option string).
Context (get_node : string -> res string Node) (capacityGiB : WekaClusterTemplate -> res string Z) (cfg : OperatorConfig).
Context (guid : dsContainerTarget -> string).

(** [i'] is what the next pass finds after a pass over [i] in which every target succeeded: the same nodes
    and settings, existing containers raised to their targets, and missing ones built. *)
Record settled (i i' : daemonsetInput) : Prop := {
  st_nodes : di_nodes i' = di_nodes i;
  st_deleting : di_deleting i' = di_deleting i;
  st_pins : di_numDrivesPin i' = di_numDrivesPin i /\ di_driveCoresPin i' = di_driveCoresPin i /\
            di_computeCoresPin i' = di_computeCoresPin i;
  st_hugepages : di_hugepagesPin i' = di_hugepagesPin i /\ di_hugepagesOffsetPin i' = di_hugepagesOffsetPin i;
  st_cons : di_cons i' = di_cons i;
  st_s3 : di_s3 i' = di_s3 i;
  st_live : forall m name, m ∈ daemonsetModes ->
    match target_at i m name with
    | None => live_of i' m !! name = live_of i m !! name
    | Some t => exists c', live_of i' m !! name = Some c' /\
        match live_of i m !! name with
        | Some c => raise_target spec i t c = Some c' \/ (raise_target spec i t c = None /\ c' = c)
        | None => exists containers base count,
            build_target spec meta wekahome get_node capacityGiB cfg guid i containers base count t = Ok c'
        end
    end }.

Context (i i' : daemonsetInput) (Hst : settled i i').
Context (Hcn : forall name c, live_of i WekaContainerModeCompute !! name = Some c -> 0 <= cs_NumDrives (cn_Spec c)).

Lemma st_node name : node_of i' name = node_of i name.
Proof. unfold node_of. by rewrite (st_nodes _ _ Hst). Qed.

Lemma st_del m : deleting_of i' m = deleting_of i m.
Proof. unfold deleting_of. by rewrite (st_deleting _ _ Hst). Qed.

Lemma st_pool name : drive_pool i' name = drive_pool i name.
Proof. unfold drive_pool. by rewrite st_node. Qed.

(** The live drive containers of the next pass. *)
Lemma st_drive name :
  match drive_skip i name with
  | Some _ => live_drive i' name = None
  | None => exists c', live_drive i' name = Some c' /\ at_target spec i (drive_size i name) c' /\
      allocated_drives c' = match live_drive i name with Some c => allocated_drives c | None => [] end
  end.
Proof.
  pose proof (st_live _ _ Hst WekaContainerModeDrive name ltac:(set_solver)) as Hl. unfold target_at in Hl.
  rewrite decide_True in Hl by done. destruct (drive_of i name) as [t|] eqn:Ht.
  - apply drive_of_Some in Ht as Heq. destruct Heq as [Hs Heq]. rewrite Hs.
    pose proof (drive_of_ok _ _ _ Ht) as Hok. pose proof (drive_of_node _ _ _ Ht) as [Hn Hm].
    destruct Hl as (c' & Hc' & Hl). exists c'. split; [done |].
    unfold target_ok in Hok. rewrite Hn, Hm in Hok. fold (live_drive i name) in *.
    assert (Hat : forall x, at_target spec i t x -> at_target spec i (drive_size i name) x) by (intros x; by subst t).
    destruct (live_drive i name) as [c|].
    + destruct Hok as (_ & Hcores & Hdr). apply raise_settles in Hl as [Hat' Hstat].
      * split; [by apply Hat |]. unfold allocated_drives. by rewrite Hstat.
      * split_and!; [done | auto | intros Hne; by rewrite Hm in Hne].
    + destruct Hl as (cs & base & count & Hb). apply build_target_place in Hb as Hp.
      apply build_settles in Hb; [| by left]. split; [by apply Hat | apply Hp].
  - unfold drive_of in Ht. rewrite drive_step_fst in Ht. destruct (drive_skip i name) eqn:Hs; [| done].
    fold (live_drive i' name) (live_drive i name) in Hl. rewrite Hl. unfold drive_skip in Hs. by destruct (live_drive i name).
Qed.

(** The live compute containers of the next pass. *)
Lemma st_compute name :
  match compute_of i name with
  | None => live_of i' WekaContainerModeCompute !! name = None
  | Some t => exists c', live_of i' WekaContainerModeCompute !! name = Some c' /\ at_target spec i t c'
  end.
Proof.
  pose proof (st_live _ _ Hst WekaContainerModeCompute name ltac:(set_solver)) as Hl. unfold target_at in Hl.
  rewrite decide_False, decide_True in Hl by done. destruct (compute_of i name) as [t|] eqn:Ht.
  - pose proof (compute_of_ok _ _ _ Ht) as Hok. pose proof (compute_of_node _ _ _ Ht) as [Hn Hm].
    destruct Hl as (c' & Hc' & Hl). exists c'. split; [done |].
    assert (Hz : dt_drivesFollowFree t = false /\ dt_numDrives t = 0).
    { unfold compute_of in Ht. rewrite step_of_eq in Ht. destruct (compute_skip _ _ _); [done |].
      destruct ((drive_step i name).1); injection Ht as <-; done. }
    unfold target_ok in Hok. rewrite Hn, Hm in Hok.
    destruct (live_of i WekaContainerModeCompute !! name) as [c|] eqn:Hc.
    + apply raise_settles in Hl as [? _]; [done |]. destruct Hok as (_ & ? & _).
      split_and!; [done | intros E; by rewrite Hm in E | intros _; split_and!; [tauto | tauto | by eapply Hcn]].
    + destruct Hl as (cs & base & count & Hb). apply build_settles in Hb; [done | right; tauto].
  - unfold compute_of in Ht. rewrite step_of_eq in Ht. rewrite Hl. unfold compute_skip, live_cores in Ht.
    destruct (live_of i WekaContainerModeCompute !! name); [| done]. cbn in Ht. by destruct ((drive_step i name).1).
Qed.

Lemma st_names : ds_names i' = ds_names i.
Proof.
  unfold ds_names. do 2 f_equal. apply leibniz_equiv. intros name. rewrite !elem_of_union, !elem_of_dom, (st_nodes _ _ Hst).
  fold (live_drive i name) (live_drive i' name). pose proof (st_drive name) as Hd. pose proof (st_compute name) as Hc.
  destruct (decide (name ∈ ds_names i)) as [Hin|Hin].
  - apply elem_of_ds_names in Hin. unfold live_cores in Hin. rewrite fmap_is_Some in Hin.
    split; [tauto |]. intros _. destruct Hin as [?|[Hl|Hl]]; [tauto | |].
    + left; right. unfold drive_skip in Hd. destruct (live_drive i name); [| by destruct Hl].
      destruct Hd as (c' & -> & _). eauto.
    + right. destruct (compute_of i name) eqn:Ht; [destruct Hc as (c' & -> & _); eauto |].
      unfold compute_of in Ht. rewrite step_of_eq in Ht. unfold compute_skip, live_cores in Ht.
      destruct (live_of i WekaContainerModeCompute !! name); [| by destruct Hl]. cbn in Ht. by destruct ((drive_step i name).1).
  - apply outside_ds_names in Hin as Ho. destruct Ho as (Hn & Hl & Hlc).
    assert (live_drive i' name = None) as ->.
    { unfold drive_skip in Hd. rewrite Hl, Hn in Hd. by destruct (decide _). }
    unfold compute_of in Hc. rewrite (step_of_outside _ _ Hin) in Hc. rewrite Hc, Hl.
    unfold live_cores in Hlc. destruct (live_of i WekaContainerModeCompute !! name); done.
Qed.

(** The drive target of the next pass differs at most in following the free drives. *)
Lemma st_drive_step name : (drive_step i' name).1 = set_follow (follow_free i' name) <$> (drive_step i name).1.
Proof.
  rewrite !drive_step_fst. pose proof (st_drive name) as Hd. destruct (drive_skip i name) eqn:Hs.
  - assert (Hl : live_drive i name = None) by (unfold drive_skip in Hs; by destruct (live_drive i name)).
    assert (drive_skip i' name = drive_skip i name) as ->; [| by rewrite Hs].
    unfold drive_skip, drive_count. rewrite Hl, Hd, st_node, st_del, st_pool, (proj1 (st_pins _ _ Hst)). done.
  - destruct Hd as (c' & Hl' & (Hc & Hn & _ & _) & Ha). specialize (Hn eq_refl).
    assert (drive_skip i' name = None) as -> by (unfold drive_skip; by rewrite Hl').
    assert (Hheld : held_of i' name = held_of i name).
    { unfold held_of, heldCapacities. rewrite Hl', Ha, st_node. by destruct (live_drive i name). }
    destruct (st_pins _ _ Hst) as (Hp1 & Hp2 & _).
    assert (Hcount : drive_count i' name = drive_count i name).
    { cbn in Hn. unfold drive_count at 1. rewrite Hl', st_pool, Hn, Hp1. unfold follow_free. rewrite Hl', Hheld, st_node, Hp1.
      destruct (live_drive i name) as [c|] eqn:Hl.
      - unfold drive_count, follow_free. rewrite Hl.
        rewrite !bool_decide_eq_true_2 by done. destruct (_ && negb _); lia.
      - apply (drive_skip_new i name Hl) in Hs as (_ & _ & _ & _ & H0).
        unfold drive_count in *. rewrite Hl in *. unfold held_of. rewrite Hl. unfold cmp_Or in *.
        rewrite bool_decide_eq_true_2 by done. cbn [andb negb snd]. rewrite andb_true_r.
        destruct (decide (di_numDrivesPin i = 0)) as [->|Hz];
          [rewrite bool_decide_eq_true_2 by done | rewrite bool_decide_eq_false_2 by done];
          destruct (dn_listed _); cbn [andb]; lia. }
    cbn. f_equal. unfold drive_size, set_follow. cbn. rewrite Hcount, Hheld, st_pool, (st_cons _ _ Hst), Hp2, Hl'. cbn in Hc. rewrite Hc.
    f_equal.
    + lia.
    + unfold held_of. destruct (live_drive i name) as [c|] eqn:Hl; [done |]. cbn.
      unfold held_of. by rewrite Z.sub_0_r, Z2Nat.inj_max, Nat.max_0_r.
Qed.

(** The lists of the next pass that its compute containers are sized from. *)
Lemma st_drive_sums :
  dt_cores <$> drive_targets i' = dt_cores <$> drive_targets i /\
  dt_tlcGiB <$> drive_targets i' = dt_tlcGiB <$> drive_targets i.
Proof.
  unfold drive_targets. rewrite st_names, !fmap_omap.
  split; apply omap_ext_in; intros name _; rewrite st_drive_step; by destruct ((drive_step i name).1).
Qed.

Lemma st_live_cores name t : compute_of i name = Some t -> live_cores i' name = Some (dt_cores t).
Proof.
  intros Ht. pose proof (st_compute name) as Hc. rewrite Ht in Hc. destruct Hc as (c' & Hl & Hat & _).
  unfold live_cores. rewrite Hl. cbn. by rewrite Hat.
Qed.

Lemma st_compute_skip name :
  is_Some (compute_skip i' (index_targets (drive_targets i')) name) <->
  is_Some (compute_skip i (index_targets (drive_targets i)) name).
Proof.
  pose proof (st_compute name) as Hc. unfold compute_of in Hc. rewrite step_of_eq in Hc.
  destruct (compute_skip i _ name) eqn:Hs.
  - assert (Hl : live_cores i name = None) by (unfold compute_skip in Hs; by destruct (live_cores i name)).
    assert (Hl' : live_cores i' name = None) by (unfold live_cores; by rewrite Hc).
    unfold compute_skip in Hs |- *. rewrite Hl' , driveT_lookup, st_drive_step, st_del, st_node.
    rewrite Hl, driveT_lookup in Hs.
    assert (Hiff : set_follow (follow_free i' name) <$> (drive_step i name).1 = None <-> (drive_step i name).1 = None)
      by apply fmap_None.
    destruct (decide (name ∈ _)); [split; eauto |]. destruct (dn_computeRole _); [| split; eauto]. cbn in Hs |- *.
    destruct (decide (dn_ineligible _ <> "")); [split; eauto |].
    destruct (dn_driveRole _); [| done]. cbn in Hs |- *.
    destruct (bool_decide ((drive_step i name).1 = None \/ _)) eqn:Hb; [| done]. apply bool_decide_eq_true in Hb.
    rewrite bool_decide_eq_true_2 by tauto. split; eauto.
  - assert (Hl : exists c', live_of i' WekaContainerModeCompute !! name = Some c')
      by (destruct ((drive_step i name).1); destruct Hc as (c' & ? & _); eauto).
    destruct Hl as [c' Hl]. unfold compute_skip, live_cores. rewrite Hl. cbn. split; intros [? [=]].
Qed.

(** The paired targets stay as they are. *)
Lemma st_step name : step_of i' name = step_of i name.
Proof.
  pose proof (st_compute_skip name) as Hsk. rewrite !step_of_eq, st_drive_step.
  destruct (compute_skip i _ name) as [|] eqn:Hs.
  - destruct (compute_skip i' _ name); [done |]. destruct Hsk as [_ [? [=]]]. eauto.
  - destruct (compute_skip i' _ name); [destruct Hsk as [[? [=]] _]; eauto |].
    destruct ((drive_step i name).1) as [d|] eqn:Hd; [| done]. cbn.
    assert (Hp : paired_cores i' name (set_follow (follow_free i' name) d) = paired_cores i name d).
    { assert (Ht : compute_of i name = Some {| dt_node := name; dt_mode := WekaContainerModeCompute; dt_paired := true;
          dt_numDrives := 0; dt_drivesFollowFree := false; dt_cores := paired_cores i name d; dt_tlcGiB := 0;
          dt_computeHugepagesMiB := ComputeContainerHugepagesMiB (dt_tlcGiB d) 0 1 (paired_cores i name d) (di_cons i) |}).
      { unfold compute_of. by rewrite step_of_eq, Hs, Hd. }
      apply st_live_cores in Ht. unfold paired_cores at 1. rewrite Ht. unfold wanted_cores. cbn [default dt_cores set_follow].
      rewrite (st_cons _ _ Hst), (proj2 (proj2 (st_pins _ _ Hst))). unfold paired_cores, wanted_cores. cbn [from_option id]. lia. }
    by rewrite Hp, (st_cons _ _ Hst).
Qed.

Lemma st_compute_of name : compute_of i' name = compute_of i name.
Proof.
  assert (Hpt : paired_targets i' = paired_targets i).
  { unfold paired_targets. rewrite st_names. apply omap_ext_in. intros x _.
    fold (step_of i' x) (step_of i x). by rewrite st_step. }
  assert (Hon : only_names i' = only_names i).
  { unfold only_names. rewrite st_names. apply list_filter_iff. intros x. fold (step_of i' x) (step_of i x). by rewrite st_step. }
  destruct st_drive_sums as [Hsc Hst'].
  assert (Hoc : only_cores i' = only_cores i).
  { unfold only_cores. by rewrite Hon, Hpt, Hsc, (st_cons _ _ Hst), (proj2 (proj2 (st_pins _ _ Hst))). }
  unfold compute_of at 1. rewrite st_step. destruct (step_of i name) as [| |t tlc] eqn:Hstep.
  - unfold compute_of. by rewrite Hstep.
  - assert (Ht : compute_of i name = Some (only_target i name)) by (unfold compute_of; by rewrite Hstep).
    apply st_live_cores in Ht as Hl. rewrite Ht. f_equal. unfold only_target at 1. rewrite Hl, Hoc, Hon, Hpt, Hst', (st_cons _ _ Hst).
    unfold only_target. cbn [dt_cores].
    assert (Z.max (match live_cores i name with Some ex => Z.max ex (only_cores i) | None => only_cores i end) (only_cores i) =
            match live_cores i name with Some ex => Z.max ex (only_cores i) | None => only_cores i end) as -> by (destruct (live_cores i name); lia).
    done.
  - unfold compute_of. by rewrite Hstep.
Qed.

Lemma st_drive_of name : drive_of i' name = set_follow (follow_free i' name) <$> drive_of i name.
Proof. unfold drive_of. rewrite st_drive_step, st_compute_of. by destruct ((drive_step i name).1). Qed.

Lemma st_s3_none name : di_s3 i' = true -> name ∈ s3_names i' -> s3_of i' name = None.
Proof.
  intros Hs3 Hin. pose proof (st_live _ _ Hst WekaContainerModeS3 name ltac:(set_solver)) as Hl. unfold target_at in Hl.
  rewrite !decide_False in Hl by done. rewrite (st_s3 _ _ Hst) in Hs3. rewrite Hs3 in Hl. cbn [andb] in Hl.
  destruct (live_of i' WekaContainerModeS3 !! name) as [c'|] eqn:Hc'.
  - unfold s3_of, s3_step. by rewrite Hc', decide_True.
  - assert (Hin' : name ∈ s3_names i).
    { unfold s3_names in Hin |- *. rewrite elem_of_sort_elements, elem_of_union, !elem_of_dom, (st_nodes _ _ Hst), Hc' in Hin.
      rewrite elem_of_sort_elements, elem_of_union, !elem_of_dom. destruct Hin as [?|[? [=]]]. by left. }
    rewrite bool_decide_eq_true_2 in Hl by done.
    destruct (s3_of i name) as [t|] eqn:Ht; [by destruct Hl as (? & [=] & _) |].
    unfold s3_of, s3_step in Ht |- *. rewrite Hc', decide_False by auto. rewrite <- Hl, decide_False in Ht by auto.
    rewrite st_node, st_del. repeat case_decide; done.
Qed.

(** Every target of the next pass has a container with nothing left to raise. *)
Lemma settled_idle t :
  t ∈ dp_targets (planDaemonset i') ->
  exists c, live_of i' (dt_mode t) !! dt_node t = Some c /\ raise_target spec i' t c = None.
Proof.
  assert (Hr : forall t c, raise_target spec i' t c = raise_target spec i t c).
  { intros. unfold raise_target. by rewrite (proj1 (st_hugepages _ _ Hst)), (proj2 (st_hugepages _ _ Hst)). }
  intros [Ht|[Ht|(Hs & Hin & Ht)]]%elem_of_targets.
  - pose proof (drive_of_node _ _ _ Ht) as [_ Hm]. rewrite Hm. rewrite st_drive_of in Ht.
    destruct (drive_of i (dt_node t)) as [t0|] eqn:Ht0; [| done]. injection Ht as Ht.
    apply drive_of_Some in Ht0 as [Hsk Ht0]. pose proof (st_drive (dt_node t)) as Hd. rewrite Hsk in Hd.
    destruct Hd as (c' & Hl & Hat & _). exists c'. split; [done |]. rewrite Hr, <- Ht.
    apply at_target_idle; [by subst t0 | by subst t0].
  - pose proof (compute_of_node _ _ _ Ht) as [_ Hm]. rewrite Hm. rewrite st_compute_of in Ht.
    pose proof (st_compute (dt_node t)) as Hc. rewrite Ht in Hc. destruct Hc as (c' & Hl & Hat). exists c'. split; [done |].
    rewrite Hr. assert (Hf : dt_drivesFollowFree t = false).
    { unfold compute_of in Ht. rewrite step_of_eq in Ht. destruct (compute_skip _ _ _); [done |].
      destruct ((drive_step i (dt_node t)).1); injection Ht as Ht; by rewrite <- Ht. }
    assert (t = set_follow false t) as -> by (destruct t; cbn in Hf; by subst). by apply at_target_idle.
  - by rewrite st_s3_none in Ht.
Qed.
End settled.

(** ** The passes *)

Section passes.
Context (spec : ClusterSpec) (meta : cluster_meta) (wekahome : option string).
Context (get_node : string -> res string Node) (capacityGiB : WekaClusterTemplate -> res string Z) (cfg : OperatorConfig).
Context (guid : dsContainerTarget -> string).

Lemma raise_steps_missing i server ts acc :
  (foldl (raise_step spec i server) acc ts).1.1.1 =
  acc.1.1.1 ++ filter (fun t => live_of i (dt_mode t) !! dt_node t = None) ts.
Proof.
  revert acc. induction ts as [|t ts IH]; intros [[[missing cs] grown] errs]; cbn [foldl]; [by rewrite app_nil_r |].
  rewrite IH, filter_cons. unfold raise_step. destruct (live_of i (dt_mode t) !! dt_node t) as [c|] eqn:Hl.
  - rewrite decide_False by done. by destruct (raiseDaemonsetContainer _ _ _ _ _ _) as [[written summary] err].
  - rewrite decide_True by done. cbn. by rewrite <- app_assoc.
Qed.

(** Targets that are all reached leave everything as it is. *)
Lemma raise_steps_idle i server ts acc :
  (forall t, t ∈ ts -> exists c, live_of i (dt_mode t) !! dt_node t = Some c /\ raise_target spec i t c = None) ->
  foldl (raise_step spec i server) acc ts = acc.
Proof.
  revert acc. induction ts as [|t ts IH]; intros acc Hts; [done |]. cbn [foldl].
  rewrite IH by (intros; apply Hts; set_solver). destruct (Hts t) as (c & Hl & Hr); [set_solver |].
  destruct acc as [[[missing cs] grown] errs]. unfold raise_step. rewrite Hl. unfold raiseDaemonsetContainer.
  unfold raise_target in Hr. rewrite Hr. cbn. rewrite decide_False by naive_solver. by rewrite app_nil_r.
Qed.


(** What the loop over the missing targets builds. *)
Lemma build_missing_spec i containers base count room missing built skipped :
  build_missing spec meta wekahome get_node capacityGiB cfg guid i containers base count room missing = (built, skipped) ->
  (exists ts, ts `sublist_of` missing /\
     Forall2 (fun t c => build_target spec meta wekahome get_node capacityGiB cfg guid i containers base count t = Ok c) ts built) /\
  forall m n, room !! m = Some n -> len (filter (fun c => mode c = m) built) <= Z.max 0 n.
Proof.
  revert room built skipped. induction missing as [|t missing IH]; intros room built skipped; cbn.
  { intros [= <- <-]. split; [exists []; by split | intros; cbn; lia]. }
  destruct (take_room room (dt_mode t)) as [room'|] eqn:Hr.
  - destruct (build_missing _ _ _ _ _ _ _ _ _ _ _ room' missing) as [built' skipped'] eqn:Hb.
    apply IH in Hb as [(ts & Hsub & Hts) Hroom].
    assert (Hn : forall m n, room !! m = Some n -> exists n', room' !! m = Some n' /\
               Z.max 0 n' + (if decide (m = dt_mode t) then 1 else 0) <= Z.max 0 n).
    { intros m n Hm. unfold take_room in Hr. destruct (room !! dt_mode t) as [k|] eqn:Hk; [destruct (decide (k <= 0)); [done |] |];
        injection Hr as <-.
      - destruct (decide (m = dt_mode t)) as [->|]; [rewrite lookup_insert_eq; exists (k - 1); split; [done |]; simplify_eq; lia |].
        rewrite lookup_insert_ne by done. exists n. split; [done | lia].
      - exists n. split; [done |]. rewrite decide_False by congruence. lia. }
    destruct (build_target _ _ _ _ _ _ _ _ _ _ _ t) as [c|e] eqn:Hc; intros [= <- <-].
    + split; [exists (t :: ts); split; [by constructor | by constructor] |].
      intros m n Hm. destruct (Hn m n Hm) as (n' & Hm' & Hle). specialize (Hroom m n' Hm'). rewrite filter_cons.
      apply build_target_place in Hc as (_ & -> & _). destruct (decide (m = dt_mode t)) as [->|Hne];
        [rewrite decide_True by done; rewrite length_cons; lia | rewrite decide_False by done; lia].
    + split; [exists ts; split; [by constructor | done] |].
      intros m n Hm. destruct (Hn m n Hm) as (n' & Hm' & Hle). specialize (Hroom m n' Hm'). destruct (decide _); lia.
  - intros [(ts & Hsub & Hts) Hroom]%IH. split; [exists ts; split; [by constructor | done] | done].
Qed.

(** What a pass builds: each container is for a target without a live container, pinned to its node with
    the sizing of the target, no two for the same mode and node, and with the live ones there are never
    more drive or compute containers than the count the cluster wants (its form-cluster maximum before it is
    formed). *)
Theorem buildDaemonsetContainers_built want server i containers built count skipped errs containers' :
  buildDaemonsetContainers spec meta wekahome get_node capacityGiB cfg guid want server i containers =
    (built, count, skipped, errs, containers') ->
  NoDup ((fun c => (mode c, GetNodeAffinity c)) <$> built) /\
  (forall c, c ∈ built -> exists t, t ∈ dp_targets (planDaemonset i) /\ live_of i (dt_mode t) !! dt_node t = None /\
     mode c = dt_mode t /\ GetNodeAffinity c = dt_node t /\ (dt_mode t <> WekaContainerModeS3 -> at_target spec i t c)) /\
  (forall m, m = WekaContainerModeDrive \/ m = WekaContainerModeCompute ->
     len (filter (fun c => mode c = m) built) <=
     Z.max 0 (default 0 (want {| role_Compute := count;
                role_Drive := count_targets WekaContainerModeDrive (dp_targets (planDaemonset i)); role_S3 := 0; role_Envoy := 0;
                role_Nfs := 0; role_Smbw := 0; role_DataServices := 0 |} !! m) - Z.of_nat (size (live_of i m)))).
Proof.
  unfold buildDaemonsetContainers.
  pose proof (raise_steps_missing i server (dp_targets (planDaemonset i)) ([], containers, [], [])) as Hmiss.
  destruct (foldl _ _ _) as [[[missing cs] grown] es]. cbn in Hmiss.
  destruct (build_missing _ _ _ _ _ _ _ _ _ _ _ _ _) as [b sk] eqn:Hb. intros [= <- <- <- <- <-].
  apply build_missing_spec in Hb as [(ts & Hsub & Hts) Hroom].
  assert (Hin : forall t, t ∈ ts -> t ∈ dp_targets (planDaemonset i) /\ live_of i (dt_mode t) !! dt_node t = None).
  { intros t Ht. eapply elem_of_sublist in Ht; [| exact Hsub]. rewrite elem_of_sort_by, Hmiss, list_elem_of_filter in Ht. tauto. }
  assert (Hkey : (fun c => (mode c, GetNodeAffinity c)) <$> b = (fun t => (dt_mode t, dt_node t)) <$> ts).
  { clear Hroom Hsub Hin. induction Hts as [|t c ts b Hc _ IH]; [done |]. cbn. apply build_target_place in Hc as (_ & -> & -> & _). by f_equal. }
  split_and!.
  - rewrite Hkey. eapply sublist_NoDup; [| apply fmap_sublist, Hsub].
    rewrite sort_by_perm, Hmiss. eapply sublist_NoDup; [apply (targets_NoDup i) | apply fmap_sublist, sublist_filter].
  - intros c Hc. apply list_elem_of_lookup in Hc as [k Hk]. destruct (Forall2_lookup_r _ _ _ _ _ Hts Hk) as (t & Ht & Hbt).
    exists t. destruct (Hin t) as [Hit Hl]; [by eapply list_elem_of_lookup_2 |].
    apply build_target_place in Hbt as Hp. destruct Hp as (_ & Hm & Hn & _). split_and!; try done.
    intros Hs3. eapply build_settles; [| exact Hbt]. 
    apply elem_of_targets in Hit as [H|[H|(_ & _ & H)]]; [left; by apply drive_of_node in H as [_ H] | right | by apply s3_of_node in H as [_ H]].
    split; [by apply compute_of_node in H as [_ H] |]. unfold compute_of in H. rewrite step_of_eq in H.
    destruct (compute_skip _ _ _); [done |]. destruct ((drive_step i _).1); injection H as H; by rewrite <- H.
  - intros m Hm. apply Hroom. by destruct Hm as [->| ->].
Qed.
End passes.

(** Raising a container through the retried update. *)
Section raising.
Context (spec : ClusterSpec).

Lemma raise_mutate_spec t pinHp pinOff name latest c' :
  raise_mutate spec t pinHp pinOff name latest = Some c' ->
  container_key c' = container_key latest /\
  cs_NumCores (cn_Spec c') = Z.max (cs_NumCores (cn_Spec latest)) (dt_cores t) /\
  (dt_mode t = WekaContainerModeDrive -> cs_NumDrives (cn_Spec c') =
     if dt_drivesFollowFree t then dt_numDrives t else Z.max (cs_NumDrives (cn_Spec latest)) (dt_numDrives t)) /\
  (dt_mode t <> WekaContainerModeDrive -> cs_NumDrives (cn_Spec c') = cs_NumDrives (cn_Spec latest)) /\
  (dt_mode t = WekaContainerModeDrive \/ dt_numDrives t = 0 ->
   hp_Hugepages (autoHugepagesFor spec t (cs_NumCores (cn_Spec c')) (cs_NumDrives (cn_Spec c'))) <= cs_Hugepages (cn_Spec c')).
Proof.
  unfold raise_mutate, raise_sizing. cbn zeta.
  set (cores := Z.max _ _). set (drives := if dt_drivesFollowFree t then _ else _).
  pose proof (floorHugepages_ge_auto name (plan_hugepages spec t cores drives) (autoHugepagesFor spec t cores drives)
    (cs_Hugepages (cn_Spec latest)) (cs_HugepagesOffset (cn_Spec latest)) pinHp pinOff) as [Hge _].
  destruct (floorHugepages _ _ _ _ _ _ _) as [[h o] below]. cbn in Hge. destruct (decide _); [done |].
  intros [= <-]. cbn. split_and!; [done | done | intros Hm; by rewrite decide_True | intros Hm; by rewrite decide_False |].
  intros Hm. destruct (decide (dt_mode t = WekaContainerModeDrive)) as [Hd|Hd]; [done |].
  unfold autoHugepagesFor in *. by rewrite (plan_hugepages_drives _ _ _ _ drives).
Qed.

(** Raising a daemonset container is safe under concurrent writers: a write that the API server accepts
    replaces the copy read in the same attempt by one with at least its cores and at least the planned ones,
    with at least its drives unless the target follows the free drives, and with hugepages no lower than
    the automatic value for that sizing, whatever is pinned. *)
Theorem raiseDaemonsetContainer_safe server c t pinHp pinOff c' summary err :
  dt_mode t = WekaContainerModeDrive \/ dt_numDrives t = 0 ->
  raiseDaemonsetContainer spec server c t pinHp pinOff = (Some c', summary, err) ->
  err = None /\ exists j latest, (j < DefaultRetry_Steps)%nat /\ at_get (server (cn_Name c) j) = Ok latest /\
    at_update (server (cn_Name c) j) = None /\ container_key c' = container_key latest /\
    cs_NumCores (cn_Spec latest) <= cs_NumCores (cn_Spec c') /\ dt_cores t <= cs_NumCores (cn_Spec c') /\
    (dt_drivesFollowFree t = false -> cs_NumDrives (cn_Spec latest) <= cs_NumDrives (cn_Spec c')) /\
    hp_Hugepages (autoHugepagesFor spec t (cs_NumCores (cn_Spec c')) (cs_NumDrives (cn_Spec c'))) <= cs_Hugepages (cn_Spec c').
Proof.
  intros Hm. unfold raiseDaemonsetContainer, updateContainerWithRetry. destruct (raise_mutate _ _ _ _ _ c); [| done].
  destruct (retry_on_conflict _ _ _ _ _ _) as [[written skipped] e] eqn:Hr.
  destruct e as [e|]; [by destruct written; intros [= -> _ _]; apply retry_written in Hr as (_ & ? & _) |].
  intros Heq. assert (written = Some c' /\ err = None) as [-> ->] by (destruct skipped; by simplify_eq). split; [done |].
  apply retry_written in Hr as (_ & _ & j & latest & Hj & Hg & Hmu & Hu). exists j, latest.
  apply raise_mutate_spec in Hmu as (Hk & Hc & Hd & Hn & Hh). split_and!; try done; [lia | lia | lia | | auto].
  intros Hf. destruct (decide (dt_mode t = WekaContainerModeDrive)) as [E|E];
    [rewrite Hd by done; rewrite Hf; lia | rewrite Hn by done; lia].
Qed.
End raising.

(** ** A cluster *)

(** Node n1 has four signed drives, node n2 none. *)
Definition ex_full_node (name : string) (drives : list DriveEntry) : Node := {|
  n_Name := name; n_Labels := ∅; n_Unschedulable := false; n_Taints := [];
  n_Conditions := [{| cond_Type := "Ready"; cond_Status := "True" |}];
  n_AllocatableCpuMilli := 64000; n_AllocatableHugepages2Mi := 2 ^ 40; n_AllocatableMemory := 2 ^ 40;
  n_Discovery := Absent; n_FullDrives := (if decide (drives = []) then Absent else Decoded drives);
  n_BlockedDrives := Absent; n_SharedDrives := Absent; n_BlockedPhysicalUuids := Absent |}.

Definition ex_n1 : Node := ex_full_node "n1" ((fun s => {| de_Serial := s; de_CapacityGiB := 7 * 1024 |}) <$> numbered "d" 4).
Definition ex_n2 : Node := ex_full_node "n2" [].

(** Drives are on storage nodes only, compute anywhere. *)
Definition ex_storage : gmap string string := {["role" := "storage"]}.
Definition ex_ds_spec : ClusterSpec := {|
  csp_Dynamic := None; csp_StripeWidth := 3; csp_RedundancyLevel := 2; csp_HotSpare := 1; csp_CpuPolicy := "";
  csp_Image := "weka:4.4"; csp_NodeSelector := ∅;
  csp_RoleNodeSelector := {| rns_Compute := None; rns_Drive := Some ex_storage; rns_S3 := None; rns_Nfs := None;
    rns_Smbw := None; rns_DataServices := None |};
  csp_FailureDomain := None; csp_Overrides := None |}.
Definition ex_list_nodes (sel : gmap string string) : res string (list Node) :=
  Ok (if decide (sel = ex_storage) then [ex_n1] else [ex_n1; ex_n2]).

(** A drive container that holds whole drives. *)
Definition ex_holder (ns name node : string) (drives : Z) (serials : list string) : Container := {|
  cn_Name := name; cn_Namespace := ns; cn_CreationTimestamp := 1; cn_Deleted := false; cn_OwnerReferences := [];
  cn_Spec := {| cs_Mode := WekaContainerModeDrive; cs_Image := "weka:4.4"; cs_State := ContainerStateActive;
    cs_CpuPolicy := ""; cs_NumCores := drives; cs_ExtraCores := 0; cs_Resources := None; cs_Hugepages := 0;
    cs_HugepagesOffset := 0; cs_HugepagesSize := "2Mi"; cs_NumDrives := drives; cs_DriveCapacity := 0;
    cs_ContainerCapacity := 0; cs_DriveTypesRatio := None; cs_NodeAffinity := node; cs_RotatePod := false;
    cs_NodeSelector := ∅; cs_DpdkBaseMemoryMb := 0 |};
  cn_Status := {| cst_Status := "Running"; cst_ManagementIps := []; cst_NodeAffinity := node; cst_LastAppliedImage := "weka:4.4"; cst_ClusterContainerID := Some 1;
    cst_PodOutdated := false;
    cst_Allocations := Some {| ca_Drives := serials; ca_Ports := mkPortAlloc 0 0;
      ca_VirtualDrives := [] |} |} |}.

Definition ex_ds_own : Container := ex_holder "weka" "drive-1" "n1" 1 ["d1"].
Definition ex_ds_other : Container := ex_holder "other" "drive-9" "n1" 1 ["d2"].

Definition ex_collect : res string daemonsetInput :=
  collectDaemonsetInput (fun _ _ => false) [] ex_operator_config ex_list_nodes ex_ds_spec true [ex_ds_own]
    (Ok [ex_ds_own; ex_ds_other]).
Definition ex_ds_input : daemonsetInput :=
  match ex_collect with Ok i => i | Err _ => daemonset_input ex_operator_config ex_ds_spec true [] ∅ end.

(** The container may have its own drive and the two free ones; the compute-only node gets the rest. *)
Example ex_ds_targets :
  (fun t => (dt_node t, dt_mode t, dt_numDrives t, dt_cores t)) <$> dp_targets (planDaemonset ex_ds_input) =
  [("n1", "drive", 3, 3); ("n1", "compute", 0, 6); ("n2", "compute", 0, 1)].
Proof. vm_compute. reflexivity. Qed.

Lemma ex_collect_ok : ex_collect = Ok ex_ds_input.
Proof. vm_compute. reflexivity. Qed.

Definition ex_target (k : nat) : dsContainerTarget :=
  default (only_target ex_ds_input "") (dp_targets (planDaemonset ex_ds_input) !! k).

Lemma ex_target_in k : (k < 3)%nat -> ex_target k ∈ dp_targets (planDaemonset ex_ds_input).
Proof.
  intros Hk. apply list_elem_of_lookup. exists k. unfold ex_target.
  destruct (dp_targets (planDaemonset ex_ds_input) !! k) eqn:E; [done |]. apply lookup_ge_None in E.
  change (length (dp_targets (planDaemonset ex_ds_input))) with 3%nat in E. lia.
Qed.

Lemma planDaemonset_compute_witness :
  dp_capped (planDaemonset ex_ds_input) = [] /\
  RequiredComputeCores (dp_driveCores (planDaemonset ex_ds_input)) 0 true (Some (di_cons ex_ds_input)) <=
    dp_computeCores (planDaemonset ex_ds_input).
Proof.
  assert (Hc : dp_capped (planDaemonset ex_ds_input) = []) by (vm_compute; reflexivity). split; [exact Hc |].
  apply (planDaemonset_compute ex_ds_input); [vm_compute; reflexivity | exact Hc |].
  exists (ex_target 2). split; [apply ex_target_in; lia | split; vm_compute; reflexivity].
Defined.

Lemma follow_free_bounds_witness :
  dt_drivesFollowFree (ex_target 0) = true /\
  len (allocated_drives ex_ds_own) <= dt_numDrives (ex_target 0) /\
  dt_numDrives (ex_target 0) <=
    Z.max 1 (len (filter (fun d => held_by_others ex_ds_input [ex_ds_own; ex_ds_other] (de_Serial d) = false)
                    (dn_entries (node_of ex_ds_input "n1")))).
Proof.
  split; [vm_compute; reflexivity |].
  apply (follow_free_bounds (fun _ _ => false) [] ex_operator_config ex_list_nodes ex_ds_spec true [ex_ds_own]
    [ex_ds_own; ex_ds_other] ex_ds_input (ex_target 0) ex_ds_own); try (vm_compute; reflexivity).
  - apply ex_target_in. lia.
  - set_solver.
  - apply NoDup_singleton.
  - intros c' s Hc' Hl Hs. apply list_elem_of_In in Hc'.
    destruct Hc' as [<-|[<-|[]]]; [| by vm_compute in Hl].
    apply list_elem_of_singleton in Hs as ->. vm_compute. reflexivity.
Defined.

(** The pass over this cluster, and what the next one finds. *)
Definition ex_ds_guid (t : dsContainerTarget) : string := String.append "g-" (dt_node t).
Definition ex_no_node (_ : string) : res string Node := Err "no node".
Definition ex_no_capacity (_ : WekaClusterTemplate) : res string Z := Err "no capacity".
Definition ex_want (n : IntPerWekaRole) : gmap string Z :=
  {[ WekaContainerModeDrive := role_Drive n; WekaContainerModeCompute := role_Compute n ]}.
Definition ex_ds_pass : list Container * Z * list string * list string * list Container :=
  buildDaemonsetContainers ex_ds_spec ex_meta None ex_no_node ex_no_capacity ex_operator_config ex_ds_guid ex_want
    (ex_server [ex_ds_own]) ex_ds_input [ex_ds_own].

Definition ex_ds_next : daemonsetInput :=
  let '(live, deleting) := containersByMode (ex_ds_pass.2 ++ ex_ds_pass.1.1.1.1) in {|
  di_nodes := di_nodes ex_ds_input; di_live := live; di_deleting := deleting;
  di_numDrivesPin := di_numDrivesPin ex_ds_input; di_driveCoresPin := di_driveCoresPin ex_ds_input;
  di_computeCoresPin := di_computeCoresPin ex_ds_input; di_hugepagesPin := di_hugepagesPin ex_ds_input;
  di_hugepagesOffsetPin := di_hugepagesOffsetPin ex_ds_input; di_cons := di_cons ex_ds_input; di_s3 := di_s3 ex_ds_input |}.

Definition ex_live (m name : string) : Container := default ex_ds_own (live_of ex_ds_next m !! name).

(** The live containers of a concrete input are on known nodes. *)
Lemma live_on_nodes (i : daemonsetInput) (names : list string) m name :
  dom (live_of i m) = list_to_set names -> name ∉ names -> live_of i m !! name = None.
Proof. intros Hd Hn. apply not_elem_of_dom. rewrite Hd. set_solver. Qed.

Lemma ex_next_drive : dom (live_of ex_ds_next WekaContainerModeDrive) = list_to_set ["n1"].
Proof. vm_compute. reflexivity. Qed.
Lemma ex_now_drive : dom (live_of ex_ds_input WekaContainerModeDrive) = list_to_set ["n1"].
Proof. vm_compute. reflexivity. Qed.
Lemma ex_next_compute : dom (live_of ex_ds_next WekaContainerModeCompute) = list_to_set ["n1"; "n2"].
Proof. vm_compute. reflexivity. Qed.
Lemma ex_now_compute : dom (live_of ex_ds_input WekaContainerModeCompute) = list_to_set [].
Proof. vm_compute. reflexivity. Qed.
Lemma ex_next_s3 : dom (live_of ex_ds_next WekaContainerModeS3) = list_to_set [].
Proof. vm_compute. reflexivity. Qed.
Lemma ex_now_s3 : dom (live_of ex_ds_input WekaContainerModeS3) = list_to_set [].
Proof. vm_compute. reflexivity. Qed.

Lemma ex_settled :
  settled ex_ds_spec ex_meta None ex_no_node ex_no_capacity ex_operator_config ex_ds_guid ex_ds_input ex_ds_next.
Proof.
  split; [vm_compute; reflexivity | vm_compute; reflexivity | split_and!; vm_compute; reflexivity |
    split; vm_compute; reflexivity | vm_compute; reflexivity | vm_compute; reflexivity |].
  intros m name Hm. unfold daemonsetModes in Hm.
  assert (Hn : forall name, name ∉ ["n1"; "n2"] -> name ∉ ds_names ex_ds_input).
  { intros x Hx. assert (ds_names ex_ds_input = ["n1"; "n2"]) as -> by (vm_compute; reflexivity). done. }
  assert (Hs : di_s3 ex_ds_input = false) by (vm_compute; reflexivity).
  destruct (decide (name ∈ ["n1"; "n2"])) as [Hin|Hout].
  - apply list_elem_of_In in Hm, Hin. destruct Hm as [<-|[<-|[<-|[]]]], Hin as [<-|[<-|[]]].
    + assert (target_at ex_ds_input WekaContainerModeDrive "n1" = Some (ex_target 0)) as -> by (vm_compute; reflexivity).
      assert (live_of ex_ds_input WekaContainerModeDrive !! "n1" = Some ex_ds_own) as -> by (vm_compute; reflexivity).
      exists (ex_live WekaContainerModeDrive "n1"). split; [vm_compute; reflexivity |]. left. vm_compute. reflexivity.
    + assert (target_at ex_ds_input WekaContainerModeDrive "n2" = None) as -> by (vm_compute; reflexivity).
      vm_compute. reflexivity.
    + assert (target_at ex_ds_input WekaContainerModeCompute "n1" = Some (ex_target 1)) as -> by (vm_compute; reflexivity).
      assert (live_of ex_ds_input WekaContainerModeCompute !! "n1" = None) as -> by (vm_compute; reflexivity).
      exists (ex_live WekaContainerModeCompute "n1"). split; [vm_compute; reflexivity |].
      exists [], (GetWekaClusterTemplate ex_operator_config None).2, 2. vm_compute. reflexivity.
    + assert (target_at ex_ds_input WekaContainerModeCompute "n2" = Some (ex_target 2)) as -> by (vm_compute; reflexivity).
      assert (live_of ex_ds_input WekaContainerModeCompute !! "n2" = None) as -> by (vm_compute; reflexivity).
      exists (ex_live WekaContainerModeCompute "n2"). split; [vm_compute; reflexivity |].
      exists [], (GetWekaClusterTemplate ex_operator_config None).2, 2. vm_compute. reflexivity.
    + assert (target_at ex_ds_input WekaContainerModeS3 "n1" = None) as -> by (vm_compute; reflexivity).
      vm_compute. reflexivity.
    + assert (target_at ex_ds_input WekaContainerModeS3 "n2" = None) as -> by (vm_compute; reflexivity).
      vm_compute. reflexivity.
  - assert (Ht : target_at ex_ds_input m name = None).
    { unfold target_at. rewrite Hs. apply Hn in Hout as Ho.
      destruct (decide (m = WekaContainerModeDrive)); [| destruct (decide (m = WekaContainerModeCompute)); [| done]].
      - unfold drive_of. rewrite drive_step_fst. apply outside_ds_names in Ho as (Hz & Hl & _). unfold drive_skip.
        rewrite Hl, Hz. by destruct (decide _).
      - unfold compute_of. by rewrite step_of_outside. }
    assert (H1 : name ∉ ["n1"]) by (rewrite list_elem_of_In in *; cbn in *; tauto).
    assert (H0 : name ∉ []) by apply not_elem_of_nil.
    rewrite Ht. apply list_elem_of_In in Hm. destruct Hm as [<-|[<-|[<-|[]]]].
    + rewrite (live_on_nodes ex_ds_next ["n1"] _ name ex_next_drive H1). exact (eq_sym (live_on_nodes ex_ds_input ["n1"] _ name ex_now_drive H1)).
    + rewrite (live_on_nodes ex_ds_next ["n1"; "n2"] _ name ex_next_compute Hout). exact (eq_sym (live_on_nodes ex_ds_input [] _ name ex_now_compute H0)).
    + rewrite (live_on_nodes ex_ds_next [] _ name ex_next_s3 H0). exact (eq_sym (live_on_nodes ex_ds_input [] _ name ex_now_s3 H0)).
Qed.


Lemma buildDaemonsetContainers_built_witness :
  ex_ds_pass = (ex_ds_pass.1.1.1.1, ex_ds_pass.1.1.1.2, ex_ds_pass.1.1.2, ex_ds_pass.1.2, ex_ds_pass.2) /\
  NoDup ((fun c => (mode c, GetNodeAffinity c)) <$> ex_ds_pass.1.1.1.1).
Proof.
  assert (H : ex_ds_pass = (ex_ds_pass.1.1.1.1, ex_ds_pass.1.1.1.2, ex_ds_pass.1.1.2, ex_ds_pass.1.2, ex_ds_pass.2))
    by (vm_compute; reflexivity).
  split; [exact H |].
  exact (proj1 (buildDaemonsetContainers_built ex_ds_spec ex_meta None ex_no_node ex_no_capacity ex_operator_config ex_ds_guid
    ex_want (ex_server [ex_ds_own]) ex_ds_input [ex_ds_own] _ _ _ _ _ H)).
Defined.

Lemma raiseDaemonsetContainer_safe_witness :
  let r := raiseDaemonsetContainer ex_ds_spec (ex_server [ex_ds_own]) ex_ds_own (ex_target 0) false false in
  let c' := default ex_ds_own r.1.1 in
  r = (Some c', r.1.2, r.2) /\ r.2 = None /\
  exists j latest, (j < DefaultRetry_Steps)%nat /\ at_get (ex_server [ex_ds_own] (cn_Name ex_ds_own) j) = Ok latest /\
    cs_NumCores (cn_Spec latest) <= cs_NumCores (cn_Spec c').
Proof.
  intros r c'. assert (H : r = (Some c', r.1.2, r.2)) by (vm_compute; reflexivity). split; [exact H |].
  destruct (raiseDaemonsetContainer_safe ex_ds_spec (ex_server [ex_ds_own]) ex_ds_own (ex_target 0) false false c' r.1.2 r.2
    (or_introl eq_refl) H) as (H1 & j & latest & H2 & H3 & H4 & H5 & H6 & _).
  split; [exact H1 |]. exists j, latest. split_and!; [exact H2 | exact H3 | exact H6].
Defined.
