(* ===== verification/Creation.v ===== *)
(** * Building the containers of a cluster (wekacluster/steps_cluster_creation.go)

    How many containers of each role a cluster wants, the containers that are missing, the planner's compute
    containers, the reaping of containers that cannot be scheduled, the reaction to a node that no longer
    matches a selector, and the readiness gate before the cluster is formed (funcs_clusterization.go). What
    the API server answers is an argument; events and logging are left out. *)

From S2P Require Import Prelude Fmt Types Sizing Ports Strategies VirtualDrives.
From S2P Require Import Api Nodes Templates Inventory Apply Daemonset.

(** ** How many containers *)

(** Constants of config/env.go. *)
Definition FormClusterMaxComputeContainers : Z := 10.
Definition FormClusterMaxDriveContainers : Z := 10.
Definition MaxContainersDeletedOnSelectorMismatch : nat := 4.

Definition GetMinValue (a b : Z) : Z := if decide (a < b) then a else b.

(** The order roles are built in. *)
Definition wekaContainerRoles : list string :=
  ["drive"; "compute"; "s3"; "envoy"; "nfs"; "smbw"; "telemetry"; "data-services"].

(** [discovery.SelectContainersByRole] *)
Definition SelectContainersByRole (containers : list Container) (role : string) : list Container :=
  filter (fun c => mode c = role) containers.

Definition countHealthyByRole (containers : list Container) (role : string) : Z :=
  len (filter (fun c => mode c = role) (filter (fun c => (IsUnhealthy c).1 = false) containers)).

(** The cluster: its sizing spec, whether the ClusterCreated condition is true, and the number of telemetry
    exports when [spec.telemetry] is set. *)
Section creation.
Context (cfg : OperatorConfig) (meta : cluster_meta) (spec : ClusterSpec) (formed : bool) (exports : option Z).

Definition desiredRoleCounts (containers : list Container) (nums : IntPerWekaRole) : gmap string Z :=
  if negb formed then
    {[ "compute" := GetMinValue (role_Compute nums) FormClusterMaxComputeContainers;
       "drive" := GetMinValue (role_Drive nums) FormClusterMaxDriveContainers ]}
  else
    let envoys :=
      if S3ActsAsDaemonset spec then
        len (filter (fun c => going_away c = false) (SelectContainersByRole containers WekaContainerModeS3))
      else role_S3 nums in
    let want : gmap string Z :=
      {[ "compute" := role_Compute nums; "drive" := role_Drive nums; "s3" := role_S3 nums; "envoy" := envoys;
         "nfs" := role_Nfs nums; "smbw" := role_Smbw nums ]} in
    let want := match exports with
      | Some n => if decide (n > 0) then <["telemetry" := role_Compute nums]> want else want
      | None => want
      end in
    if decide (role_DataServices nums > 0) then
      if decide (GetDataServicesFeCores (csp_Dynamic spec) <> 0) then want
      else <["data-services" := role_DataServices nums]> want
    else want.

(** ** Building them *)

Context (wekahome : option string).
(** What [GetContainerHugepages] reads. *)
Context (get_node : string -> res string Node) (capacityGiB : WekaClusterTemplate -> res string Z).
(** Fresh identifiers for the names: of the k-th container of a role, and of the compute container of a node. *)
Context (role_guid : string -> nat -> string) (node_guid : string -> string).

(** [container.Spec.NodeAffinity = pin] when there is one. *)
Definition pin_if (pin : option string) (c : Container) : Container :=
  match pin with Some node => pin_container node None c | None => c end.

(** The loop of [buildRoleContainers]: [n] turns from the k-th on; a pin is used up only by a container that
    was built. *)
Fixpoint build_count (template : ClusterTemplate) (hp : ContainerHugepages) (role : string) (n k : nat)
    (nodePins : list string) : list Container * list string :=
  match n with
  | O => ([], [])
  | S n =>
      let name := Sprintf "%s-%s" [ArgS role; ArgS (role_guid role k)] in
      match NewWekaContainerForWekaCluster meta spec wekahome template hp role name with
      | Err e =>
          let '(built, skipped) := build_count template hp role n (S k) nodePins in
          (built, Sprintf "role %s container %s: %s" [ArgS role; ArgS name; ArgS e] :: skipped)
      | Ok c =>
          let '(built, skipped) := build_count template hp role n (S k) (tail nodePins) in
          (pin_if (head nodePins) c :: built, skipped)
      end
  end.

Definition buildRoleContainers (containers : list Container) (role : string) (have want : Z)
    (template : ClusterTemplate) (nodePins : list string) : res string (list Container * list string) :=
  match GetContainerHugepages get_node capacityGiB cfg template spec containers role with
  | Err (ErrPlannerManagedComputeHugepages e) => Err e
  | Err e => Ok ([], [Sprintf "role %s hugepages: %s" [ArgS role; ArgS (hp_message e)]])
  | Ok hp => Ok (build_count template hp role (Z.to_nat (want - have)) 0 nodePins)
  end.

Definition computeNodesOccupied (containers : list Container) : gset string :=
  list_to_set (filter (fun n => n <> "") (GetNodeAffinity <$> filter (fun c => mode c = WekaContainerModeCompute) containers)).

Definition unusedComputeNodes (existing : list Container) (planned : list string) : list string :=
  filter (fun n => n ∉ computeNodesOccupied existing) planned.

(** One entry of the layout: nothing, a reason to skip it, or the container. *)
Definition build_layout_entry (occupied : gset string) (totalCount : Z) (entry : ComputeContainerSpec) :
    option (res string Container) :=
  if decide (ccs_Node entry = "") then None
  else if decide (ccs_Node entry ∈ occupied) then None
  else if decide (ccs_HugepagesMiB entry <= 0) then
    Some (Err (Sprintf "compute node %s: planner supplied no hugepages figure" [ArgS (ccs_Node entry)]))
  else
    let hp := ComputeHugepagesFromPlan spec (ccs_HugepagesMiB entry) (ccs_NumCores entry) in
    let template := set_template_cores WekaContainerModeCompute (ccs_NumCores entry) totalCount
                      (GetWekaClusterTemplate cfg (csp_Dynamic spec)).2 in
    let name := Sprintf "%s-%s" [ArgS WekaContainerModeCompute; ArgS (node_guid (ccs_Node entry))] in
    match NewWekaContainerForWekaCluster meta spec wekahome template hp WekaContainerModeCompute name with
    | Err e => Some (Err (Sprintf "compute container %s: %s" [ArgS name; ArgS e]))
    | Ok c => Some (Ok (pin_container (ccs_Node entry) None c))
    end.

Definition results_ok {A} (l : list (res string A)) : list A :=
  omap (fun r => match r with Ok a => Some a | Err _ => None end) l.
Definition results_err {A} (l : list (res string A)) : list string :=
  omap (fun r => match r with Ok _ => None | Err e => Some e end) l.

Definition buildPlannerComputeContainers (layout : list ComputeContainerSpec) (existing : list Container) :
    list Container * list string :=
  let built := omap (build_layout_entry (computeNodesOccupied existing) (len layout)) layout in
  (results_ok built, results_err built).

(** ** All of them *)

(** What came back: an error without containers, a request to wait, or the containers built with the reasons
    of the skipped ones and the errors of the raises. The existing containers as they are by then come along. *)
Inductive missing_result :=
  | MissingError (msg : string) (containers : list Container)
  | MissingWait (msg : string)
  | Missing (built : list Container) (skipped errs : list string) (containers : list Container).

(** The uniform compute path of clusterCapacity: its template and its pins. *)
Definition uniform_template (plan : option CapacityPlan) (nums : IntPerWekaRole) (role : string)
    (containers : list Container) : ClusterTemplate * list string :=
  let template := (GetWekaClusterTemplate cfg (csp_Dynamic spec)).2 in
  match plan with
  | Some plan =>
      if decide (role = WekaContainerModeCompute /\ plan_ComputeCores plan > 0) then
        (set_template_cores WekaContainerModeCompute (plan_ComputeCores plan)
           (if decide (role_Compute nums > 0) then role_Compute nums else role_Compute (tpl_Containers template)) template,
         unusedComputeNodes containers (ComputeNodes plan))
      else (template, [])
  | None => (template, [])
  end.

(** One turn of the loop over the roles; [plan] is the plan of clusterCapacity. *)
Definition build_role (daemonset : bool) (plan : option CapacityPlan) (nums : IntPerWekaRole)
    (want : gmap string Z) (containers : list Container) (role : string) : res string (list Container * list string) :=
  let capacity := bool_decide (is_Some plan) in
  let layout := match plan with Some p => ComputeLayout p | None => [] end in
  if decide ((role = WekaContainerModeDrive /\ (daemonset || capacity) = true) \/
             (role = WekaContainerModeCompute /\ daemonset = true) \/
             (role = WekaContainerModeS3 /\ S3ActsAsDaemonset spec = true)) then Ok ([], [])
  else if decide (capacity = true /\ role = WekaContainerModeCompute /\ len layout > 0) then
    Ok (buildPlannerComputeContainers layout containers)
  else
    let have := countHealthyByRole containers role in
    let want := default 0 (want !! role) in
    if decide (have >= want) then Ok ([], [])
    else
      let '(template, nodePins) := uniform_template plan nums role containers in
      buildRoleContainers containers role have want template nodePins.

Fixpoint build_roles (build : string -> res string (list Container * list string)) (roles : list string) :
    res string (list Container * list string) :=
  match roles with
  | [] => Ok ([], [])
  | role :: roles =>
      match build role with
      | Err e => Err e
      | Ok (built, skipped) =>
          match build_roles build roles with
          | Err e => Err e
          | Ok (built', skipped') => Ok (built ++ built', skipped ++ skipped')
          end
      end
  end.

Definition set_compute (count : Z) (nums : IntPerWekaRole) : IntPerWekaRole := {|
  role_Compute := count; role_Drive := role_Drive nums; role_S3 := role_S3 nums; role_Envoy := role_Envoy nums;
  role_Nfs := role_Nfs nums; role_Smbw := role_Smbw nums; role_DataServices := role_DataServices nums |}.

(** The count-based rest, after the planner-managed roles. *)
Definition build_rest (daemonset : bool) (plan : option CapacityPlan) (nums : IntPerWekaRole)
    (built : list Container) (skipped errs : list string) (containers : list Container) : missing_result :=
  match build_roles (build_role daemonset plan nums (desiredRoleCounts containers nums) containers) wekaContainerRoles with
  | Err e => MissingError e containers
  | Ok (built', skipped') => Missing (built ++ built') (skipped ++ skipped') errs containers
  end.

(** [input] is what [collectDaemonsetInput] answers, [planned] what [planClusterCapacity] answers; [guids] and
    [guid] name the drive containers of the plan and the containers of a daemonset target. *)
Definition BuildMissingContainers (server : string -> nat -> attempt) (input : res string daemonsetInput)
    (guid : dsContainerTarget -> string) (planned : plan_result) (guids : list string) (containers : list Container) :
    missing_result :=
  let nums := GetWekaContainerNumbers cfg (csp_Dynamic spec) in
  if UsesAutoFullDrives (csp_Dynamic spec) then
    match input with
    | Err e => MissingError e containers
    | Ok i =>
        let '(built, computeCount, skipped, errs, containers) :=
          buildDaemonsetContainers spec meta wekahome get_node capacityGiB cfg guid (desiredRoleCounts containers) server i
            containers in
        if decide (errs <> [] /\ len built = 0) then MissingError (errors_Join errs) containers
        else build_rest true None (set_compute computeCount nums) built skipped errs containers
    end
  else if UsesClusterCapacity (csp_Dynamic spec) then
    match buildPlannerDriveContainers cfg meta spec wekahome server guids planned containers with
    | BuildError e containers => MissingError e containers
    | BuildWait e => MissingWait e
    | Built built skipped plan containers =>
        build_rest false (Some plan) (set_compute (plan_ComputeContainers plan) nums) built skipped [] containers
    end
  else build_rest false None nums [] [] [] containers.
End creation.

(** ** Reaping containers that cannot be scheduled *)

(** A condition of a pod; its transition time is in nanoseconds. *)
Record PodCondition := {
  pc_Type : string; pc_Status : string; pc_Reason : string; pc_LastTransitionTime : Z; pc_Message : string }.

Definition PodUnschedulableCondition (conditions : list PodCondition) : option PodCondition :=
  snd <$> list_find (fun c => pc_Type c = "PodScheduled" /\ pc_Status c = "False" /\ pc_Reason c = "Unschedulable") conditions.

(** Writes the state of a spec. *)
Definition spec_state (state : string) (s : ContainerSpec) : ContainerSpec := {|
  cs_Mode := cs_Mode s; cs_Image := cs_Image s; cs_State := state; cs_CpuPolicy := cs_CpuPolicy s;
  cs_NumCores := cs_NumCores s; cs_ExtraCores := cs_ExtraCores s; cs_Resources := cs_Resources s;
  cs_Hugepages := cs_Hugepages s; cs_HugepagesOffset := cs_HugepagesOffset s; cs_HugepagesSize := cs_HugepagesSize s;
  cs_NumDrives := cs_NumDrives s; cs_DriveCapacity := cs_DriveCapacity s; cs_ContainerCapacity := cs_ContainerCapacity s;
  cs_DriveTypesRatio := cs_DriveTypesRatio s; cs_NodeAffinity := cs_NodeAffinity s; cs_RotatePod := cs_RotatePod s;
  cs_NodeSelector := cs_NodeSelector s; cs_DpdkBaseMemoryMb := cs_DpdkBaseMemoryMb s |}.

(** [services.UpdateContainerState]; [patch] is the error of the write, if any. The write names the resource
    version, so that an accepted one applies to the copy at hand. *)
Definition UpdateContainerState (patch : Container -> option string) (state : string) (c : Container) :
    Container * option string :=
  if decide (cs_State (cn_Spec c) = state) then (c, None)
  else match patch c with
       | Some e => (c, Some (Sprintf "failed to patch resource: %s" [ArgS e]))
       | None => (set_spec (spec_state state (cn_Spec c)) c, None)
       end.

Definition SetContainerStateDeleting (patch : Container -> option string) (c : Container) : Container * option string :=
  UpdateContainerState patch ContainerStateDeleting c.

(** The pods at the time [now]. *)
Section reaping.
Context (get_pod : string -> res api_error (list PodCondition)) (patch : Container -> option string) (now timeout : Z).

(** Whether one container is reaped, or the error of reading its pod. *)
Definition unschedulable (c : Container) : res string bool :=
  if going_away c then Ok false
  else if decide (cst_NodeAffinity (cn_Status c) <> "") then Ok false
  else if decide (cs_NodeAffinity (cn_Spec c) = "") then Ok false
  else if decide (mode c <> WekaContainerModeDrive /\ mode c <> WekaContainerModeCompute) then Ok false
  else match get_pod (cn_Name c) with
       | Err (NotFound _) => Ok false
       | Err e => Err (Sprintf "GarbageCollectUnschedulablePlannerContainers: failed to get pod for container %s: %s"
                         [ArgS (cn_Name c); ArgS (error_text e)])
       | Ok conditions =>
           match PodUnschedulableCondition conditions with
           | None => Ok false
           | Some cond => Ok (negb (bool_decide (now - pc_LastTransitionTime cond < timeout)))
           end
       end.

Definition gc_container (c : Container) : Container * option string :=
  match unschedulable c with
  | Err e => (c, Some e)
  | Ok false => (c, None)
  | Ok true =>
      match SetContainerStateDeleting patch c with
      | (c, Some e) => (c, Some (Sprintf "GarbageCollectUnschedulablePlannerContainers: failed to delete container %s: %s"
                                   [ArgS (cn_Name c); ArgS e]))
      | (c, None) => (c, None)
      end
  end.

(** The containers are independent, so the order in which the workers take them does not matter. *)
Definition GarbageCollectUnschedulablePlannerContainers (containers : list Container) : list Container * list string :=
  (fst <$> (gc_container <$> containers), omap snd (gc_container <$> containers)).
End reaping.

(** ** Nodes that no longer match *)

(** [util.NodeSelectorMatchesNode] *)
Definition NodeSelectorMatchesNode (nodeSelector : gmap string string) (node : Node) : bool :=
  bool_decide (map_Forall (fun key value => n_Labels node !! key = Some value) nodeSelector).

Section mismatch.
Context (get_node : string -> res api_error Node) (cluster_selector : gmap string string).

(** The loop that fills [toDelete] and [toUpdate]. *)
Fixpoint scan_mismatch (containers toDelete toUpdate : list Container) : res string (list Container * list Container) :=
  match containers with
  | [] => Ok (toDelete, toUpdate)
  | c :: containers =>
      if decide (MaxContainersDeletedOnSelectorMismatch <= length toDelete)%nat then Ok (toDelete, toUpdate)
      else if going_away c then scan_mismatch containers toDelete toUpdate
      else if decide (mode c = WekaContainerModeEnvoy) then scan_mismatch containers toDelete toUpdate
      else if decide (GetNodeAffinity c = "") then scan_mismatch containers toDelete toUpdate
      else match get_node (GetNodeAffinity c) with
           | Err (NotFound _) => scan_mismatch containers toDelete toUpdate
           | Err e => Err (error_text e)
           | Ok node =>
               if NodeSelectorMatchesNode (cs_NodeSelector (cn_Spec c)) node then scan_mismatch containers toDelete toUpdate
               else if NodeSelectorMatchesNode cluster_selector node
               then scan_mismatch containers toDelete (toUpdate ++ [c])
               else scan_mismatch containers (toDelete ++ [c]) toUpdate
           end
  end.

(** Writes the selector of a spec. *)
Definition spec_selector (selector : gmap string string) (s : ContainerSpec) : ContainerSpec := {|
  cs_Mode := cs_Mode s; cs_Image := cs_Image s; cs_State := cs_State s; cs_CpuPolicy := cs_CpuPolicy s;
  cs_NumCores := cs_NumCores s; cs_ExtraCores := cs_ExtraCores s; cs_Resources := cs_Resources s;
  cs_Hugepages := cs_Hugepages s; cs_HugepagesOffset := cs_HugepagesOffset s; cs_HugepagesSize := cs_HugepagesSize s;
  cs_NumDrives := cs_NumDrives s; cs_DriveCapacity := cs_DriveCapacity s; cs_ContainerCapacity := cs_ContainerCapacity s;
  cs_DriveTypesRatio := cs_DriveTypesRatio s; cs_NodeAffinity := cs_NodeAffinity s; cs_RotatePod := cs_RotatePod s;
  cs_NodeSelector := selector; cs_DpdkBaseMemoryMb := cs_DpdkBaseMemoryMb s |}.

(** The containers afterwards, when every write is accepted. *)
Definition updateContainersOnNodeSelectorMismatch (containers : list Container) : res string (list Container) :=
  match scan_mismatch containers [] [] with
  | Err e => Err e
  | Ok (toDelete, toUpdate) => Ok ((fun c =>
      if decide (c ∈ toUpdate) then set_spec (spec_selector cluster_selector (cn_Spec c)) c
      else if decide (c ∈ toDelete) then (SetContainerStateDeleting (fun _ => None) c).1
      else c) <$> containers)
  end.
End mismatch.

(** ** Ready to form the cluster (funcs_clusterization.go) *)

Definition Status_Running : string := "Running".
Definition Status_Unhealthy : string := "Unhealthy".

Record ReadyForClusterizationContainers := {
  rc_Drive : list Container; rc_Compute : list Container; rc_Ignored : list Container }.

Definition GetAll (r : ReadyForClusterizationContainers) : list Container := rc_Drive r ++ rc_Compute r.

Section formation.
Context (cfg : OperatorConfig) (spec : ClusterSpec).
(** [ipIsInSubnet] of resources/network.go, over the net package, and [spec.network.deviceSubnets]. *)
Context (ipIsInSubnet : string -> string -> bool) (deviceSubnets : list string).

Definition ContainerHasDevicesInSubnets (c : Container) (subnets : list string) : bool :=
  forallb (fun subnet => existsb (fun ip => ipIsInSubnet ip subnet) (cst_ManagementIps (cn_Status c))) subnets.

(** One turn of the loop. *)
Definition ready_step (r : ReadyForClusterizationContainers) (c : Container) : ReadyForClusterizationContainers :=
  let ignore (r : ReadyForClusterizationContainers) := {|
    rc_Drive := rc_Drive r; rc_Compute := rc_Compute r; rc_Ignored := rc_Ignored r ++ [c] |} in
  if IsMarkedForDeletion c then r
  else if decide (cst_Status (cn_Status c) = Status_Unhealthy) then ignore r
  else if decide (cst_Status (cn_Status c) <> Status_Running) then r
  else
    let r := if decide (len deviceSubnets > 0 /\ ContainerHasDevicesInSubnets c deviceSubnets = false) then ignore r else r in
    {| rc_Drive := if decide (mode c = WekaContainerModeDrive) then rc_Drive r ++ [c] else rc_Drive r;
       rc_Compute := if decide (mode c = WekaContainerModeCompute) then rc_Compute r ++ [c] else rc_Compute r;
       rc_Ignored := rc_Ignored r |}.

Definition getReadyForClusterCreateContainers (containers : list Container) : ReadyForClusterizationContainers :=
  foldl ready_step {| rc_Drive := []; rc_Compute := []; rc_Ignored := [] |} containers.

(** The error to wait on, if any. *)
Definition InitialContainersReady (containers : list Container) : option string :=
  let minDrive := oc_FormClusterMinDriveContainers cfg in
  let minCompute := oc_FormClusterMinComputeContainers cfg in
  let ready := getReadyForClusterCreateContainers containers in
  let drives := len (rc_Drive ready) in
  let computes := len (rc_Compute ready) in
  if decide (drives < minDrive) then
    Some (Sprintf "not enough drive containers ready, expected %d, got %d" [ArgD minDrive; ArgD drives])
  else if decide (computes < minCompute) then
    Some (Sprintf "not enough compute containers ready, expected %d, got %d" [ArgD minCompute; ArgD computes])
  else
    let nums := GetWekaContainerNumbers cfg (csp_Dynamic spec) in
    let expected := GetMinValue (role_Compute nums) FormClusterMaxComputeContainers +
                    GetMinValue (role_Drive nums) FormClusterMaxDriveContainers in
    let got := drives + computes + len (rc_Ignored ready) in
    if decide (got < expected) then
      Some (Sprintf "waiting for all containers to be either ready or ignored before forming the cluster, expected %d, got %d"
              [ArgD expected; ArgD got])
    else None.
End formation.
