(* ===== verification/SpecUpdate.v ===== *)
(** * Propagating the cluster spec to its containers (HandleSpecUpdates of wekacluster/funcs_upgrade.go)

    The sizing part: cores, extra cores, drives, hugepages and DPDK memory of each role, with the node
    selector and the CPU policy, and the record of the spec a container has applied. *)

From S2P Require Import Prelude Fmt Types Sizing Ports Strategies VirtualDrives Api Nodes.
From S2P Require Import Templates Inventory Apply Daemonset Creation InventoryFacts UpgradeFacts ApplyFacts DaemonsetFacts.

(** ** The values of a role *)

Record containerRoleSpec := {
  crs_ExtraCores : Z; crs_NumCores : Z; crs_NumDrives : Z; crs_HugepagesInfo : ContainerHugepages;
  crs_HugepagesDeferred : bool }.

(** The zero value [ContainerHugepages{}]. *)
Definition zero_hugepages : ContainerHugepages := {|
  hp_Mode := ""; hp_Hugepages := 0; hp_HugepagesOffset := 0; hp_HugePageSize := ""; hp_HugepagesUserSet := false;
  hp_HugepagesOffsetUserSet := false; hp_DpdkBaseMemoryMb := 0 |}.

(** The sizing fields, by role: cores and extra cores, the drives of the drive role, the hugepages. *)
Record UpdatableClusterSpec := {
  us_CpuPolicy : string;
  us_Cores : IntPerWekaRole; us_ExtraCores : IntPerWekaRole; us_DriveNumDrives : Z;
  us_ComputeHugepages : ContainerHugepages; us_DriveHugepages : ContainerHugepages;
  us_ComputeHugepagesDeferred : bool; us_DriveHugepagesDeferred : bool;
  us_S3Hugepages : ContainerHugepages; us_NfsHugepages : ContainerHugepages;
  us_DataServicesHugepages : ContainerHugepages; us_SmbwHugepages : ContainerHugepages }.

Definition forRole (s : UpdatableClusterSpec) (role : string) : containerRoleSpec :=
  let mk extra cores drives hp deferred := {|
    crs_ExtraCores := extra; crs_NumCores := cores; crs_NumDrives := drives; crs_HugepagesInfo := hp;
    crs_HugepagesDeferred := deferred |} in
  if decide (role = WekaContainerModeCompute) then
    mk (role_Compute (us_ExtraCores s)) (role_Compute (us_Cores s)) 0 (us_ComputeHugepages s) (us_ComputeHugepagesDeferred s)
  else if decide (role = WekaContainerModeDrive) then
    mk (role_Drive (us_ExtraCores s)) (role_Drive (us_Cores s)) (us_DriveNumDrives s) (us_DriveHugepages s)
       (us_DriveHugepagesDeferred s)
  else if decide (role = WekaContainerModeS3) then
    mk (role_S3 (us_ExtraCores s)) (role_S3 (us_Cores s)) 0 (us_S3Hugepages s) false
  else if decide (role = WekaContainerModeNfs) then
    mk (role_Nfs (us_ExtraCores s)) (role_Nfs (us_Cores s)) 0 (us_NfsHugepages s) false
  else if decide (role = WekaContainerModeDataServices) then
    mk (role_DataServices (us_ExtraCores s)) (role_DataServices (us_Cores s)) 0 (us_DataServicesHugepages s) false
  else if decide (role = WekaContainerModeSmbw) then
    mk (role_Smbw (us_ExtraCores s)) (role_Smbw (us_Cores s)) 0 (us_SmbwHugepages s) false
  else mk 0 0 0 zero_hugepages false.

Section update.
Context (cfg : OperatorConfig) (spec : ClusterSpec).
Context (get_node : string -> res string Node) (capacityGiB : WekaClusterTemplate -> res string Z).

(** The hugepages of a role; [deferrable] roles turn a pending drive allocation into a deferral. *)
Definition role_hugepages (containers : list Container) (deferrable : bool) (role what : string) :
    res string (ContainerHugepages * bool) :=
  match GetContainerHugepages get_node capacityGiB cfg (GetWekaClusterTemplate cfg (csp_Dynamic spec)).2 spec containers role with
  | Ok hp => Ok (hp, false)
  | Err (ErrDriveAllocationPending m) =>
      if deferrable then Ok (zero_hugepages, true)
      else Err (Sprintf "Cannot compute hugepages for %s containers: %s" [ArgS what; ArgS m])
  | Err e => Err (Sprintf "Cannot compute hugepages for %s containers: %s" [ArgS what; ArgS (hp_message e)])
  end.

Definition NewUpdatableClusterSpec (containers : list Container) : res string UpdatableClusterSpec :=
  let tmpl := (GetWekaClusterTemplate cfg (csp_Dynamic spec)).2 in
  let planned := IsPlannerManaged (csp_Dynamic spec) in
  let? compute := (if planned then Ok (zero_hugepages, false) else role_hugepages containers true "compute" "compute") in
  let? drive := (if planned then Ok (zero_hugepages, false) else role_hugepages containers true "drive" "drive") in
  let? s3 := role_hugepages containers false "s3" "s3" in
  let? nfs := role_hugepages containers false "nfs" "nfs" in
  let? dataServices := role_hugepages containers false "data-services" "data services" in
  let? smbw := role_hugepages containers false "smbw" "smbw" in
  Ok {| us_CpuPolicy := csp_CpuPolicy spec; us_Cores := tpl_Cores tmpl; us_ExtraCores := tpl_ExtraCores tmpl;
        us_DriveNumDrives := tpl_NumDrives tmpl;
        us_ComputeHugepages := compute.1; us_DriveHugepages := drive.1;
        us_ComputeHugepagesDeferred := compute.2; us_DriveHugepagesDeferred := drive.2;
        us_S3Hugepages := s3.1; us_NfsHugepages := nfs.1; us_DataServicesHugepages := dataServices.1;
        us_SmbwHugepages := smbw.1 |}.

(** ** One container *)

(** Writes the sizing of a role, extra cores and DPDK memory included. *)
Definition spec_sizing (extra cores drives hugepages offset dpdk : Z) (s : ContainerSpec) : ContainerSpec := {|
  cs_Mode := cs_Mode s; cs_Image := cs_Image s; cs_State := cs_State s; cs_CpuPolicy := cs_CpuPolicy s;
  cs_NumCores := cores; cs_ExtraCores := extra; cs_Resources := cs_Resources s;
  cs_Hugepages := hugepages; cs_HugepagesOffset := offset; cs_HugepagesSize := cs_HugepagesSize s;
  cs_NumDrives := drives; cs_DriveCapacity := cs_DriveCapacity s; cs_ContainerCapacity := cs_ContainerCapacity s;
  cs_DriveTypesRatio := cs_DriveTypesRatio s; cs_NodeAffinity := cs_NodeAffinity s; cs_RotatePod := cs_RotatePod s;
  cs_NodeSelector := cs_NodeSelector s; cs_DpdkBaseMemoryMb := dpdk |}.

(** [floor]: a container that holds more than the template is never cut. *)
Definition floor_to (keepLarger : bool) (cur tmpl : Z) : Z := if keepLarger then Z.max cur tmpl else tmpl.

Definition keeps_larger (rv : containerRoleSpec) (role : string) (cores drives : Z) : bool :=
  bool_decide (role = WekaContainerModeDrive \/ role = WekaContainerModeCompute) &&
  bool_decide (cores > crs_NumCores rv \/ drives > crs_NumDrives rv).

(** The sizing block. *)
Definition update_sizing (rv : containerRoleSpec) (s : ContainerSpec) : ContainerSpec :=
  let role := cs_Mode s in
  let hp := crs_HugepagesInfo rv in
  let coresUpdated := bool_decide (crs_NumCores rv > cs_NumCores s) in
  let cores := if coresUpdated then crs_NumCores rv else cs_NumCores s in
  let drivesUpdated := bool_decide (crs_NumDrives rv > cs_NumDrives s) in
  let drives := if drivesUpdated then crs_NumDrives rv else cs_NumDrives s in
  let dpdkChanged := bool_decide (hp_DpdkBaseMemoryMb hp > 0 /\ cs_DpdkBaseMemoryMb s <> hp_DpdkBaseMemoryMb hp) in
  let dpdk := if dpdkChanged then hp_DpdkBaseMemoryMb hp else cs_DpdkBaseMemoryMb s in
  let keepLarger := keeps_larger rv role cores drives in
  let updated := coresUpdated || dpdkChanged || drivesUpdated in
  let hugepages := if updated then floor_to keepLarger (cs_Hugepages s) (hp_Hugepages hp) else cs_Hugepages s in
  let offset := if updated then floor_to keepLarger (cs_HugepagesOffset s) (hp_HugepagesOffset hp)
                else cs_HugepagesOffset s in
  let hugepages := if ShouldPropagateHugepages cfg hp then floor_to keepLarger hugepages (hp_Hugepages hp) else hugepages in
  let offset := if ShouldPropagateHugepagesOffset cfg hp then floor_to keepLarger offset (hp_HugepagesOffset hp) else offset in
  spec_sizing (crs_ExtraCores rv) cores drives hugepages offset dpdk s.

Definition planner_sized (role : string) : bool :=
  IsPlannerManaged (csp_Dynamic spec) && bool_decide (role = WekaContainerModeDrive \/ role = WekaContainerModeCompute).

(** Writes the CPU policy. *)
Definition spec_policy (policy : string) (s : ContainerSpec) : ContainerSpec := {|
  cs_Mode := cs_Mode s; cs_Image := cs_Image s; cs_State := cs_State s; cs_CpuPolicy := policy;
  cs_NumCores := cs_NumCores s; cs_ExtraCores := cs_ExtraCores s; cs_Resources := cs_Resources s;
  cs_Hugepages := cs_Hugepages s; cs_HugepagesOffset := cs_HugepagesOffset s; cs_HugepagesSize := cs_HugepagesSize s;
  cs_NumDrives := cs_NumDrives s; cs_DriveCapacity := cs_DriveCapacity s; cs_ContainerCapacity := cs_ContainerCapacity s;
  cs_DriveTypesRatio := cs_DriveTypesRatio s; cs_NodeAffinity := cs_NodeAffinity s; cs_RotatePod := cs_RotatePod s;
  cs_NodeSelector := cs_NodeSelector s; cs_DpdkBaseMemoryMb := cs_DpdkBaseMemoryMb s |}.

(** The fields written into a container's spec, and whether its sizing was deferred. *)
Definition update_spec (us : UpdatableClusterSpec) (s : ContainerSpec) : ContainerSpec * bool :=
  let role := cs_Mode s in
  let s := if decide (role <> WekaContainerModeEnvoy) then spec_selector (GetNodeSelectorForRole spec role) s else s in
  let s := spec_policy (us_CpuPolicy us) s in
  let rv := forRole us role in
  let plannerManaged := planner_sized role in
  let sizingDeferred := negb plannerManaged && crs_HugepagesDeferred rv in
  (if decide (plannerManaged = false /\ crs_HugepagesDeferred rv = false) then update_sizing rv s else s, sizingDeferred).

(** What the server answers for one container: the copy it has, the error of the patch, the answer to the
    second read and the error of the status patch. *)
Record update_answer := {
  ua_get : res api_error Container; ua_patch : option api_error; ua_reread : res api_error Container;
  ua_status : option api_error }.

(** One container with its last applied spec hash, as the server has them afterwards, and the error. *)
Definition handle_container (us : UpdatableClusterSpec) (specHash : string) (ans : update_answer)
    (c : Container) (lastApplied : string) : Container * string * option api_error :=
  if decide (lastApplied = specHash) then (c, lastApplied, None)
  else match ua_get ans with
       | Err (NotFound _) => (c, lastApplied, None)
       | Err e => (c, lastApplied, Some e)
       | Ok c =>
           let '(s, deferred) := update_spec us (cn_Spec c) in
           match ua_patch ans with
           | Some e => (c, lastApplied, Some e)
           | None =>
               let c := set_spec s c in
               if deferred then (c, lastApplied, None)
               else match ua_reread ans with
                    | Err (NotFound _) => (c, lastApplied, None)
                    | Err e => (c, lastApplied, Some e)
                    | Ok c => match ua_status ans with
                              | Some e => (c, lastApplied, Some e)
                              | None => (c, specHash, None)
                              end
                    end
           end
       end.
End update.

(** ** Theorems *)

Lemma floor_to_idem k cur tmpl : floor_to k (floor_to k cur tmpl) tmpl = floor_to k cur tmpl.
Proof. unfold floor_to. destruct k; lia. Qed.

Lemma floor_to_keep cur tmpl : cur <= floor_to true cur tmpl.
Proof. unfold floor_to. lia. Qed.

(** The sizing fields of a spec. *)
Definition sizing_of (s : ContainerSpec) : Z * Z * Z * Z * Z * Z :=
  (cs_ExtraCores s, cs_NumCores s, cs_NumDrives s, cs_Hugepages s, cs_HugepagesOffset s, cs_DpdkBaseMemoryMb s).

Lemma update_sizing_cores cfg rv s :
  cs_NumCores (update_sizing cfg rv s) = Z.max (cs_NumCores s) (crs_NumCores rv).
Proof. simpl. case_bool_decide; lia. Qed.

Lemma update_sizing_drives cfg rv s :
  cs_NumDrives (update_sizing cfg rv s) = Z.max (cs_NumDrives s) (crs_NumDrives rv).
Proof. simpl. case_bool_decide; lia. Qed.

(** What the sizing block writes into the hugepages: the template's figure, floored at the current one for a
    container that is larger, or nothing. *)
Lemma update_sizing_hugepages cfg rv s :
  let s' := update_sizing cfg rv s in
  let k := keeps_larger rv (cs_Mode s) (cs_NumCores s') (cs_NumDrives s') in
  (cs_Hugepages s' = floor_to k (cs_Hugepages s) (hp_Hugepages (crs_HugepagesInfo rv)) \/
   cs_Hugepages s' = cs_Hugepages s /\ cs_NumCores s' = cs_NumCores s /\ cs_NumDrives s' = cs_NumDrives s) /\
  (cs_HugepagesOffset s' = floor_to k (cs_HugepagesOffset s) (hp_HugepagesOffset (crs_HugepagesInfo rv)) \/
   cs_HugepagesOffset s' = cs_HugepagesOffset s /\ cs_NumCores s' = cs_NumCores s /\ cs_NumDrives s' = cs_NumDrives s).
Proof.
  cbv zeta. unfold update_sizing, spec_sizing; cbn [cs_Hugepages cs_HugepagesOffset cs_NumCores cs_NumDrives].
  set (k := keeps_larger _ _ _ _).
  destruct (bool_decide (crs_NumCores rv > cs_NumCores s)), (bool_decide (crs_NumDrives rv > cs_NumDrives s)),
    (bool_decide (hp_DpdkBaseMemoryMb _ > 0 /\ _)), (ShouldPropagateHugepages _ _), (ShouldPropagateHugepagesOffset _ _);
    cbn [orb]; rewrite ?floor_to_idem; auto.
Qed.

Lemma update_sizing_idem cfg rv s : update_sizing cfg rv (update_sizing cfg rv s) = update_sizing cfg rv s.
Proof.
  set (s' := update_sizing cfg rv s).
  pose proof (update_sizing_cores cfg rv s) as Hc. pose proof (update_sizing_drives cfg rv s) as Hd.
  fold s' in Hc, Hd.
  assert (Hdpdk : bool_decide (hp_DpdkBaseMemoryMb (crs_HugepagesInfo rv) > 0 /\
                    cs_DpdkBaseMemoryMb s' <> hp_DpdkBaseMemoryMb (crs_HugepagesInfo rv)) = false).
  { apply bool_decide_eq_false. unfold s'. simpl. case_bool_decide as E; naive_solver lia. }
  assert (Hk : keeps_larger rv (cs_Mode s') (cs_NumCores s') (cs_NumDrives s') =
    keeps_larger rv (cs_Mode s) (cs_NumCores s') (cs_NumDrives s')) by done.
  assert (H1 : (if ShouldPropagateHugepages cfg (crs_HugepagesInfo rv)
    then floor_to (keeps_larger rv (cs_Mode s') (cs_NumCores s') (cs_NumDrives s')) (cs_Hugepages s') (hp_Hugepages (crs_HugepagesInfo rv))
    else cs_Hugepages s') = cs_Hugepages s').
  { destruct (ShouldPropagateHugepages cfg (crs_HugepagesInfo rv)) eqn:Ep; [|done]. rewrite Hk. unfold s', update_sizing at 3 4.
    cbn [cs_Hugepages spec_sizing]. rewrite Ep. apply floor_to_idem. }
  assert (H2 : (if ShouldPropagateHugepagesOffset cfg (crs_HugepagesInfo rv)
    then floor_to (keeps_larger rv (cs_Mode s') (cs_NumCores s') (cs_NumDrives s')) (cs_HugepagesOffset s') (hp_HugepagesOffset (crs_HugepagesInfo rv))
    else cs_HugepagesOffset s') = cs_HugepagesOffset s').
  { destruct (ShouldPropagateHugepagesOffset cfg (crs_HugepagesInfo rv)) eqn:Ep; [|done]. rewrite Hk. unfold s', update_sizing at 3 4.
    cbn [cs_HugepagesOffset spec_sizing]. rewrite Ep. apply floor_to_idem. }
  assert (He : crs_ExtraCores rv = cs_ExtraCores s') by done. clearbody s'.
  unfold update_sizing at 1. rewrite Hdpdk.
  rewrite !(bool_decide_eq_false_2 (crs_NumCores rv > _)), !(bool_decide_eq_false_2 (crs_NumDrives rv > _)) by lia.
  cbn [orb]. rewrite H1, H2, He. by destruct s'.
Qed.

Section theorems.
Context (cfg : OperatorConfig) (spec : ClusterSpec).
Abbreviation update := (update_spec cfg spec).

(** The fields written before the sizing. *)
Definition update_base (us : UpdatableClusterSpec) (s : ContainerSpec) : ContainerSpec :=
  spec_policy (us_CpuPolicy us)
    (if decide (cs_Mode s <> WekaContainerModeEnvoy) then spec_selector (GetNodeSelectorForRole spec (cs_Mode s)) s else s).

Lemma update_base_fields us s :
  cs_Mode (update_base us s) = cs_Mode s /\ sizing_of (update_base us s) = sizing_of s /\
  update_base us (update_base us s) = update_base us s.
Proof.
  unfold update_base. destruct (decide (cs_Mode s <> WekaContainerModeEnvoy)) as [H|H]; split_and!; try done; simpl.
  - by rewrite decide_True.
  - by rewrite decide_False.
Qed.

Lemma update_spec_sized us s :
  planner_sized spec (cs_Mode s) = false -> crs_HugepagesDeferred (forRole us (cs_Mode s)) = false ->
  update us s = (update_sizing cfg (forRole us (cs_Mode s)) (update_base us s), false).
Proof. intros Hp Hd. unfold update_spec. by rewrite Hp, Hd, decide_True. Qed.

Lemma update_spec_kept us s :
  planner_sized spec (cs_Mode s) = true \/ crs_HugepagesDeferred (forRole us (cs_Mode s)) = true ->
  (update us s).1 = update_base us s.
Proof. intros H. unfold update_spec. rewrite decide_False; [done|]. intros [H1 H2]. destruct H; congruence. Qed.


(** Propagation settles in one write: updating an updated container changes nothing. *)
Lemma update_spec_idem us s : update us (update us s).1 = update us s.
Proof.
  destruct (update_base_fields us s) as (Hm & _ & Hi).
  destruct (planner_sized spec (cs_Mode s)) eqn:Hp; [|destruct (crs_HugepagesDeferred (forRole us (cs_Mode s))) eqn:Hd].
  3:{ rewrite (update_spec_sized us s) by done. cbn [fst].
      set (u := update_sizing cfg _ _). assert (Hmu : cs_Mode u = cs_Mode s) by done.
      rewrite (update_spec_sized us u) by by rewrite Hmu. f_equal. rewrite Hmu.
      replace (update_base us u) with u; [apply update_sizing_idem|].
      unfold update_base. rewrite Hmu. unfold u, update_base. case_decide; done. }
  all: assert (Hu : forall s, cs_Mode s = cs_Mode (update_base us s)) by (intros; by destruct (update_base_fields us s0)).
  all: apply injective_projections.
  1,3: rewrite !update_spec_kept; rewrite ?update_spec_kept, <- ?Hu, ?Hi; auto.
  all: rewrite update_spec_kept by auto; unfold update_spec; cbn [snd]; by rewrite <- Hu.
Qed.

(** A recorded spec is an applied spec: when the hash of a container becomes the current one, its sizing was not
    deferred, and the copy the server then has is a fixed point of the propagation, provided nothing else wrote
    between the patch and the second read. *)
Theorem handle_container_recorded us specHash ans c lastApplied c0 c' err :
  ua_get ans = Ok c0 ->
  ua_reread ans = Ok (set_spec (update us (cn_Spec c0)).1 c0) ->
  lastApplied <> specHash ->
  handle_container cfg spec us specHash ans c lastApplied = (c', specHash, err) ->
  err = None /\ update us (cn_Spec c') = (cn_Spec c', false).
Proof.
  intros Hg Hr Hne. unfold handle_container. rewrite decide_False, Hg by done.
  destruct (update us (cn_Spec c0)) as [s d] eqn:Hu. rewrite Hr. simpl.
  destruct (ua_patch ans); [intros [= ???]; naive_solver|].
  destruct d; [intros [= ???]; naive_solver|]. destruct (ua_status ans); [intros [= ???]; naive_solver|].
  intros [= <- <-]. split; [done|]. simpl. pose proof (update_spec_idem us (cn_Spec c0)) as Hi. by rewrite Hu in Hi.
Qed.

(** ** The reservation agrees with the size *)

Lemma NewUpdatable_drive get_node capacityGiB containers us :
  NewUpdatableClusterSpec cfg spec get_node capacityGiB containers = Ok us ->
  IsPlannerManaged (csp_Dynamic spec) = false ->
  let tmpl := (GetWekaClusterTemplate cfg (csp_Dynamic spec)).2 in
  us_DriveHugepagesDeferred us = false /\ us_DriveNumDrives us = tpl_NumDrives tmpl /\ us_Cores us = tpl_Cores tmpl /\
  GetContainerHugepages get_node capacityGiB cfg tmpl spec containers "drive" = Ok (us_DriveHugepages us).
Proof.
  intros H Hp tmpl. revert H. unfold NewUpdatableClusterSpec. rewrite Hp. fold tmpl.
  destruct (role_hugepages _ _ _ _ _ true "compute" "compute") as [compute|]; [|done].
  destruct (role_hugepages _ _ _ _ _ true "drive" "drive") as [drive|] eqn:Hd; [|done]. cbn [res_bind].
  do 4 (destruct (role_hugepages _ _ _ _ _ false _ _); [cbn [res_bind]|done]). intros [= <-]. simpl.
  revert Hd. unfold role_hugepages. fold tmpl.
  destruct (GetContainerHugepages _ _ _ _ _ _ "drive") as [hp|e] eqn:Hg.
  - intros [= <-]. done.
  - exfalso. revert Hg. unfold GetContainerHugepages. rewrite decide_False by naive_solver. by rewrite decide_True.
Qed.

(** A drive container of a count-based cluster, no larger than the template and reserved for its size, is still
    reserved for its size after the propagation, whatever was raised. *)
Theorem drive_reservation_kept get_node capacityGiB containers us s :
  NewUpdatableClusterSpec cfg spec get_node capacityGiB containers = Ok us ->
  IsPlannerManaged (csp_Dynamic spec) = false -> cs_Mode s = WekaContainerModeDrive ->
  let t := default zero_template (csp_Dynamic spec) in
  let cons := ConstraintsForClusterSpec cfg spec in
  let s' := (update us s).1 in
  wt_DriveHugepages t <= 0 ->
  cs_NumCores s <= role_Drive (us_Cores us) -> cs_NumDrives s <= us_DriveNumDrives us ->
  cs_Hugepages s = DriveContainerHugepagesMiB (cs_NumCores s) (cs_NumDrives s) cons ->
  cs_NumCores s' = role_Drive (us_Cores us) /\ cs_NumDrives s' = us_DriveNumDrives us /\
  cs_Hugepages s' = DriveContainerHugepagesMiB (cs_NumCores s') (cs_NumDrives s') cons.
Proof.
  intros Hus Hp Hm t cons s' Hpin Hc Hd Hh.
  destruct (NewUpdatable_drive _ _ _ _ Hus Hp) as (Hdef & Hnd & Hco & Hg).
  destruct (drive_hugepages_agree _ _ _ _ _ _ _ Hg) as (_ & _ & Hauto & _). fold t cons in Hauto.
  rewrite <- Hco, <- Hnd in Hauto. specialize (Hauto Hpin).
  assert (Hrv : forRole us (cs_Mode s) = {| crs_ExtraCores := role_Drive (us_ExtraCores us);
    crs_NumCores := role_Drive (us_Cores us); crs_NumDrives := us_DriveNumDrives us;
    crs_HugepagesInfo := us_DriveHugepages us; crs_HugepagesDeferred := us_DriveHugepagesDeferred us |}) by by rewrite Hm.
  assert (Hps : planner_sized spec (cs_Mode s) = false) by (unfold planner_sized; by rewrite Hp).
  unfold s'. rewrite update_spec_sized; [|done|by rewrite Hrv]. cbn [fst]. rewrite Hrv. set (rv := Build_containerRoleSpec _ _ _ _ _).
  pose proof (update_sizing_cores cfg rv (update_base us s)) as H1. pose proof (update_sizing_drives cfg rv (update_base us s)) as H2.
  pose proof (update_sizing_hugepages cfg rv (update_base us s)) as [H3 _].
  set (u := update_sizing cfg rv _) in *.
  assert (Hb : cs_NumCores (update_base us s) = cs_NumCores s /\ cs_NumDrives (update_base us s) = cs_NumDrives s /\
    cs_Hugepages (update_base us s) = cs_Hugepages s) by (unfold update_base; by case_decide).
  destruct Hb as (B1 & B2 & B3). rewrite B1 in *. rewrite B2 in *. rewrite B3 in *.
  change (crs_NumCores rv) with (role_Drive (us_Cores us)) in H1. change (crs_NumDrives rv) with (us_DriveNumDrives us) in H2.
  assert (E1 : cs_NumCores u = role_Drive (us_Cores us)) by lia. assert (E2 : cs_NumDrives u = us_DriveNumDrives us) by lia.
  split; [done|]. split; [done|]. rewrite E1, E2 in *.
  assert (Hk : keeps_larger rv (cs_Mode (update_base us s)) (role_Drive (us_Cores us)) (us_DriveNumDrives us) = false).
  { unfold keeps_larger. rewrite (bool_decide_eq_false_2 (_ > _ \/ _)) by (simpl; lia). apply andb_false_r. }
  rewrite Hk in H3. destruct H3 as [->|(-> & E3 & E4)]; [exact Hauto|]. by rewrite Hh, E3, E4.
Qed.
End theorems.

(** ** Concrete clusters *)

(** A count-based template: drive containers of 2 cores and 6 drives, S3 containers of 2 cores. *)
Definition ex_count_template : WekaClusterTemplate := {|
  wt_ComputeContainers := 6; wt_DriveContainers := 6; wt_S3Containers := 2; wt_NfsContainers := 0;
  wt_SmbwContainers := 0; wt_DataServicesContainers := 0;
  wt_ComputeCores := 2; wt_DriveCores := 2; wt_S3Cores := 2; wt_EnvoyCores := 0; wt_NfsCores := 0;
  wt_SmbwCores := 0; wt_DataServicesCores := 0;
  wt_ComputeExtraCores := 0; wt_DriveExtraCores := 0; wt_S3ExtraCores := 0; wt_NfsExtraCores := 0;
  wt_SmbwExtraCores := 0; wt_DataServicesExtraCores := None; wt_DataServicesFeCores := None;
  wt_NumDrives := 6; wt_DriveCapacity := 0; wt_ContainerCapacity := 0; wt_ClusterCapacity := "";
  wt_DriveTypesRatio := None;
  wt_DriveHugepages := 0; wt_DriveHugepagesOffset := 0; wt_ComputeHugepages := 3000; wt_ComputeHugepagesOffset := 0;
  wt_S3FrontendHugepages := 0; wt_S3FrontendHugepagesOffset := 0; wt_NfsFrontendHugepages := 0;
  wt_NfsFrontendHugepagesOffset := 0; wt_SmbwFrontendHugepages := 0; wt_SmbwFrontendHugepagesOffset := 0;
  wt_DataServicesHugepages := 0; wt_DataServicesHugepagesOffset := 0 |}.

(** The cluster selects nodes with the label role=storage, and compute containers nodes with role=compute. *)
Definition ex_count_spec : ClusterSpec := {|
  csp_Dynamic := Some ex_count_template; csp_StripeWidth := 3; csp_RedundancyLevel := 2; csp_HotSpare := 1;
  csp_CpuPolicy := "auto"; csp_Image := "weka:4.4"; csp_NodeSelector := {["role" := "storage"]};
  csp_RoleNodeSelector := {| rns_Compute := Some {["role" := "compute"]}; rns_Drive := None; rns_S3 := None; rns_Nfs := None;
    rns_Smbw := None; rns_DataServices := None |};
  csp_FailureDomain := None; csp_Overrides := None |}.

Definition ex_updatable : UpdatableClusterSpec :=
  match NewUpdatableClusterSpec ex_operator_config ex_count_spec ex_no_node ex_no_capacity [] with
  | Ok us => us
  | Err _ => {| us_CpuPolicy := ""; us_Cores := set_compute 0 (GetWekaContainerNumbers ex_operator_config None);
      us_ExtraCores := set_compute 0 (GetWekaContainerNumbers ex_operator_config None); us_DriveNumDrives := 0;
      us_ComputeHugepages := zero_hugepages; us_DriveHugepages := zero_hugepages; us_ComputeHugepagesDeferred := true;
      us_DriveHugepagesDeferred := true; us_S3Hugepages := zero_hugepages; us_NfsHugepages := zero_hugepages;
      us_DataServicesHugepages := zero_hugepages; us_SmbwHugepages := zero_hugepages |}
  end.

(** The spec of a container of a mode with its cores, drives and hugepages. *)
Definition ex_sized (m : string) (cores drives hugepages : Z) : ContainerSpec := {|
  cs_Mode := m; cs_Image := "weka:4.4"; cs_State := ContainerStateActive; cs_CpuPolicy := "auto";
  cs_NumCores := cores; cs_ExtraCores := 0; cs_Resources := None; cs_Hugepages := hugepages; cs_HugepagesOffset := 200;
  cs_HugepagesSize := "2Mi"; cs_NumDrives := drives; cs_DriveCapacity := 0; cs_ContainerCapacity := 0;
  cs_DriveTypesRatio := None; cs_NodeAffinity := "n1"; cs_RotatePod := false; cs_NodeSelector := ∅;
  cs_DpdkBaseMemoryMb := 64 |}.

Lemma drive_reservation_kept_witness :
  let s := ex_sized WekaContainerModeDrive 1 2 1864 in
  cs_Hugepages s = DriveContainerHugepagesMiB 1 2 (ConstraintsForClusterSpec ex_operator_config ex_count_spec) /\
  cs_Hugepages (update_spec ex_operator_config ex_count_spec ex_updatable s).1 =
    DriveContainerHugepagesMiB 2 6 (ConstraintsForClusterSpec ex_operator_config ex_count_spec).
Proof.
  intros s.
  destruct (drive_reservation_kept ex_operator_config ex_count_spec ex_no_node ex_no_capacity [] ex_updatable s)
    as (H1 & H2 & H3); [vm_compute; reflexivity..|vm_compute; discriminate|vm_compute; discriminate
    |vm_compute; discriminate|vm_compute; reflexivity|].
  split; [vm_compute; reflexivity|]. rewrite H3, H1, H2. vm_compute. reflexivity.
Defined.

(** The answers of a server on which nothing else writes. *)
Definition ex_answer (c : Container) : update_answer := {|
  ua_get := Ok c; ua_patch := None;
  ua_reread := Ok (set_spec (update_spec ex_operator_config ex_count_spec ex_updatable (cn_Spec c)).1 c); ua_status := None |}.

Lemma handle_container_recorded_witness :
  let c := set_spec (ex_sized WekaContainerModeDrive 1 2 1864) ex_ds_own in
  let '(c', hash, err) := handle_container ex_operator_config ex_count_spec ex_updatable "v2" (ex_answer c) c "v1" in
  hash = "v2" /\ err = None /\
  update_spec ex_operator_config ex_count_spec ex_updatable (cn_Spec c') = (cn_Spec c', false) /\
  cn_Spec c' <> cn_Spec c.
Proof.
  intros c.
  destruct (handle_container ex_operator_config ex_count_spec ex_updatable "v2" (ex_answer c) c "v1") as [[c' h] err] eqn:H.
  assert (Hh : h = "v2") by (revert H; vm_compute; by intros [= _ <- _]). subst h.
  destruct (handle_container_recorded ex_operator_config ex_count_spec ex_updatable "v2" (ex_answer c) c "v1" c c' err)
    as [H1 H2]; [reflexivity|reflexivity|discriminate|exact H|].
  split; [reflexivity|]. split; [exact H1|]. split; [exact H2|]. revert H. vm_compute. intros [= <- _]. discriminate.
Defined.

(** ** Departures from the comments *)

(** A drive container of 4 cores and 2 drives under a template of 2 cores and 6 drives is given the 6 drives, with
    the larger of its reservation and the template's, which is less than 4 cores and 6 drives need. *)
Example mixed_raise_underreserves :
  let cons := ConstraintsForClusterSpec ex_operator_config ex_count_spec in
  let s := ex_sized WekaContainerModeDrive 4 2 (DriveContainerHugepagesMiB 4 2 cons) in
  let s' := (update_spec ex_operator_config ex_count_spec ex_updatable s).1 in
  cs_NumCores s' = 4 /\ cs_NumDrives s' = 6 /\ cs_Hugepages s' < DriveContainerHugepagesMiB 4 6 cons.
Proof. vm_compute. auto. Qed.

(** An S3 container of 4 cores keeps its cores when s3Cores is lowered to 2, and loses the hugepages of two. *)
Example lowered_s3_cores_cut_hugepages :
  let s := ex_sized WekaContainerModeS3 4 0 (1400 * 4 + 64 * 4) in
  let s' := (update_spec ex_operator_config ex_count_spec ex_updatable s).1 in
  cs_NumCores s' = 4 /\ cs_Hugepages s' = 1400 * 2 + 64 * 2.
Proof. vm_compute. auto. Qed.

(** A telemetry container is created without a selector, since it follows compute; the first propagation gives it
    the selector of the cluster, which the nodes of the compute containers need not match. *)
Example telemetry_gets_a_selector :
  let s := ex_sized WekaContainerModeTelemetry 0 0 0 in
  factory_selector ex_count_spec WekaContainerModeTelemetry = ∅ /\
  cs_NodeSelector (update_spec ex_operator_config ex_count_spec ex_updatable s).1 = {["role" := "storage"]} /\
  GetNodeSelectorForRole ex_count_spec WekaContainerModeCompute = {["role" := "compute"]}.
Proof. vm_compute. auto. Qed.
