(* ===== verification/CreationFacts.v ===== *)
(** * Theorems on the building of containers

    The counts of a count-based pass, the compute cores of a clusterCapacity pass, the limits of the selector
    clean-up, and the readiness gate. *)

From S2P Require Import Prelude Fmt Types Sizing NodeState Planner Scenarios Correctness Ports Strategies VirtualDrives Api.
From S2P Require Import Nodes Templates Inventory InventoryFacts Upgrade UpgradeFacts Apply ApplyFacts Daemonset DaemonsetFacts Creation SpecUpdate.

(** ** Counts *)

(** What the loop of [buildRoleContainers] builds when the factory does not fail. *)
Lemma build_count_ok meta spec role_guid template hp role n k pins :
  let '(built, skipped) := build_count meta spec None role_guid template hp role n k pins in
  length built = n /\ skipped = [] /\ Forall (fun c => mode c = role) built.
Proof.
  revert k pins. induction n as [|n IH]; intros k pins; [done|].
  cbn [build_count]. unfold NewWekaContainerForWekaCluster.
  destruct (role_sizing template role) as [[? ?] [[? ?] ?]].
  specialize (IH (S k) (tail pins)). destruct (build_count _ _ _ _ _ _ _ _ _ (tail pins)) as [built skipped].
  destruct IH as (H1 & H2 & H3). simpl. split; [by rewrite H1|]. split; [done|]. constructor; [|done].
  by destruct (head pins).
Qed.

Lemma build_count_mode meta spec wekahome role_guid template hp role n k pins :
  Forall (fun c => mode c = role) (build_count meta spec wekahome role_guid template hp role n k pins).1.
Proof.
  revert k pins. induction n as [|n IH]; intros k pins; [done|].
  cbn [build_count]. unfold NewWekaContainerForWekaCluster. destruct (role_sizing template role) as [[? ?] [[? ?] ?]]. destruct wekahome as [e|].
  - specialize (IH (S k) pins). by destruct (build_count _ _ _ _ _ _ _ _ _ pins).
  - specialize (IH (S k) (tail pins)). destruct (build_count _ _ _ _ _ _ _ _ _ (tail pins)) as [built skipped].
    simpl in *. constructor; [|done]. by destruct (head pins).
Qed.

Lemma layout_entry_mode cfg meta spec wekahome node_guid occupied n e c :
  build_layout_entry cfg meta spec wekahome node_guid occupied n e = Some (Ok c) ->
  mode c = WekaContainerModeCompute /\ GetNodeAffinity c = ccs_Node e /\ cs_NumCores (cn_Spec c) = ccs_NumCores e /\
  IsUnhealthy c = (false, "") /\ ccs_Node e <> "" /\ ccs_Node e ∉ occupied.
Proof.
  unfold build_layout_entry. case_decide as H1; [done|]. case_decide as H2; [done|]. case_decide; [done|].
  unfold NewWekaContainerForWekaCluster. destruct wekahome; [done|]. intros [= <-]. split_and!; try done.
  unfold GetNodeAffinity. simpl. by rewrite decide_True.
Qed.

(** Every container a role builds is of that role. *)
Lemma build_role_mode cfg meta spec wekahome get_node capacityGiB role_guid node_guid ds plan nums want l role built skipped :
  build_role cfg meta spec wekahome get_node capacityGiB role_guid node_guid ds plan nums want l role = Ok (built, skipped) ->
  Forall (fun c => mode c = role) built.
Proof.
  unfold build_role. case_decide; [by intros [= <- _]|]. case_decide as Hl.
  { destruct Hl as (_ & -> & _). intros [= <- _]. apply Forall_forall. intros c Hc.
    apply list_elem_of_omap in Hc as (r & Hr & Hc). destruct r as [c'|]; [|done]. injection Hc as ->.
    apply list_elem_of_omap in Hr as (e & _ & He). by apply layout_entry_mode in He as (? & _). }
  case_decide; [by intros [= <- _]|]. destruct (uniform_template _ _ _ _ _) as [template pins]. unfold buildRoleContainers.
  destruct (GetContainerHugepages _ _ _ _ _ _ _) as [hp|[m|m|m]]; try (by intros [= <- _]).
  intros [= Hb]. match type of Hb with build_count _ _ _ _ ?t ?hp ?r ?n ?k ?pins = _ =>
    pose proof (build_count_mode meta spec wekahome role_guid t hp r n k pins) as Hc end.
  by rewrite Hb in Hc.
Qed.

(** The loop over distinct roles: what it builds for one of them, and for the others. *)
Lemma build_roles_filter build roles built skipped :
  NoDup roles ->
  (forall role b s, build role = Ok (b, s) -> Forall (fun c => mode c = role) b) ->
  build_roles build roles = Ok (built, skipped) ->
  forall role, filter (fun c => mode c = role) built =
    (if decide (role ∈ roles) then match build role with Ok (b, _) => b | Err _ => [] end else []) /\
  (role ∈ roles -> exists b s, build role = Ok (b, s) /\ s ⊆ skipped).
Proof.
  intros Hnd Hm. revert built skipped. induction roles as [|r roles IH]; intros built skipped; simpl.
  { intros [= <- <-] role. split; [done|set_solver]. }
  apply NoDup_cons in Hnd as [Hr Hnd].
  destruct (build r) as [[b s]|] eqn:Hb; [|done]. destruct (build_roles build roles) as [[b' s']|]; [|done].
  intros [= <- <-] role. destruct (IH Hnd _ _ eq_refl role) as [IH1 IH2]. rewrite filter_app, IH1.
  specialize (Hm _ _ _ Hb). destruct (decide (role = r)) as [->|Hne].
  - rewrite (decide_True (P := _ ∈ r :: _)) by set_solver. rewrite decide_False, app_nil_r by done.
    split; [|intros _; exists b, s; split; [done|set_solver]]. rewrite Hb. clear -Hm. induction Hm; [done|].
    rewrite filter_cons, decide_True by done. by f_equal.
  - replace (filter (fun c => mode c = role) b) with (@nil Container).
    2:{ symmetry. clear -Hm Hne. induction Hm; [done|]. rewrite filter_cons, decide_False by congruence. done. }
    simpl. split.
    + destruct (decide (role ∈ roles)), (decide (role ∈ r :: roles)); try done; set_solver.
    + intros [?|Hin]%elem_of_cons; [done|]. destruct (IH2 Hin) as (b0 & s0 & ? & ?). exists b0, s0. set_solver.
Qed.

Lemma NoDup_roles : NoDup wekaContainerRoles.
Proof. by_decide (NoDup wekaContainerRoles). Qed.

(** The sentinel of planner-managed compute only comes up in act-as-daemonset mode. *)
Lemma hugepages_not_planner get_node capacityGiB cfg template spec l role m :
  UsesAutoFullDrives (csp_Dynamic spec) = false ->
  GetContainerHugepages get_node capacityGiB cfg template spec l role <> Err (ErrPlannerManagedComputeHugepages m).
Proof.
  intros Hauto. unfold GetContainerHugepages. repeat case_decide; try done.
  destruct (calculateDynamicComputeHugepages _ _ _ _ _ _) as [hp|e] eqn:He; [done|].
  destruct e as [e|e|e]; try done. exfalso. revert He. unfold calculateDynamicComputeHugepages, total_raw_capacity.
  destruct (UsesClusterCapacity _); [destruct (capacityGiB _); [|done]|].
  { destruct (EffectiveProtection _ _ _ _ _ _) as [[sw rl] hs]. case_decide; done. }
  rewrite Hauto. case_decide; [by case_decide|]. case_decide; [by case_decide|]. case_decide; [|done].
  unfold ComputeCapacityFromMostRecentDriveContainerAllocation. case_decide; [done|].
  destruct (sort_by _ _) as [|ref ?]; [done|]. case_decide; [done|].
  destruct (nodeDriveCapacityBySerial _ _) as [caps|]; [|done]. destruct (sum_serials _ _ _ _); [|done]. by case_decide.
Qed.

Lemma S3ActsAsDaemonset_auto spec : UsesAutoFullDrives (csp_Dynamic spec) = false -> S3ActsAsDaemonset spec = false.
Proof. unfold S3ActsAsDaemonset. destruct (csp_Dynamic spec); [|done]. intros ->. apply andb_false_r. Qed.

(** Outside act-as-daemonset mode the loop over the roles comes to its end. *)
Lemma build_roles_total cfg meta spec wekahome get_node capacityGiB role_guid node_guid plan nums want l roles :
  UsesAutoFullDrives (csp_Dynamic spec) = false ->
  exists built skipped,
  build_roles (build_role cfg meta spec wekahome get_node capacityGiB role_guid node_guid false plan nums want l) roles
  = Ok (built, skipped).
Proof.
  intros Hauto. induction roles as [|r roles (b' & s' & IH)]; [by exists [], []|]. cbn [build_roles]. rewrite IH.
  assert (Hok : exists b s, build_role cfg meta spec wekahome get_node capacityGiB role_guid node_guid false plan nums want l r
    = Ok (b, s)).
  { unfold build_role. case_decide; [by eexists _, _|].
    case_decide; [rewrite (surjective_pairing (buildPlannerComputeContainers _ _ _ _ _ _ _)); by eexists _, _|].
    case_decide; [by eexists _, _|]. destruct (uniform_template _ _ _ _ _) as [template pins]. unfold buildRoleContainers.
    pose proof (fun m => hugepages_not_planner get_node capacityGiB cfg template spec l r m Hauto) as Hne.
    destruct (GetContainerHugepages _ _ _ _ _ _ _) as [hp|[m|m|m]]; try by eexists _, _.
    - rewrite (surjective_pairing (build_count _ _ _ _ _ _ _ _ _ _)). by eexists _, _.
    - by destruct (Hne m). }
  destruct Hok as (b & s & ->). by eexists _, _.
Qed.

(** What one role of a count-based pass adds: nothing beyond what is missing, and all of it unless it is skipped. *)
Lemma build_role_count cfg meta spec get_node capacityGiB role_guid node_guid nums want l role b s :
  UsesAutoFullDrives (csp_Dynamic spec) = false ->
  build_role cfg meta spec None get_node capacityGiB role_guid node_guid false None nums want l role = Ok (b, s) ->
  let have := countHealthyByRole l role in
  have + len b <= Z.max have (default 0 (want !! role)) /\
  (s = [] -> have + len b = Z.max have (default 0 (want !! role))).
Proof.
  intros Hauto. unfold build_role. rewrite decide_False.
  2:{ rewrite (S3ActsAsDaemonset_auto _ Hauto). intros [[_ H]|[[_ H]|[_ H]]]; done. }
  rewrite decide_False by (intros [H _]; done). case_decide as Hd; [intros [= <- <-]; simpl; lia|].
  simpl uniform_template. unfold buildRoleContainers.
  destruct (GetContainerHugepages _ _ _ _ _ _ _) as [hp|[m|m|m]]; try (intros [= <- <-]; simpl; split; [lia|done]); [|done].
  intros [= Hb]. match type of Hb with build_count _ _ _ _ ?t _ _ ?n _ _ = _ =>
    pose proof (build_count_ok meta spec role_guid t hp role n 0 []) as Hc end.
  rewrite Hb in Hc. destruct Hc as (Hlen & _ & _). rewrite Hlen. simpl. lia.
Qed.

(** A count-based pass builds what is missing: it returns, and for every role the healthy containers and the new
    ones together never exceed the larger of what there was and what is wanted, and reach it when nothing was
    skipped. Before the cluster is formed only drive and compute containers are built, up to ten of each. *)
Theorem BuildMissingContainers_counts cfg meta spec formed exports get_node capacityGiB role_guid node_guid
    server input guid planned guids l :
  UsesAutoFullDrives (csp_Dynamic spec) = false -> UsesClusterCapacity (csp_Dynamic spec) = false ->
  exists built skipped,
  BuildMissingContainers cfg meta spec formed exports None get_node capacityGiB role_guid node_guid
    server input guid planned guids l = Missing built skipped [] l /\
  forall role,
  let have := countHealthyByRole l role in
  let want := default 0 (desiredRoleCounts spec formed exports l (GetWekaContainerNumbers cfg (csp_Dynamic spec)) !! role) in
  let new := len (filter (fun c => mode c = role) built) in
  have + new <= Z.max have want /\
  (skipped = [] -> role ∈ wekaContainerRoles -> have + new = Z.max have want) /\
  (formed = false -> have + new <= Z.max have 10 /\ (new <> 0 -> role = "drive" \/ role = "compute")).
Proof.
  intros Hauto Hcap. unfold BuildMissingContainers. rewrite Hauto, Hcap. unfold build_rest.
  set (nums := GetWekaContainerNumbers _ _). set (want := desiredRoleCounts _ _ _ _ _).
  destruct (build_roles_total cfg meta spec None get_node capacityGiB role_guid node_guid None nums want l wekaContainerRoles Hauto)
    as (built & skipped & Hb). rewrite Hb. exists built, skipped. split; [done|]. intros role. cbv zeta.
  set (have := countHealthyByRole l role). set (w := default 0 (want !! role)).
  set (new := len (filter (fun c => mode c = role) built)).
  destruct (build_roles_filter _ _ _ _ NoDup_roles
    (build_role_mode cfg meta spec None get_node capacityGiB role_guid node_guid false None nums want l) Hb role) as [Hf Hs].
  assert (Hcount : have + new <= Z.max have w /\ (skipped = [] -> role ∈ wekaContainerRoles -> have + new = Z.max have w)).
  { unfold new. rewrite Hf. case_decide as Hin; [|simpl; split; [lia|done]].
    destruct (Hs Hin) as (b & s & Hr & Hsub). rewrite Hr.
    destruct (build_role_count _ _ _ _ _ _ _ _ _ _ _ _ _ Hauto Hr) as [H1 H2]. split; [done|].
    intros -> _. apply H2. destruct s as [|x s]; [done|]. set_solver. }
  destruct Hcount as [H1 H2]. split; [done|]. split; [done|]. intros Hform.
  assert (Hw : w <= 10 /\ (role = "drive" \/ role = "compute" \/ w = 0)).
  { unfold w, want, desiredRoleCounts. rewrite Hform. simpl. rewrite lookup_insert, lookup_singleton. unfold GetMinValue,
      FormClusterMaxComputeContainers, FormClusterMaxDriveContainers.
    repeat case_decide; simpl; split; try lia; auto. }
  assert (0 <= have) by (unfold have, countHealthyByRole; lia).
  split; [lia|]. intros Hn. destruct Hw as [_ [Hr|[Hr|Hr]]]; [by left|by right|lia].
Qed.

(** ** The compute containers of a capacity plan *)

Lemma compute_targets_lookup layout e :
  NoDup (ccs_Node <$> layout) -> e ∈ layout -> ccs_Node e <> "" -> compute_targets layout !! ccs_Node e = Some e.
Proof.
  unfold compute_targets. induction layout as [|x l IH] using rev_ind; [by intros _ ?%elem_of_nil|].
  rewrite fmap_app, foldl_app. intros (Hl & Hx & _)%NoDup_app He Hn. simpl.
  apply elem_of_app in He as [He| ->%list_elem_of_singleton].
  - assert (ccs_Node x <> ccs_Node e).
    { intros E. apply (Hx (ccs_Node e)); [by apply list_elem_of_fmap_2|]. simpl. rewrite E. by left. }
    case_decide; [|by apply IH]. rewrite lookup_insert_ne by done. by apply IH.
  - rewrite decide_True by done. by rewrite lookup_insert_eq.
Qed.

(** A healthy compute container on the node of an entry has the cores of the entry afterwards. *)
Lemma computed_cores spec targets c e :
  mode c = WekaContainerModeCompute -> (IsUnhealthy c).1 = false -> targets !! GetNodeAffinity c = Some e ->
  ccs_NumCores e <= cs_NumCores (cn_Spec (computed spec targets c)).
Proof.
  intros Hm Hh Ht. unfold computed. rewrite decide_False, Hh, Ht by (intros H; by apply H).
  unfold grow_compute_mutate. case_decide; [simpl; lia|]. case_decide; simpl; lia.
Qed.

Lemma elem_of_occupied l n :
  n ∈ computeNodesOccupied l <->
  n <> "" /\ exists c, c ∈ l /\ mode c = WekaContainerModeCompute /\ GetNodeAffinity c = n.
Proof.
  unfold computeNodesOccupied. rewrite elem_of_list_to_set, list_elem_of_filter, list_elem_of_fmap.
  setoid_rewrite list_elem_of_filter. naive_solver.
Qed.

(** What the layout path builds, when every entry names its node and its hugepages: one container per entry on a
    node that is not occupied, with its cores. *)
Lemma layout_built cfg meta spec node_guid existing layout :
  Forall (fun e => ccs_Node e <> "" /\ 0 < ccs_HugepagesMiB e) layout ->
  let r := buildPlannerComputeContainers cfg meta spec None node_guid layout existing in
  r.2 = [] /\
  (fun c => (GetNodeAffinity c, cs_NumCores (cn_Spec c))) <$> r.1 =
  (fun e => (ccs_Node e, ccs_NumCores e)) <$> filter (fun e => ccs_Node e ∉ computeNodesOccupied existing) layout.
Proof.
  intros Hall. unfold buildPlannerComputeContainers. set (occ := computeNodesOccupied existing). generalize (len layout).
  intros n. cbv zeta. cbn [fst snd]. unfold results_ok, results_err. induction Hall as [|e l [Hn Hh] _ IH]; [done|].
  destruct IH as [IH1 IH2]. cbn [omap list_omap]. rewrite filter_cons.
  destruct (decide (ccs_Node e ∈ occ)) as [Hin|Hin].
  - replace (build_layout_entry cfg meta spec None node_guid occ n e) with (@None (res string Container)).
    2:{ unfold build_layout_entry. by rewrite decide_False, decide_True by done. }
    by rewrite decide_False by (intros H; by apply H).
  - destruct (build_layout_entry cfg meta spec None node_guid occ n e) as [[c|m]|] eqn:Hb.
    + apply layout_entry_mode in Hb as (_ & Hc1 & Hc2 & _). rewrite decide_True by done. cbn [omap list_omap].
      rewrite !fmap_cons, IH2, Hc1, Hc2. done.
    + exfalso. revert Hb. unfold build_layout_entry. rewrite decide_False, decide_False, decide_False by (done || lia). done.
    + exfalso. revert Hb. unfold build_layout_entry. rewrite decide_False, decide_False, decide_False by (done || lia). done.
Qed.

Abbreviation num_cores := (fun c => cs_NumCores (cn_Spec c)).
Abbreviation computes l := (filter (fun c => mode c = WekaContainerModeCompute) l).

(** With what it builds, the layout path supplies the cores of the whole layout, on distinct nodes. *)
Lemma layout_supplies cfg meta spec node_guid layout l :
  NoDup (ccs_Node <$> layout) -> Forall (fun e => ccs_Node e <> "" /\ 0 < ccs_HugepagesMiB e) layout ->
  (forall c, c ∈ l -> mode c = WekaContainerModeCompute ->
     0 <= cores_of c /\ forall e, e ∈ layout -> ccs_Node e = GetNodeAffinity c -> ccs_NumCores e <= cores_of c) ->
  let built := (buildPlannerComputeContainers cfg meta spec None node_guid layout l).1 in
  sumZ (ccs_NumCores <$> layout) <= sumZ (num_cores <$> computes l ++ built) /\
  (NoDup (GetNodeAffinity <$> computes l) -> NoDup (GetNodeAffinity <$> computes l ++ built)).
Proof.
  intros Hnd Hall Hl built. destruct (layout_built cfg meta spec node_guid l layout Hall) as [_ Hb]. fold built in Hb.
  rewrite Forall_forall in Hall. set (new := filter (fun e => ccs_Node e ∉ computeNodesOccupied l) layout) in *.
  assert (Hnodes : GetNodeAffinity <$> built = ccs_Node <$> new).
  { pose proof (f_equal (fmap fst) Hb) as H. by rewrite <- !list_fmap_compose in H. }
  assert (Hcores : num_cores <$> built = ccs_NumCores <$> new).
  { pose proof (f_equal (fmap snd) Hb) as H. by rewrite <- !list_fmap_compose in H. }
  split.
  - rewrite fmap_app, sumZ_app, Hcores, (sumZ_filter_split _ (fun e => ccs_Node e ∈ computeNodesOccupied l)).
    apply Z.add_le_mono_r. apply (sumZ_cover ccs_Node GetNodeAffinity).
    + apply (sublist_NoDup _ (ccs_Node <$> layout)); [done|]. apply fmap_sublist, sublist_filter.
    + apply Forall_forall. intros c [Hm Hc]%list_elem_of_filter. by apply Hl.
    + intros e [(_ & c & Hc & Hm & Hn)%elem_of_occupied He]%list_elem_of_filter. exists c.
      split; [by apply list_elem_of_filter|]. split; [done|]. by apply Hl.
  - intros Hc. rewrite fmap_app, Hnodes. apply NoDup_app. split; [done|]. split.
    + intros n (c & -> & [Hm Hin]%list_elem_of_filter)%list_elem_of_fmap (e & He & [Hocc Hel]%list_elem_of_filter)%list_elem_of_fmap.
      apply Hocc. apply elem_of_occupied. split; [by apply Hall|]. by exists c.
    + apply (sublist_NoDup _ (ccs_Node <$> layout)); [done|]. apply fmap_sublist, sublist_filter.
Qed.

Section capacity_pass.
Context (cfg : OperatorConfig) (meta : cluster_meta) (spec : ClusterSpec) (formed : bool) (exports : option Z).
Context (get_node : string -> res string Node) (capacityGiB : WekaClusterTemplate -> res string Z).
Context (role_guid : string -> nat -> string) (node_guid : string -> string) (server : string -> nat -> attempt).
Context (guids : list string) (containers : list Container) (fds : gmap string string).
Context (desired : DesiredCapacity) (scheme : ProtectionScheme).
Context (inventory : list NodeCapacity) (computeNodes : option (gmap string bool)) (cons : CapacityConstraints).

Let drives := ExistingDrives (csp_FailureDomain spec) containers fds.
Let plan := PlanCapacity desired scheme drives (ExistingCompute containers) inventory computeNodes cons.

(** The containers after the in-place growth of the plan. *)
Definition after_growth : list Container :=
  computed spec (compute_targets (ComputeLayout plan)) <$> (grown spec (Grow plan) <$> containers).

Lemma growth_pass :
  NoDup (cn_Name <$> containers) -> inputs_ok desired drives cons -> Infeasible plan = "" -> calm server containers ->
  exists created skipped,
  buildPlannerDriveContainers cfg meta spec None server guids (Planned plan) containers =
    Built created skipped plan after_growth /\ Forall (fun c => mode c = WekaContainerModeDrive) created.
Proof.
  intros Hnd Hin Hf Hcalm.
  pose proof (feasible_grow_names desired scheme drives (ExistingCompute containers) inventory computeNodes cons Hin Hf) as Hgn.
  unfold buildPlannerDriveContainers, applyPlannerDriveGrowth. rewrite drive_growth_calm by done.
  rewrite decide_False by (intros H; by apply H). rewrite compute_growth_computed.
  - rewrite decide_False by (intros H; by apply H). eexists _, _. split; [done|]. apply Forall_forall.
    intros c (r & Hr & Hc)%list_elem_of_omap. destruct r as [c'|]; [|done]. injection Hc as ->.
    apply list_elem_of_lookup in Hr as [i Hi]. apply lookup_zip_with_Some in Hi as (g & pc & Hc & _).
    revert Hc. unfold build_drive, NewWekaContainerForWekaCluster. simpl. by intros [= ->].
  - apply keys_of_names. rewrite <- list_fmap_compose. erewrite list_fmap_ext; [exact Hnd|]. intros i c _. apply grown_name.
  - intros c (c0 & -> & Hc0)%list_elem_of_fmap Hm. rewrite grown_mode in Hm.
    unfold plan, drives. rewrite grown_compute by done. by apply Hcalm.
Qed.

(** The compute containers afterwards are the old ones, brought to their entries. *)
Lemma after_growth_computes :
  NoDup (cn_Name <$> containers) -> inputs_ok desired drives cons ->
  computes after_growth = computed spec (compute_targets (ComputeLayout plan)) <$> computes containers.
Proof.
  intros Hnd Hin. unfold after_growth. set (targets := compute_targets _).
  assert (H : forall l, l ⊆ containers ->
    computes (computed spec targets <$> (grown spec (Grow plan) <$> l)) = computed spec targets <$> computes l);
    [|by apply H].
  induction l as [|c l IH]; intros Hsub; [done|]. rewrite !fmap_cons, !filter_cons, IH by set_solver.
  destruct (computed_same spec targets (grown spec (Grow plan) c)) as (_ & Hm & _). rewrite grown_mode in Hm.
  destruct (decide (mode c = WekaContainerModeCompute)) as [Hc|Hc].
  - rewrite decide_True by by rewrite Hm. rewrite fmap_cons. f_equal.
    unfold plan, drives. rewrite grown_compute; [done..| |done]. set_solver.
  - by rewrite decide_False by by rewrite Hm.
Qed.

Lemma existing_compute_nodes l :
  Forall (fun c => mode c = WekaContainerModeCompute -> IsMarkedForDeletion c = false) l ->
  ecc_Node <$> ExistingCompute l = GetNodeAffinity <$> computes l.
Proof.
  unfold ExistingCompute. induction 1 as [|c l Hc _ IH]; [done|]. cbn [omap list_omap]. rewrite filter_cons.
  unfold existing_compute at 1. destruct (decide (mode c = WekaContainerModeCompute)) as [Hm|Hm].
  - rewrite decide_False by (intros H; by apply H). unfold IsUnhealthy. rewrite (Hc Hm). simpl. by f_equal.
  - rewrite decide_True by done. exact IH.
Qed.

End capacity_pass.

(** ** The clean-up of mismatched nodes *)

Section mismatch.
Context (get_node : string -> res api_error Node) (selector : gmap string string).

(** The container is on a node that does not match its selector, and that matches the cluster's or does not. *)
Definition mismatched (cluster : bool) (c : Container) : Prop :=
  going_away c = false /\ exists node, get_node (GetNodeAffinity c) = Ok node /\
  NodeSelectorMatchesNode (cs_NodeSelector (cn_Spec c)) node = false /\ NodeSelectorMatchesNode selector node = cluster.

Lemma scan_mismatch_spec l d u d' u' :
  scan_mismatch get_node selector l d u = Ok (d', u') ->
  (length d <= MaxContainersDeletedOnSelectorMismatch)%nat -> Forall (mismatched false) d -> Forall (mismatched true) u ->
  (length d' <= MaxContainersDeletedOnSelectorMismatch)%nat /\ Forall (mismatched false) d' /\ Forall (mismatched true) u'.
Proof.
  revert d u. induction l as [|c l IH]; intros d u; cbn [scan_mismatch]; [by intros [= <- <-]|].
  case_decide as Hmax; [by intros [= <- <-]|]. destruct (going_away c) eqn:Hga; [apply IH|]. case_decide; [apply IH|].
  case_decide; [apply IH|]. destruct (get_node (GetNodeAffinity c)) as [node|[m|m|m]] eqn:Hn; [|apply IH|done|done].
  destruct (NodeSelectorMatchesNode (cs_NodeSelector (cn_Spec c)) node) eqn:Hm; [apply IH|].
  assert (Hmis : mismatched (NodeSelectorMatchesNode selector node) c) by (split; [done|]; by exists node).
  destruct (NodeSelectorMatchesNode selector node) eqn:Hs; intros Heq Hd Hdel Hupd; apply IH in Heq; try done.
  - apply Forall_app. split; [done|]. by apply Forall_singleton.
  - rewrite length_app. simpl. lia.
  - apply Forall_app. split; [done|]. by apply Forall_singleton.
Qed.

Lemma filter_zip_fmap_length {A} (f : A -> A) (P : A -> Prop) (Q : A * A -> Prop) `{HP : !forall x, Decision (P x)}
    `{HQ : !forall p, Decision (Q p)} l :
  (forall x, x ∈ l -> Q (x, f x) -> P x) -> (length (filter Q (zip l (f <$> l))) <= length (filter P l))%nat.
Proof.
  induction l as [|x l IH]; intros H; [done|]. rewrite fmap_cons. cbn [zip zip_with]. rewrite !filter_cons. simpl.
  assert (IHl := IH ltac:(intros y Hy; apply H; by right)).
  destruct (decide (Q (x, f x))) as [Hq|], (decide (P x)) as [|Hp]; simpl; try lia.
  destruct Hp. apply H; [by left|done].
Qed.

(** One pass of the clean-up is bounded and justified: at most four containers change their state; every container
    that changes is on a node that exists and no longer matches its selector; it is given the cluster's selector
    when the node matches that one, and then matches its node, and is deleted otherwise; nothing else changes. *)
Theorem mismatch_pass_bounded l l' :
  NoDup l -> updateContainersOnNodeSelectorMismatch get_node selector l = Ok l' ->
  (length (filter (fun p => cs_State (cn_Spec p.1) <> cs_State (cn_Spec p.2)) (zip l l')) <= 4)%nat /\
  Forall2 (fun c c' => c' = c \/
    (mismatched true c /\ c' = set_spec (spec_selector selector (cn_Spec c)) c /\ ~ mismatched true c') \/
    (mismatched false c /\ c' = set_spec (spec_state ContainerStateDeleting (cn_Spec c)) c)) l l'.
Proof.
  intros Hnd. unfold updateContainersOnNodeSelectorMismatch.
  destruct (scan_mismatch get_node selector l [] []) as [[d u]|] eqn:Hs; [|done].
  apply scan_mismatch_spec in Hs as (Hd & Hdel & Hupd); [|simpl; lia|done|done]. rewrite Forall_forall in Hdel, Hupd.
  intros [= <-]. split.
  - etrans; [apply (filter_zip_fmap_length _ (fun c => c ∈ d))|].
    { intros c _. case_decide; [done|]. by case_decide. }
    etrans; [|exact Hd]. apply submseteq_length, NoDup_submseteq; [by apply NoDup_filter|].
    intros c [Hc _]%list_elem_of_filter. done.
  - apply Forall2_fmap_r, Forall_Forall2_diag, Forall_forall. intros c _. unfold compose. cbv beta.
    destruct (decide (c ∈ u)) as [Hu|Hu].
    + right; left. split; [by apply Hupd|]. split; [done|]. intros (_ & node & _ & Hm & Hc). simpl in Hm. congruence.
    + destruct (decide (c ∈ d)) as [Hdc|Hdc]; [|by left]. right; right. split; [by apply Hdel|].
      unfold SetContainerStateDeleting, UpdateContainerState. rewrite decide_False; [done|]. intros E.
      destruct (Hdel c Hdc) as [Hga _]. revert Hga. unfold going_away, IsDeletingState. rewrite bool_decide_eq_true_2 by done.
      by rewrite orb_true_r.
Qed.
End mismatch.

(** ** Readiness *)

Section formation.
Context (cfg : OperatorConfig) (spec : ClusterSpec) (ipIsInSubnet : string -> string -> bool) (subnets : list string).

(** A container that is up: not deleted and running. *)
Definition up (c : Container) : bool := negb (IsMarkedForDeletion c) && bool_decide (cst_Status (cn_Status c) = Status_Running).

(** The device subnets decide nothing: with any subnets, the containers the cluster is formed of are all the running
    drive and compute containers. *)
Lemma ready_all_running l :
  let r := getReadyForClusterCreateContainers ipIsInSubnet subnets l in
  rc_Drive r = filter (fun c => up c = true /\ mode c = WekaContainerModeDrive) l /\
  rc_Compute r = filter (fun c => up c = true /\ mode c = WekaContainerModeCompute) l.
Proof.
  unfold getReadyForClusterCreateContainers. induction l as [|c l IH] using rev_ind; [done|]. cbv zeta in *.
  rewrite foldl_app, !filter_app. destruct IH as [<- <-]. set (r := foldl _ _ l). cbn [foldl]. unfold ready_step, up.
  rewrite !filter_cons, !filter_nil.
  assert (Hno : forall b m, b = false ->
    (if decide (b = true /\ mode c = m) then [c] else []) = @nil Container) by (intros b m ->; by rewrite decide_False by naive_solver).
  destruct (IsMarkedForDeletion c); [by rewrite !Hno, !app_nil_r|].
  destruct (decide (cst_Status (cn_Status c) = Status_Unhealthy)) as [Hu|Hu].
  { rewrite !Hno by (rewrite Hu; done). by rewrite !app_nil_r. }
  destruct (decide (cst_Status (cn_Status c) = Status_Running)) as [Hr|Hr].
  - rewrite (decide_False (P := _ <> Status_Running)) by (intros H; by apply H). rewrite (bool_decide_eq_true_2 _ Hr).
    cbn [negb andb]. assert (Hd : forall m, (if decide (true = true /\ mode c = m) then [c] else []) =
      if decide (mode c = m) then [c] else @nil Container) by (intros m; repeat case_decide; naive_solver).
    rewrite !Hd. cbn [rc_Drive rc_Compute]. split; repeat case_decide; simpl; rewrite ?app_nil_r; done.
  - rewrite (decide_True (P := _ <> Status_Running)) by done. rewrite (bool_decide_eq_false_2 _ Hr).
    by rewrite !Hno, !app_nil_r.
Qed.

(** When the gate lets a cluster be formed, the containers it is formed of are exactly the running drive and compute
    containers that are not being deleted, and there are at least the configured minimum of each. *)
Theorem InitialContainersReady_sound l :
  InitialContainersReady cfg spec ipIsInSubnet subnets l = None ->
  let ready := GetAll (getReadyForClusterCreateContainers ipIsInSubnet subnets l) in
  oc_FormClusterMinDriveContainers cfg <= len (filter (fun c => mode c = WekaContainerModeDrive) ready) /\
  oc_FormClusterMinComputeContainers cfg <= len (filter (fun c => mode c = WekaContainerModeCompute) ready) /\
  forall c, c ∈ ready <->
    c ∈ l /\ up c = true /\ (mode c = WekaContainerModeDrive \/ mode c = WekaContainerModeCompute).
Proof.
  unfold InitialContainersReady, GetAll. destruct (ready_all_running l) as [-> ->].
  set (ds := filter _ l). set (cs := filter _ l). case_decide as H1; [done|]. case_decide as H2; [done|]. intros _. cbv zeta.
  assert (Hf : forall m l, Forall (fun c => mode c = m) l -> filter (fun c => mode c = m) l = l).
  { intros m l' Hl. induction Hl as [|c l' Hc _ IH]; [done|]. rewrite filter_cons, decide_True by done. by rewrite IH. }
  rewrite !filter_app, !length_app. rewrite (Hf WekaContainerModeDrive ds), (Hf WekaContainerModeCompute cs).
  - split; [lia|]. split; [lia|]. intros c. unfold ds, cs. rewrite elem_of_app, !list_elem_of_filter. tauto.
  - apply Forall_forall. by intros c [[_ ?] _]%list_elem_of_filter.
  - apply Forall_forall. by intros c [[_ ?] _]%list_elem_of_filter.
Qed.
End formation.

(** ** Concrete clusters *)

Definition ex_role_guid (role : string) (k : nat) : string := pretty k.

Lemma BuildMissingContainers_counts_witness :
  exists built skipped,
  BuildMissingContainers ex_operator_config ex_meta ex_count_spec false None None ex_no_node ex_no_capacity ex_role_guid
    (fun n => n) (ex_server ex_own) (Err "") ex_ds_guid (PlanWait "") [] ex_own = Missing built skipped [] ex_own /\
  skipped = [] /\
  countHealthyByRole ex_own "drive" + len (filter (fun c => mode c = "drive") built) = 6.
Proof.
  destruct (BuildMissingContainers_counts ex_operator_config ex_meta ex_count_spec false None ex_no_node ex_no_capacity
    ex_role_guid (fun n => n) (ex_server ex_own) (Err "") ex_ds_guid (PlanWait "") [] ex_own) as (built & skipped & H & Hc);
    [vm_compute; reflexivity..|].
  exists built, skipped. split; [exact H|].
  assert (Hs : skipped = []) by (revert H; vm_compute; by intros [= _ <-]). split; [exact Hs|].
  destruct (Hc "drive") as (_ & Heq & _). rewrite Heq; [vm_compute; reflexivity|exact Hs|by left].
Defined.

(** A cluster with a capacity, and nothing else set. *)
Definition ex_capacity_template : WekaClusterTemplate := {|
  wt_ComputeContainers := 0; wt_DriveContainers := 0; wt_S3Containers := 0; wt_NfsContainers := 0;
  wt_SmbwContainers := 0; wt_DataServicesContainers := 0;
  wt_ComputeCores := 0; wt_DriveCores := 0; wt_S3Cores := 0; wt_EnvoyCores := 0; wt_NfsCores := 0;
  wt_SmbwCores := 0; wt_DataServicesCores := 0;
  wt_ComputeExtraCores := 0; wt_DriveExtraCores := 0; wt_S3ExtraCores := 0; wt_NfsExtraCores := 0;
  wt_SmbwExtraCores := 0; wt_DataServicesExtraCores := None; wt_DataServicesFeCores := None;
  wt_NumDrives := 0; wt_DriveCapacity := 0; wt_ContainerCapacity := 0; wt_ClusterCapacity := "60TiB";
  wt_DriveTypesRatio := None;
  wt_DriveHugepages := 0; wt_DriveHugepagesOffset := 0; wt_ComputeHugepages := 0; wt_ComputeHugepagesOffset := 0;
  wt_S3FrontendHugepages := 0; wt_S3FrontendHugepagesOffset := 0; wt_NfsFrontendHugepages := 0;
  wt_NfsFrontendHugepagesOffset := 0; wt_SmbwFrontendHugepages := 0; wt_SmbwFrontendHugepagesOffset := 0;
  wt_DataServicesHugepages := 0; wt_DataServicesHugepagesOffset := 0 |}.
Definition ex_capacity_spec : ClusterSpec := with_dynamic ex_capacity_template ex_cluster_spec.


(** Every node of the example has the label role=storage. *)
Definition ex_labelled (name : string) : res api_error Node := Ok {|
  n_Name := name; n_Labels := {["role" := "storage"]}; n_Unschedulable := false; n_Taints := [];
  n_Conditions := [{| cond_Type := "Ready"; cond_Status := "True" |}];
  n_AllocatableCpuMilli := 64000; n_AllocatableHugepages2Mi := 2 ^ 40; n_AllocatableMemory := 2 ^ 40;
  n_Discovery := Absent; n_FullDrives := Absent; n_BlockedDrives := Absent; n_SharedDrives := Absent;
  n_BlockedPhysicalUuids := Absent |}.

(** A compute container with a selector. *)
Definition ex_selected (name : string) (selector : gmap string string) : Container :=
  let c := ex_compute name "n1" "A" "A" in set_spec (spec_selector selector (cn_Spec c)) c.
Definition ex_stray : list Container := (fun n => ex_selected n {["role" := "old"]}) <$> numbered "c" 6.

Lemma mismatch_pass_bounded_witness :
  exists l', updateContainersOnNodeSelectorMismatch ex_labelled {["role" := "new"]} ex_stray = Ok l' /\
  (length (filter (fun p => cs_State (cn_Spec p.1) <> cs_State (cn_Spec p.2)) (zip ex_stray l')) <= 4)%nat.
Proof.
  eexists. split; [vm_compute; reflexivity|].
  match goal with |- context [zip _ ?l'] =>
    apply (mismatch_pass_bounded ex_labelled {["role" := "new"]} ex_stray l') end;
    [by_decide (NoDup ex_stray)|vm_compute; reflexivity].
Defined.

Definition ex_ready : list Container :=
  ((fun n => ex_drive (String.append "d-" n) n (20 * tib) 4) <$> numbered "n" 5) ++
  ((fun n => ex_compute (String.append "c-" n) n "A" "A") <$> numbered "n" 5).

Lemma InitialContainersReady_sound_witness :
  InitialContainersReady ex_operator_config ex_cluster_spec (fun _ _ => true) [] ex_ready = None /\
  5 <= len (filter (fun c => mode c = WekaContainerModeDrive)
             (GetAll (getReadyForClusterCreateContainers (fun _ _ => true) [] ex_ready))).
Proof.
  split; [vm_compute; reflexivity|].
  destruct (InitialContainersReady_sound ex_operator_config ex_cluster_spec (fun _ _ => true) [] ex_ready) as [H _];
    [vm_compute; reflexivity|exact H].
Defined.

(** ** Departures from what the code means *)

(** Device subnets in which no container has an address: every container is on the ignored list, and the cluster is
    formed of all of them all the same. *)
Example outside_subnets_still_form :
  let outside (_ _ : string) := false in
  let r := getReadyForClusterCreateContainers outside ["10.0.0.0/24"] ex_ready in
  rc_Ignored r = ex_ready /\ GetAll r = ex_ready /\
  InitialContainersReady ex_operator_config ex_cluster_spec outside ["10.0.0.0/24"] ex_ready = None.
Proof. vm_compute. auto. Qed.

(** Six drives are asked for; five run outside the subnets and the sixth is missing. Each of the ten running
    containers counts twice, so the gate does not wait for the missing two. *)
Example ignored_containers_count_twice :
  let outside (_ _ : string) := false in
  let nums := GetWekaContainerNumbers ex_operator_config (csp_Dynamic ex_count_spec) in
  len ex_ready = 10 /\ role_Drive nums + role_Compute nums = 12 /\
  InitialContainersReady ex_operator_config ex_count_spec outside ["10.0.0.0/24"] ex_ready = None /\
  InitialContainersReady ex_operator_config ex_count_spec outside [] ex_ready <> None.
Proof. vm_compute. split_and!; done. Qed.

(** Compute containers are meant for nodes with role=compute; one on a storage node is given the selector of the
    cluster, which the node matches, and stays where the role does not allow it. *)
Example mismatch_drops_the_role_selector :
  let c := ex_selected "c1" (GetNodeSelectorForRole ex_count_spec WekaContainerModeCompute) in
  let c' := ex_selected "c1" (csp_NodeSelector ex_count_spec) in
  updateContainersOnNodeSelectorMismatch ex_labelled (csp_NodeSelector ex_count_spec) [c] = Ok [c'] /\
  updateContainersOnNodeSelectorMismatch ex_labelled (csp_NodeSelector ex_count_spec) [c'] = Ok [c'] /\
  GetNodeSelectorForRole ex_count_spec WekaContainerModeCompute = {["role" := "compute"]}.
Proof. vm_compute. auto. Qed.

(** An act-as-daemonset cluster that also wants two NFS containers, in which one drive container is still to be
    raised and none is missing. *)
Definition ex_nfs_spec : ClusterSpec := with_dynamic {|
  wt_ComputeContainers := 0; wt_DriveContainers := 0; wt_S3Containers := 0; wt_NfsContainers := 2;
  wt_SmbwContainers := 0; wt_DataServicesContainers := 0;
  wt_ComputeCores := 0; wt_DriveCores := 0; wt_S3Cores := 0; wt_EnvoyCores := 0; wt_NfsCores := 0;
  wt_SmbwCores := 0; wt_DataServicesCores := 0;
  wt_ComputeExtraCores := 0; wt_DriveExtraCores := 0; wt_S3ExtraCores := 0; wt_NfsExtraCores := 0;
  wt_SmbwExtraCores := 0; wt_DataServicesExtraCores := None; wt_DataServicesFeCores := None;
  wt_NumDrives := 0; wt_DriveCapacity := 0; wt_ContainerCapacity := 0; wt_ClusterCapacity := "";
  wt_DriveTypesRatio := None;
  wt_DriveHugepages := 0; wt_DriveHugepagesOffset := 0; wt_ComputeHugepages := 0; wt_ComputeHugepagesOffset := 0;
  wt_S3FrontendHugepages := 0; wt_S3FrontendHugepagesOffset := 0; wt_NfsFrontendHugepages := 0;
  wt_NfsFrontendHugepagesOffset := 0; wt_SmbwFrontendHugepages := 0; wt_SmbwFrontendHugepagesOffset := 0;
  wt_DataServicesHugepages := 0; wt_DataServicesHugepagesOffset := 0 |} ex_ds_spec.
Definition ex_to_raise : daemonsetInput := {|
  di_nodes := di_nodes ex_ds_next; di_live := <[WekaContainerModeDrive := {["n1" := ex_ds_own]}]> (di_live ex_ds_next);
  di_deleting := di_deleting ex_ds_next; di_numDrivesPin := 0; di_driveCoresPin := 0; di_computeCoresPin := 0;
  di_hugepagesPin := ∅; di_hugepagesOffsetPin := ∅; di_cons := di_cons ex_ds_next; di_s3 := false |}.

(** While the raise of one container fails, the pass builds none of the NFS containers; they are built once the raise
    succeeds. *)
Example failed_raise_blocks_creation :
  let pass server := BuildMissingContainers ex_operator_config ex_meta ex_nfs_spec true None None ex_no_node ex_no_capacity
    ex_role_guid (fun n => n) server (Ok ex_to_raise) ex_ds_guid (PlanWait "") [] [ex_ds_own] in
  let down (_ : string) (_ : nat) := {| at_get := Err (OtherError "down"); at_update := None |} in
  match pass down, pass (ex_server [ex_ds_own]) with
  | MissingError _ _, Missing built _ _ _ => cs_Mode <$> (cn_Spec <$> built) = ["nfs"; "nfs"]
  | _, _ => False
  end.
Proof. vm_compute. reflexivity. Qed.
