(* ===== verification/Allocation.v ===== *)
(** * Container resources (wekacontainer/funcs_allocate_resources.go, funcs_resources_allocation.go)

    How a container reconciler gives a container its drives, ports and NICs: the first allocation, made
    under the lease of the node, the later growth of the drives, the removal of drives, and the NICs of a
    node, kept in an annotation. The allocator itself is in VirtualDrives.v; here are the steps around it
    and, at the end, the protocol in which the containers of one node run them side by side.

    What the API server and the node info getter answer is an argument. Events and logging are left out,
    except the text of the event on success, and so is the failure domain, which is copied into the
    allocations unread. The lease is client-go's leader election: it is the part of the protocol's state that
    says who may allocate. *)

From stdpp Require Import relations.
From S2P Require Import Prelude Fmt Types Sizing Ports Strategies VirtualDrives Api.

(** ** The container, for the allocator *)

Definition to_allocator (c : Container) : WekaContainer :=
  mkContainer (cs_NumCores (cn_Spec c)) (cs_ContainerCapacity (cn_Spec c)) (cs_DriveCapacity (cn_Spec c))
    (cs_DriveTypesRatio (cn_Spec c)) (cst_Allocations (cn_Status c)).

Definition HasContainerCapacity (c : Container) : bool := bool_decide (cs_ContainerCapacity (cn_Spec c) > 0).
Definition IsClientContainer (c : Container) : bool := bool_decide (mode c = WekaContainerModeClient).

(** [instruction]: the type of [spec.instructions], when they are set. *)
Definition IsEnsureNICs (instruction : option string) (c : Container) : bool :=
  bool_decide (mode c = WekaContainerModeAdhocOpWC) && bool_decide (instruction = Some "ensure-nics").

Definition IsHostNetwork (instruction : option string) (c : Container) : bool :=
  if IsEnsureNICs instruction c then true
  else IsWekaContainer c && negb (IsDriversContainer c) && negb (IsSSDProxyContainer c) && negb (IsTelemetry c).

Definition GetAllocatedVirtualDrivesCapacity (a : ContainerAllocations) : Z :=
  foldl (fun total d => total + vd_CapacityGiB d) 0 (ca_VirtualDrives a).

Definition GetVirtualDrivesUuids (a : ContainerAllocations) : list string :=
  filter (fun u => u <> "") (vd_VirtualUUID <$> ca_VirtualDrives a).

Definition set_allocations (a : ContainerAllocations) (c : Container) : Container :=
  let s := cn_Status c in
  set_status {| cst_Status := cst_Status s; cst_ManagementIps := cst_ManagementIps s;
    cst_NodeAffinity := cst_NodeAffinity s; cst_LastAppliedImage := cst_LastAppliedImage s;
    cst_ClusterContainerID := cst_ClusterContainerID s; cst_PodOutdated := cst_PodOutdated s;
    cst_Allocations := Some a |} c.

Definition set_Drives (drives : list string) (a : ContainerAllocations) : ContainerAllocations :=
  mkAllocations drives (ca_Ports a) (ca_VirtualDrives a).
Definition set_VirtualDrives (vds : list VirtualDrive) (a : ContainerAllocations) : ContainerAllocations :=
  mkAllocations (ca_Drives a) (ca_Ports a) vds.

(** ** The first allocation *)

(** The error a step returns: a wait of some seconds with its cause, the wrapped error of the allocator, or a
    plain error. *)
Inductive wait_cause : Type :=
  | InvalidDriveSharingConfigError (Message : string)
  | AllocationWait (e : alloc_error).

Inductive step_error : Type :=
  | WaitError (cause : wait_cause) (seconds : Z)
  | FailedToAllocate (e : alloc_error)
  | StepErrorf (msg : string).

Definition validateDriveSharingConfig (c : Container) : option wait_cause :=
  let spec := cn_Spec c in
  if decide (cs_NumDrives spec > 0 /\ cs_ContainerCapacity spec > 0) then
    Some (InvalidDriveSharingConfigError "numDrives and containerCapacity are mutually exclusive; use numDrives with driveCapacity for TLC-only mode, or containerCapacity with driveTypesRatio for mixed drive types")
  else if decide (cs_DriveCapacity spec > 0 /\ cs_NumDrives spec > 0 /\ cs_NumDrives spec < cs_NumCores spec) then
    Some (InvalidDriveSharingConfigError (Sprintf "numDrives (%d) must be >= numCores (%d) when using driveCapacity (TLC-only mode); each core requires at least one virtual drive"
      [ArgD (cs_NumDrives spec); ArgD (cs_NumCores spec)]))
  else None.

(** What the reads of one run answer: the node, the owner cluster, the feature flags, the proxy's labels, the
    node's containers and the node info; and the supply of identifiers for virtual drives. *)
Record answers : Type := mkAnswers {
  an_Node : res string unit;
  an_Cluster : res string WekaCluster;
  an_FeatureFlags : res string (option FeatureFlags);
  an_VidLabel : res string bool;
  an_Containers : res string (list Container);
  an_NodeInfo : res string NodeInfo;
  an_newUUID : nat -> string }.

Definition getOwnerCluster (ans : answers) (c : Container) : res string WekaCluster :=
  match cn_OwnerReferences c with
  | [] => Err "container has no owner references"
  | _ :: _ =>
      match an_Cluster ans with
      | Ok cluster => Ok cluster
      | Err e => Err (Sprintf "failed to get owner cluster: %s" [ArgS e])
      end
  end.

(** [ssdProxyUsesVidLabel] is only called for a container that shares drives. *)
Definition vid_label (ans : answers) (c : Container) : res string bool :=
  if container_UsesDriveSharing c then an_VidLabel ans else Ok false.

(** The errors of the allocator that become a wait. *)
Definition allocation_error (e : alloc_error) : step_error :=
  match e with
  | InsufficientDrivesError _ _ | InsufficientDriveCapacityError _ _ _ _ _ _ | PortAllocationError _ =>
      WaitError (AllocationWait e) 30
  | AllocErrorf _ => FailedToAllocate e
  end.

(** The text of the event on success. *)
Definition allocation_message (flags : option FeatureFlags) (c : Container) (r : AllocationResult) : string :=
  let driveCount := if container_UsesDriveSharing c then len (res_VirtualDrives r) else len (res_Drives r) in
  let wekaPort := WekaPort (res_Ports r) in
  let agentPort := AgentPort (res_Ports r) in
  let lastPort := wekaPort + GetPortsPerContainerFromFlags flags - 1 in
  if decide (wekaPort > 0 /\ agentPort > 0) then
    Sprintf "Allocated %d drives, weka ports %d-%d, agent port %d" [ArgD driveCount; ArgD wekaPort; ArgD lastPort; ArgD agentPort]
  else if decide (wekaPort > 0) then
    Sprintf "Allocated %d drives, weka ports %d-%d" [ArgD driveCount; ArgD wekaPort; ArgD lastPort]
  else if decide (agentPort > 0) then
    Sprintf "Allocated %d drives, agent port %d" [ArgD driveCount; ArgD agentPort]
  else Sprintf "Allocated %d drives" [ArgD driveCount].

Definition lift_error {A} (f : string -> string) (m : res string A) : res step_error A :=
  match m with Ok a => Ok a | Err e => Err (StepErrorf (f e)) end.

Section steps.
Context (sort_drives : list physicalDriveCapacity -> list physicalDriveCapacity) (cfg : DriveSharingConfig).

(** The container with its allocations, ready for the status update, and the event text. The step runs for
    allocatable containers, whose mode is not the one of ensure-nics: see [IsHostNetwork_allocatable]. *)
Definition doAllocateResourcesWithLease (ans : answers) (nodeName : string) (c : Container)
    : res step_error (Container * string) :=
  let? _ := lift_error (fun e => Sprintf "failed to get node %s: %s" [ArgS nodeName; ArgS e]) (an_Node ans) in
  let? cluster := lift_error (fun e => Sprintf "failed to get owner cluster: %s" [ArgS e]) (getOwnerCluster ans c) in
  match validateDriveSharingConfig c with
  | Some cause => Err (WaitError cause 30)
  | None =>
      let allocateWekaPort := IsHostNetwork None c && negb (IsEnvoy c) in
      let allocateAgentPort := HasAgent c in
      let? flags := lift_error id (an_FeatureFlags ans) in
      let? vidLabelAdd := lift_error id (vid_label ans c) in
      let request := mkRequest (to_allocator c) (cs_NumDrives (cn_Spec c)) (cs_ContainerCapacity (cn_Spec c))
                       allocateWekaPort allocateAgentPort vidLabelAdd in
      let containers := match an_Containers ans with Ok l => Ok (to_allocator <$> l) | Err e => Err e end in
      match AllocateResources sort_drives cfg (an_newUUID ans) nodeName (an_NodeInfo ans) containers cluster flags request with
      | Err e => Err (allocation_error e)
      | Ok r =>
          Ok (set_allocations (mkAllocations (res_Drives r) (res_Ports r) (res_VirtualDrives r)) c,
              allocation_message flags c r)
      end
  end.

(** [update]: the answer of the status update. The whole step, from the affinity check on. *)
Definition AllocateResources_step (ans : answers) (update : res string unit) (c : Container)
    : res step_error (Container * string) :=
  if decide (GetNodeAffinity c = "") then Err (StepErrorf "container has no node affinity")
  else
    let? done := doAllocateResourcesWithLease ans (GetNodeAffinity c) c in
    let? _ := lift_error (fun e => Sprintf "failed to update container status with allocations: %s" [ArgS e]) update in
    Ok done.

(** ** More drives *)

(** Whether dynamic scaling of shared drives is configured: [config.Config.DriveSharing]. *)
Definition NeedsDrivesToAllocate (EnableDynamicDriveScaling : bool) (c : Container) : bool :=
  match cst_Allocations (cn_Status c) with
  | None => false
  | Some a =>
      if container_UsesDriveSharing c && negb EnableDynamicDriveScaling then false
      else if HasContainerCapacity c then
        bool_decide (GetAllocatedVirtualDrivesCapacity a < cs_ContainerCapacity (cn_Spec c))
      else if container_UsesDriveSharing c then bool_decide (len (ca_VirtualDrives a) < cs_NumDrives (cn_Spec c))
      else bool_decide (len (ca_Drives a) < cs_NumDrives (cn_Spec c))
  end.

(** [None] for the nil request. The allocations are a pointer the code dereferences: the step runs only when
    they are set, see [NeedsDrivesToAllocate]. *)
Definition FormReallocationRequest (ans : answers) (c : Container) (a : ContainerAllocations)
    : res string (option DriveReallocationRequest) :=
  if decide (GetNodeAffinity c = "") then Err "container has no node affinity" else
  match an_Node ans with
  | Err e => Err (Sprintf "failed to get node %s: %s" [ArgS (GetNodeAffinity c); ArgS e])
  | Ok _ =>
      if HasContainerCapacity c then
        let allocatedCapacity := GetAllocatedVirtualDrivesCapacity a in
        let targetCapacity := cs_ContainerCapacity (cn_Spec c) in
        if decide (allocatedCapacity >= targetCapacity) then Ok None
        else Ok (Some (mkRealloc (to_allocator c) [] 0 (targetCapacity - allocatedCapacity) false))
      else
        let currentDriveCount :=
          if container_UsesDriveSharing c then len (ca_VirtualDrives a) else len (ca_Drives a) in
        let numDrivesToAllocate := cs_NumDrives (cn_Spec c) - currentDriveCount in
        if decide (numDrivesToAllocate <= 0) then Ok None
        else Ok (Some (mkRealloc (to_allocator c) [] numDrivesToAllocate 0 false))
  end.

(** The outcome of the growth step: nothing to do, or the container to be written. *)
Definition AllocateDrivesIfNeeded (ans : answers) (c : Container) (a : ContainerAllocations)
    : res step_error (option Container) :=
  let? request := lift_error (fun e => Sprintf "failed to form drive reallocation request: %s" [ArgS e])
                    (FormReallocationRequest ans c a) in
  match request with
  | None => Ok None
  | Some req =>
      let? vidLabelAdd := lift_error id (vid_label ans c) in
      let req := mkRealloc (rr_Container req) (rr_FailedDrives req) (rr_NumNewDrives req) (rr_CapacityGiB req) vidLabelAdd in
      let containers := match an_Containers ans with Ok l => Ok (to_allocator <$> l) | Err e => Err e end in
      match ReallocateDrives sort_drives cfg (an_newUUID ans) (GetNodeAffinity c) (an_NodeInfo ans) containers req with
      | Err e => Err (FailedToAllocate e)
      | Ok r =>
          let a := if container_UsesDriveSharing c then set_VirtualDrives (rs_AllVirtualDrives r) a
                   else set_Drives (rs_AllDrives r) a in
          Ok (Some (set_allocations a c))
      end
  end.
End steps.

(** ** Fewer drives *)

(** The drives kept, and whether anything was dropped. *)
Definition filterVirtualDrives (vds : list VirtualDrive) (matches : VirtualDrive -> bool)
    : list VirtualDrive * bool :=
  foldl (fun '(kept, changed) vd => if matches vd then (kept, true) else (kept ++ [vd], changed)) ([], false) vds.

(** [None]: nothing to update. *)
Definition deallocateDrivesByPhysicalUuids (blockedDrivePhysicalUuids : list string) (a : ContainerAllocations)
    : option ContainerAllocations :=
  let '(kept, changed) := filterVirtualDrives (ca_VirtualDrives a)
    (fun vd => bool_decide (vd_PhysicalUUID vd ∈ blockedDrivePhysicalUuids)) in
  if changed then Some (set_VirtualDrives kept a) else None.

Definition deallocateDrivesByVirtualUuids (virtualUuids : list string) (a : ContainerAllocations)
    : option ContainerAllocations :=
  let '(kept, changed) := filterVirtualDrives (ca_VirtualDrives a)
    (fun vd => bool_decide (vd_VirtualUUID vd ∈ virtualUuids)) in
  if changed then Some (set_VirtualDrives kept a) else None.

Definition deallocateDrivesBySerials (blockedDriveSerials : list string) (a : ContainerAllocations)
    : option ContainerAllocations :=
  let drivesBlocked := existsb (fun drive => bool_decide (drive ∈ blockedDriveSerials)) (ca_Drives a) in
  let '(kept, virtualBlocked) := filterVirtualDrives (ca_VirtualDrives a)
    (fun vd => bool_decide (vd_Serial vd ∈ blockedDriveSerials)) in
  if negb drivesBlocked && negb virtualBlocked then None
  else
    let a := if drivesBlocked then set_Drives (filter (fun drive => drive ∉ blockedDriveSerials) (ca_Drives a)) a else a in
    Some (if virtualBlocked then set_VirtualDrives kept a else a).

(** ** NICs

    The node's annotations, decoded: its NICs and, per allocation identifier, the MAC addresses given out. A
    [nicAnnotation] is [None] when the annotation is missing and [Some (Err e)] when it does not parse. *)

Record NIC : Type := mkNIC { MacAddress : string; PrimaryIP : string; SubnetCIDRBlock : string }.

Record NicNode : Type := mkNicNode {
  nn_Name : string;
  nn_ProviderID : string;
  nn_NICs : option (res string (list NIC));
  nn_Allocations : option (res string (gmap string (list string))) }.

(** The network fields of a container's spec. *)
Record Network : Type := mkNetwork {
  nw_Selectors : list string; nw_DeviceSubnets : list string; nw_EthDevice : string; nw_EthDevices : list string;
  nw_UdpMode : bool; nw_AllocateVfPerIoNode : option bool }.

Definition GetAllocationIdentifier (namespace containerName : string) : string :=
  (namespace ++ "/" ++ containerName)%string.

Definition ProviderFromID (providerID : string) : string :=
  if String.prefix "aws://" providerID then "aws"
  else if String.prefix "ocid1." providerID then "oci" else "".

Definition IsSupportedCloudProvider (providerID : string) : bool :=
  bool_decide (ProviderFromID providerID <> "").

Definition ShouldAllocateVfPerIoNode (node : NicNode) (n : Network) : bool :=
  match nw_AllocateVfPerIoNode n with
  | Some b => b
  | None => IsSupportedCloudProvider (nn_ProviderID node)
  end.

(** A nil network pins nothing. *)
Definition HasExplicitNetDevices (n : option Network) : bool :=
  match n with
  | None => false
  | Some n => bool_decide (len (nw_Selectors n) > 0 \/ len (nw_DeviceSubnets n) > 0 \/ nw_EthDevice n <> "" \/
                len (nw_EthDevices n) > 0)
  end.

Definition nics_of (allocs : gmap string (list string)) (id : string) : list string :=
  default [] (allocs !! id).

Definition ShouldAllocateNICs (node : option NicNode) (n : Network) (c : Container) : bool :=
  if negb (IsBackend c) && negb (IsClientContainer c) then false
  else if HasExplicitNetDevices (Some n) then false
  else match node with
  | None => false
  | Some node =>
      if IsMarkedForDeletion c then false
      else if nw_UdpMode n then false
      else if negb (ShouldAllocateVfPerIoNode node n) then false
      else match nn_NICs node with
      | None => false
      | Some _ =>
          match nn_Allocations node with
          | None => true
          | Some (Err _) => true
          | Some (Ok allocs) =>
              bool_decide (len (nics_of allocs (GetAllocationIdentifier (cn_Namespace c) (cn_Name c))) < cs_NumCores (cn_Spec c))
          end
      end
  end.

(** One turn: the first NIC not given out goes to [id]. *)
Definition give_nic (allNICs : list NIC) (id : string) (st : gset string * gmap string (list string))
    : gset string * gmap string (list string) :=
  let '(allocated, allocs) := st in
  match find (fun nic => bool_decide (MacAddress nic ∉ allocated)) allNICs with
  | None => (allocated, allocs)
  | Some nic => ({[MacAddress nic]} ∪ allocated, <[id := nics_of allocs id ++ [MacAddress nic]]> allocs)
  end.

Definition allocated_nics (allocs : gmap string (list string)) : gset string :=
  map_fold (fun _ nics acc => list_to_set nics ∪ acc) ∅ allocs.

(** The allocations to be written; [None]: the container has its NICs already. *)
Definition AllocateNICs (node : NicNode) (c : Container) : res string (option (gmap string (list string))) :=
  match nn_NICs node with
  | None => Err (Sprintf "node %s does not have weka-nics annotation, but dpdk is enabled" [ArgS (nn_Name node)])
  | Some nics =>
      match default (Ok ∅) (nn_Allocations node) with
      | Err e => Err (Sprintf "failed to unmarshal weka-allocations: %s" [ArgS e])
      | Ok allocs =>
          match nics with
          | Err e => Err (Sprintf "failed to unmarshal weka-nics: %s" [ArgS e])
          | Ok allNICs =>
              let allocated := allocated_nics allocs in
              let id := GetAllocationIdentifier (cn_Namespace c) (cn_Name c) in
              let have := len (nics_of allocs id) in
              let allocs := match allocs !! id with Some _ => allocs | None => <[id := []]> allocs end in
              let required := cs_NumCores (cn_Spec c) in
              if decide (have >= required) then Ok None
              else Ok (Some (Nat.iter (Z.to_nat (required - have)) (give_nic allNICs id) (allocated, allocs)).2)
          end
      end
  end.

Definition DeallocateNICs (node : option NicNode) (c : Container) : res string (option (gmap string (list string))) :=
  match node with
  | None => Ok None
  | Some node =>
      match nn_Allocations node with
      | None => Ok None
      | Some (Err e) => Err (Sprintf "failed to unmarshal weka-allocations: %s" [ArgS e])
      | Some (Ok allocs) =>
          let id := GetAllocationIdentifier (cn_Namespace c) (cn_Name c) in
          match allocs !! id with
          | None => Ok None
          | Some _ => Ok (Some (delete id allocs))
          end
      end
  end.

(** ** The containers of one node, side by side

    The state: the containers of the node by identity, who holds the node's lease, what the holder has read
    of the node, and what the containers that are adding drives have read. A status update carries the
    version that was read, so the container that is written is the one that was read; the other containers
    may have changed since. *)

Record NodeWorld : Type := mkWorld {
  wd_Containers : gmap string Container;
  wd_Lease : option string;
  wd_Seen : option (list Container);
  wd_Growing : gmap string (list Container) }.

Definition on_node (cs : gmap string Container) : list Container := (map_to_list cs).*2.

(** The name of the node's lease and the identity that takes it. *)
Definition lease_name (nodeName : string) : string := Sprintf "weka-allocator-%s" [ArgS nodeName].
Definition lease_identity (c : Container) : string := Sprintf "%s/%s" [ArgS (cn_Namespace c); ArgS (cn_Name c)].

(** A spec the sharing allocator can work with. *)
Definition spec_ok (c : Container) : Prop :=
  container_UsesDriveSharing c = true ->
  0 < cs_NumCores (cn_Spec c) /\ 0 <= cs_ContainerCapacity (cn_Spec c) /\
  match cs_DriveTypesRatio (cn_Spec c) with
  | Some r => 0 <= ratio_Tlc r /\ 0 <= ratio_Qlc r
  | None => True
  end.

(** The clean-ups that take drives away. *)
Inductive deallocation : Type :=
  | ByPhysicalUuids (uuids : list string)
  | ByVirtualUuids (uuids : list string)
  | BySerials (serials : list string).

Definition deallocate (d : deallocation) (a : ContainerAllocations) : option ContainerAllocations :=
  match d with
  | ByPhysicalUuids l => deallocateDrivesByPhysicalUuids l a
  | ByVirtualUuids l => deallocateDrivesByVirtualUuids l a
  | BySerials l => deallocateDrivesBySerials l a
  end.

Section protocol.
Context (sort_drives : list physicalDriveCapacity -> list physicalDriveCapacity) (cfg : DriveSharingConfig).
Context (nodeName : string) (info : NodeInfo).

(** The first allocation in its four parts, the clean-ups, and the life of containers and their specs. *)
Inductive alloc_step (w : NodeWorld) : NodeWorld -> Prop :=
  | step_acquire k c :
      wd_Lease w = None -> wd_Containers w !! k = Some c ->
      IsAllocatable c = true -> cst_Allocations (cn_Status c) = None ->
      alloc_step w (mkWorld (wd_Containers w) (Some k) None (wd_Growing w))
  | step_read k :
      wd_Lease w = Some k ->
      alloc_step w (mkWorld (wd_Containers w) (Some k) (Some (on_node (wd_Containers w))) (wd_Growing w))
  | step_write k c seen ans c' msg :
      wd_Lease w = Some k -> wd_Seen w = Some seen -> wd_Containers w !! k = Some c ->
      cst_Allocations (cn_Status c) = None ->
      an_Containers ans = Ok seen -> an_NodeInfo ans = Ok info ->
      doAllocateResourcesWithLease sort_drives cfg ans nodeName c = Ok (c', msg) ->
      alloc_step w (mkWorld (<[k := c']> (wd_Containers w)) (Some k) None (wd_Growing w))
  | step_release k :
      wd_Lease w = Some k ->
      alloc_step w (mkWorld (wd_Containers w) None None (wd_Growing w))
  | step_deallocate k c a d a' :
      wd_Containers w !! k = Some c -> cst_Allocations (cn_Status c) = Some a -> deallocate d a = Some a' ->
      alloc_step w (mkWorld (<[k := set_allocations a' c]> (wd_Containers w)) (wd_Lease w) (wd_Seen w) (wd_Growing w))
  | step_respec k c s :
      wd_Containers w !! k = Some c -> spec_ok (set_spec s c) ->
      alloc_step w (mkWorld (<[k := set_spec s c]> (wd_Containers w)) (wd_Lease w) (wd_Seen w) (wd_Growing w))
  | step_create k c :
      wd_Containers w !! k = None -> cst_Allocations (cn_Status c) = None -> spec_ok c ->
      alloc_step w (mkWorld (<[k := c]> (wd_Containers w)) (wd_Lease w) (wd_Seen w) (wd_Growing w))
  | step_remove k :
      alloc_step w (mkWorld (delete k (wd_Containers w)) (wd_Lease w) (wd_Seen w) (wd_Growing w)).

(** The growth of a container's drives, which does not take the lease. *)
Inductive growth_step (w : NodeWorld) : NodeWorld -> Prop :=
  | step_grow_read k c :
      wd_Containers w !! k = Some c -> IsDriveContainer c = true -> NeedsDrivesToAllocate true c = true ->
      growth_step w (mkWorld (wd_Containers w) (wd_Lease w) (wd_Seen w)
                       (<[k := on_node (wd_Containers w)]> (wd_Growing w)))
  | step_grow_write k c a seen ans c' :
      wd_Growing w !! k = Some seen -> wd_Containers w !! k = Some c -> cst_Allocations (cn_Status c) = Some a ->
      an_Containers ans = Ok seen -> an_NodeInfo ans = Ok info ->
      AllocateDrivesIfNeeded sort_drives cfg ans c a = Ok (Some c') ->
      growth_step w (mkWorld (<[k := c']> (wd_Containers w)) (wd_Lease w) (wd_Seen w) (delete k (wd_Growing w))).
End protocol.
