(* ===== verification/AllocationFacts.v ===== *)
(** * The allocation protocol keeps the drives of a node apart

    The steps of Allocation.v: what the removal of drives leaves, how NICs are given out, and, for the
    containers of one node run side by side, that the lease keeps whole drives exclusive and shared drives
    within their capacity. *)

From stdpp Require Import relations.
From S2P Require Import Prelude Fmt Types Sizing Ports Strategies VirtualDrives DriveSafety Api Allocation.

(** ** Small facts *)

Lemma IsHostNetwork_allocatable instruction c :
  IsAllocatable c = true -> IsHostNetwork instruction c = IsHostNetwork None c.
Proof.
  unfold IsAllocatable, IsHostNetwork, IsEnsureNICs. rewrite bool_decide_eq_true. intros Hin.
  rewrite (bool_decide_eq_false_2 (mode c = _)); [done|]. intros E. rewrite E in Hin. revert Hin.
  apply (bool_decide_eq_false_1 _). vm_compute. reflexivity.
Qed.

Lemma filterVirtualDrives_spec vds f :
  filterVirtualDrives vds f = (filter (fun v => f v = false) vds, existsb f vds).
Proof.
  unfold filterVirtualDrives.
  enough (forall k b, foldl (fun '(kept, changed) vd => if f vd then (kept, true) else (kept ++ [vd], changed)) (k, b) vds =
    (k ++ filter (fun v => f v = false) vds, b || existsb f vds)) as H by (by rewrite H).
  induction vds as [|v vds IH]; intros k b; simpl; [by rewrite app_nil_r, orb_false_r|].
  rewrite filter_cons. destruct (f v) eqn:E.
  - rewrite IH, decide_False by congruence. by rewrite orb_true_r.
  - by rewrite IH, decide_True, <- app_assoc.
Qed.

(** Fewer drives and virtual drives, in the same order. *)
Definition fewer (a' a : ContainerAllocations) : Prop :=
  ca_Drives a' `sublist_of` ca_Drives a /\ ca_VirtualDrives a' `sublist_of` ca_VirtualDrives a /\ ca_Ports a' = ca_Ports a.

Lemma deallocate_fewer d a a' : deallocate d a = Some a' -> fewer a' a.
Proof.
  destruct d as [l|l|l]; simpl; unfold deallocateDrivesByPhysicalUuids, deallocateDrivesByVirtualUuids, deallocateDrivesBySerials;
    rewrite filterVirtualDrives_spec.
  1,2: destruct (existsb _ _); [|done]; intros [= <-]; split_and!; simpl; auto using sublist_filter.
  destruct (existsb _ (ca_Drives a)), (existsb _ (ca_VirtualDrives a)); simpl; try done; intros [= <-];
    split_and!; simpl; auto using sublist_filter.
Qed.

(** ** What a container holds *)

Definition drives_of_container (c : Container) : list string := status_Drives (to_allocator c).
Definition virtual_of_container (c : Container) : list VirtualDrive := status_VirtualDrives (to_allocator c).

Lemma drives_set_allocations a c : drives_of_container (set_allocations a c) = ca_Drives a.
Proof. done. Qed.
Lemma virtual_set_allocations a c : virtual_of_container (set_allocations a c) = ca_VirtualDrives a.
Proof. done. Qed.

(** What the containers of the node hold of a shared drive. *)
Definition node_claims (cs : gmap string Container) (u : string) : Z := claims (to_allocator <$> on_node cs) u.

Lemma claims_perm l l' u : l ≡ₚ l' -> claims l u = claims l' u.
Proof. intros H. unfold claims, placed. by rewrite H. Qed.

Lemma claims_cons c l u : claims (c :: l) u = placed (status_VirtualDrives c) u + claims l u.
Proof. unfold claims. simpl. by rewrite placed_app. Qed.

Lemma node_claims_insert cs k c u :
  node_claims (<[k := c]> cs) u = placed (virtual_of_container c) u + node_claims (delete k cs) u.
Proof.
  unfold node_claims, on_node. rewrite <- insert_delete_eq.
  rewrite (claims_perm _ (to_allocator <$> c :: (map_to_list (delete k cs)).*2)).
  - simpl. by rewrite claims_cons.
  - rewrite map_to_list_insert by (by rewrite lookup_delete_eq). done.
Qed.

Lemma node_claims_delete cs k c u :
  cs !! k = Some c -> node_claims cs u = placed (virtual_of_container c) u + node_claims (delete k cs) u.
Proof. intros H. rewrite <- (insert_id cs k c H) at 1. apply node_claims_insert. Qed.

Lemma placed_nonneg vds u : Forall (fun v => 0 < vd_CapacityGiB v) vds -> 0 <= placed vds u.
Proof.
  induction 1 as [|v vds Hv _ IH]; [done|]. rewrite placed_cons. case_decide; lia.
Qed.

Lemma placed_sublist vds' vds u :
  vds' `sublist_of` vds -> Forall (fun v => 0 < vd_CapacityGiB v) vds -> placed vds' u <= placed vds u.
Proof.
  induction 1 as [|v l k Hs IH|v l k Hs IH]; intros Hp; [done|..]; apply Forall_cons in Hp as [Hv Hp];
    rewrite ?placed_cons; specialize (IH Hp); [lia|case_decide; lia].
Qed.

(** ** Safety of a node *)

Section safety.
Context (info : NodeInfo).

Record container_ok (c : Container) : Prop := {
  ok_spec : spec_ok c;
  ok_drives : NoDup (drives_of_container c);
  ok_virtual : Forall (fun v => 0 < vd_CapacityGiB v) (virtual_of_container c) }.

(** No whole drive is held twice, and no shared drive is given out beyond its capacity. *)
Record node_ok (cs : gmap string Container) : Prop := {
  ok_containers : map_Forall (fun _ => container_ok) cs;
  ok_exclusive : forall k1 k2 c1 c2 x, cs !! k1 = Some c1 -> cs !! k2 = Some c2 ->
    x ∈ drives_of_container c1 -> x ∈ drives_of_container c2 -> k1 = k2;
  ok_capacity : forall d, d ∈ ni_SharedDrives info -> node_claims cs (sd_PhysicalUUID d) <= sd_CapacityGiB d }.

(** A read of the node still covers what its containers hold. *)
Record covers (seen : list Container) (cs : gmap string Container) : Prop := {
  covers_drives : forall k c x, cs !! k = Some c -> x ∈ drives_of_container c ->
    Exists (fun s => held_by s x) (to_allocator <$> seen);
  covers_claims : forall u, node_claims cs u <= claims (to_allocator <$> seen) u }.

Lemma covers_refl cs : covers (on_node cs) cs.
Proof.
  split; [|done]. intros k c x Hc Hx. apply Exists_exists. exists (to_allocator c). split; [|by left].
  apply list_elem_of_fmap_2. unfold on_node. apply (list_elem_of_fmap_2 snd _ (k, c)). by apply elem_of_map_to_list.
Qed.

Lemma node_claims_nonneg cs u : map_Forall (fun _ => container_ok) cs -> 0 <= node_claims cs u.
Proof.
  induction cs as [|k c cs Hk IH] using map_ind; intros H; [done|].
  rewrite node_claims_insert, delete_id by done.
  pose proof (placed_nonneg _ u (ok_virtual _ (H k c (lookup_insert_eq _ _ _)))).
  enough (0 <= node_claims cs u) by lia. apply IH. by eapply map_Forall_insert_1_2.
Qed.

(** Replacing one container by another that is well formed, whose whole drives were its own or nobody's, and
    whose claims fit. *)
Lemma node_ok_insert cs k c' :
  node_ok cs -> container_ok c' ->
  (forall k2 c2 x, cs !! k2 = Some c2 -> x ∈ drives_of_container c2 -> x ∈ drives_of_container c' -> k2 = k) ->
  (forall d, d ∈ ni_SharedDrives info ->
     placed (virtual_of_container c') (sd_PhysicalUUID d) + node_claims (delete k cs) (sd_PhysicalUUID d) <= sd_CapacityGiB d) ->
  node_ok (<[k := c']> cs).
Proof.
  intros [Hall Hex Hcap] Hok Hd Hc. split.
  - by apply map_Forall_insert_2.
  - intros k1 k2 c1 c2 x. rewrite !lookup_insert. intros H1 H2 Hx1 Hx2. repeat case_decide; simplify_eq; try done.
    all: first [by eapply Hex | by eapply Hd | symmetry; by eapply Hd].
  - intros d Hin. rewrite node_claims_insert. by apply Hc.
Qed.

(** A container that holds less, or a new one that holds nothing. *)
Definition shrinks (cs : gmap string Container) (k : string) (c' : Container) : Prop :=
  spec_ok c' /\
  match cs !! k with
  | Some c => drives_of_container c' `sublist_of` drives_of_container c /\
              virtual_of_container c' `sublist_of` virtual_of_container c
  | None => drives_of_container c' = [] /\ virtual_of_container c' = []
  end.

Lemma shrinks_claims cs k c' u :
  map_Forall (fun _ => container_ok) cs -> shrinks cs k c' ->
  placed (virtual_of_container c') u + node_claims (delete k cs) u <= node_claims cs u.
Proof.
  intros Hall [_ H]. destruct (cs !! k) as [c|] eqn:E.
  - destruct H as [_ H]. rewrite (node_claims_delete cs k c u E).
    pose proof (placed_sublist _ _ u H (ok_virtual _ (Hall k c E))). lia.
  - destruct H as [_ ->]. rewrite delete_id by done. unfold placed. simpl. lia.
Qed.

Lemma shrinks_drives cs k c' x :
  shrinks cs k c' -> x ∈ drives_of_container c' -> exists c, cs !! k = Some c /\ x ∈ drives_of_container c.
Proof.
  intros [_ H] Hx. destruct (cs !! k) as [c|].
  - exists c. split; [done|]. eapply sublist_subseteq; [apply H|done].
  - destruct H as [H _]. rewrite H in Hx. set_solver.
Qed.

Lemma node_ok_shrink cs k c' : node_ok cs -> shrinks cs k c' -> node_ok (<[k := c']> cs).
Proof.
  intros Hok Hs. pose proof Hok as [Hall Hex Hcap]. apply node_ok_insert; [done|..].
  - destruct Hs as [Hspec H]. split; [done|..]; destruct (cs !! k) as [c|] eqn:E.
    + eapply sublist_NoDup; [by eapply ok_drives, Hall|apply H].
    + destruct H as [-> _]. constructor.
    + pose proof (ok_virtual _ (Hall k c E)) as Hv. rewrite Forall_forall in Hv |- *. intros v Hin.
      apply Hv. eapply sublist_subseteq; [apply H|done].
    + destruct H as [_ ->]. constructor.
  - intros k2 c2 x H2 Hx2 Hx. destruct (shrinks_drives _ _ _ _ Hs Hx) as (c & E & Hxc). by eapply Hex.
  - intros d Hd. pose proof (shrinks_claims cs k c' (sd_PhysicalUUID d) Hall Hs). specialize (Hcap d Hd). lia.
Qed.

Lemma covers_shrink seen cs k c' : node_ok cs -> shrinks cs k c' -> covers seen cs -> covers seen (<[k := c']> cs).
Proof.
  intros [Hall _ _] Hs [Hd Hc]. split.
  - intros k2 c2 x. rewrite lookup_insert. case_decide; [|by apply Hd]. intros [= <-] Hx. subst.
    destruct (shrinks_drives _ _ _ _ Hs Hx) as (c & E & Hxc). by eapply Hd.
  - intros u. rewrite node_claims_insert. pose proof (shrinks_claims cs k c' u Hall Hs). specialize (Hc u). lia.
Qed.

Lemma node_ok_delete cs k : node_ok cs -> node_ok (delete k cs).
Proof.
  intros [Hall Hex Hcap]. split.
  - by apply map_Forall_delete.
  - intros k1 k2 c1 c2 x [_ H1]%lookup_delete_Some [_ H2]%lookup_delete_Some. by eapply Hex.
  - intros d Hd. specialize (Hcap d Hd). destruct (cs !! k) as [c|] eqn:E; [|by rewrite delete_id].
    rewrite (node_claims_delete cs k c _ E) in Hcap.
    pose proof (placed_nonneg _ (sd_PhysicalUUID d) (ok_virtual _ (Hall k c E))). lia.
Qed.

Lemma covers_delete seen cs k : node_ok cs -> covers seen cs -> covers seen (delete k cs).
Proof.
  intros [Hall _ _] [Hd Hc]. split.
  - intros k2 c2 x [_ H]%lookup_delete_Some. by eapply Hd.
  - intros u. specialize (Hc u). destruct (cs !! k) as [c|] eqn:E; [|by rewrite delete_id].
    rewrite (node_claims_delete cs k c _ E) in Hc.
    pose proof (placed_nonneg _ u (ok_virtual _ (Hall k c E))). lia.
Qed.
End safety.

(** ** The steps *)

Section steps.
Context (sort : list physicalDriveCapacity -> list physicalDriveCapacity) `{!DriveSort sort}.
Context (cfg : DriveSharingConfig) (nodeName : string) (info : NodeInfo).
Context (shared_distinct : NoDup (sd_PhysicalUUID <$> ni_SharedDrives info)).
Context (whole_distinct : NoDup (de_Serial <$> ni_AvailableDrives info)).

Lemma sharing_allocator c : UsesDriveSharing (to_allocator c) = container_UsesDriveSharing c.
Proof. done. Qed.

Lemma sharing_capacity c :
  container_UsesDriveSharing c = true ->
  0 < cs_DriveCapacity (cn_Spec c) \/ 0 < cs_ContainerCapacity (cn_Spec c).
Proof. unfold container_UsesDriveSharing. rewrite bool_decide_eq_true. lia. Qed.

(** What a first allocation that read [seen] gives to a container. *)
Lemma first_allocation ans seen c c' msg :
  an_Containers ans = Ok seen -> an_NodeInfo ans = Ok info -> spec_ok c ->
  doAllocateResourcesWithLease sort cfg ans nodeName c = Ok (c', msg) ->
  container_ok c' /\
  (forall x, x ∈ drives_of_container c' -> ~ Exists (fun s => held_by s x) (to_allocator <$> seen)) /\
  (forall d, d ∈ ni_SharedDrives info ->
     claims (to_allocator <$> seen) (sd_PhysicalUUID d) + placed (virtual_of_container c') (sd_PhysicalUUID d) <=
     Z.max (sd_CapacityGiB d) (claims (to_allocator <$> seen) (sd_PhysicalUUID d))).
Proof.
  intros Hseen Hinfo Hspec. unfold doAllocateResourcesWithLease. rewrite Hseen, Hinfo.
  destruct (an_Node ans); [cbn [lift_error res_bind]|done].
  destruct (getOwnerCluster ans c) as [cluster|]; [cbn [lift_error res_bind]|done].
  destruct (validateDriveSharingConfig c); [done|].
  destruct (an_FeatureFlags ans) as [flags|]; [cbn [lift_error res_bind]|done].
  destruct (vid_label ans c) as [vid|]; [cbn [lift_error res_bind]|done].
  unfold AllocateResources. cbn [req_Container req_NumDrives].
  rewrite sharing_allocator. destruct (container_UsesDriveSharing c) eqn:Esh.
  - destruct (AllocateSharedDrives _ _ _ _ _ _ _) as [vds|] eqn:E; [cbn [res_bind]|done].
    destruct (allocatePortRangesFromStatus _ _ _ _ _) as [[? ?]|]; [|done]. intros [= <- <-].
    apply AllocateSharedDrives_post in E as [[Hsafe _] Hpos]; [|done| | |done].
    + split_and!; [split; simpl; [exact Hspec|constructor|exact Hpos]|set_solver|exact Hsafe].
    + destruct (Hspec Esh) as (? & ? & ?). unfold request_ok. simpl. split_and!; [lia|lia|done].
    + apply sharing_capacity, Esh.
  - destruct (decide (cs_NumDrives (cn_Spec c) > 0)).
    + destruct (getAvailableDrivesFromStatus _ _) as [l|] eqn:E; [|done].
      destruct (decide (len l < _)); [done|]. cbn [res_bind].
      destruct (allocatePortRangesFromStatus _ _ _ _ _) as [[? ?]|]; [|done]. intros [= <- <-].
      apply available_spec in E as [Hl Hnl].
      split_and!; [split; simpl; [exact Hspec| |constructor]| |].
      * eapply sublist_NoDup; [by apply Hnl|apply sublist_take].
      * intros x Hx. rewrite <- elem_of_aggregateNodeDrives. apply (Hl x).
        eapply sublist_subseteq; [apply sublist_take|exact Hx].
      * intros d _. unfold placed. simpl. lia.
    + cbn [res_bind]. destruct (allocatePortRangesFromStatus _ _ _ _ _) as [[? ?]|]; [|done]. intros [= <- <-].
      split_and!; [split; simpl; [exact Hspec|constructor..]|set_solver|].
      intros d _. unfold placed. simpl. lia.
Qed.

(** The state of the protocol: a safe node, and a read that still covers it. *)
Definition world_ok (w : NodeWorld) : Prop :=
  node_ok info (wd_Containers w) /\
  match wd_Seen w with Some seen => covers seen (wd_Containers w) | None => True end.

Lemma world_ok_shrink cs lease seen growing lease' growing' k c' :
  world_ok (mkWorld cs lease seen growing) -> shrinks cs k c' ->
  world_ok (mkWorld (<[k := c']> cs) lease' seen growing').
Proof.
  intros [Hok Hc] Hs. split; [by apply node_ok_shrink|]. simpl in *. destruct seen; [|done].
  by eapply covers_shrink.
Qed.

Lemma write_ok cs seen k c ans c' msg :
  node_ok info cs -> covers seen cs -> cs !! k = Some c -> cst_Allocations (cn_Status c) = None ->
  an_Containers ans = Ok seen -> an_NodeInfo ans = Ok info ->
  doAllocateResourcesWithLease sort cfg ans nodeName c = Ok (c', msg) -> node_ok info (<[k := c']> cs).
Proof.
  intros Hok [Hd Hc] Hk Hnone Hs Hi H. pose proof Hok as [Hall _ Hcap].
  apply (first_allocation _ seen) in H as (Hok' & Hfree & Hfit); [|done|done|by eapply ok_spec, Hall].
  apply node_ok_insert; [done|done|..].
  - intros k2 c2 x H2 Hx2 Hx. by destruct (Hfree x Hx (Hd k2 c2 x H2 Hx2)).
  - intros d Hin. specialize (Hfit d Hin). specialize (Hcap d Hin). specialize (Hc (sd_PhysicalUUID d)).
    pose proof (node_claims_delete cs k c (sd_PhysicalUUID d) Hk) as E.
    assert (Hv : virtual_of_container c = []) by (unfold virtual_of_container, status_VirtualDrives; simpl; by rewrite Hnone).
    rewrite Hv in E. unfold placed in E at 1. simpl in E.
    pose proof (placed_nonneg _ (sd_PhysicalUUID d) (ok_virtual _ Hok')). lia.
Qed.

Lemma alloc_step_ok w w' : alloc_step sort cfg nodeName info w w' -> world_ok w -> world_ok w'.
Proof.
  destruct w as [cs lease seen growing].
  destruct 1 as [k c|k|k c s ans c' msg Hl Hseen Hk|k|k c a d a' Hk Ha Hd|k c s Hk Hs|k c Hk Hn Hs|k]; intros Hw; simpl in *.
  - split; [apply Hw|done].
  - split; [apply Hw|apply covers_refl].
  - destruct Hw as [Hok Hc]. simpl in *. rewrite Hseen in Hc. split; [|done]. by eapply write_ok.
  - split; [apply Hw|done].
  - eapply world_ok_shrink; [exact Hw|]. split; [exact (ok_spec _ (ok_containers _ _ (proj1 Hw) k c Hk))|].
    rewrite Hk, drives_set_allocations, virtual_set_allocations. apply deallocate_fewer in Hd as (H1 & H2 & _).
    unfold drives_of_container, virtual_of_container, status_Drives, status_VirtualDrives. simpl. by rewrite Ha.
  - eapply world_ok_shrink; [exact Hw|]. split; [done|]. by rewrite Hk.
  - eapply world_ok_shrink; [exact Hw|]. split; [done|].
    rewrite Hk. unfold drives_of_container, virtual_of_container, status_Drives, status_VirtualDrives. simpl. by rewrite Hn.
  - destruct Hw as [Hok Hc]. simpl in *. split; [by apply node_ok_delete|]. simpl. destruct seen; [|done].
    by eapply covers_delete.
Qed.

(** What the growth of a container that read the node as it is gives it. *)
Lemma growth_gives cs ans k c a c' :
  node_ok info cs -> cs !! k = Some c -> cst_Allocations (cn_Status c) = Some a ->
  an_Containers ans = Ok (on_node cs) -> an_NodeInfo ans = Ok info ->
  AllocateDrivesIfNeeded sort cfg ans c a = Ok (Some c') ->
  container_ok c' /\
  (exists new, drives_of_container c' = drives_of_container c ++ new /\
     forall x, x ∈ new -> ~ Exists (fun s => held_by s x) (to_allocator <$> on_node cs)) /\
  (exists new, virtual_of_container c' = virtual_of_container c ++ new /\
     node_safe (ni_SharedDrives info) (to_allocator <$> on_node cs) new).
Proof.
  intros Hok Hk Ha Hc Hi. destruct (ok_containers _ _ Hok k c Hk) as [Hspec Hnd Hpos].
  unfold drives_of_container, virtual_of_container, status_Drives, status_VirtualDrives in *. simpl in *. rewrite Ha in *.
  unfold AllocateDrivesIfNeeded, FormReallocationRequest. rewrite Hc, Hi.
  destruct (decide (GetNodeAffinity c = "")); [done|]. destruct (an_Node ans); [|done].
  set (request := if HasContainerCapacity c then _ else _).
  assert (Hreq : match request with
    | Ok (Some r) => rr_Container r = to_allocator c /\ rr_FailedDrives r = [] /\ 0 <= rr_NumNewDrives r /\
        0 <= rr_CapacityGiB r /\ (container_UsesDriveSharing c = true -> 0 < cs_DriveCapacity (cn_Spec c) \/ 0 < rr_CapacityGiB r)
    | _ => True end).
  { unfold request, HasContainerCapacity. case_bool_decide as Hcap; case_decide; simpl; try done; split_and!; try done; try lia.
    intros Hsh%sharing_capacity. lia. }
  destruct request as [[r|]|]; simpl; [|done..]. destruct Hreq as (Hr & Hf & Hn & Hcap & Hsh).
  destruct (vid_label ans c) as [vid|]; simpl; [|done]. unfold ReallocateDrives. cbn [rr_Container]. rewrite Hr, sharing_allocator.
  destruct (container_UsesDriveSharing c) eqn:E.
  - unfold reallocateVirtualDrives. cbn [rr_Container rr_NumNewDrives rr_CapacityGiB rr_SsdProxyVidLabelAdd rr_FailedDrives].
    destruct (AllocateSharedDrives _ _ _ _ _ _ _) as [new|] eqn:Enew; [|done]. intros [= <-].
    apply AllocateSharedDrives_post in Enew as [Hsafe Hnew]; [|done| |by apply Hsh|done].
    + rewrite Hf. unfold status_VirtualDrives. simpl. rewrite Ha.
      rewrite list_filter_all by (apply Forall_forall; intros; split; apply not_elem_of_nil).
      split_and!; [|exists []; rewrite app_nil_r; split; [done|set_solver]|by exists new].
      split; [done|done|]. unfold virtual_of_container. simpl. by apply Forall_app.
    + destruct (Hspec E) as (? & ? & ?). unfold request_ok. simpl. split_and!; [lia|lia|done].
  - destruct (reallocateRegularDrives _ _ _) as [res|] eqn:Eres; [|done]. intros [= <-].
    set (req := mkRealloc _ _ _ _ _) in Eres.
    pose proof (reallocateRegularDrives_sound info req (to_allocator <$> on_node cs) whole_distinct) as H.
    rewrite Eres in H. unfold status_Drives in H. simpl in H. rewrite Ha in H. destruct H as (H1 & _ & H2 & H3); [done|done|].
    rewrite Hf in H1, H3. rewrite list_filter_all in H1 by (apply Forall_forall; intros; apply not_elem_of_nil).
    split_and!.
    + split; [done| |done]. unfold drives_of_container. simpl. exact H2.
    + exists (rs_NewDrives res). simpl. split; [done|]. intros x Hx (s & Hs & Hh)%Exists_exists.
      destruct (H3 x Hx) as [_ H3']. destruct (H3' s Hs Hh) as [_ Hfail]. by apply not_elem_of_nil in Hfail.
    + exists []. simpl. rewrite app_nil_r. split; [done|]. split; [|constructor]. intros d _. unfold placed. simpl. lia.
Qed.

Lemma growth_ok cs ans k c a c' :
  node_ok info cs -> cs !! k = Some c -> cst_Allocations (cn_Status c) = Some a ->
  an_Containers ans = Ok (on_node cs) -> an_NodeInfo ans = Ok info ->
  AllocateDrivesIfNeeded sort cfg ans c a = Ok (Some c') -> node_ok info (<[k := c']> cs).
Proof.
  intros Hok Hk Ha Hc Hi H. pose proof Hok as [Hall Hex Hcap].
  eapply growth_gives in H as (Hok' & (new & Hnew & Hfree) & (vnew & Hv & [Hsafe _])); [|done..].
  apply node_ok_insert; [done|done|..].
  - intros k2 c2 x H2 Hx2 Hx. rewrite Hnew in Hx. apply elem_of_app in Hx as [Hx|Hx]; [by eapply Hex|].
    destruct (Hfree x Hx). by eapply (covers_drives _ _ (covers_refl cs)).
  - intros d Hin. rewrite Hv, placed_app. specialize (Hsafe d Hin). specialize (Hcap d Hin).
    pose proof (node_claims_delete cs k c (sd_PhysicalUUID d) Hk) as E. fold (node_claims cs (sd_PhysicalUUID d)) in Hsafe. lia.
Qed.
End steps.

(** ** The protocol *)


(** A drive container on node n. *)
Definition drive_container (name : string) (numDrives : Z) (a : option ContainerAllocations) : Container := {|
  cn_Name := name; cn_Namespace := "ns"; cn_CreationTimestamp := 0; cn_Deleted := false;
  cn_OwnerReferences := [{| or_Kind := "WekaCluster"; or_Name := "c" |}];
  cn_Spec := {| cs_Mode := "drive"; cs_Image := "i"; cs_State := "active"; cs_CpuPolicy := ""; cs_NumCores := 1;
    cs_ExtraCores := 0; cs_Resources := None; cs_Hugepages := 0; cs_HugepagesOffset := 0; cs_HugepagesSize := "";
    cs_NumDrives := numDrives; cs_DriveCapacity := 0; cs_ContainerCapacity := 0; cs_DriveTypesRatio := None;
    cs_NodeAffinity := "n"; cs_RotatePod := false; cs_NodeSelector := ∅; cs_DpdkBaseMemoryMb := 0 |};
  cn_Status := {| cst_Status := "Running"; cst_ManagementIps := []; cst_NodeAffinity := "n"; cst_LastAppliedImage := "i";
    cst_ClusterContainerID := None; cst_PodOutdated := false; cst_Allocations := a |} |}.

Definition one_drive (serial : string) : option ContainerAllocations :=
  Some (mkAllocations [serial] (mkPortAlloc 0 0) []).

Definition all_well (seen : list Container) (info : NodeInfo) : answers :=
  mkAnswers (Ok tt) (Ok default_cluster) (Ok None) (Ok false) (Ok seen) (Ok info) (fun _ => "id").

(** Two containers, and a node with three drives. *)
Definition two_containers (a b : option ContainerAllocations) (na nb : Z) : gmap string Container :=
  {[ "ns/a" := drive_container "a" na a; "ns/b" := drive_container "b" nb b ]}.
Definition three_drives : NodeInfo := mkNodeInfo [mkEntry "s1" 100; mkEntry "s2" 100; mkEntry "s3" 100] [].

(** A check of [node_ok] for containers of whole drives. *)
Lemma two_containers_ok a b na nb :
  Forall (fun oa => match oa with Some al => ca_VirtualDrives al = [] | None => True end) [a; b] ->
  NoDup (status_Drives (to_allocator (drive_container "a" na a)) ++ status_Drives (to_allocator (drive_container "b" nb b))) ->
  node_ok three_drives (two_containers a b na nb).
Proof.
  intros Hv (H1 & H12 & H2)%NoDup_app. rewrite !Forall_cons in Hv. destruct Hv as (Hva & Hvb & _).
  assert (Hvirt : forall n k oa, match oa with Some al => ca_VirtualDrives al = [] | None => True end ->
    virtual_of_container (drive_container n k oa) = []) by (intros n k [al|] H; [exact H|done]).
  assert (Hspec : forall n k oa, spec_ok (drive_container n k oa)).
  { intros n k oa H. discriminate H. }
  assert (Hlook : forall k c, two_containers a b na nb !! k = Some c ->
    k = "ns/a" /\ c = drive_container "a" na a \/ k = "ns/b" /\ c = drive_container "b" nb b).
  { intros k c. unfold two_containers. rewrite lookup_insert. case_decide; [intros [= <-]; by left|].
    intros [<- <-]%lookup_singleton_Some. by right. }
  split.
  - intros k c [[-> ->]|[-> ->]]%Hlook; split; try done; by rewrite Hvirt.
  - intros k1 k2 c1 c2 x [[-> ->]|[-> ->]]%Hlook [[-> ->]|[-> ->]]%Hlook Hx1 Hx2; try done.
    + destruct (H12 x); done.
    + destruct (H12 x); done.
  - intros d Hd. destruct (not_elem_of_nil d Hd).
Qed.


(** Growing the drives of a container is safe when nothing else happens on the node between its read and
    its write: what it holds is kept, the new whole drives were nobody's, and the shared drives stay within
    their capacity. *)
Theorem growth_alone_safe sort `{!DriveSort sort} cfg info cs ans k c a c' :
  NoDup (sd_PhysicalUUID <$> ni_SharedDrives info) -> NoDup (de_Serial <$> ni_AvailableDrives info) ->
  node_ok info cs -> cs !! k = Some c -> cst_Allocations (cn_Status c) = Some a ->
  an_Containers ans = Ok (on_node cs) -> an_NodeInfo ans = Ok info ->
  AllocateDrivesIfNeeded sort cfg ans c a = Ok (Some c') ->
  node_ok info (<[k := c']> cs) /\
  drives_of_container c `prefix_of` drives_of_container c' /\
  virtual_of_container c `prefix_of` virtual_of_container c'.
Proof.
  intros Hs Hd Hok Hk Ha Hc Hi H. split; [by eapply growth_ok|].
  eapply growth_gives in H as (_ & (new & -> & _) & (vnew & -> & _)); [|done..].
  split; by apply prefix_app_r.
Qed.

Lemma growth_alone_safe_witness :
  let cs := two_containers (one_drive "s2") (one_drive "s1") 2 1 in
  exists c', AllocateDrivesIfNeeded stable_sort default_sharing (all_well (on_node cs) three_drives)
               (drive_container "a" 2 (one_drive "s2")) (mkAllocations ["s2"] (mkPortAlloc 0 0) []) = Ok (Some c') /\
    drives_of_container c' = ["s2"; "s3"] /\ node_ok three_drives (<["ns/a" := c']> cs).
Proof.
  intros cs. eexists. split; [vm_compute; reflexivity|]. split; [reflexivity|].
  refine (proj1 (growth_alone_safe stable_sort default_sharing three_drives cs (all_well (on_node cs) three_drives)
    "ns/a" (drive_container "a" 2 (one_drive "s2")) (mkAllocations ["s2"] (mkPortAlloc 0 0) []) _ _ _ _ _ _ _ _ _)).
  - constructor.
  - apply (bool_decide_unpack _). vm_compute. exact I.
  - apply two_containers_ok; [repeat constructor|]. apply (bool_decide_unpack _). vm_compute. exact I.
  - reflexivity.
  - reflexivity.
  - reflexivity.
  - reflexivity.
  - vm_compute. reflexivity.
Defined.

(** [AllocateDrivesIfNeeded] does not take the lease of the node. Two drive containers that each want one
    drive more, and read the node before either has written, are both given the same drive. *)
Theorem growth_race_shares_a_drive :
  let cs := two_containers (one_drive "s1") (one_drive "s2") 2 2 in
  exists w, rtc (growth_step stable_sort default_sharing three_drives) (mkWorld cs None None ∅) w /\
    drives_of_container <$> (wd_Containers w !! "ns/a") = Some ["s1"; "s3"] /\
    drives_of_container <$> (wd_Containers w !! "ns/b") = Some ["s2"; "s3"].
Proof.
  intros cs. set (seen := on_node cs).
  set (grown := fun c a => match AllocateDrivesIfNeeded stable_sort default_sharing (all_well seen three_drives) c a with
                           | Ok (Some c) => c | _ => c end).
  set (al := fun s => mkAllocations [s] (mkPortAlloc 0 0) []).
  set (ca := drive_container "a" 2 (one_drive "s1")). set (cb := drive_container "b" 2 (one_drive "s2")).
  eexists. split; [|split].
  - eapply rtc_l; [eapply (step_grow_read _ _ _ _ "ns/a" ca); [reflexivity..|vm_compute; reflexivity]|].
    eapply rtc_l; [eapply (step_grow_read _ _ _ _ "ns/b" cb); [reflexivity..|vm_compute; reflexivity]|].
    eapply rtc_l; [eapply (step_grow_write _ _ _ _ "ns/a" ca (al "s1") seen (all_well seen three_drives) (grown ca (al "s1")));
      [reflexivity..|vm_compute; reflexivity]|].
    eapply rtc_l; [eapply (step_grow_write _ _ _ _ "ns/b" cb (al "s2") seen (all_well seen three_drives) (grown cb (al "s2")));
      [reflexivity..|vm_compute; reflexivity]|].
    apply rtc_refl.
  - vm_compute. reflexivity.
  - vm_compute. reflexivity.
Qed.

(** ** Removing drives *)

(** Whether any of [l] is named by a list, and what is left without those. *)
Definition any_in {A} (f : A -> string) (names : list string) (l : list A) : bool :=
  existsb (fun x => bool_decide (f x ∈ names)) l.
Definition not_in {A} (f : A -> string) (names : list string) (l : list A) : list A :=
  filter (fun x => f x ∉ names) l.

Lemma any_in_false {A} (f : A -> string) names l : any_in f names l = false <-> not_in f names l = l.
Proof.
  unfold any_in, not_in. induction l as [|x l IH]; simpl; [done|].
  rewrite filter_cons, orb_false_iff, bool_decide_eq_false, IH. case_decide as Hx.
  - split; [by intros [_ ->]|]. intros [= ?]. done.
  - split; [tauto|]. intros Heq. exfalso. apply (f_equal length) in Heq. simpl in Heq.
    pose proof (length_filter (fun x => f x ∉ names) l). lia.
Qed.

Lemma any_in_not_in {A} (f : A -> string) names l : any_in f names (not_in f names l) = false.
Proof.
  apply any_in_false. unfold not_in. rewrite list_filter_filter. apply list_filter_iff. tauto.
Qed.

Lemma deallocateDrivesBySerials_eq serials a :
  deallocateDrivesBySerials serials a =
    if any_in id serials (ca_Drives a) || any_in vd_Serial serials (ca_VirtualDrives a)
    then Some (mkAllocations (not_in id serials (ca_Drives a)) (ca_Ports a) (not_in vd_Serial serials (ca_VirtualDrives a)))
    else None.
Proof.
  unfold deallocateDrivesBySerials. rewrite filterVirtualDrives_spec.
  change (existsb _ (ca_Drives a)) with (any_in id serials (ca_Drives a)).
  change (existsb _ (ca_VirtualDrives a)) with (any_in vd_Serial serials (ca_VirtualDrives a)).
  replace (filter _ (ca_VirtualDrives a)) with (not_in vd_Serial serials (ca_VirtualDrives a))
    by (apply list_filter_iff; intros v; by rewrite bool_decide_eq_false).
  destruct (any_in id _ _) eqn:E1, (any_in vd_Serial _ _) eqn:E2; simpl; try done; unfold set_VirtualDrives, set_Drives; simpl;
    f_equal; f_equal; try done; symmetry; by apply any_in_false.
Qed.

(** The clean-up by serials removes exactly the blocked drives, whole or virtual, and nothing else; it asks
    for an update exactly when there is something to remove, and a second run has nothing to do. *)
Theorem deallocateDrivesBySerials_exact serials a :
  let left_drives := filter (fun d => d ∉ serials) (ca_Drives a) in
  let left_virtual := filter (fun v => vd_Serial v ∉ serials) (ca_VirtualDrives a) in
  match deallocateDrivesBySerials serials a with
  | Some a' => a' = mkAllocations left_drives (ca_Ports a) left_virtual /\ a' <> a /\
               deallocateDrivesBySerials serials a' = None
  | None => left_drives = ca_Drives a /\ left_virtual = ca_VirtualDrives a
  end.
Proof.
  intros ld lv. rewrite deallocateDrivesBySerials_eq. destruct (_ || _) eqn:E.
  - split; [done|]. split; [|by rewrite deallocateDrivesBySerials_eq; simpl; rewrite !any_in_not_in].
    intros Ha. apply orb_true_iff in E. rewrite <- Ha in E. simpl in E. rewrite !any_in_not_in in E. by destruct E.
  - apply orb_false_iff in E as [E1 E2]. split; by apply any_in_false.
Qed.

(** ** NICs *)

Lemma elem_of_allocated_nics allocs m : m ∈ allocated_nics allocs <-> exists id, m ∈ nics_of allocs id.
Proof.
  unfold allocated_nics. revert allocs.
  apply (map_fold_weak_ind (fun r allocs => m ∈ r <-> exists id, m ∈ nics_of allocs id)).
  - split; [set_solver|]. intros [id H]. unfold nics_of in H. rewrite lookup_empty in H. set_solver.
  - intros id nics allocs r Hid IH. rewrite elem_of_union, elem_of_list_to_set, IH. unfold nics_of. split.
    + intros [H|[id' H]]; [exists id; by rewrite lookup_insert_eq|]. exists id'.
      rewrite lookup_insert_ne; [done|]. intros <-. rewrite Hid in H. set_solver.
    + intros [id' H]. rewrite lookup_insert in H. case_decide; [by left|right; eauto].
Qed.

(** The MAC addresses of a node that are not given out. *)
Definition free_macs (allNICs : list NIC) (allocated : gset string) : list string :=
  filter (fun m => m ∉ allocated) (MacAddress <$> allNICs).

Lemma find_free allNICs allocated :
  MacAddress <$> find (fun nic => bool_decide (MacAddress nic ∉ allocated)) allNICs = head (free_macs allNICs allocated).
Proof.
  induction allNICs as [|nic l IH]; [done|]. unfold free_macs. simpl. rewrite filter_cons.
  destruct (decide (MacAddress nic ∉ allocated)) as [H|H].
  - by rewrite bool_decide_eq_true_2.
  - by rewrite bool_decide_eq_false_2.
Qed.

Lemma filter_app_fresh (l k : list string) :
  (forall x, x ∈ l -> x ∉ k) -> filter (fun m => m ∉ l) (l ++ k) = k.
Proof.
  intros H. rewrite filter_app, (list_filter_all _ k) by (apply Forall_forall; intros x Hx Hx'; by apply (H x)).
  rewrite list_filter_none; [done|]. apply Forall_forall. tauto.
Qed.

Lemma free_macs_taken allNICs allocated n :
  NoDup (MacAddress <$> allNICs) ->
  free_macs allNICs (list_to_set (take n (free_macs allNICs allocated)) ∪ allocated) =
  drop n (free_macs allNICs allocated).
Proof.
  intros Hnd. set (F := free_macs allNICs allocated).
  assert (HF : NoDup F) by (by apply NoDup_filter).
  transitivity (filter (fun m => m ∉ take n F) (filter (fun m => m ∉ allocated) (MacAddress <$> allNICs))).
  { rewrite list_filter_filter. apply list_filter_iff. intros m. set_solver. }
  fold (free_macs allNICs allocated). fold F.
  rewrite <- (take_drop n F) in HF. apply NoDup_app in HF as (_ & H1 & _).
  pose proof (filter_app_fresh (take n F) (drop n F) H1) as H. by rewrite take_drop in H.
Qed.

(** After n turns the first n free NICs have gone to the container. *)
Lemma give_nics allNICs id allocated allocs n :
  NoDup (MacAddress <$> allNICs) -> is_Some (allocs !! id) ->
  Nat.iter n (give_nic allNICs id) (allocated, allocs) =
  (list_to_set (take n (free_macs allNICs allocated)) ∪ allocated,
   <[id := nics_of allocs id ++ take n (free_macs allNICs allocated)]> allocs).
Proof.
  intros Hnd [l Hl]. set (F := free_macs allNICs allocated). induction n as [|n IH].
  { simpl. rewrite take_0. simpl. rewrite app_nil_r, insert_id; [f_equal; set_solver|].
    unfold nics_of. by rewrite Hl. }
  rewrite Nat.iter_succ, IH. unfold give_nic.
  pose proof (find_free allNICs (list_to_set (take n F) ∪ allocated)) as Hfind.
  unfold F in Hfind. rewrite free_macs_taken in Hfind by done. fold F in Hfind.
  destruct (find _ allNICs) as [nic|]; simpl in Hfind.
  - assert (Hn : F !! n = Some (MacAddress nic)) by (by rewrite Hfind, head_lookup, lookup_drop, Nat.add_0_r).
    rewrite (take_S_r F n (MacAddress nic)) by done. unfold nics_of at 1. rewrite lookup_insert_eq, insert_insert_eq. simpl.
    rewrite app_assoc. f_equal. rewrite list_to_set_app_L. set_solver.
  - assert (Hn : (length F <= n)%nat).
    { destruct (drop n F) eqn:E; [|done]. apply (f_equal length) in E. rewrite length_drop in E. simpl in E. lia. }
    by rewrite !take_ge by lia.
Qed.

(** No NIC is given out twice. *)
Definition nics_ok (allocs : gmap string (list string)) : Prop :=
  (forall id, NoDup (nics_of allocs id)) /\
  (forall id1 id2 m, m ∈ nics_of allocs id1 -> m ∈ nics_of allocs id2 -> id1 = id2).

Lemma nics_of_insert allocs id l id' : nics_of (<[id := l]> allocs) id' = if decide (id = id') then l else nics_of allocs id'.
Proof. unfold nics_of. rewrite lookup_insert. by case_decide. Qed.

(** Giving NICs out is exclusive and first come, first served: a container that has fewer NICs than cores
    keeps those it has and gets the first free ones of the node, as many as it misses or as there are; the
    other containers keep theirs, and no NIC is held twice. *)
Theorem AllocateNICs_exact node c allNICs allocs allocs' :
  nn_NICs node = Some (Ok allNICs) -> nn_Allocations node = Some (Ok allocs) ->
  NoDup (MacAddress <$> allNICs) -> nics_ok allocs ->
  AllocateNICs node c = Ok (Some allocs') ->
  let id := GetAllocationIdentifier (cn_Namespace c) (cn_Name c) in
  let missing := cs_NumCores (cn_Spec c) - len (nics_of allocs id) in
  let free := free_macs allNICs (allocated_nics allocs) in
  0 < missing /\ nics_ok allocs' /\
  nics_of allocs' id = nics_of allocs id ++ take (Z.to_nat missing) free /\
  forall id', id' <> id -> nics_of allocs' id' = nics_of allocs id'.
Proof.
  intros Hn Ha Hnd Hok. unfold AllocateNICs. rewrite Hn, Ha. simpl. case_decide as Hhave; [done|].
  set (id := GetAllocationIdentifier _ _) in *. set (missing := _ - _). set (free := free_macs _ _).
  set (allocs0 := match allocs !! id with Some _ => allocs | None => _ end).
  assert (H0 : forall i, nics_of allocs0 i = nics_of allocs i).
  { intros i. unfold allocs0. destruct (allocs !! id) eqn:E; [done|]. rewrite nics_of_insert. case_decide as Hi; [|done].
    unfold nics_of. by rewrite <- Hi, E. }
  assert (Hid : is_Some (allocs0 !! id)).
  { unfold allocs0. destruct (allocs !! id) eqn:E; [by rewrite E|by rewrite lookup_insert_eq]. }
  rewrite give_nics by done. simpl. fold free. rewrite H0. intros [= <-].
  assert (Hlook : forall i, nics_of (<[id := nics_of allocs id ++ take (Z.to_nat missing) free]> allocs0) i =
    if decide (id = i) then nics_of allocs id ++ take (Z.to_nat missing) free else nics_of allocs i).
  { intros i. rewrite nics_of_insert. by case_decide. }
  assert (Hfree : forall m i, m ∈ take (Z.to_nat missing) free -> m ∉ nics_of allocs i).
  { intros m i Hm Hi. assert (Hm' : m ∈ free) by (eapply sublist_subseteq; [apply sublist_take|exact Hm]).
    apply list_elem_of_filter in Hm' as [Hm' _]. apply Hm', elem_of_allocated_nics. eauto. }
  split_and!; [unfold missing; lia| |by rewrite Hlook, decide_True|intros i Hi; by rewrite Hlook, decide_False].
  destruct Hok as [Hd He]. split.
  - intros i. rewrite Hlook. case_decide; [|done]. apply NoDup_app. split_and!; [done|naive_solver|].
    eapply (sublist_NoDup _ free); [unfold free, free_macs; by apply NoDup_filter|apply sublist_take].
  - intros i1 i2 m. rewrite !Hlook. repeat case_decide; simplify_eq; try done; rewrite ?elem_of_app; naive_solver.
Qed.

Lemma AllocateNICs_exact_witness :
  let node := mkNicNode "n" "aws:///x" (Some (Ok [mkNIC "m1" "1" ""; mkNIC "m2" "2" ""; mkNIC "m3" "3" ""]))
                (Some (Ok {[ "ns/b" := ["m1"] ]})) in
  exists allocs', AllocateNICs node (drive_container "a" 2 None) = Ok (Some allocs') /\
    nics_of allocs' "ns/a" = ["m2"] /\ nics_ok allocs'.
Proof.
  intros node. eexists. split; [vm_compute; reflexivity|]. split; [vm_compute; reflexivity|].
  refine (proj1 (proj2 (AllocateNICs_exact node (drive_container "a" 2 None) [mkNIC "m1" "1" ""; mkNIC "m2" "2" ""; mkNIC "m3" "3" ""]
    {[ "ns/b" := ["m1"] ]} _ _ _ _ _ _))).
  - reflexivity.
  - reflexivity.
  - apply (bool_decide_unpack _). vm_compute. exact I.
  - assert (H : forall id, nics_of {[ "ns/b" := ["m1"] ]} id = if decide ("ns/b" = id) then ["m1"] else []).
    { intros id. unfold nics_of. destruct (decide ("ns/b" = id)) as [<-|]; [by rewrite lookup_singleton_eq|by rewrite lookup_singleton_ne]. }
    split; [intros id; rewrite H; case_decide; auto using NoDup_nil_2, NoDup_singleton|].
    intros id1 id2 m. rewrite !H. repeat case_decide; set_solver.
  - vm_compute. reflexivity.
Defined.

(** When a node runs out of NICs the step still succeeds: a container of four cores on a node with one NIC is
    given that one, and [GetNetDevices] only fails when there is none. *)
Example AllocateNICs_short :
  let node := mkNicNode "n" "aws:///x" (Some (Ok [mkNIC "m1" "1" ""])) None in
  let c := set_spec (spec_resize 4 0 0 0 0 None (cn_Spec (drive_container "a" 2 None))) (drive_container "a" 2 None) in
  AllocateNICs node c = Ok (Some {[ "ns/a" := ["m1"] ]}).
Proof. vm_compute. reflexivity. Qed.

(** Taking the NICs back undoes giving them, for a container that had none. *)
Theorem DeallocateNICs_undoes node c allNICs allocs allocs' :
  nn_NICs node = Some (Ok allNICs) -> nn_Allocations node = Some (Ok allocs) ->
  NoDup (MacAddress <$> allNICs) ->
  allocs !! GetAllocationIdentifier (cn_Namespace c) (cn_Name c) = None ->
  AllocateNICs node c = Ok (Some allocs') ->
  DeallocateNICs (Some (mkNicNode (nn_Name node) (nn_ProviderID node) (nn_NICs node) (Some (Ok allocs')))) c = Ok (Some allocs).
Proof.
  intros Hn Ha Hnd Hnone. unfold AllocateNICs, DeallocateNICs. rewrite Hn, Ha. simpl. rewrite Hnone.
  case_decide; [done|]. rewrite give_nics by (done || by rewrite lookup_insert_eq). simpl. intros [= <-].
  rewrite lookup_insert_eq, !delete_insert_eq. by rewrite delete_id.
Qed.
