(* ===== verification/Validation.v ===== *)
(** * Admission of clusters (internal/validation, internal/admission)

    The rules that judge a WekaCluster before it is stored: those on its sizing, its capacity, its nodes and
    its drives, the rules on updates, and the evaluation of the rules under the admission policies. A rule
    returns its violations: what kind of error, at which field, with which value; the texts of the messages
    are left out. The lists of nodes and containers are answers of the API server, hence arguments.

    Not modelled, of the registry: the rules on URLs, pod specs, volumes, networks and certificates. *)

From S2P Require Import Prelude Float64 Fmt Types Sizing Strategies VirtualDrives.
From S2P Require Import Api Nodes Templates.

(** ** Violations *)

Inductive violation_kind : Type := Invalid | Forbidden | InternalError.

(** The bad value of an Invalid error. *)
Inductive bad_value : Type := NoValue | IntValue (z : Z) | StringValue (s : string) | BoolValue (b : bool).

Record violation : Type := mkViolation { v_Kind : violation_kind; v_Field : string; v_Value : bad_value }.

Definition invalid (field : string) (z : Z) : violation := mkViolation Invalid field (IntValue z).
Definition internal (field : string) : violation := mkViolation InternalError field NoValue.
Definition forbidden (field : string) : violation := mkViolation Forbidden field NoValue.

Definition template_field (name : string) : string := ("spec.dynamicTemplate." ++ name)%string.

(** ** The cluster as the rules see it *)

Record AdmittedCluster : Type := mkAdmitted {
  ac_UID : string;
  ac_Annotations : gmap string string;
  ac_Spec : ClusterSpec;
  ac_MinNumDrives : Z;
  ac_SkipDefaultFilesystemCreation : option bool;
  ac_TelemetryExports : option Z }.

Definition AnnotationSizingModeMigration : string := "weka.io/sizing-mode-migration".
Definition SizingModeMigrationDriveSharing : string := "drive-sharing".

Definition dynamic (c : AdmittedCluster) : option WekaClusterTemplate := csp_Dynamic (ac_Spec c).

(** ** Roles *)

Record roleSpec : Type := mkRole {
  rs_role : string; rs_coresField : string; rs_hugepagesField : string; rs_containersField : string;
  rs_cores : Z; rs_hugepages : Z; rs_containers : Z; rs_countDerived : bool }.

Definition rolesForTemplate (d : option WekaClusterTemplate) : list roleSpec :=
  match d with
  | None => []
  | Some d =>
      [mkRole WekaContainerModeDrive "driveCores" "driveHugepages" "driveContainers"
         (wt_DriveCores d) (wt_DriveHugepages d) (wt_DriveContainers d) true;
       mkRole WekaContainerModeCompute "computeCores" "computeHugepages" "computeContainers"
         (wt_ComputeCores d) (wt_ComputeHugepages d) (wt_ComputeContainers d) true;
       mkRole WekaContainerModeS3 "s3Cores" "s3FrontendHugepages" "s3Containers"
         (wt_S3Cores d) (wt_S3FrontendHugepages d) (wt_S3Containers d) (bool_decide (wt_S3Containers d < 0));
       mkRole WekaContainerModeNfs "nfsCores" "nfsFrontendHugepages" "nfsContainers"
         (wt_NfsCores d) (wt_NfsFrontendHugepages d) (wt_NfsContainers d) false;
       mkRole WekaContainerModeSmbw "smbwCores" "smbwFrontendHugepages" "smbwContainers"
         (wt_SmbwCores d) (wt_SmbwFrontendHugepages d) (wt_SmbwContainers d) false;
       mkRole WekaContainerModeDataServices "dataServicesCores" "dataServicesHugepages" "dataServicesContainers"
         (wt_DataServicesCores d) (wt_DataServicesHugepages d) (wt_DataServicesContainers d) false]
  end.

Section rules.
Context (cfg : OperatorConfig).
(** What the API server lists for a label selector. *)
Context (list_nodes : gmap string string -> res string (list Node)).

(** [None] is [ok = false]. *)
Definition templateCoreSides (config : option WekaClusterTemplate) : option (Z * Z) :=
  match config with
  | None => None
  | Some t =>
      if IsPlannerManaged config then None
      else if decide (wt_DriveContainers t <= 0 \/ wt_ComputeContainers t <= 0) then None
      else
        let cores := GetWekaContainerCores cfg config in
        Some (wt_DriveContainers t * role_Drive cores, wt_ComputeContainers t * role_Compute cores)
  end.

(** ** Capacity *)

Definition effective_protection (spec : ClusterSpec) : Z * Z * Z :=
  EffectiveProtection (oc_DefaultStripeWidth cfg) (oc_DefaultRedundancyLevel cfg) (oc_DefaultHotSpare cfg)
    (csp_StripeWidth spec) (csp_RedundancyLevel spec) (csp_HotSpare spec).

Definition protection_floor : Z * Z * Z := MinProtectionFloor (cfg_AllowSingleParity (oc_Capacity cfg)).

Definition clusterCapacityProtection (c : AdmittedCluster) : list violation :=
  if negb (UsesClusterCapacity (dynamic c)) then []
  else
    let '(sw, rl, hs) := effective_protection (ac_Spec c) in
    let '(minSW, minRL, minHS) := protection_floor in
    (if decide (sw < minSW) then [invalid "spec.stripeWidth" (csp_StripeWidth (ac_Spec c))] else []) ++
    (if decide (rl < minRL) then [invalid "spec.redundancyLevel" (csp_RedundancyLevel (ac_Spec c))] else []) ++
    (if decide (hs < minHS) then [invalid "spec.hotSpare" (csp_HotSpare (ac_Spec c))] else []).

Definition clusterCapacityMinDriveContainers (c : AdmittedCluster) : list violation :=
  match dynamic c with
  | None => []
  | Some t =>
      if negb (UsesClusterCapacity (dynamic c)) then []
      else
        let minDrive := oc_FormClusterMinDriveContainers cfg in
        if decide (minDrive <= 0) then []
        else if decide (wt_DriveContainers t > 0) then []
        else
          let '(sw, rl, hs) := effective_protection (ac_Spec c) in
          let '(minSW, minRL, minHS) := protection_floor in
          if decide (sw < minSW \/ rl < minRL \/ hs < minHS) then []
          else if decide (MinFdNum {| StripeWidth := sw; RedundancyLevel := rl; HotSpare := hs |} >= minDrive) then []
          else [invalid "spec.stripeWidth" (csp_StripeWidth (ac_Spec c))]
  end.

(** [containers]: the drive containers of the cluster, as listed by its UID. *)
Definition clusterHasTlcDriveContainer (containers : res string (list Container)) (c : AdmittedCluster) : bool :=
  if decide (ac_UID c = "") then false
  else match containers with
  | Err _ => false
  | Ok l => existsb (fun wc => match cs_DriveTypesRatio (cn_Spec wc) with
                               | None => true
                               | Some r => bool_decide (ratio_Tlc r > 0)
                               end) l
  end.

Definition clusterCapacityChunkFeasibility (ParseFloat : string -> option float64) (ParseQuantity : string -> res string Z)
    (containers : res string (list Container)) (c : AdmittedCluster) : list violation :=
  match dynamic c with
  | None => []
  | Some t =>
      if negb (UsesClusterCapacity (dynamic c)) then []
      else
        let '(sw, rl, hs) := effective_protection (ac_Spec c) in
        let '(minSW, minRL, minHS) := protection_floor in
        if decide (sw < minSW \/ rl < minRL \/ hs < minHS) then []
        else match GetClusterCapacityGiB ParseFloat ParseQuantity t with
        | Err _ => []
        | Ok capGiB =>
            if decide (capGiB <= 0) then []
            else if clusterHasTlcDriveContainer containers c then []
            else
              let raw := RawCapacityGiB capGiB sw rl hs in
              let '(tlcRaw, qlcRaw) := GetTlcQlcCapacity raw (wt_DriveTypesRatio t) in
              let numFDmin := sw + rl + hs in
              let bad r := bool_decide (r > 0 /\ r < numFDmin * const_MinChunkSizeGiB) in
              if bad tlcRaw || bad qlcRaw
              then [mkViolation Invalid (template_field "clusterCapacity") (StringValue (wt_ClusterCapacity t))] else []
        end
  end.

(** ** Counts and cores *)

Definition clusterMinContainers (c : AdmittedCluster) : list violation :=
  match dynamic c with
  | None => []
  | Some t =>
      flat_map (fun '(field, count, minimum) =>
        if decide (minimum <= 0) then []
        else if decide (count <= 0) then []
        else if decide (count >= minimum) then []
        else [invalid (template_field field) count])
        [("driveContainers", wt_DriveContainers t, oc_FormClusterMinDriveContainers cfg);
         ("computeContainers", wt_ComputeContainers t, oc_FormClusterMinComputeContainers cfg)]
  end.

Definition clusterComputeDriveCoresFloor (c : AdmittedCluster) : list violation :=
  match templateCoreSides (dynamic c) with
  | None => []
  | Some (driveSide, computeSide) =>
      if decide (computeSide >= driveSide) then [] else [invalid "spec.dynamicTemplate" computeSide]
  end.

(** The loop [for b != 0 { a, b = b, a%b }]. *)
Fixpoint gcd_loop (fuel : nat) (a b : Z) : option Z :=
  match fuel with
  | O => None
  | S fuel => if decide (b = 0) then Some a else gcd_loop fuel b (a `rem` b)
  end.

Definition gcd (a b : Z) : Z := default 0 (gcd_loop (S (Z.abs_nat b)) a b).

Definition reduceRatio (a b : Z) : Z * Z :=
  let g := gcd a b in
  if decide (g = 0) then (a, b) else (a `quot` g, b `quot` g).

Definition clusterDriveComputeCoreRatio (c : AdmittedCluster) : list violation :=
  match dynamic c, templateCoreSides (dynamic c) with
  | Some t, Some (driveSide, computeSide) =>
      if decide (computeSide < driveSide) then []
      else
        let exclusiveFullDrives := bool_decide (wt_NumDrives t > 0 /\ wt_DriveCapacity t = 0) in
        let ratio := if exclusiveFullDrives then cfg_FullDrivesComputeToDriveCoreRatio (oc_Capacity cfg)
                     else cfg_ComputeToTlcDriveCoreRatio (oc_Capacity cfg) in
        if f_le ratio f_zero then []
        else
          let required := int_of_float (math_Ceil (f_mul ratio (f_of_int driveSide))) in
          if decide (computeSide >= required) then []
          else
            let '(n, m) := reduceRatio driveSide computeSide in
            [mkViolation Invalid "spec.dynamicTemplate" (StringValue (Sprintf "%d:%d" [ArgD n; ArgD m]))]
  | _, _ => []
  end.

Definition clusterDriveCoresBelowCapacity (c : AdmittedCluster) : list violation :=
  match dynamic c with
  | None => []
  | Some t =>
      if decide (wt_DriveCores t <= 0) then []
      else match DerivedDriveCores cfg (Some t) with
      | None => []
      | Some derived =>
          if decide (wt_DriveCores t >= derived) then [] else [invalid (template_field "driveCores") (wt_DriveCores t)]
      end
  end.

Definition clusterNumDrivesBelowRequiredCores (c : AdmittedCluster) : list violation :=
  match dynamic c with
  | None => []
  | Some t =>
      if IsPlannerManaged (Some t) then []
      else if decide (wt_NumDrives t <= 0 \/ wt_DriveCapacity t <= 0) then []
      else match RequiredDriveCoresForTemplate cfg (Some t) with
      | None => []
      | Some required =>
          if decide (required <= wt_NumDrives t) then [] else [invalid (template_field "driveCapacity") (wt_DriveCapacity t)]
      end
  end.

Definition clusterCoresPerContainerLimit (c : AdmittedCluster) : list violation :=
  match dynamic c with
  | None => []
  | Some t =>
      let limit := cfg_MaxCoresPerContainer (oc_Capacity cfg) in
      if decide (limit <= 0) then []
      else flat_map (fun '(field, cores) => if decide (cores <= limit) then [] else [invalid (template_field field) cores])
             [("driveCores", wt_DriveCores t); ("computeCores", wt_ComputeCores t)]
  end.

Definition clusterDataservicesFeCores (c : AdmittedCluster) : list violation :=
  match dynamic c with
  | None => []
  | Some t =>
      if decide (wt_DataServicesContainers t <= 0) then []
      else
        let feCores := GetDataServicesFeCores (Some t) in
        if decide (feCores = 0) then [] else [invalid (template_field "dataServicesFeCores") feCores]
  end.

(** ** Drives *)

(** The nodes of the drive role. *)
Definition listDriveRoleNodes (c : AdmittedCluster) : res string (list Node) :=
  list_nodes (GetNodeSelectorForRole (ac_Spec c) WekaContainerModeDrive).

Definition min_drives_field : string := "spec.startIoConditions.minNumDrives".

(** The drives a node contributes: none when they cannot be read. *)
Definition node_drives (node : Node) : Z :=
  match SignedFullDrivesGiB node with
  | (drives, _, None) => len drives
  | (_, _, Some _) => 0
  end.

Definition validateMinDrivesAutoFullDrives (c : AdmittedCluster) : list violation :=
  match listDriveRoleNodes c with
  | Err _ => [internal min_drives_field]
  | Ok nodes =>
      if decide (len nodes = 0) then []
      else
        let perNodeCap := match dynamic c with Some t => wt_NumDrives t | None => 0 end in
        let total := sumZ ((fun node =>
          let n := node_drives node in if decide (perNodeCap > 0) then Z.min n perNodeCap else n) <$> nodes) in
        if decide (total = 0 \/ ac_MinNumDrives c <= total) then [] else [invalid min_drives_field (ac_MinNumDrives c)]
  end.

Definition clusterMinDrivesFeasibility (c : AdmittedCluster) : list violation :=
  if decide (ac_MinNumDrives c <= 0) then []
  else if UsesAutoFullDrives (dynamic c) then validateMinDrivesAutoFullDrives c
  else
    let t := default zero_template (dynamic c) in
    if decide (wt_DriveContainers t <= 0 \/ wt_NumDrives t <= 0) then []
    else if decide (ac_MinNumDrives c <= wt_DriveContainers t * wt_NumDrives t) then []
    else [invalid min_drives_field (ac_MinNumDrives c)].

Definition clusterMinDrivesLargeFloor (c : AdmittedCluster) : list violation :=
  match dynamic c with
  | None => []
  | Some t =>
      if decide (ac_MinNumDrives c <= 0) then []
      else if decide (wt_DriveContainers t <= 10 \/ wt_NumDrives t <= 2) then []
      else
        let total := wt_DriveContainers t * wt_NumDrives t in
        if decide (ac_MinNumDrives c >= (9 * total + 9) `quot` 10) then [] else [invalid min_drives_field (ac_MinNumDrives c)]
  end.

Definition clusterMinDrivesSmallAdvisory (c : AdmittedCluster) : list violation :=
  match dynamic c with
  | None => []
  | Some t =>
      if decide (ac_MinNumDrives c <= 0) then []
      else if decide (wt_DriveContainers t <= 0 \/ wt_NumDrives t <= 0) then []
      else if decide (wt_DriveContainers t > 10 /\ wt_NumDrives t > 2) then []
      else [invalid min_drives_field (ac_MinNumDrives c)]
  end.

Definition has_full_drives (node : Node) : bool := match n_FullDrives node with Absent => false | _ => true end.
Definition has_shared_drives (node : Node) : bool := match n_SharedDrives node with Absent => false | _ => true end.

(** The full drives of the nodes together; an error at the first node that cannot be parsed. *)
Fixpoint signed_total (nodes : list Node) : res string Z :=
  match nodes with
  | [] => Ok 0
  | node :: nodes =>
      let? info := parsed_info node in
      let? rest := signed_total nodes in
      Ok (len (ni_AvailableDrives info) + rest)
  end.

Definition clusterSignedDrives (c : AdmittedCluster) : list violation :=
  match dynamic c with
  | None => []
  | Some t =>
      if UsesAutoFullDrives (Some t) || IsDriveSharing (ac_Spec c) then []
      else if decide (wt_DriveContainers t <= 0 \/ wt_NumDrives t <= 0) then []
      else match listDriveRoleNodes c with
      | Err _ => [internal (template_field "numDrives")]
      | Ok nodes =>
          if decide (len nodes = 0) then []
          else if negb (existsb has_full_drives nodes) then []
          else match signed_total nodes with
          | Err _ => [internal (template_field "numDrives")]
          | Ok available =>
              if decide (wt_DriveContainers t * wt_NumDrives t <= available) then []
              else [invalid (template_field "numDrives") (wt_NumDrives t)]
          end
      end
  end.

Definition formatSelector (selector : gmap string string) : string :=
  if decide (selector = ∅) then "<empty — matches all nodes>"
  else strings_Join (sort_strings ((fun '(k, v) => Sprintf "%s=%s" [ArgS k; ArgS v]) <$> map_to_list selector)) ",".

(** A node that gets containers in the daemonset mode: signed, readable, with a drive left. *)
Definition usable_node (node : Node) : bool :=
  match SignedFullDrivesGiB node with
  | (drives, signed, err) => signed && bool_decide (err = None) && bool_decide (len drives > 0)
  end.

Definition unsignedAutoFullDrives (nodes : list Node) (selector : gmap string string) : list violation :=
  if decide (filter (fun node => usable_node node = false) nodes = []) then []
  else [mkViolation Invalid "spec.nodeSelector" (StringValue (formatSelector selector))].

Definition clusterDrivesUnsignedAdvisory (c : AdmittedCluster) : list violation :=
  let selector := GetNodeSelectorForRole (ac_Spec c) WekaContainerModeDrive in
  let advise := [mkViolation Invalid "spec.nodeSelector" (StringValue (formatSelector selector))] in
  match listDriveRoleNodes c with
  | Err _ => [internal "spec.nodeSelector"]
  | Ok nodes =>
      if decide (len nodes = 0) then []
      else if UsesAutoFullDrives (dynamic c) then unsignedAutoFullDrives nodes selector
      else
        let sharing := IsDriveSharing (ac_Spec c) in
        let wanted := if sharing then has_shared_drives else has_full_drives in
        let other := if sharing then has_full_drives else has_shared_drives in
        if existsb wanted nodes then []
        else if existsb other nodes && sharing &&
                bool_decide (ac_Annotations c !! AnnotationSizingModeMigration = Some SizingModeMigrationDriveSharing)
        then [] else advise
  end.

Definition clusterAutoFullDrivesMinNodes (c : AdmittedCluster) : list violation :=
  if negb (UsesAutoFullDrives (dynamic c)) then []
  else flat_map (fun '(role, minimum) =>
    if decide (minimum <= 0) then []
    else
      let field := ("spec.roleNodeSelector." ++ role)%string in
      match list_nodes (GetNodeSelectorForRole (ac_Spec c) role) with
      | Err _ => [internal field]
      | Ok nodes => if decide (len nodes >= minimum) then [] else [invalid field (len nodes)]
      end)
    [(WekaContainerModeDrive, oc_FormClusterMinDriveContainers cfg);
     (WekaContainerModeCompute, oc_FormClusterMinComputeContainers cfg)].

Definition clusterAutoFullDrivesPins (c : AdmittedCluster) : list violation :=
  match dynamic c with
  | None => []
  | Some t =>
      if negb (UsesAutoFullDrives (Some t)) then []
      else if decide (wt_NumDrives t <= 0 /\ wt_DriveCores t <= 0) then []
      else match listDriveRoleNodes c with
      | Err _ => [internal "spec.dynamicTemplate"]
      | Ok nodes =>
          let nodes := filter (fun node => usable_node node = true) nodes in
          let drives node := len (SignedFullDrivesGiB node).1.1 in
          let badDrives := filter (fun node => wt_NumDrives t > drives node) nodes in
          let badCores := filter (fun node =>
            wt_DriveCores t > if decide (wt_NumDrives t <> 0) then wt_NumDrives t else drives node) nodes in
          (if decide (len badDrives > 0) then [invalid (template_field "numDrives") (wt_NumDrives t)] else []) ++
          (if decide (len badCores > 0) then [invalid (template_field "driveCores") (wt_DriveCores t)] else [])
      end
  end.

(** ** Nodes *)

Definition clusterSelectedNodesCount (c : AdmittedCluster) : list violation :=
  flat_map (fun r =>
    if decide (rs_containers r <= 0) then []
    else match list_nodes (GetNodeSelectorForRole (ac_Spec c) (rs_role r)) with
    | Err _ => [internal (template_field (rs_containersField r))]
    | Ok nodes =>
        if decide (rs_containers r <= len nodes) then []
        else [invalid (template_field (rs_containersField r)) (rs_containers r)]
    end) (rolesForTemplate (dynamic c)).

(** The smallest of a list, -1 for an empty one. *)
Definition smallest (l : list Z) : Z :=
  foldl (fun m a => if decide (m < 0 \/ a < m) then a else m) (-1) l.

(** The two checks that cores and hugepages share: one container against the weakest node, and all of them
    against the nodes together. [amount]: what one container wants, [allocatable]: what a node offers, in
    the same unit. *)
Definition fits_nodes (c : AdmittedCluster) (amount_of : roleSpec -> Z) (unit_ : Z) (field_of : roleSpec -> string)
    (allocatable : Node -> Z) (r : roleSpec) : list violation :=
  if decide (amount_of r <= 0) then []
  else if decide (rs_containers r <= 0 /\ rs_countDerived r = false) then []
  else match list_nodes (GetNodeSelectorForRole (ac_Spec c) (rs_role r)) with
  | Err _ => [internal (template_field (field_of r))]
  | Ok nodes =>
      if decide (len nodes = 0) then []
      else
        let bad := invalid (template_field (field_of r)) (amount_of r) in
        let perContainer := amount_of r * unit_ in
        (if decide (perContainer > smallest (allocatable <$> nodes)) then [bad] else []) ++
        (if decide (rs_containers r <= 0) then []
         else if decide (perContainer * rs_containers r > sumZ (allocatable <$> nodes)) then [bad] else [])
  end.

Definition clusterCoresAvailable (c : AdmittedCluster) : list violation :=
  flat_map (fits_nodes c rs_cores 1000 rs_coresField n_AllocatableCpuMilli) (rolesForTemplate (dynamic c)).

Definition mib : Z := Z.shiftl 1 20.

Definition clusterHugepagesAvailable (c : AdmittedCluster) : list violation :=
  flat_map (fits_nodes c rs_hugepages mib rs_hugepagesField n_AllocatableHugepages2Mi) (rolesForTemplate (dynamic c)).

(** [csi]: whether CSI is enabled with its storage classes. *)
Definition clusterSkipDefaultFs (csi : bool) (c : AdmittedCluster) : list violation :=
  match ac_SkipDefaultFilesystemCreation c with
  | Some true =>
      let bad := mkViolation Invalid "spec.overrides.skipDefaultFilesystemCreation" (BoolValue true) in
      (match ac_TelemetryExports c with Some n => if decide (n > 0) then [bad] else [] | None => [] end) ++
      (if csi then [bad] else [])
  | _ => []
  end.
End rules.

(** ** Updates *)

Definition clusterCoresDecrease (old new : AdmittedCluster) : list violation :=
  match dynamic old with
  | None => []
  | Some o =>
      let n := default zero_template (dynamic new) in
      flat_map (fun '(field, before, after) =>
        if decide (after <> 0 /\ after < before) then [forbidden (template_field field)] else [])
        [("computeCores", wt_ComputeCores o, wt_ComputeCores n); ("driveCores", wt_DriveCores o, wt_DriveCores n);
         ("s3Cores", wt_S3Cores o, wt_S3Cores n); ("envoyCores", wt_EnvoyCores o, wt_EnvoyCores n);
         ("nfsCores", wt_NfsCores o, wt_NfsCores n); ("smbwCores", wt_SmbwCores o, wt_SmbwCores n);
         ("dataServicesCores", wt_DataServicesCores o, wt_DataServicesCores n)] ++
      match wt_DataServicesFeCores o, wt_DataServicesFeCores n with
      | Some before, Some after => if decide (after < before) then [forbidden (template_field "dataServicesFeCores")] else []
      | _, _ => []
      end
  end.

(** [oldFe], [newFe]: the frontend cores of [spec.dataServicesConfig], when it is set. *)
Definition containerCoresDecrease (old new : Container) (oldFe newFe : option Z) : list violation :=
  (if decide (cs_NumCores (cn_Spec new) < cs_NumCores (cn_Spec old)) then [forbidden "spec.numCores"] else []) ++
  match oldFe with
  | None => []
  | Some fe => if decide (default 0 newFe < fe) then [forbidden "spec.dataServicesConfig.dataServicesFeCores"] else []
  end.

Definition clientCoresDecrease (oldCores newCores : Z) : list violation :=
  if decide (newCores < oldCores) then [forbidden "spec.coresNum"] else [].

Inductive sizing_mode : Type :=
  | sizingModeAutoFullDrives | sizingModeClusterCapacity | sizingModeDriveSharing | sizingModeCounts.

#[export] Instance sizing_mode_eq_dec : EqDecision sizing_mode.
Proof. solve_decision. Defined.

Definition derivedSizingMode (d : option WekaClusterTemplate) : sizing_mode :=
  if UsesAutoFullDrives d then sizingModeAutoFullDrives
  else if UsesClusterCapacity d then sizingModeClusterCapacity
  else if decide (wt_ContainerCapacity (default zero_template d) > 0 \/ wt_DriveCapacity (default zero_template d) > 0)
  then sizingModeDriveSharing else sizingModeCounts.

Definition modeSwitchSupported (oldMode newMode : sizing_mode) (new : AdmittedCluster) : bool :=
  match oldMode, newMode with
  | sizingModeCounts, sizingModeAutoFullDrives => true
  | sizingModeAutoFullDrives, sizingModeCounts => true
  | sizingModeDriveSharing, sizingModeClusterCapacity => true
  | sizingModeCounts, sizingModeDriveSharing =>
      bool_decide (ac_Annotations new !! AnnotationSizingModeMigration = Some SizingModeMigrationDriveSharing)
  | _, _ => false
  end.

(** [containers]: the drive containers of the cluster, as listed by its UID. *)
Definition clusterHasDriveContainer (containers : res string (list Container)) (c : AdmittedCluster) : res string bool :=
  if decide (ac_UID c = "") then Ok false
  else match containers with
  | Err e => Err (Sprintf "listing the cluster's drive containers: %s" [ArgS e])
  | Ok l => Ok (bool_decide (len l > 0))
  end.

Definition clusterSizingModeFlip (containers : res string (list Container)) (old new : AdmittedCluster) : list violation :=
  let oldMode := derivedSizingMode (dynamic old) in
  let newMode := derivedSizingMode (dynamic new) in
  if decide (oldMode = newMode) then []
  else if modeSwitchSupported oldMode newMode new then []
  else match clusterHasDriveContainer containers new with
  | Err _ => [internal "spec.dynamicTemplate"]
  | Ok false => []
  | Ok true => [forbidden "spec.dynamicTemplate"]
  end.

(** ** Policies *)

Inductive Mode : Type := Warn | Error.

#[export] Instance Mode_eq_dec : EqDecision Mode.
Proof. solve_decision. Defined.

Record PolicyDefaults : Type := mkDefaults { Strict : Mode; Relaxed : Mode }.

Definition modeFor (mode override : string) (defaults : PolicyDefaults) : Mode :=
  let override := strings_ToLower override in
  if decide (override = "warn") then Warn
  else if decide (override = "error") then Error
  else if decide (strings_ToLower mode = "strict") then Strict defaults
  else Relaxed defaults.

Definition errors_always : PolicyDefaults := mkDefaults Error Error.
Definition errors_when_strict : PolicyDefaults := mkDefaults Error Warn.
Definition warns_always : PolicyDefaults := mkDefaults Warn Warn.

Definition wekaClusterDefaults : list (string * PolicyDefaults) :=
  [("cluster_min_drives_feasibility", errors_always); ("cluster_min_drives_large_floor", warns_always);
   ("cluster_min_drives_small_advisory", warns_always); ("cluster_selected_nodes_count", errors_when_strict);
   ("cluster_drivers_dist_service_exists", errors_when_strict); ("cluster_cores_available", warns_always);
   ("cluster_hugepages_available", warns_always); ("cluster_signed_drives", errors_when_strict);
   ("cluster_drives_unsigned_advisory", warns_always); ("cluster_network_ethdevice", warns_always);
   ("cluster_drive_compute_core_ratio", warns_always); ("cluster_compute_drive_cores_floor", errors_when_strict);
   ("cluster_drive_cores_below_capacity", warns_always); ("cluster_num_drives_below_required_cores", errors_when_strict);
   ("cluster_cores_per_container_limit", errors_when_strict); ("cluster_auto_full_drives_min_nodes", errors_always);
   ("cluster_auto_full_drives_pins", errors_when_strict); ("cluster_min_containers", errors_always);
   ("cluster_dataservices_fe_cores", errors_always); ("cluster_capacity_protection", errors_always);
   ("cluster_capacity_min_drive_containers", warns_always); ("cluster_capacity_chunk_feasibility", errors_always);
   ("cluster_skip_default_fs", warns_always); ("cluster_podspec_syntax", errors_always);
   ("cluster_extra_volumes", errors_always); ("cluster_wekahome_cacert_usable", errors_always)].

Definition wekaClientDefaults : list (string * PolicyDefaults) :=
  [("client_target_cluster_exists", errors_when_strict); ("client_podspec_syntax", errors_always);
   ("client_extra_volumes", errors_always); ("client_wekahome_cacert_not_inherited", warns_always);
   ("client_wekahome_cacert_usable", warns_always)].

Definition wekaClusterUpdateDefaults : list (string * PolicyDefaults) :=
  [("cluster_cores_decrease", errors_always); ("cluster_sizing_mode_flip", errors_always)].
Definition wekaContainerUpdateDefaults : list (string * PolicyDefaults) := [("container_cores_decrease", errors_always)].
Definition wekaClientUpdateDefaults : list (string * PolicyDefaults) := [("client_cores_decrease", errors_always)].

(** The IDs of the registered validators, in the order of registry.go. *)
Definition WekaCluster_registry : list string :=
  ["cluster_min_drives_feasibility"; "cluster_min_drives_large_floor"; "cluster_min_drives_small_advisory";
   "cluster_selected_nodes_count"; "cluster_drivers_dist_service_exists"; "cluster_cores_available";
   "cluster_hugepages_available"; "cluster_signed_drives"; "cluster_drives_unsigned_advisory";
   "cluster_network_ethdevice"; "cluster_drive_compute_core_ratio"; "cluster_compute_drive_cores_floor";
   "cluster_drive_cores_below_capacity"; "cluster_num_drives_below_required_cores";
   "cluster_auto_full_drives_min_nodes"; "cluster_auto_full_drives_pins"; "cluster_cores_per_container_limit";
   "cluster_min_containers"; "cluster_dataservices_fe_cores"; "cluster_capacity_protection";
   "cluster_capacity_min_drive_containers"; "cluster_capacity_chunk_feasibility"; "cluster_skip_default_fs";
   "cluster_podspec_syntax"; "cluster_extra_volumes"; "cluster_wekahome_cacert_usable"].
Definition WekaClient_registry : list string :=
  ["client_target_cluster_exists"; "client_podspec_syntax"; "client_extra_volumes";
   "client_wekahome_cacert_not_inherited"; "client_wekahome_cacert_usable"].
Definition WekaClusterUpdate_registry : list string := ["cluster_cores_decrease"; "cluster_sizing_mode_flip"].
Definition WekaContainerUpdate_registry : list string := ["container_cores_decrease"].
Definition WekaClientUpdate_registry : list string := ["client_cores_decrease"].

Definition lookup_defaults (defaults : list (string * PolicyDefaults)) (id : string) : option PolicyDefaults :=
  snd <$> List.find (fun d => bool_decide (d.1 = id)) defaults.

(** The policies: the global mode and the overrides. *)
Record AdmissionPoliciesConfig : Type := mkPolicies { ap_Mode : string; ap_Overrides : gmap string string }.

Definition effective_mode (cfg : AdmissionPoliciesConfig) (defaults : list (string * PolicyDefaults)) (id : string) : Mode :=
  modeFor (ap_Mode cfg) (default "" (ap_Overrides cfg !! id)) (default warns_always (lookup_defaults defaults id)).

(** [evaluate], and [evaluateUpdate] alike, over the violations each registered rule reports: the warnings
    and the errors. *)
Definition evaluate (defaults : list (string * PolicyDefaults)) (cfg : AdmissionPoliciesConfig)
    (reports : list (string * list violation)) : list violation * list violation :=
  foldl (fun '(warnings, errs) '(id, violations) =>
    match effective_mode cfg defaults id with
    | Warn => (warnings ++ violations, errs)
    | Error => (warnings, errs ++ violations)
    end) ([], []) reports.

(** The complaints of [ValidateRegistry]; a map is ranged over in the order of its listing here. *)
Definition check_registry (kind : string) (ids : list string) (defaults : list (string * PolicyDefaults)) : list string :=
  (foldl (fun '(seen, errs) id =>
     (seen ++ [id],
      errs ++ (if decide (id ∈ seen) then [Sprintf "%s: duplicate validator ID %q" [ArgS kind; ArgS id]] else []) ++
      (if decide (lookup_defaults defaults id = None)
       then [Sprintf "%s: validator %q has no entry in defaults table" [ArgS kind; ArgS id]] else [])))
     (([], []) : list string * list string) ids).2 ++
  flat_map (fun d => if decide (d.1 ∈ ids) then []
    else [Sprintf "%s: defaults table has entry %q but no validator is registered with that ID" [ArgS kind; ArgS d.1]]) defaults.

Definition known_policies : list string :=
  (wekaClusterDefaults ++ wekaClientDefaults ++ wekaClusterUpdateDefaults ++ wekaContainerUpdateDefaults ++
   wekaClientUpdateDefaults).*1.

Definition override_complaints (overrides : list (string * string)) : list string :=
  flat_map (fun '(id, val) =>
    (if decide (id ∈ known_policies) then []
     else [Sprintf "admissionPolicies.policies: unknown policy %q (not registered)" [ArgS id]]) ++
    (if decide (strings_ToLower val ∈ ["default"; "warn"; "error"]) then []
     else [Sprintf "admissionPolicies.policies[%q]: invalid value %q (expected default|warn|error)" [ArgS id; ArgS val]]))
    overrides.

Definition ValidateRegistry (cfg : AdmissionPoliciesConfig) : list string :=
  check_registry "WekaCluster" WekaCluster_registry wekaClusterDefaults ++
  check_registry "WekaClient" WekaClient_registry wekaClientDefaults ++
  check_registry "WekaCluster (update)" WekaClusterUpdate_registry wekaClusterUpdateDefaults ++
  check_registry "WekaContainer (update)" WekaContainerUpdate_registry wekaContainerUpdateDefaults ++
  check_registry "WekaClient (update)" WekaClientUpdate_registry wekaClientUpdateDefaults ++
  override_complaints (map_to_list (ap_Overrides cfg)).

(** ** The webhook *)

(** A decision: the warnings shown, and the errors that reject. *)
Record decision : Type := mkDecision { d_Warnings : list violation; d_Errors : list violation }.

Definition ValidateCreate (policies : AdmissionPoliciesConfig) (reports : list (string * list violation)) : decision :=
  let '(warns, errs) := evaluate wekaClusterDefaults policies reports in mkDecision warns errs.

(** [unchanged]: whether the two specs are equal. *)
Definition ValidateUpdate (policies : AdmissionPoliciesConfig) (unchanged : bool)
    (reports updateReports : list (string * list violation)) : decision :=
  if unchanged then mkDecision [] []
  else
    let '(warns, errs) := evaluate wekaClusterDefaults policies reports in
    let '(updateWarns, updateErrs) := evaluate wekaClusterUpdateDefaults policies updateReports in
    mkDecision (warns ++ updateWarns) (errs ++ updateErrs).
