(* ===== verification/ValidationFacts.v ===== *)
(** * What admission guarantees

    The policies decide as documented; the rules of Validation.v agree with the code that runs later (the
    planner's protection floor, the readiness gate of the cluster, the sizing of the drive cores); and the
    sizing mode of a live cluster only moves in one direction. *)

From stdpp Require Import relations.
From S2P Require Import Prelude Float64 Fmt Types Cpu Sizing NodeState Infeasibility ComputeLayout.
From S2P Require Import FdGroups Placement PoolPlan ComputePlan Planner Scenarios Strategies VirtualDrives.
From S2P Require Import Api Nodes Templates Inventory InventoryFacts Apply Daemonset Creation Validation.

(** ** Policies *)

(** The violations of the rules whose effective mode is [m]. *)
Definition in_mode (m : Mode) (defaults : list (string * PolicyDefaults)) (cfg : AdmissionPoliciesConfig)
    (reports : list (string * list violation)) : list violation :=
  flat_map (fun r => if decide (effective_mode cfg defaults r.1 = m) then r.2 else []) reports.

Lemma evaluate_in_mode defaults cfg reports :
  evaluate defaults cfg reports = (in_mode Warn defaults cfg reports, in_mode Error defaults cfg reports).
Proof.
  unfold evaluate.
  enough (forall w e, foldl (fun '(warnings, errs) '(id, violations) =>
    match effective_mode cfg defaults id with
    | Warn => (warnings ++ violations, errs) | Error => (warnings, errs ++ violations) end) (w, e) reports =
    (w ++ in_mode Warn defaults cfg reports, e ++ in_mode Error defaults cfg reports)) as H by (by rewrite H).
  induction reports as [|[id vs] reports IH]; intros w e; simpl; [by rewrite !app_nil_r|].
  destruct (effective_mode cfg defaults id); rewrite IH; simpl; by rewrite <- !app_assoc.
Qed.

(** The evaluation loses nothing and rejects exactly for cause: each violation is reported once, as a warning
    or as an error, and a request is rejected exactly when a rule whose effective mode is Error reports one. *)
Theorem evaluate_partition defaults cfg reports :
  let '(warnings, errs) := evaluate defaults cfg reports in
  warnings ++ errs ≡ₚ flat_map snd reports /\
  (errs = [] <-> Forall (fun r => effective_mode cfg defaults r.1 = Error -> r.2 = []) reports).
Proof.
  rewrite evaluate_in_mode. unfold in_mode. induction reports as [|[id vs] reports [IH1 IH2]]; simpl; [done|].
  rewrite Forall_cons. simpl. destruct (effective_mode cfg defaults id) eqn:E; simpl.
  - split; [by rewrite <- app_assoc, IH1|]. rewrite IH2. split; [by intros|]. by intros [_ ?].
  - split; [by rewrite Permutation_app_swap_app, IH1|]. split.
    + intros [-> H]%app_eq_nil. split; [done|by apply IH2].
    + intros [H ?]. rewrite H by done. by apply IH2.
Qed.

(** The shipped tables are consistent: no start-up complaint without overrides, whatever the mode; and with
    overrides the operator starts exactly when each names a registered policy and a value it knows. *)
Theorem ValidateRegistry_exact cfg :
  ValidateRegistry cfg = [] <->
  map_Forall (fun id val => id ∈ known_policies /\ strings_ToLower val ∈ ["default"; "warn"; "error"]) (ap_Overrides cfg).
Proof.
  unfold ValidateRegistry.
  replace (check_registry "WekaCluster" _ _) with (@nil string) by (vm_compute; reflexivity).
  replace (check_registry "WekaClient" _ _) with (@nil string) by (vm_compute; reflexivity).
  replace (check_registry "WekaCluster (update)" _ _) with (@nil string) by (vm_compute; reflexivity).
  replace (check_registry "WekaContainer (update)" _ _) with (@nil string) by (vm_compute; reflexivity).
  replace (check_registry "WekaClient (update)" _ _) with (@nil string) by (vm_compute; reflexivity).
  rewrite map_Forall_to_list. simpl. generalize (map_to_list (ap_Overrides cfg)). intros l.
  induction l as [|[id val] l IH]; [done|]. simpl. rewrite Forall_cons, <- IH. simpl.
  destruct (decide (id ∈ known_policies)), (decide (strings_ToLower val ∈ ["default"; "warn"; "error"])); simpl;
    rewrite ?app_nil_r; naive_solver.
Qed.

Lemma modeFor_monotone mode override d :
  (Relaxed d = Error -> Strict d = Error) ->
  modeFor mode override d = Error -> modeFor "strict" override d = Error.
Proof. unfold modeFor. intros Hd. repeat case_decide; auto; done. Qed.

Lemma defaults_monotone id :
  let d := default warns_always (lookup_defaults wekaClusterDefaults id) in Relaxed d = Error -> Strict d = Error.
Proof.
  intros d. subst d. unfold lookup_defaults. destruct (List.find _ _) as [[i d]|] eqn:E; simpl; [|done].
  apply List.find_some in E as [Hin _]. unfold wekaClusterDefaults in Hin.
  repeat (destruct Hin as [[= <- <-]|Hin]; [done|]). done.
Qed.

(** The strict mode is at least as strict: what any other mode rejects, with the same overrides, it rejects,
    with all the same errors. *)
Theorem strict_rejects_more mode overrides reports :
  d_Errors (ValidateCreate (mkPolicies mode overrides) reports) `sublist_of`
  d_Errors (ValidateCreate (mkPolicies "strict" overrides) reports).
Proof.
  unfold ValidateCreate. rewrite !evaluate_in_mode. simpl. unfold in_mode.
  induction reports as [|[id vs] reports IH]; simpl; [done|].
  destruct (decide (effective_mode _ _ id = Error)) as [H|H].
  - rewrite decide_True; [by apply sublist_app|].
    unfold effective_mode in *. eapply modeFor_monotone; [apply defaults_monotone|exact H].
  - simpl. by apply sublist_inserts_l.
Qed.

(** ** Agreement with the planner *)

(** The rule on the protection scheme is the planner's: a clusterCapacity cluster passes it exactly when the
    planner, given the scheme the reconciler derives, does not report the protection floor. *)
Theorem clusterCapacityProtection_agrees cfg c :
  UsesClusterCapacity (dynamic c) = true ->
  clusterCapacityProtection cfg c = [] <->
  protection_report (protectionScheme cfg (ac_Spec c)) (ConstraintsForClusterSpec cfg (ac_Spec c)) = None.
Proof.
  intros Hcap. unfold clusterCapacityProtection, protection_report, protectionScheme, effective_protection, protection_floor.
  rewrite Hcap. simpl. destruct (MinProtectionFloor _) as [[minSW minRL] minHS].
  split_decide; simpl; naive_solver lia.
Qed.

(** The rule on the number of drives reduces to the per-drive capacity, as its comment says: with drives of a
    given capacity it fires exactly when one drive exceeds what one core serves, however many drives. *)
Theorem clusterNumDrivesBelowRequiredCores_iff cfg c t :
  dynamic c = Some t -> IsPlannerManaged (Some t) = false -> wt_ContainerCapacity t <= 0 ->
  0 < wt_NumDrives t -> 0 < wt_DriveCapacity t -> 0 < cfg_TlcCapacityPerCoreGiB (oc_Capacity cfg) ->
  clusterNumDrivesBelowRequiredCores cfg c = [] <-> wt_DriveCapacity t <= cfg_TlcCapacityPerCoreGiB (oc_Capacity cfg).
Proof.
  intros Hd Hp Hc Hn Hcap Hcore. unfold clusterNumDrivesBelowRequiredCores. rewrite Hd, Hp. rewrite decide_False by lia.
  unfold RequiredDriveCoresForTemplate. rewrite decide_False, decide_True by lia.
  assert (E : RequiredDriveCores (wt_DriveCapacity t * wt_NumDrives t) 0 (CapacityConstraintsFromConfig (oc_Capacity cfg)) =
    Z.max 1 (CeilDiv (wt_DriveCapacity t * wt_NumDrives t) (cfg_TlcCapacityPerCoreGiB (oc_Capacity cfg)))).
  { unfold RequiredDriveCores. cbn [TlcCapacityPerCoreGiB CapacityConstraintsFromConfig].
    rewrite (decide_False (P := 0 > 0 /\ _)) by lia. rewrite decide_True by nia. done. }
  rewrite E.
  pose proof (CeilDiv_le_iff (wt_DriveCapacity t * wt_NumDrives t) (cfg_TlcCapacityPerCoreGiB (oc_Capacity cfg))
    (wt_NumDrives t) Hcore ltac:(lia)) as Hiff.
  case_decide as Hle.
  - split; [intros _|done]. destruct Hiff as [Hiff _]. specialize (Hiff ltac:(lia)). nia.
  - split; [done|]. intros Hle'. exfalso. apply Hle. apply Z.max_lub; [lia|]. apply Hiff. nia.
Qed.

(** ** Forming the cluster *)

(** The rule on pinned counts draws the line where the readiness gate does. For a template with counts of at
    least zero and minimums that the gate's cap of ten leaves room for: if the rule passes, the gate opens as soon as the
    containers the operator wants at first are ready; if it fires, the gate stays shut as long as no more than
    those exist. *)
Theorem clusterMinContainers_gate cfg c t inSubnet subnets containers :
  dynamic c = Some t -> 0 <= wt_DriveContainers t -> 0 <= wt_ComputeContainers t ->
  oc_FormClusterMinDriveContainers cfg <= FormClusterMaxDriveContainers ->
  oc_FormClusterMinComputeContainers cfg <= FormClusterMaxComputeContainers ->
  let wanted := desiredRoleCounts (ac_Spec c) false None [] (GetWekaContainerNumbers cfg (Some t)) in
  let ready := getReadyForClusterCreateContainers inSubnet subnets containers in
  let drives := default 0 (wanted !! "drive") in
  let computes := default 0 (wanted !! "compute") in
  (clusterMinContainers cfg c = [] -> drives <= len (rc_Drive ready) -> computes <= len (rc_Compute ready) ->
     InitialContainersReady cfg (ac_Spec c) inSubnet subnets containers = None) /\
  (clusterMinContainers cfg c <> [] -> len (rc_Drive ready) <= drives -> len (rc_Compute ready) <= computes ->
     InitialContainersReady cfg (ac_Spec c) inSubnet subnets containers <> None).
Proof.
  intros Hd Hpd Hpc Hmd Hmc wanted ready drives computes.
  set (nd := GetMinValue (role_Drive (GetWekaContainerNumbers cfg (Some t))) FormClusterMaxDriveContainers).
  set (nc := GetMinValue (role_Compute (GetWekaContainerNumbers cfg (Some t))) FormClusterMaxComputeContainers).
  assert (drives = nd /\ computes = nc) as [-> ->] by (split; reflexivity).
  unfold clusterMinContainers, InitialContainersReady. unfold dynamic in Hd. rewrite Hd. unfold dynamic. rewrite Hd.
  fold ready. fold nd nc. simpl. rewrite app_nil_r. unfold nd, nc, GetMinValue in *. simpl in *. split.
  - intros H Hrd Hrc. split_decide; try done; try lia.
  - intros H Hrd Hrc. split_decide; try done; lia.
Qed.

(** A template with only the fields that select the sizing mode, and a cluster of it. *)
Definition sizing_template (drives computes numDrives driveCapacity containerCapacity : Z) (clusterCapacity : string)
    : WekaClusterTemplate := {|
  wt_ComputeContainers := computes; wt_DriveContainers := drives; wt_S3Containers := 0; wt_NfsContainers := 0;
  wt_SmbwContainers := 0; wt_DataServicesContainers := 0;
  wt_ComputeCores := 0; wt_DriveCores := 0; wt_S3Cores := 0; wt_EnvoyCores := 0; wt_NfsCores := 0;
  wt_SmbwCores := 0; wt_DataServicesCores := 0;
  wt_ComputeExtraCores := 0; wt_DriveExtraCores := 0; wt_S3ExtraCores := 0; wt_NfsExtraCores := 0;
  wt_SmbwExtraCores := 0; wt_DataServicesExtraCores := None; wt_DataServicesFeCores := None;
  wt_NumDrives := numDrives; wt_DriveCapacity := driveCapacity; wt_ContainerCapacity := containerCapacity;
  wt_ClusterCapacity := clusterCapacity; wt_DriveTypesRatio := None;
  wt_DriveHugepages := 0; wt_DriveHugepagesOffset := 0; wt_ComputeHugepages := 0; wt_ComputeHugepagesOffset := 0;
  wt_S3FrontendHugepages := 0; wt_S3FrontendHugepagesOffset := 0; wt_NfsFrontendHugepages := 0;
  wt_NfsFrontendHugepagesOffset := 0; wt_SmbwFrontendHugepages := 0; wt_SmbwFrontendHugepagesOffset := 0;
  wt_DataServicesHugepages := 0; wt_DataServicesHugepagesOffset := 0 |}.

Definition sized (annotations : gmap string string) (t : WekaClusterTemplate) : AdmittedCluster :=
  mkAdmitted "uid" annotations (with_dynamic t ex_cluster_spec) 0 None None.

Lemma clusterMinContainers_gate_witness :
  InitialContainersReady ex_operator_config (ac_Spec (sized ∅ (sizing_template 3 5 1 0 0 ""))) (fun _ _ => true) [] [] <> None.
Proof.
  refine (proj2 (clusterMinContainers_gate ex_operator_config (sized ∅ (sizing_template 3 5 1 0 0 ""))
    (sizing_template 3 5 1 0 0 "") (fun _ _ => true) [] [] _ _ _ _ _) _ _ _); vm_compute; first [reflexivity|discriminate].
Defined.

Lemma clusterCapacityProtection_agrees_witness :
  protection_report (protectionScheme ex_operator_config (ac_Spec (sized ∅ (sizing_template 0 0 0 0 0 "100Ti"))))
    (ConstraintsForClusterSpec ex_operator_config (ac_Spec (sized ∅ (sizing_template 0 0 0 0 0 "100Ti")))) = None.
Proof.
  refine (proj1 (clusterCapacityProtection_agrees ex_operator_config (sized ∅ (sizing_template 0 0 0 0 0 "100Ti")) _) _);
    vm_compute; reflexivity.
Defined.

Lemma clusterNumDrivesBelowRequiredCores_iff_witness :
  clusterNumDrivesBelowRequiredCores ex_operator_config (sized ∅ (sizing_template 6 6 2 5000 0 "")) = [].
Proof.
  refine (proj2 (clusterNumDrivesBelowRequiredCores_iff ex_operator_config (sized ∅ (sizing_template 6 6 2 5000 0 ""))
    (sizing_template 6 6 2 5000 0 "") _ _ _ _ _ _) _); vm_compute; first [reflexivity|discriminate].
Defined.

(** ** The sizing mode of a live cluster *)

(** What the mode says of the cluster: whether a planner manages it, and whether it shares drives. *)
Lemma derivedSizingMode_spec c :
  match derivedSizingMode (dynamic c) with
  | sizingModeAutoFullDrives => UsesAutoFullDrives (dynamic c) = true /\ IsDriveSharing (ac_Spec c) = false
  | sizingModeClusterCapacity => UsesClusterCapacity (dynamic c) = true /\ IsDriveSharing (ac_Spec c) = true
  | sizingModeDriveSharing => IsPlannerManaged (dynamic c) = false /\ IsDriveSharing (ac_Spec c) = true
  | sizingModeCounts => IsPlannerManaged (dynamic c) = false /\ IsDriveSharing (ac_Spec c) = false
  end.
Proof.
  unfold derivedSizingMode, IsPlannerManaged, IsDriveSharing. fold (dynamic c).
  destruct (dynamic c) as [t|]; [|done]. destruct (UsesAutoFullDrives (Some t)) eqn:Ea.
  - unfold UsesAutoFullDrives in Ea. apply andb_true_iff in Ea as [Ea Ec]. rewrite bool_decide_eq_true in Ea.
    apply negb_true_iff in Ec. rewrite Ec, !bool_decide_eq_false_2 by lia. done.
  - destruct (UsesClusterCapacity (Some t)); [done|]. simpl. case_decide as Hs.
    + split; [done|]. rewrite orb_true_iff, !bool_decide_eq_true. lia.
    + split; [done|]. rewrite orb_false_iff, !bool_decide_eq_false. lia.
Qed.

(** An admitted update of a cluster that has drive containers. *)
Definition live_update (old new : AdmittedCluster) : Prop :=
  ac_UID new <> "" /\ exists containers, 0 < len containers /\ clusterSizingModeFlip (Ok containers) old new = [].

(** How far a mode is from whole drives: whole, shared by hand, shared by the planner. *)
Definition sharing_rank (c : AdmittedCluster) : Z :=
  match derivedSizingMode (dynamic c) with
  | sizingModeAutoFullDrives | sizingModeCounts => 0
  | sizingModeDriveSharing => 1
  | sizingModeClusterCapacity => 2
  end.

Definition migrates (c : AdmittedCluster) : Prop :=
  ac_Annotations c !! AnnotationSizingModeMigration = Some SizingModeMigrationDriveSharing.

Lemma live_update_rank old new :
  live_update old new ->
  sharing_rank old <= sharing_rank new /\ (sharing_rank old = 0 -> 0 < sharing_rank new -> migrates new).
Proof.
  intros (Huid & l & Hl & H). revert H. unfold clusterSizingModeFlip, sharing_rank, clusterHasDriveContainer.
  rewrite (decide_False (P := ac_UID new = "")) by done. rewrite bool_decide_eq_true_2 by lia.
  destruct (derivedSizingMode (dynamic old)), (derivedSizingMode (dynamic new)); simpl; try done; try (intros; lia).
  case_bool_decide; [|done]. done.
Qed.



(** ** Rules that do not overlap *)

(** The advisories are disjoint: of the floor and the ratio of compute cores at most one is reported, and of
    the two advisories on the minimum of drives at most one; the latter cover every cluster that sets the
    minimum and both counts, unless a large cluster meets its floor. *)
Theorem advisories_disjoint cfg c :
  (clusterComputeDriveCoresFloor cfg c = [] \/ clusterDriveComputeCoreRatio cfg c = []) /\
  (clusterMinDrivesLargeFloor c = [] \/ clusterMinDrivesSmallAdvisory c = []) /\
  forall t, dynamic c = Some t -> 0 < ac_MinNumDrives c -> 0 < wt_DriveContainers t -> 0 < wt_NumDrives t ->
    clusterMinDrivesLargeFloor c = [] -> clusterMinDrivesSmallAdvisory c = [] ->
    10 * ac_MinNumDrives c >= 9 * (wt_DriveContainers t * wt_NumDrives t).
Proof.
  split; [|split].
  - unfold clusterComputeDriveCoresFloor, clusterDriveComputeCoreRatio.
    destruct (dynamic c) as [t|]; [|by left]. destruct (templateCoreSides cfg (Some t)) as [[d k]|]; [|by left].
    case_decide; [by left|]. right. by rewrite decide_True by lia.
  - unfold clusterMinDrivesLargeFloor, clusterMinDrivesSmallAdvisory. destruct (dynamic c) as [t|]; [|by left].
    split_decide; auto; lia.
  - intros t Ht Hm Hd Hn. unfold clusterMinDrivesLargeFloor, clusterMinDrivesSmallAdvisory. rewrite Ht.
    rewrite !(decide_False (P := ac_MinNumDrives c <= 0)) by lia.
    rewrite (decide_False (P := wt_DriveContainers t <= 0 \/ wt_NumDrives t <= 0)) by lia.
    case_decide as Hsmall; [rewrite decide_False by lia; done|]. rewrite (decide_True (P := _ > 10 /\ _)) by lia.
    set (total := wt_DriveContainers t * wt_NumDrives t). case_decide as Hf; [|done]. intros _ _.
    assert (Ht0 : 0 <= total) by (unfold total; nia).
    rewrite Z.quot_div_nonneg in Hf by lia. pose proof (Z.div_mod (9 * total + 9) 10 ltac:(lia)).
    pose proof (Z.mod_pos_bound (9 * total + 9) 10 ltac:(lia)). lia.
Qed.

(** ** The greatest common divisor *)



(** ** What admission rejects although the planner plans it *)

(** The rule on chunks rejects a new cluster whose share per failure domain is below a chunk, on the ground
    that the planner would report it infeasible. The planner raises the share to a whole chunk instead: for
    1000 GiB on six nodes it returns a feasible plan. *)
Theorem chunk_rule_rejects_plannable :
  let c := sized ∅ (sizing_template 0 0 0 0 0 "1000Gi") in
  let quantity := fun s : string => if decide (s = "1000Gi") then Ok (1000 * 2 ^ 30) else Err "unparsable" in
  let q := planCap (desired_capacity (sizing_template 0 0 0 0 0 "1000Gi") (protectionScheme ex_operator_config (ac_Spec c)) 1000)
             (protectionScheme ex_operator_config (ac_Spec c)) [] (test_nodes 6 (100 * tib) 0 64 "n") testCons in
  clusterCapacityChunkFeasibility ex_operator_config (fun _ => None) quantity (Ok []) c <> [] /\
  Infeasible q = "" /\ created q = replicate 6 (384, 0, "tlc").
Proof. vm_compute. done. Qed.

(** Unsetting a core count is admitted, and the template then gives the default of one core: the update of an
    S3 role from four cores to none lowers what the reconciler works with. *)
Definition with_s3_cores (n : Z) : AdmittedCluster :=
  let t := sizing_template 6 6 2 0 0 "" in
  sized ∅ {|
    wt_ComputeContainers := wt_ComputeContainers t; wt_DriveContainers := wt_DriveContainers t; wt_S3Containers := 1;
    wt_NfsContainers := 0; wt_SmbwContainers := 0; wt_DataServicesContainers := 0;
    wt_ComputeCores := 0; wt_DriveCores := 0; wt_S3Cores := n; wt_EnvoyCores := 0; wt_NfsCores := 0;
    wt_SmbwCores := 0; wt_DataServicesCores := 0;
    wt_ComputeExtraCores := 0; wt_DriveExtraCores := 0; wt_S3ExtraCores := 0; wt_NfsExtraCores := 0;
    wt_SmbwExtraCores := 0; wt_DataServicesExtraCores := None; wt_DataServicesFeCores := None;
    wt_NumDrives := 2; wt_DriveCapacity := 0; wt_ContainerCapacity := 0; wt_ClusterCapacity := "";
    wt_DriveTypesRatio := None;
    wt_DriveHugepages := 0; wt_DriveHugepagesOffset := 0; wt_ComputeHugepages := 0; wt_ComputeHugepagesOffset := 0;
    wt_S3FrontendHugepages := 0; wt_S3FrontendHugepagesOffset := 0; wt_NfsFrontendHugepages := 0;
    wt_NfsFrontendHugepagesOffset := 0; wt_SmbwFrontendHugepages := 0; wt_SmbwFrontendHugepagesOffset := 0;
    wt_DataServicesHugepages := 0; wt_DataServicesHugepagesOffset := 0 |}.

Example unsetting_lowers_cores :
  clusterCoresDecrease (with_s3_cores 4) (with_s3_cores 2) <> [] /\
  clusterCoresDecrease (with_s3_cores 4) (with_s3_cores 0) = [] /\
  role_S3 (GetWekaContainerCores ex_operator_config (dynamic (with_s3_cores 0))) = 1.
Proof. vm_compute. done. Qed.
