(* ===== verification/Disruption.v ===== *)
(** * The disruption gate (operations/proxy_disruption_gate.go)

    Whether the ssdproxy of a node may be restarted: which clusters depend on it, and whether each of them is
    healthy enough; and, after a restart, whether the node has recovered. What the API server, the node agent
    and weka answer is an argument. Within one evaluation a cluster's status is fetched once and cached, so it is
    a function of the cluster. *)

From S2P Require Import Prelude Float64 Fmt Types Sizing Ports Strategies VirtualDrives Api Nodes Templates Upgrade.

Record ClusterVerdict : Type := mkVerdict {
  cv_Namespace : string; cv_Name : string; cv_ClusterGUID : string; Allowed : bool; cv_Reason : string }.

(** The joined reasons of the verdicts that block, [None] when all allow. *)
Definition AllAllowed (verdicts : list ClusterVerdict) : option string :=
  match filter (fun v => Allowed v = false) verdicts with
  | [] => None
  | blockers => Some (strings_Join (cv_Reason <$> blockers) "; ")
  end.

(** ** What is read *)

Record DependentCluster : Type := mkDependent {
  dc_UID : string; dc_Namespace : string; dc_Name : string; dc_ClusterID : string }.

(** A container with what else the gate reads of it: the UID of the WekaCluster that owns it, its mode label and
    its internal status. *)
Record GateContainer : Type := mkGateContainer {
  gc_Container : Container; gc_ParentClusterId : string; gc_ModeLabel : string; gc_InternalStatus : string }.

Record GateDrive : Type := mkGateDrive { gd_Uuid : string; gd_SerialNumber : string; gd_Status : string }.

(** [WekaStatusObjectCounter]: active and total. *)
Record Counter : Type := mkCounter { ctr_Active : Z; ctr_Total : Z }.

(** What the gate reads of [weka status]. *)
Record GateStatus : Type := mkGateStatus {
  gs_Status : string; gs_ProtectionState : list ProtectionState; gs_MovingData : bool;
  gs_Drives : Counter; gs_DriveContainers : Counter; gs_ComputeContainers : Counter }.

Definition ContainerRunning : string := "Running".
Definition DriveStatusActive : string := "ACTIVE".

(** ** The decisions *)

(** [%.0f]. *)
Definition show_float0 (f : float64) : string :=
  match f with
  | S754_nan => "NaN"
  | S754_infinity s => if s then "-Inf" else "+Inf"
  | S754_zero s => if s then "-0" else "0"
  | S754_finite s m e => String.append (if s then "-" else "") (show_int (f_scaled 0 m e))
  end.

(** The worst state so far and the next one. *)
Definition worse (worst : option ProtectionState) (s : ProtectionState) : option ProtectionState :=
  if decide (ps_NumFailures s <= 0) then worst
  else match worst with
       | None => Some s
       | Some w => if f_lt (ps_Percent w) (ps_Percent s) then Some s else worst
       end.

Definition protectionStateSummary (states : list ProtectionState) : string :=
  match foldl worse None states with
  | None => "unknown protection state"
  | Some w => Sprintf "%d failures @ %s%%" [ArgD (ps_NumFailures w); ArgS (show_float1 (ps_Percent w))]
  end.

(** The empty string for no reason, here and below. *)
Definition rebuildProtectionReason (states : list ProtectionState) : string :=
  if IsFullyProtected states then ""
  else Sprintf "rebuild not fully protected (%s)" [ArgS (protectionStateSummary states)].

Definition rebuildMovingDataReason (moving : bool) : string := if moving then "rebuild is moving data" else "".

Definition clusterStatusReason (status : string) : string :=
  if decide (status ∈ HealthyClusterStatuses) then ""
  else Sprintf "weka status is %q (want OK or REDISTRIBUTING)" [ArgS status].

Definition maxUnhealthyDriveSerialsPerStatus : nat := 10.

Definition shown_serial (d : GateDrive) : string :=
  if decide (gd_SerialNumber d = "") then gd_Uuid d else gd_SerialNumber d.

(** The serials of one status, at most ten of them. *)
Definition status_part (drives : list GateDrive) (status : string) : string :=
  let serials := sort_strings (shown_serial <$> filter (fun d => gd_Status d = status) drives) in
  let suffix := if decide (maxUnhealthyDriveSerialsPerStatus < length serials)%nat then
                  Sprintf ", … and %d more" [ArgD (len serials - Z.of_nat maxUnhealthyDriveSerialsPerStatus)]
                else "" in
  Sprintf "%s: %s%s" [ArgS status; ArgS (strings_Join (take maxUnhealthyDriveSerialsPerStatus serials) ", "); ArgS suffix].

Definition unhealthyDriveDetail (drives : list GateDrive) : string :=
  let bad := filter (fun d => gd_Status d <> DriveStatusActive) drives in
  strings_Join (status_part bad <$> sort_strings (remove_dups (gd_Status <$> bad))) "; ".

Definition driveHealthReason (active total : Z) (drives : list GateDrive) : string :=
  if decide (active = total) then ""
  else
    let detail := unhealthyDriveDetail drives in
    Sprintf "%d drives not ACTIVE (%s)"
      [ArgD (total - active); ArgS (if decide (detail = "") then "no drive detail available" else detail)].

Definition containerThresholdReason (kind : string) (counter : Counter) (expectedTotal thresholdPercent : Z) : string :=
  let total := Z.max (ctr_Total counter) expectedTotal in
  if decide (total = 0) then ""
  else if MeetsThreshold (ctr_Active counter) total thresholdPercent then ""
  else
    let pct := f_mul (f_div (f_of_int (ctr_Active counter)) (f_of_int total)) (f_of_int 100) in
    Sprintf "only %s%% of %s containers active (threshold %d%%)" [ArgS (show_float0 pct); ArgS kind; ArgD thresholdPercent].

(** [None]: healthy. *)
Definition evaluateClusterHealth (status : GateStatus) (drives : list GateDrive)
    (expectedDrive expectedCompute driveThresholdPercent computeThresholdPercent : Z) : option string :=
  match filter (fun r => r <> "")
    [rebuildProtectionReason (gs_ProtectionState status);
     rebuildMovingDataReason (gs_MovingData status);
     clusterStatusReason (gs_Status status);
     driveHealthReason (ctr_Active (gs_Drives status)) (ctr_Total (gs_Drives status)) drives;
     containerThresholdReason "drive" (gs_DriveContainers status) expectedDrive driveThresholdPercent;
     containerThresholdReason "compute" (gs_ComputeContainers status) expectedCompute computeThresholdPercent] with
  | [] => None
  | reasons => Some (strings_Join reasons "; ")
  end.

Definition expectedContainers (containers : list GateContainer) : Z * Z :=
  (len (filter (fun c => gc_ModeLabel c = WekaContainerModeDrive) containers),
   len (filter (fun c => gc_ModeLabel c = WekaContainerModeCompute) containers)).

Definition countActiveDrives (drives : list GateDrive) : Z :=
  len (filter (fun d => gd_Status d = DriveStatusActive) drives).

Definition nodeDriveVerificationReason (candidates skipped : Z) (drives : list GateDrive) (node : string) : string :=
  if decide (skipped > 0) then
    Sprintf "cannot verify drives on node %s yet: %d drive container(s) not yet joined to the cluster" [ArgS node; ArgD skipped]
  else if decide (candidates > 0 /\ len drives = 0) then
    Sprintf "cannot verify drives on node %s yet: expected drive containers but observed none" [ArgS node]
  else
    let r := driveHealthReason (countActiveDrives drives) (len drives) drives in
    if decide (r <> "") then Sprintf "node %s: %s" [ArgS node; ArgS r] else "".

(** ** The exec target (discovery.go) *)

Definition IsContainerOperational (c : GateContainer) : bool :=
  let s := cn_Status (gc_Container c) in
  bool_decide (cst_ClusterContainerID s <> None) && bool_decide (gc_InternalStatus c = "READY") &&
  bool_decide (cst_ManagementIps s <> []) &&
  match cst_Allocations s with None => false | Some a => bool_decide (WekaPort (ca_Ports a) <> 0) end &&
  bool_decide (cst_Status s ∉ ["PodNotRunning"; "Stopped"; "Starting"; "Destroying"; "Deleting"; "Paused"]).

(** The loop of the second pass, which stops once it has enough; at least one is asked for. *)
Fixpoint select_any (n : nat) (containers : list GateContainer) : list GateContainer :=
  match n, containers with
  | O, _ | _, [] => []
  | S k, c :: containers =>
      if decide (cst_Status (cn_Status (gc_Container c)) ∈ ["PodNotRunning"; "Stopped"]) then select_any n containers
      else c :: select_any k containers
  end.

(** [shuffled], [shuffled']: the containers in the orders of the two shuffles. *)
Definition SelectOperationalContainers (shuffled shuffled' : list GateContainer) (numContainers : nat) (roles : list string)
    : list GateContainer :=
  let roles := if decide (roles = []) then [WekaContainerModeDrive; WekaContainerModeCompute] else roles in
  let selected := filter (fun c => cs_Mode (cn_Spec (gc_Container c)) ∈ roles /\ IsContainerOperational c = true /\
                                   cst_Status (cn_Status (gc_Container c)) = ContainerRunning) shuffled in
  match selected with [] => select_any numContainers shuffled' | _ => selected end.

(** ** The gate *)

(** What one evaluation is told: the clusters and containers, the node agent's token, its pod and the virtual
    drives of the proxy by the GUID of their cluster; and per cluster its containers, the orders of the two
    shuffles, its status as a container reports it, and its drives. *)
Record gate_answers : Type := mkGateAnswers {
  ga_Clusters : res string (list DependentCluster);
  ga_Containers : res string (list GateContainer);
  ga_Token : res string unit;
  ga_AgentPod : res string unit;
  ga_VirtualDrives : res string (list string);
  ga_ClusterContainers : DependentCluster -> res string (list GateContainer);
  ga_Shuffle : nat -> list GateContainer -> list GateContainer;
  ga_Status : DependentCluster -> GateContainer -> res string GateStatus;
  ga_ListDrives : DependentCluster -> res string (list GateDrive);
  ga_ContainerDrives : DependentCluster -> Z -> res string (list GateDrive) }.

(** [driveThresholdPercent], [computeThresholdPercent]: of the operator's upgrade configuration. *)
Section gate.
Context (driveThresholdPercent computeThresholdPercent : Z) (ans : gate_answers).

Definition wrap_err (msg err : string) : string := Sprintf "%s: %s" [ArgS msg; ArgS err].

Definition wrapped {A} (msg : string) (m : res string A) : res string A :=
  match m with Ok a => Ok a | Err e => Err (wrap_err msg e) end.

(** The clusters by UID and by GUID, the last one of a key winning. *)
Definition by_uid (clusters : list DependentCluster) : gmap string DependentCluster :=
  foldl (fun m c => <[dc_UID c := c]> m) ∅ clusters.
Definition by_guid (clusters : list DependentCluster) : gmap string DependentCluster :=
  foldl (fun m c => if decide (dc_ClusterID c <> "") then <[dc_ClusterID c := c]> m else m) ∅ clusters.

(** Source A: the parent of a sharing container of the node. *)
Definition add_local (node : string) (uids dependents : gmap string DependentCluster) (c : GateContainer)
    : gmap string DependentCluster :=
  if decide (container_UsesDriveSharing (gc_Container c) = false \/ GetNodeAffinity (gc_Container c) <> node) then dependents
  else if decide (gc_ParentClusterId c = "") then dependents
  else match uids !! gc_ParentClusterId c with
       | Some cluster => <[dc_UID cluster := cluster]> dependents
       | None => dependents
       end.

(** Source B: the owner of a virtual drive of the proxy. *)
Definition add_owner (guids dependents : gmap string DependentCluster) (vid : string) : gmap string DependentCluster :=
  match guids !! vid with
  | Some cluster => <[dc_UID cluster := cluster]> dependents
  | None => dependents
  end.

Definition discoverDependentClusters (node : string) : res string (gmap string DependentCluster) :=
  let? clusters := wrapped "failed to list WekaClusters (uncached)" (ga_Clusters ans) in
  let? containers := wrapped "failed to list WekaContainers (uncached)" (ga_Containers ans) in
  let dependents := foldl (add_local node (by_uid clusters)) ∅ containers in
  let? _ := wrapped "failed to get node agent token" (ga_Token ans) in
  let? _ := wrapped "failed to reach node agent for ssdproxy virtual-drive listing" (ga_AgentPod ans) in
  let? vids := wrapped "failed to list virtual drives on ssdproxy" (ga_VirtualDrives ans) in
  Ok (foldl (add_owner (by_guid clusters)) dependents vids).

Definition cluster_before (a b : DependentCluster) : bool :=
  if decide (dc_Namespace a = dc_Namespace b) then str_lt (dc_Name a) (dc_Name b)
  else str_lt (dc_Namespace a) (dc_Namespace b).

Definition sortedClusters (m : gmap string DependentCluster) : list DependentCluster :=
  sort_by cluster_before (map_to_list m).*2.

(** The status of a cluster and its containers. *)
Definition fetchStatus (cluster : DependentCluster) : res string (GateStatus * list GateContainer) :=
  let? containers := wrapped "failed to list cluster containers" (ga_ClusterContainers ans cluster) in
  match SelectOperationalContainers (ga_Shuffle ans 0 containers) (ga_Shuffle ans 1 containers) 1 [] with
  | [] => Err "no operational container to query"
  | target :: _ =>
      let? status := wrapped "failed to fetch weka status" (ga_Status ans cluster target) in Ok (status, containers)
  end.

Definition blocked_verdict (cluster : DependentCluster) (reason : string) : ClusterVerdict :=
  mkVerdict (dc_Namespace cluster) (dc_Name cluster) (dc_ClusterID cluster) false (wrap_err (dc_Name cluster) reason).

Definition evaluateClusterWide (cluster : DependentCluster) : ClusterVerdict :=
  match fetchStatus cluster with
  | Err e => blocked_verdict cluster e
  | Ok (status, containers) =>
      let drives := if decide (ctr_Active (gs_Drives status) <> ctr_Total (gs_Drives status))
                    then ga_ListDrives ans cluster else Ok [] in
      match drives with
      | Err e => blocked_verdict cluster (wrap_err "failed to list drives" e)
      | Ok drives =>
          let '(expectedDrive, expectedCompute) := expectedContainers containers in
          match evaluateClusterHealth status drives expectedDrive expectedCompute driveThresholdPercent computeThresholdPercent with
          | None => mkVerdict (dc_Namespace cluster) (dc_Name cluster) (dc_ClusterID cluster) true ""
          | Some reason => blocked_verdict cluster reason
          end
      end
  end.

(** The drives of the node, and how many of its drive containers there are and have not rejoined. *)
Fixpoint nodeDrives (cluster : DependentCluster) (containers : list GateContainer) (node : string)
    : res string (list GateDrive * Z * Z) :=
  match containers with
  | [] => Ok ([], 0, 0)
  | c :: containers =>
      if decide (gc_ModeLabel c <> WekaContainerModeDrive \/ GetNodeAffinity (gc_Container c) <> node)
      then nodeDrives cluster containers node
      else match cst_ClusterContainerID (cn_Status (gc_Container c)) with
      | None => let? rest := nodeDrives cluster containers node in
                let '(drives, candidates, skipped) := rest in Ok (drives, candidates + 1, skipped + 1)
      | Some id =>
          let? own := wrapped (Sprintf "container %d" [ArgD id]) (ga_ContainerDrives ans cluster id) in
          let? rest := nodeDrives cluster containers node in
          let '(drives, candidates, skipped) := rest in Ok (own ++ drives, candidates + 1, skipped)
      end
  end.

Definition evaluateNodeRecovery (node : string) (cluster : DependentCluster) : ClusterVerdict :=
  let verdict := evaluateClusterWide cluster in
  match fetchStatus cluster with
  | Err _ => verdict
  | Ok (_, containers) =>
      let nodeReason := match nodeDrives cluster containers node with
        | Err e => Sprintf "failed to verify drives on node %s: %s" [ArgS node; ArgS e]
        | Ok (drives, candidates, skipped) => nodeDriveVerificationReason candidates skipped drives node
        end in
      if decide (nodeReason = "") then verdict
      else mkVerdict (cv_Namespace verdict) (cv_Name verdict) (cv_ClusterGUID verdict) false
             (if decide (cv_Reason verdict = "") then wrap_err (dc_Name cluster) nodeReason
              else String.append (cv_Reason verdict) (String.append "; " nodeReason))
  end.

Definition evaluateDependents (node : string) (perCluster : DependentCluster -> ClusterVerdict)
    : res string (list ClusterVerdict) :=
  let? dependents := wrapped "failed to discover dependent clusters" (discoverDependentClusters node) in
  Ok (perCluster <$> sortedClusters dependents).

Definition EvaluateNodeDisruption (node : string) : res string (list ClusterVerdict) :=
  evaluateDependents node evaluateClusterWide.

Definition VerifyNodeRecovered (node : string) : res string (list ClusterVerdict) :=
  evaluateDependents node (evaluateNodeRecovery node).
End gate.
