(* ===== verification/DisruptionFacts.v ===== *)
(** * Facts about the disruption gate

    The gate is exact and closed under failures: a restart is allowed just when the status of every cluster that
    depends on the node, through its sharing containers or its virtual drives, could be read and is healthy. *)

From S2P Require Import Prelude Float64 Fmt Types Sizing Ports Strategies VirtualDrives Api Nodes Templates Upgrade Disruption.

(** ** The reasons *)

Lemma protection_reason_empty states : rebuildProtectionReason states = "" <-> IsFullyProtected states = true.
Proof. unfold rebuildProtectionReason. destruct (IsFullyProtected states); [done|]. by split; intros H. Qed.

Lemma moving_reason_empty b : rebuildMovingDataReason b = "" <-> b = false.
Proof. destruct b; by split. Qed.

Lemma status_reason_empty s : clusterStatusReason s = "" <-> s ∈ HealthyClusterStatuses.
Proof. unfold clusterStatusReason. case_decide; [done|]. by split. Qed.

Lemma drive_reason_empty active total drives : driveHealthReason active total drives = "" <-> active = total.
Proof.
  unfold driveHealthReason. case_decide; [done|]. split; [|done]. intros E. exfalso. revert E. fmt_nonempty.
Qed.

(** The larger of the reported and the expected total meets the threshold. *)
Definition meets (counter : Counter) (expected percent : Z) : Prop :=
  MeetsThreshold (ctr_Active counter) (Z.max (ctr_Total counter) expected) percent = true.

Lemma threshold_reason_empty kind counter expected percent :
  containerThresholdReason kind counter expected percent = "" <-> meets counter expected percent.
Proof.
  unfold containerThresholdReason, meets. case_decide as E; [by rewrite E|].
  destruct (MeetsThreshold _ _ _); [done|]. by split.
Qed.

(** What the gate asks of a cluster: [status] as weka reports it, [containers] as the operator lists them. *)
Record healthy (drivePercent computePercent : Z) (status : GateStatus) (containers : list GateContainer) : Prop := mkHealthy {
  he_protected : IsFullyProtected (gs_ProtectionState status) = true;
  he_still : gs_MovingData status = false;
  he_status : gs_Status status ∈ HealthyClusterStatuses;
  he_drives : ctr_Active (gs_Drives status) = ctr_Total (gs_Drives status);
  he_drive_containers : meets (gs_DriveContainers status) (expectedContainers containers).1 drivePercent;
  he_compute_containers : meets (gs_ComputeContainers status) (expectedContainers containers).2 computePercent }.

Lemma filter_nonempty_nil (l : list string) : filter (fun r => r <> "") l = [] <-> Forall (fun r => r = "") l.
Proof.
  induction l as [|r l IH]; [done|]. rewrite filter_cons, Forall_cons. case_decide as E; [naive_solver|].
  rewrite IH. naive_solver.
Qed.

Lemma evaluateClusterHealth_healthy status drives containers dp cp :
  evaluateClusterHealth status drives (expectedContainers containers).1 (expectedContainers containers).2 dp cp = None
  <-> healthy dp cp status containers.
Proof.
  unfold evaluateClusterHealth. set (l := filter _ _).
  transitivity (l = []); [by destruct l|]. unfold l. rewrite filter_nonempty_nil, !Forall_cons.
  rewrite protection_reason_empty, moving_reason_empty, status_reason_empty, drive_reason_empty, !threshold_reason_empty.
  split; [intros (? & ? & ? & ? & ? & ? & _); by constructor|]. intros []. by split_and!.
Qed.

(** ** Which clusters depend on the node *)

Section dependents.
Context (clusters : list DependentCluster).
(** UIDs are unique, and so are the GUIDs of the clusters that are formed. *)
Context (Huid : forall c d, c ∈ clusters -> d ∈ clusters -> dc_UID c = dc_UID d -> c = d).
Context (Hguid : forall c d, c ∈ clusters -> d ∈ clusters -> dc_ClusterID c <> "" -> dc_ClusterID c = dc_ClusterID d -> c = d).

(** The map [m] holds the clusters of [P] under [key]. *)
Definition indexes (key : DependentCluster -> string) (m : gmap string DependentCluster) (P : DependentCluster -> Prop) : Prop :=
  forall k c, m !! k = Some c <-> key c = k /\ P c.

Lemma indexes_insert key m P c :
  indexes key m P -> (forall d, P d -> key d = key c -> d = c) ->
  indexes key (<[key c := c]> m) (fun d => P d \/ d = c).
Proof.
  intros Hm Hu k d. destruct (decide (k = key c)) as [->|Hk].
  - rewrite lookup_insert_eq. split; [intros [= ->]; auto|]. intros [E [Hd| ->]]; [|done]. by rewrite (Hu d Hd E).
  - rewrite lookup_insert_ne by done. rewrite (Hm k d). naive_solver.
Qed.

Lemma indexes_iff key m P Q : indexes key m P -> (forall c, P c <-> Q c) -> indexes key m Q.
Proof. intros Hm H k c. by rewrite <-H. Qed.

Lemma by_uid_indexes : indexes dc_UID (by_uid clusters) (fun c => c ∈ clusters).
Proof.
  unfold by_uid. clear Hguid. induction clusters as [|c l IH] using rev_ind.
  - intros k c. simpl. rewrite lookup_empty. split; [done|]. by intros [_ ?%not_elem_of_nil].
  - rewrite foldl_app. simpl. eapply indexes_iff.
    + apply indexes_insert; [apply IH; intros; apply Huid; set_solver|]. intros d Hd E. apply Huid; set_solver.
    + set_solver.
Qed.

Lemma by_guid_indexes : indexes dc_ClusterID (by_guid clusters) (fun c => c ∈ clusters /\ dc_ClusterID c <> "").
Proof.
  unfold by_guid. clear Huid. induction clusters as [|c l IH] using rev_ind.
  - intros k c. simpl. rewrite lookup_empty. split; [done|]. by intros (_ & ?%not_elem_of_nil & _).
  - rewrite foldl_app. simpl. case_decide as E; (eapply indexes_iff; [|]).
    + apply indexes_insert; [apply IH; intros; apply Hguid; set_solver|]. intros d [Hd _] Ed. apply Hguid; try set_solver. by rewrite Ed.
    + set_solver.
    + apply IH; intros; apply Hguid; set_solver.
    + set_solver.
Qed.

(** [c] owns the sharing container [gc] of the node. *)
Definition owns_local (node : string) (gc : GateContainer) (c : DependentCluster) : Prop :=
  container_UsesDriveSharing (gc_Container gc) = true /\ GetNodeAffinity (gc_Container gc) = node /\
  gc_ParentClusterId gc <> "" /\ gc_ParentClusterId gc = dc_UID c.

(** [c] owns a virtual drive whose cluster is [vid]. *)
Definition owns_drive (vid : string) (c : DependentCluster) : Prop := vid <> "" /\ vid = dc_ClusterID c.

(** One more of the listed clusters, looked up in an index. *)
Lemma add_indexed key (idx m : gmap string DependentCluster) P Q k :
  indexes key idx Q -> (forall c, Q c -> c ∈ clusters) -> indexes dc_UID m P -> (forall c, P c -> c ∈ clusters) ->
  indexes dc_UID (match idx !! k with Some c => <[dc_UID c := c]> m | None => m end)
    (fun c => P c \/ Q c /\ key c = k).
Proof.
  intros Hidx HQ Hm HP. destruct (idx !! k) as [c|] eqn:E.
  - pose proof E as E'. apply Hidx in E' as [Ek Hc]. eapply indexes_iff; [apply indexes_insert; [done|intros d Hd; apply Huid; auto]|].
    intros d. split; [intros [?| ->]; auto|]. intros [?|[Hd Ekd]]; [by left|right].
    assert (idx !! k = Some d) as E2 by (by apply Hidx). congruence.
  - eapply indexes_iff; [done|]. intros d. split; [auto|]. intros [?|[Hd Ekd]]; [done|].
    assert (idx !! k = Some d) as E2 by (by apply Hidx). congruence.
Qed.

(** A loop that adds clusters one element at a time. *)
Lemma foldl_indexed {A} (add : gmap string DependentCluster -> A -> gmap string DependentCluster) (R : A -> DependentCluster -> Prop) :
  (forall m P a, indexes dc_UID m P -> (forall c, P c -> c ∈ clusters) ->
     indexes dc_UID (add m a) (fun c => P c \/ c ∈ clusters /\ R a c)) ->
  forall l m P, indexes dc_UID m P -> (forall c, P c -> c ∈ clusters) ->
    indexes dc_UID (foldl add m l) (fun c => P c \/ c ∈ clusters /\ exists a, a ∈ l /\ R a c).
Proof.
  intros Hadd. induction l as [|a l IH]; intros m P Hm HP; simpl.
  - eapply indexes_iff; [done|]. intros c. split; [auto|]. intros [?|(_ & ? & ?%not_elem_of_nil & _)]; done.
  - eapply indexes_iff; [apply IH; [by apply Hadd|intros c [?|[? _]]; auto]|].
    intros c. clear. set_unfold. naive_solver.
Qed.

Lemma add_local_indexes node m P gc :
  indexes dc_UID m P -> (forall c, P c -> c ∈ clusters) ->
  indexes dc_UID (add_local node (by_uid clusters) m gc) (fun c => P c \/ c ∈ clusters /\ owns_local node gc c).
Proof.
  intros Hm HP. unfold add_local, owns_local. case_decide as E; [|case_decide as E2].
  - eapply indexes_iff; [done|]. intros c. split; [auto|]. intros [?|(_ & H1 & H2 & _)]; [done|].
    destruct E as [E|E]; [congruence|done].
  - eapply indexes_iff; [done|]. intros c. split; [auto|]. intros [?|(_ & _ & _ & H3 & _)]; done.
  - eapply indexes_iff; [apply (add_indexed dc_UID); [apply by_uid_indexes|auto|done..]|]. intros c.
    apply Decidable.not_or in E as [E1 E1']. apply not_false_is_true in E1. apply dec_stable in E1'. clear -E1 E1' E2. naive_solver.
Qed.

Lemma add_owner_indexes m P vid :
  indexes dc_UID m P -> (forall c, P c -> c ∈ clusters) ->
  indexes dc_UID (add_owner (by_guid clusters) m vid) (fun c => P c \/ c ∈ clusters /\ owns_drive vid c).
Proof.
  intros Hm HP. unfold add_owner, owns_drive.
  eapply indexes_iff; [apply (add_indexed dc_ClusterID); [apply by_guid_indexes|by intros c [? _]|done..]|].
  intros c. clear. naive_solver.
Qed.
End dependents.

Section gate.
Context (dp cp : Z) (ans : gate_answers).

(** [c] is one of the listed clusters and owns a sharing container of the node or a virtual drive of its proxy. *)
Definition depends (node : string) (c : DependentCluster) : Prop :=
  exists clusters containers vids,
    ga_Clusters ans = Ok clusters /\ ga_Containers ans = Ok containers /\ ga_VirtualDrives ans = Ok vids /\ c ∈ clusters /\
    ((exists gc, gc ∈ containers /\ owns_local node gc c) \/ exists vid, vid ∈ vids /\ owns_drive vid c).

(** UIDs and GUIDs tell the listed clusters apart. *)
Definition distinct_clusters : Prop :=
  forall clusters c d, ga_Clusters ans = Ok clusters -> c ∈ clusters -> d ∈ clusters ->
    dc_UID c = dc_UID d \/ dc_ClusterID c = dc_ClusterID d /\ dc_ClusterID c <> "" -> c = d.

Lemma discover_depends node m :
  distinct_clusters -> discoverDependentClusters ans node = Ok m -> indexes dc_UID m (depends node).
Proof.
  intros Hd. unfold discoverDependentClusters, wrapped, depends, distinct_clusters in *.
  destruct (ga_Clusters ans) as [clusters|]; simpl; [|done]. destruct (ga_Containers ans) as [containers|]; simpl; [|done].
  destruct (ga_Token ans); simpl; [|done]. destruct (ga_AgentPod ans); simpl; [|done].
  destruct (ga_VirtualDrives ans) as [vids|]; simpl; [|done]. intros [= <-].
  assert (Huid : forall c d, c ∈ clusters -> d ∈ clusters -> dc_UID c = dc_UID d -> c = d) by eauto.
  assert (Hguid : forall c d, c ∈ clusters -> d ∈ clusters -> dc_ClusterID c <> "" -> dc_ClusterID c = dc_ClusterID d -> c = d) by eauto.
  assert (H0 : indexes dc_UID ∅ (fun _ => False)). { intros k c. rewrite lookup_empty. by split; [|intros []]. }
  pose proof (foldl_indexed clusters (add_local node (by_uid clusters)) (owns_local node)
    (fun m P a => add_local_indexes clusters Huid node m P a) containers ∅ _ H0 (fun c (H : False) => match H with end)) as H1.
  pose proof (foldl_indexed clusters (add_owner (by_guid clusters)) owns_drive
    (fun m P a => add_owner_indexes clusters Huid Hguid m P a) vids _ _ H1) as H2.
  eapply indexes_iff; [apply H2|]; clear; naive_solver.
Qed.

Lemma elem_of_sortedClusters key m P c : indexes key m P -> c ∈ sortedClusters m <-> P c.
Proof.
  intros Hm. unfold sortedClusters. rewrite elem_of_sort_by, list_elem_of_fmap. split.
  - intros [[k d] [-> Hk]]. apply elem_of_map_to_list, Hm in Hk. apply Hk.
  - intros Hc. exists (key c, c). split; [done|]. apply elem_of_map_to_list, Hm. by split.
Qed.

Lemma AllAllowed_none verdicts : AllAllowed verdicts = None <-> Forall (fun v => Allowed v = true) verdicts.
Proof.
  unfold AllAllowed. transitivity (filter (fun v => Allowed v = false) verdicts = []); [by destruct (filter _ _)|].
  induction verdicts as [|v l IH]; [done|]. rewrite filter_cons, Forall_cons, <-IH.
  destruct (Allowed v); case_decide; naive_solver.
Qed.

(** The two gates ask the question of every dependent cluster. *)
Lemma evaluateDependents_allowed node perCluster verdicts :
  distinct_clusters -> evaluateDependents ans node perCluster = Ok verdicts ->
  AllAllowed verdicts = None <-> forall c, depends node c -> Allowed (perCluster c) = true.
Proof.
  intros Hd. unfold evaluateDependents, wrapped. destruct (discoverDependentClusters ans node) as [m|] eqn:E; simpl; [|done].
  intros [= <-]. apply discover_depends in E; [|done]. rewrite AllAllowed_none, Forall_fmap, Forall_forall. simpl.
  split; intros H c Hc; apply H; by apply (elem_of_sortedClusters dc_UID m (depends node) c E).
Qed.

(** The cluster could be asked for its status and is healthy. *)
Definition found_healthy (c : DependentCluster) (containers : list GateContainer) : Prop :=
  exists status, fetchStatus ans c = Ok (status, containers) /\ healthy dp cp status containers.

Lemma evaluateClusterWide_allowed c :
  Allowed (evaluateClusterWide dp cp ans c) = true <-> exists containers, found_healthy c containers.
Proof.
  unfold evaluateClusterWide, found_healthy. destruct (fetchStatus ans c) as [[status containers]|]; [|simpl; naive_solver].
  transitivity (healthy dp cp status containers); [|naive_solver].
  destruct (if decide _ then _ else _) as [drives|] eqn:Ed.
  - pose proof (evaluateClusterHealth_healthy status drives containers dp cp) as Hh.
    destruct (expectedContainers containers) as [ed ec]. simpl in Hh. rewrite <-Hh.
    by destruct (evaluateClusterHealth _ _ _ _ _ _).
  - simpl. split; [done|]. intros H. case_decide as E; [by destruct (E (he_drives _ _ _ _ H))|done].
Qed.

(** The drive containers of the node. *)
Definition drives_on (node : string) (containers : list GateContainer) : list GateContainer :=
  filter (fun gc => gc_ModeLabel gc = WekaContainerModeDrive /\ GetNodeAffinity (gc_Container gc) = node) containers.

(** The container has joined the cluster, which lists its drives. *)
Definition lists_drives (c : DependentCluster) (gc : GateContainer) (drives : list GateDrive) : Prop :=
  exists id, cst_ClusterContainerID (cn_Status (gc_Container gc)) = Some id /\ ga_ContainerDrives ans c id = Ok drives.

(** Every drive container of the node has joined and all the drives they have are active; and they have some. *)
Definition recovered (node : string) (c : DependentCluster) (containers : list GateContainer) : Prop :=
  exists drives, Forall2 (lists_drives c) (drives_on node containers) drives /\
    Forall (fun d => gd_Status d = DriveStatusActive) (concat drives) /\
    (drives_on node containers <> [] -> concat drives <> []).

Lemma drives_on_cons node gc containers :
  drives_on node (gc :: containers) =
    if decide (gc_ModeLabel gc <> WekaContainerModeDrive \/ GetNodeAffinity (gc_Container gc) <> node)
    then drives_on node containers else gc :: drives_on node containers.
Proof.
  unfold drives_on. rewrite filter_cons. case_decide as E1; case_decide as E2; try done; exfalso.
  - destruct E1, E2; done.
  - apply E2. destruct (decide (gc_ModeLabel gc = WekaContainerModeDrive)); [right|by left]. intros E. by apply E1.
Qed.

Lemma nodeDrives_skipped c containers node drives n k : nodeDrives ans c containers node = Ok (drives, n, k) -> 0 <= k <= n.
Proof.
  revert drives n k. induction containers as [|gc l IH]; intros drives n k; simpl; [intros [= <- <- <-]; lia|].
  case_decide; [apply IH|]. unfold wrapped. destruct (cst_ClusterContainerID _) as [id|].
  - destruct (ga_ContainerDrives ans c id); simpl; [|done]. destruct (nodeDrives ans c l node) as [[[d n'] k']|]; simpl; [|done].
    intros [= <- <- <-]. specialize (IH _ _ _ eq_refl). lia.
  - destruct (nodeDrives ans c l node) as [[[d n'] k']|]; simpl; [|done].
    intros [= <- <- <-]. specialize (IH _ _ _ eq_refl). lia.
Qed.

Lemma nodeDrives_joined c containers node drives n :
  nodeDrives ans c containers node = Ok (drives, n, 0) <->
  n = len (drives_on node containers) /\
  exists ds, Forall2 (lists_drives c) (drives_on node containers) ds /\ drives = concat ds.
Proof.
  revert drives n. induction containers as [|gc l IH]; intros drives n.
  { simpl. split; [intros [= <- <-]; split; [done|by exists []]|]. intros (-> & ds & Hf & ->). by inversion Hf. }
  rewrite drives_on_cons. simpl. case_decide; [apply IH|]. unfold wrapped, lists_drives in *.
  rewrite length_cons. destruct (cst_ClusterContainerID _) as [id|] eqn:Eid.
  - destruct (ga_ContainerDrives ans c id) as [own|] eqn:Eo; simpl.
    + split.
      * destruct (nodeDrives ans c l node) as [[[d n'] k']|]; simpl; [|done]. intros [= <- <- ->].
        destruct (proj1 (IH d n') eq_refl) as (-> & ds & Hf & ->). split; [lia|]. exists (own :: ds).
        split; [|done]. constructor; [|done]. by exists id.
      * intros (-> & ds & Hf & ->). inversion Hf as [|? own' ? ds' (id' & Hid & Ho) Hf']; subst. simplify_eq.
        rewrite (proj2 (IH (concat ds') (len (drives_on node l)))) by eauto. simpl.
        assert (own' = own) as -> by congruence. by rewrite Nat2Z.inj_succ.
    + split; [done|]. intros (_ & ds & Hf & _). inversion Hf as [|? own' ? ds' (id' & Hid & Ho) Hf']; subst. congruence.
  - split.
    + destruct (nodeDrives ans c l node) as [[[d n'] k']|] eqn:E; simpl; [|done]. intros [= _ _ Hk].
      apply nodeDrives_skipped in E. lia.
    + intros (_ & ds & Hf & _). inversion Hf as [|? own' ? ds' (id' & Hid & Ho) Hf']; subst. congruence.
Qed.

Lemma countActiveDrives_all drives :
  countActiveDrives drives = len drives <-> Forall (fun d => gd_Status d = DriveStatusActive) drives.
Proof.
  unfold countActiveDrives. induction drives as [|d l IH]; [done|]. rewrite filter_cons, Forall_cons.
  pose proof (length_filter (fun d => gd_Status d = DriveStatusActive) l).
  case_decide; rewrite ?length_cons in *; [rewrite <-IH; split; [intros; split; [done|lia]|intros [_ ?]; lia]|].
  split; [lia|]. by intros [? _].
Qed.

Lemma verification_reason_empty candidates skipped drives node :
  nodeDriveVerificationReason candidates skipped drives node = "" <->
  skipped <= 0 /\ (candidates > 0 -> drives <> []) /\ Forall (fun d => gd_Status d = DriveStatusActive) drives.
Proof.
  unfold nodeDriveVerificationReason. rewrite <-countActiveDrives_all.
  pose proof (drive_reason_empty (countActiveDrives drives) (len drives) drives) as Hd. rewrite <-Hd. clear Hd.
  case_decide as E1; [split; [done|lia]|]. case_decide as E2.
  - split; [done|]. intros (_ & H & _). destruct E2 as [Hc Hl]. destruct drives; [by destruct (H Hc)|]. simpl in Hl. lia.
  - case_decide as E3; [split; [done|by intros (_ & _ & ?)]|]. split; [|done].
    intros _. split_and!; [lia| |done]. intros Hc ->. apply E2. done.
Qed.

Lemma evaluateNodeRecovery_allowed node c :
  Allowed (evaluateNodeRecovery dp cp ans node c) = true <->
  exists containers, found_healthy c containers /\ recovered node c containers.
Proof.
  pose proof (evaluateClusterWide_allowed c) as Hw. unfold evaluateNodeRecovery, found_healthy, recovered in *.
  destruct (fetchStatus ans c) as [[status containers]|]; [|rewrite Hw; naive_solver].
  pose proof (nodeDrives_joined c containers node) as Hj.
  transitivity (Allowed (evaluateClusterWide dp cp ans c) = true /\ exists drives candidates,
    nodeDrives ans c containers node = Ok (drives, candidates, 0) /\ (candidates > 0 -> drives <> []) /\
    Forall (fun d => gd_Status d = DriveStatusActive) drives).
  - destruct (nodeDrives ans c containers node) as [[[drives n] k]|] eqn:E.
    + pose proof (nodeDrives_skipped _ _ _ _ _ _ E). pose proof (verification_reason_empty n k drives node) as Hr.
      case_decide as Er; [apply Hr in Er|]; simpl.
      * split; [intros Ha; split; [done|]|by intros []]. exists drives, n. destruct Er as (? & ? & ?).
        split_and!; [|done..]. repeat f_equal. lia.
      * split; [done|]. intros (_ & ? & ? & [= <- <- ->] & ?). destruct Er. apply Hr. split; [lia|done].
    + simpl. split; [done|]. by intros (_ & ? & ? & ? & _).
  - rewrite Hw. split.
    + intros [(cs & st & [= <- <-] & Hh) (drives & n & [-> (ds & Hf & ->)]%Hj & Hc & Ha)].
      exists containers. split; [eauto|]. exists ds. split_and!; [done..|]. intros Hne. apply Hc.
      destruct (drives_on node containers); [done|]. simpl. lia.
    + intros (cs & (st & [= <- <-] & Hh) & ds & Hf & Ha & Hc). split; [eauto|].
      exists (concat ds), (len (drives_on node containers)). split_and!; [|intros Hn; apply Hc; intros Hz; rewrite Hz in Hn; simpl in Hn; lia|done].
      apply Hj. eauto.
Qed.

(** A verdict that blocks says why. *)
Lemma evaluateClusterWide_reason c :
  Allowed (evaluateClusterWide dp cp ans c) = false -> cv_Reason (evaluateClusterWide dp cp ans c) <> "".
Proof.
  unfold evaluateClusterWide, blocked_verdict, wrap_err. intros H. repeat case_match; simpl in *; try done; fmt_nonempty.
Qed.

Lemma evaluateNodeRecovery_reason node c :
  Allowed (evaluateNodeRecovery dp cp ans node c) = false -> cv_Reason (evaluateNodeRecovery dp cp ans node c) <> "".
Proof.
  pose proof (evaluateClusterWide_reason c) as Hw. unfold evaluateNodeRecovery, wrap_err.
  destruct (fetchStatus ans c) as [[status containers]|]; [|done]. case_decide; [done|]. simpl. intros _.
  case_decide as E; [fmt_nonempty|]. by destruct (cv_Reason _).
Qed.

Lemma recovery_reasons node verdicts :
  VerifyNodeRecovered dp cp ans node = Ok verdicts -> AllAllowed verdicts <> Some "".
Proof.
  unfold VerifyNodeRecovered, evaluateDependents. destruct (wrapped _ _) as [m|]; simpl; [|done]. intros [= <-].
  unfold AllAllowed. set (l := filter _ _). assert (Forall (fun v => cv_Reason v <> "") l) as Hl.
  { unfold l. apply Forall_forall. intros v [Hv Hin]%list_elem_of_filter. apply list_elem_of_fmap in Hin as (c & -> & _).
    by apply evaluateNodeRecovery_reason. }
  destruct Hl as [|v l' Hv Hl']; [done|]. intros [= E]. destruct l'; [done|]. simpl in E. by destruct (cv_Reason v).
Qed.

(** C21: The gate before a restart is exact: once the clusters, containers and virtual drives could be listed, the restart
    is allowed just when every cluster that depends on the node, by a sharing container there or by a virtual drive of
    its proxy, could be asked for its status and is fully protected, moves no data, reports a healthy status, has all
    its drives active, and has enough drive and compute containers of those the operator knows of. *)
Theorem gate_exact node verdicts :
  distinct_clusters -> EvaluateNodeDisruption dp cp ans node = Ok verdicts ->
  AllAllowed verdicts = None <-> forall c, depends node c -> exists containers, found_healthy c containers.
Proof.
  intros Hd Hv. rewrite (evaluateDependents_allowed _ _ _ Hd Hv).
  split; intros H c Hc; by apply evaluateClusterWide_allowed, H.
Qed.

(** C22: The gate after a restart is exact too: it passes just when every dependent cluster is healthy again and each of
    its drive containers on the node has rejoined with all its drives active, at least one drive being seen where
    there are such containers. *)
Theorem recovery_exact node verdicts :
  distinct_clusters -> VerifyNodeRecovered dp cp ans node = Ok verdicts ->
  AllAllowed verdicts = None <->
  forall c, depends node c -> exists containers, found_healthy c containers /\ recovered node c containers.
Proof.
  intros Hd Hv. rewrite (evaluateDependents_allowed _ _ _ Hd Hv).
  split; intros H c Hc; by apply evaluateNodeRecovery_allowed, H.
Qed.
End gate.

(** ** Two clusters on a node *)

Definition gt_container (node : string) (capacity : Z) (id : option Z) (uid : string) : GateContainer := {|
  gc_Container := {|
    cn_Name := "d"; cn_Namespace := "ns"; cn_CreationTimestamp := 1; cn_Deleted := false; cn_OwnerReferences := [];
    cn_Spec := {| cs_Mode := WekaContainerModeDrive; cs_Image := "weka:4.4"; cs_State := ContainerStateActive;
      cs_CpuPolicy := ""; cs_NumCores := 1; cs_ExtraCores := 0; cs_Resources := None; cs_Hugepages := 1000;
      cs_HugepagesOffset := 0; cs_HugepagesSize := "2Mi"; cs_NumDrives := 0; cs_DriveCapacity := 0;
      cs_ContainerCapacity := capacity; cs_DriveTypesRatio := None; cs_NodeAffinity := node; cs_RotatePod := false;
      cs_NodeSelector := ∅; cs_DpdkBaseMemoryMb := 0 |};
    cn_Status := {| cst_Status := "Running"; cst_ManagementIps := ["10.0.0.1"]; cst_NodeAffinity := node;
      cst_LastAppliedImage := "weka:4.4"; cst_ClusterContainerID := id; cst_PodOutdated := false;
      cst_Allocations := Some (mkAllocations [] (mkPortAlloc 35000 0) []) |} |};
  gc_ParentClusterId := uid; gc_ModeLabel := WekaContainerModeDrive; gc_InternalStatus := "READY" |}.

Definition gt_a : DependentCluster := mkDependent "uid-a" "ns" "a" "guid-a".
Definition gt_b : DependentCluster := mkDependent "uid-b" "ns" "b" "guid-b".
Definition gt_local : GateContainer := gt_container "n1" 2000 (Some 0) "uid-a".
Definition gt_remote : GateContainer := gt_container "n2" 2000 (Some 1) "uid-b".

(** [gt_a] has a container on the node, [gt_b] only a virtual drive of its proxy; [gt_b] has [active] of four drives. *)
Definition gt_answers (active : Z) : gate_answers := {|
  ga_Clusters := Ok [gt_a; gt_b]; ga_Containers := Ok [gt_local; gt_remote]; ga_Token := Ok tt; ga_AgentPod := Ok tt;
  ga_VirtualDrives := Ok ["guid-b"];
  ga_ClusterContainers := fun c => Ok (if decide (dc_UID c = "uid-a") then [gt_local] else [gt_remote]);
  ga_Shuffle := fun _ l => l;
  ga_Status := fun c _ => Ok (mkGateStatus "OK" [] false (mkCounter (if decide (dc_UID c = "uid-a") then 4 else active) 4)
                                 (mkCounter 1 1) (mkCounter 0 0));
  ga_ListDrives := fun _ => Ok [mkGateDrive "u1" "S1" "INACTIVE"];
  ga_ContainerDrives := fun _ id => Ok [mkGateDrive "u0" "S0" "ACTIVE"] |}.

Lemma gt_distinct active : distinct_clusters (gt_answers active).
Proof.
  intros cs c d [= <-] Hc Hd H. set_unfold in Hc. set_unfold in Hd.
  destruct Hc as [->|[->|[]]], Hd as [->|[->|[]]]; try done; by destruct H as [H|[H _]].
Qed.

Lemma gt_depends active : depends (gt_answers active) "n1" gt_a /\ depends (gt_answers active) "n1" gt_b.
Proof.
  split; exists [gt_a; gt_b], [gt_local; gt_remote], ["guid-b"]; (split_and!; [done..|set_solver|]).
  - left. exists gt_local. split; [set_solver|]. by split_and!.
  - right. exists "guid-b". split; [set_solver|done].
Qed.

(** With all its drives active the restart is allowed, with one of them missing it is not. *)
Lemma gate_exact_witness :
  (forall c, depends (gt_answers 4) "n1" c -> exists containers, found_healthy 90 90 (gt_answers 4) c containers) /\
  exists verdicts, EvaluateNodeDisruption 90 90 (gt_answers 3) "n1" = Ok verdicts /\
    AllAllowed verdicts = Some "b: 1 drives not ACTIVE (INACTIVE: S1)" /\
    ~ forall c, depends (gt_answers 3) "n1" c -> exists containers, found_healthy 90 90 (gt_answers 3) c containers.
Proof.
  split; [eapply (gate_exact 90 90 (gt_answers 4)); [apply gt_distinct|vm_compute; reflexivity|reflexivity]|].
  eexists. split; [vm_compute; reflexivity|]. split; [vm_compute; reflexivity|]. intros H.
  eapply (gate_exact 90 90 (gt_answers 3)) in H; [|apply gt_distinct|vm_compute; reflexivity]. vm_compute in H. discriminate H.
Defined.

Lemma recovery_exact_witness :
  exists containers, found_healthy 90 90 (gt_answers 4) gt_a containers /\ recovered (gt_answers 4) "n1" gt_a containers.
Proof.
  eapply (recovery_exact 90 90 (gt_answers 4) "n1"); [apply gt_distinct|vm_compute; reflexivity|reflexivity|].
  apply gt_depends.
Defined.

(** Where no container is operational the status is still asked of one that is not, unless every one of them is
    [PodNotRunning] or [Stopped]. *)
Theorem target_falls_back containers :
  Forall (fun c => IsContainerOperational c = false) containers ->
  SelectOperationalContainers containers containers 1 [] =
    match filter (fun c => cst_Status (cn_Status (gc_Container c)) ∉ ["PodNotRunning"; "Stopped"]) containers with
    | c :: _ => [c]
    | [] => []
    end.
Proof.
  intros Hn. unfold SelectOperationalContainers. rewrite list_filter_none.
  - clear Hn. induction containers as [|c l IH]; [done|]. rewrite filter_cons. simpl.
    case_decide as E; [rewrite decide_False by (intros H; by apply H)|rewrite decide_True by exact E; by destruct l]. exact IH.
  - eapply Forall_impl; [exact Hn|]. simpl. intros c Hc (_ & H & _). congruence.
Qed.
