(* ===== verification/Campaign.v ===== *)
(** * Campaigns: operations whose state lives in the status of their object

    The long-running manual operations (operations/migrate_drive_sharing.go, rotate_ssdproxy.go, stale_virtual_drives.go)
    share a shape:
    every reconcile reads the result stored in the object's status, makes one pass, and stores the result again
    through the callbacks of wekamanualoperation_controller.go. A pass is described by the calls it makes, in
    order and each with its answer; a crash of the operator is a log that ends early. A call that answers an
    error has changed nothing. *)

From stdpp Require Import relations.
From S2P Require Import Prelude Fmt Types Sizing Ports Strategies VirtualDrives Api.

(** ** Calls, objects and passes *)

(** What an operation reads of the others. *)
Record Operation : Type := mkOperation {
  op_UID : string; op_Namespace : string; op_Name : string; op_Action : string; op_Status : string;
  op_Deleted : bool }.

(** [errors.Wrap(err, msg)]. *)
Definition wrap (msg err : string) : string := Sprintf "%s: %s" [ArgS msg; ArgS err].

(** *** The proxies an operation targets *)

Record targetProxy : Type := mkTargetProxy { t_container : Container; t_node : string }.

(** The node is known and passes the filter. *)
Definition targeted (nodeFilter : option (list string)) (node : string) : bool :=
  negb (bool_decide (node = "")) && match nodeFilter with None => true | Some nodes => bool_decide (node ∈ nodes) end.

(** The operator's namespace, the ssdproxy containers there, the selector and the nodes that match it. *)
Definition resolveTargetProxies (podNamespace : res string string) (proxies : res string (list Container))
    (nodeSelector : gmap string string) (selectedNodes : res string (list string)) : res string (list targetProxy) :=
  match podNamespace with
  | Err e => Err (wrap "failed to get operator namespace" e)
  | Ok _ =>
  match proxies with
  | Err e => Err (wrap "failed to list ssdproxy containers" e)
  | Ok proxies =>
      let? nodeFilter :=
        if decide (nodeSelector = ∅) then Ok None
        else match selectedNodes with
             | Ok nodes => Ok (Some nodes)
             | Err e => Err (wrap "failed to list nodes for NodeSelector" e)
             end in
      Ok ((fun c => mkTargetProxy c (GetNodeAffinity c)) <$>
          filter (fun c => targeted nodeFilter (GetNodeAffinity c) = true) proxies)
  end end.

(** JSON keeps the seconds of a time. *)
Definition json_time (t : Z) : Z := t / 1000000000 * 1000000000.

(** The writes of the status, with the result they store, and the operation's own calls. *)
Inductive campaign_call (R A : Type) : Type :=
  | PersistProgress (r : R)
  | MarkDone (r : R)
  | MarkFailed (r : R)
  | Act (a : A).
Arguments PersistProgress {_ _} _.
Arguments MarkDone {_ _} _.
Arguments MarkFailed {_ _} _.
Arguments Act {_ _} _.

Definition campaign_log (R A : Type) : Type := list (campaign_call R A * option api_error).

(** What a step returns: nil, a wait error with its cause, another error. *)
Inductive outcome : Type :=
  | Proceed
  | WaitError (why : string)
  | PlainError (err : string).

(** The state of a pass: the result in memory and the calls made so far. *)
Record campaign_machine (R A : Type) : Type := mkMachine { results : R; calls : campaign_log R A }.
Arguments mkMachine {_ _} _ _.
Arguments results {_ _} _.
Arguments calls {_ _} _.

(** The object: its status and the result it holds, [None] when there is none that can be read. *)
Record campaign_owner (R : Type) : Type := mkOwner { ow_Status : string; ow_Result : option R }.
Arguments mkOwner {_} _ _.
Arguments ow_Status {_} _.
Arguments ow_Result {_} _.

Section campaign.
Context {R A : Type}.
Local Abbreviation call := (campaign_call R A).
Local Abbreviation log := (campaign_log R A).
Local Abbreviation machine := (campaign_machine R A).
Local Abbreviation owner := (campaign_owner R).

Definition update (f : R -> R) (m : machine) : machine := mkMachine (f (results m)) (calls m).

(** [oracle]: the answer to a call, given the calls before. *)
Definition do_call (oracle : log -> call -> option api_error) (c : call) (m : machine) : option api_error * machine :=
  let r := oracle (calls m) c in (r, mkMachine (results m) (calls m ++ [(c, r)])).

(** The object before the first pass. *)
Definition created : owner := mkOwner "" None.

(** [ownerDone] or [ownerFailed]. *)
Definition terminal (o : owner) : bool := bool_decide (ow_Status o = "Done" \/ ow_Status o = "Failed").

(** What a call leaves in the object: [onProgress], [onSuccess] and [onFailure]; [stored] is what JSON keeps. *)
Definition apply_call (stored : R -> R) (o : owner) (e : call * option api_error) : owner :=
  match e with
  | (PersistProgress r, None) =>
      mkOwner (if decide (ow_Status o = "") then "Running" else ow_Status o) (Some (stored r))
  | (MarkDone r, None) => mkOwner "Done" (Some (stored r))
  | (MarkFailed r, None) => mkOwner "Failed" (Some (stored r))
  | _ => o
  end.

Definition apply_log (stored : R -> R) (o : owner) (l : log) : owner := foldl (apply_call stored) o l.

(** A call that does not write the object. *)
Definition outside (c : call) : Prop := match c with Act _ => True | _ => False end.

(** ** Logs whose calls all rest on what is stored when they are made *)

Section audit.
Context (stored : R -> R) (ok : owner -> call -> Prop).

Fixpoint audit (o : owner) (l : log) : Prop :=
  match l with
  | [] => True
  | e :: l => ok o e.1 /\ audit (apply_call stored o e) l
  end.

Lemma audit_app o l1 l2 : audit o (l1 ++ l2) <-> audit o l1 /\ audit (apply_log stored o l1) l2.
Proof. revert o. induction l1 as [|e l1 IH]; intros o; simpl; [tauto|]. rewrite IH. tauto. Qed.

Lemma audit_take k o l : audit o l -> audit o (take k l).
Proof. rewrite <-(take_drop k l) at 1. rewrite audit_app. tauto. Qed.

End audit.

Lemma audit_impl stored (ok ok' : owner -> call -> Prop) o l :
  (forall o c, ok o c -> ok' o c) -> audit stored ok o l -> audit stored ok' o l.
Proof. intros H. revert o. induction l as [|e l IH]; intros o; simpl; [done|]. intros [? ?]. split; auto. Qed.

(** ** Runs *)

Section runs.
Context (stored : R -> R) (ok : owner -> call -> Prop).

(** [pass]: the calls of a pass in an environment; [legal] environments. *)
Context {W : Type} (legal : W -> Prop) (pass : W -> owner -> log).

(** A pass that may be cut short: only the first [k] of its calls are made. *)
Inductive cut_pass : owner * log -> owner * log -> Prop :=
  | cut_pass_intro w k o h :
      legal w -> cut_pass (o, h) (apply_log stored o (take k (pass w o)), h ++ take k (pass w o)).

(** Passes that are not cut short. *)
Definition whole_passes (ws : list W) (x : owner * log) : owner * log :=
  foldl (fun '(o, h) w => (apply_log stored o (pass w o), h ++ pass w o)) x ws.

Lemma whole_passes_cut ws x : Forall legal ws -> rtc cut_pass x (whole_passes ws x).
Proof.
  revert x. induction ws as [|w ws IH]; intros [o h] Hw; [done|]. apply Forall_cons in Hw as [Hw Hws].
  eapply rtc_l; [|by apply IH]. pose proof (cut_pass_intro w (length (pass w o)) o h Hw) as Hs. by rewrite !firstn_all in Hs.
Qed.

(** An invariant that sound calls keep, and a preorder in which they move the object. *)
Context (inv : owner -> Prop) (rel : owner -> owner -> Prop) `{!PreOrder rel}.
Context (Hstep : forall o e, inv o -> ok o e.1 -> inv (apply_call stored o e) /\ rel o (apply_call stored o e)).
Context (Hpass : forall w o, legal w -> inv o -> audit stored ok o (pass w o)).

Lemma audit_log o l : inv o -> audit stored ok o l -> inv (apply_log stored o l) /\ rel o (apply_log stored o l).
Proof.
  revert o. induction l as [|e l IH]; intros o Hi; simpl; [done|]. intros [Hok Ha].
  destruct (Hstep o e Hi Hok) as [Hi' Hr]. destruct (IH _ Hi' Ha) as [? Hr']. split; [done|]. by etrans.
Qed.

(** A run keeps the invariant and moves the object in the preorder, and its history is a sound log. *)
Lemma cut_pass_run o h o' h' :
  inv o -> rtc cut_pass (o, h) (o', h') ->
  inv o' /\ rel o o' /\ exists l, audit stored ok o l /\ o' = apply_log stored o l /\ h' = h ++ l.
Proof.
  intros Hi Hr. remember (o, h) as x eqn:Ex. remember (o', h') as y eqn:Ey. revert o h Ex Hi.
  induction Hr as [?|x [o1 h1] z Hs Hr IH]; intros o h -> Hi.
  - injection Ey as -> ->. split_and!; try done. exists []. by rewrite app_nil_r.
  - inversion Hs as [w k ? ? Hw]; subst. set (l := take k (pass w o)) in *.
    assert (audit stored ok o l) as Ha by (by apply audit_take, Hpass). destruct (audit_log o l Hi Ha) as [Hi1 Hr1].
    destruct (IH eq_refl _ _ eq_refl Hi1) as (H1 & H2 & l' & Ha' & -> & ->). split_and!; [done|by etrans|].
    exists (l ++ l'). unfold apply_log. rewrite foldl_app, app_assoc. split_and!; try done. by apply audit_app.
Qed.
End runs.

Lemma outside_log stored o (l : log) : Forall (fun e => outside e.1) l -> apply_log stored o l = o.
Proof. induction 1 as [|[c a] l Hc _ IH]; [done|]. simpl. by destruct c. Qed.

Lemma done_terminal (o : owner) : ow_Status o = "Done" -> terminal o = true.
Proof. intros E. unfold terminal. rewrite E. done. Qed.

(** ** Completion *)

(** [after]: the owner after a whole pass in an environment. *)
Section completion.
Context {W : Type} (after : W -> owner -> owner).

Fixpoint passes (env : nat -> W) (n : nat) (o : owner) : owner :=
  match n with
  | O => o
  | S n => after (env n) (passes env n o)
  end.

(** When every pass in an environment that cooperates ends the campaign or brings it strictly closer to its end,
    it is done after as many passes as there is still to do, and one more. *)
Lemma passes_complete (inv : owner -> Prop) (remaining : owner -> Z) (cooperates : W -> owner -> Prop) :
  (forall o, 0 <= remaining o) -> (forall w o, terminal o = true -> after w o = o) ->
  (forall w o, inv o -> terminal o = false -> cooperates w o ->
     ow_Status (after w o) = "Done" \/ inv (after w o) /\ terminal (after w o) = false /\ remaining (after w o) < remaining o) ->
  forall env o, inv o -> terminal o = false ->
    (forall n, (n <= Z.to_nat (remaining o))%nat -> terminal (passes env n o) = false -> cooperates (env n) (passes env n o)) ->
    ow_Status (passes env (S (Z.to_nat (remaining o))) o) = "Done".
Proof.
  intros Hnn Hter Hstep env o Hi Ht Hco. set (b := Z.to_nat (remaining o)) in *.
  assert (forall n, (n <= S b)%nat -> ow_Status (passes env n o) = "Done" \/
    inv (passes env n o) /\ terminal (passes env n o) = false /\ remaining (passes env n o) + Z.of_nat n <= remaining o) as H.
  { induction n as [|n IH]; intros Hn; [right; split_and!; simpl; auto with lia|].
    destruct IH as [Hd|(Hw & Ht' & Hrem)]; [lia|left|].
    - simpl. by rewrite Hter by (by apply done_terminal).
    - simpl. destruct (Hstep (env n) _ Hw Ht') as [?|(? & ? & ?)]; [apply Hco; [lia|done]|by left|right].
      split_and!; try done. lia. }
  destruct (H (S b)) as [?|(_ & _ & Hrem)]; [lia|done|].
  pose proof (Hnn (passes env (S b) o)). assert (Z.of_nat b = remaining o) by apply Z2Nat.id, Hnn. lia.
Qed.
End completion.
End campaign.
