(* ===== verification/Migration.v ===== *)
(** * The migration to drive sharing (operations/migrate_drive_sharing.go, migrate_drive_sharing_types.go)

    A manual operation that converts the exclusive drive containers of a cluster to drive sharing, one at a
    time: gate, drain, re-sign of the freed drives, restart of the proxy, wait for the replacement. One
    reconcile is one pass of [Plan], [AdvanceOne] and [finalize]; between two passes the whole state of the
    campaign is the result stored in the status of the operation.

    A pass is a function of what the API server, weka and the node agent answer ([answers]). What it changes
    outside is recorded in its log, each call with its answer, in order: a crash of the operator is a log that
    ends early. A call that answers an error has changed nothing. Events and logging are left out. *)

From coqutil Require Import Datatypes.RecordSetters.
From stdpp Require Import relations.
From S2P Require Import Prelude Fmt Types Sizing Ports Strategies VirtualDrives Api Nodes Templates Disruption Campaign.
Import TriangleBracketNotations.

Module Migration.

(** ** The state of the campaign *)

Definition PhasePending : string := "Pending".
Definition PhaseInFlight : string := "InFlight".
Definition PhaseDone : string := "Done".
Definition PhaseSkipped : string := "Skipped".

Definition SubPhaseGate : string := "Gate".
Definition SubPhaseDraining : string := "Draining".
Definition SubPhaseSigning : string := "Signing".
Definition SubPhaseProxy : string := "Proxy".
Definition SubPhaseRejoining : string := "Rejoining".

Definition CapacityFromWeka : string := "weka".
Definition CapacityFromAnnotation : string := "annotation".

(** [MigrateToDriveSharingContainerState]; times are in nanoseconds, [None] for the nil pointer. *)
Record ContainerState : Type := mkState {
  Node : string;
  Container : string;
  Phase : string;
  SubPhase : string;
  Serials : list string;
  DriveUuids : list string;
  CapacityBytes : Z;
  CapacitySource : string;
  Replacement : string;
  SignOp : string;
  SignAttempts : Z;
  SignDone : bool;
  SignFailedAt : option Z;
  ProxyRestarted : bool;
  StartedAt : option Z;
  BlockedSince : option Z;
  Reason : string }.

(** [MigrateToDriveSharingResult] *)
Record Result : Type := mkResult {
  r_Cluster : string;
  Total : Z;
  Done : Z;
  Current : string;
  Containers : list ContainerState;
  OldTotalBytes : Z;
  NewTotalBytes : Z;
  ProvisionedBytes : Z;
  CapacityChecked : bool;
  Blocked : list ClusterVerdict;
  r_Err : string;
  r_BlockedSince : option Z }.

Definition new_state (node container phase reason : string) : ContainerState :=
  mkState node container phase "" [] [] 0 "" "" "" 0 false None false None None reason.

Definition zero_result : Result := mkResult "" 0 0 "" [] 0 0 0 false [] "" None.

(** What JSON keeps of a result. *)
Definition stored_state (s : ContainerState) : ContainerState :=
  s <| SignFailedAt ::= fmap json_time |> <| StartedAt ::= fmap json_time |> <| BlockedSince ::= fmap json_time |>.
Definition stored (r : Result) : Result :=
  r <| Containers ::= fmap stored_state |> <| r_BlockedSince ::= fmap json_time |>.

(** ** What a pass is told *)

Record SignOptions : Type := mkSignOptions {
  AllowEraseWekaPartitions : bool; AllowEraseNonWekaPartitions : bool; AllowNonEmptyDevice : bool;
  SkipTrimFormat : bool }.

(** A rule of [DriveTypeOverrides]: the model, the capacity and the type. *)
Record DriveTypeOverrideRule : Type := mkRule { dt_Model : string; dt_CapacityGiB : Z; dt_Type : string }.

Record Payload : Type := mkPayload {
  ClusterNamespace : string;
  ClusterName : string;
  NodeSelector : gmap string string;
  Paused : bool;
  pl_SignOptions : option SignOptions;
  pl_DriveTypeOverrides : option (list DriveTypeOverrideRule) }.

(** The cluster: its spec and the value of its annotation weka.io/sizing-mode-migration, empty when unset. *)
Record Cluster : Type := mkCluster {
  cl_Namespace : string; cl_Name : string; cl_Spec : ClusterSpec; SizingModeMigration : string }.

(** A policy, with its sign-drives payload when it has one: the shared flag and the node selector. *)
Record Policy : Type := mkPolicy {
  po_Namespace : string; po_Name : string; po_Type : string; po_SignDrives : option (bool * gmap string string) }.

Record WekaStatus : Type := mkWekaStatus {
  StripeWidth : Z; RedundancyLevel : Z; HotSpare : Z; TotalBytes : Z; UnprovisionedBytes : Z }.

(** A drive weka reports: its UUID and its size. *)
Record WekaDrive : Type := mkWekaDrive { Uuid : string; SizeBytes : Z }.

(** A pod: its phase, and the requests of its weka container, an error when it has none. *)
Record Pod : Type := mkPod { pod_Phase : string; pod_Requests : res string (gmap string Z) }.

(** The child sign-drives operation as created. *)
Record ChildOp : Type := mkChildOp {
  co_Namespace : string; co_Name : string; co_DeviceSerials : list string; co_Shared : bool;
  co_NodeSelector : gmap string string; co_SignOptions : SignOptions;
  co_DriveTypeOverrides : option (list DriveTypeOverrideRule); co_Owned : bool }.

(** A proxy that is not there is told apart from a failed lookup. *)
Inductive proxy_error : Type :=
  | SsdProxyNotFoundError
  | ProxyLookupError (msg : string).

(** The calls that change something outside. *)
Inductive action : Type :=
  | PatchSkipForceResign (container : string)
  | DeleteContainer (container : string)
  | RemoveFullDrives (node : string) (serials : list string)
  | CreateSignOp (op : ChildOp)
  | DeleteSignOp (namespace name : string)
  | DeleteProxyPod (namespace name : string)
  | RemoveAnnotation (namespace name : string).

Abbreviation call := (campaign_call Result action).
Abbreviation log := (campaign_log Result action).
Abbreviation machine := (campaign_machine Result action).
Abbreviation owner := (campaign_owner Result).

Definition act (a : action) : call := Act a.
Coercion act : action >-> campaign_call.

(** What the reads of a pass answer, and what its calls answer given the calls before. [a_DriveContainers] is
    the listing of [Plan], [a_DriveContainersNow] the later one of [findReplacement]; a drive container comes
    with its override skipDrivesForceResign. *)
Record answers : Type := mkAnswers {
  a_Payload : Payload;
  a_Now : Z;
  a_Cluster : res string Cluster;
  a_Operations : res string (list Operation);
  a_DriveContainers : res string (list Api.Container);
  a_SelectedNodes : res string (list string);
  a_Policies : res string (list Policy);
  a_NodeLabels : string -> res string (gmap string string);
  a_WekaStatus : res string WekaStatus;
  a_Container : string -> res api_error (Api.Container * bool);
  a_ContainerDrives : Z -> res string (list WekaDrive);
  a_Node : string -> res string Nodes.Node;
  a_Gate : string -> ClusterVerdict;
  a_PodNamespace : res string string;
  a_Child : string -> res api_error (string * string);
  a_Proxy : string -> res proxy_error Api.Container;
  a_Pod : res api_error Pod;
  a_ProxyDrives : res string (list string);
  a_ProxyGate : res string (list ClusterVerdict);
  a_ProxyRecovered : res string (list ClusterVerdict);
  a_DriveContainersNow : res string (list Api.Container);
  a_Call : log -> call -> option api_error }.

(** ** Counting and planning *)

Definition done_or_skipped (s : ContainerState) : bool :=
  bool_decide (Phase s = PhaseDone \/ Phase s = PhaseSkipped).

Definition countMigrationDoneOrSkipped (states : list ContainerState) : Z :=
  len (filter (fun s => done_or_skipped s = true) states).

(** [slices.IndexFunc]: the index and the state there. *)
Definition indexOfMigrationPhase (states : list ContainerState) (phase : string) : option (nat * ContainerState) :=
  list_find (fun s => Phase s = phase) states.

Definition state_before (a b : ContainerState) : bool :=
  if decide (Node a = Node b) then str_lt (Container a) (Container b) else str_lt (Node a) (Node b).

Definition sortMigrationStates (states : list ContainerState) : list ContainerState := sort_by state_before states.

(** [pendingNodes]: the distinct nodes of the containers not yet migrated, in order of appearance. *)
Definition pendingNodes (states : list ContainerState) : list string :=
  foldl (fun nodes s =>
    if decide (Phase s <> PhasePending /\ Phase s <> PhaseInFlight) then nodes
    else if decide (Node s = "" \/ Node s ∈ nodes) then nodes
    else nodes ++ [Node s]) [] states.

Record migrationTarget : Type := mkTarget { t_name : string; t_node : string }.

Definition to_target (c : Api.Container) : migrationTarget := mkTarget (cn_Name c) (GetNodeAffinity c).

Definition gone_reason : string := "drive container is gone or no longer exclusive; nothing to migrate".

(** Refreshes one entry of a known campaign; [live]: the exclusive containers by name, the last one winning. *)
Definition refresh_state (exclusive : list migrationTarget) (s : ContainerState) : ContainerState :=
  if decide (Phase s = PhasePending) then
    match find (fun t => bool_decide (t_name t = Container s)) (reverse exclusive) with
    | None => s <| Phase := PhaseSkipped |> <| Reason := gone_reason |>
    | Some t => s <| Node := t_node t |>
    end
  else s.

Definition planMigrationContainers (previous : list ContainerState) (exclusive sharing : list migrationTarget)
    : list ContainerState :=
  match previous with
  | [] =>
      sortMigrationStates
        (((fun t => new_state (t_node t) (t_name t) PhasePending "") <$> exclusive) ++
         ((fun t => new_state (t_node t) (t_name t) PhaseSkipped "already uses drive sharing") <$> sharing))
  | _ :: _ => sortMigrationStates (refresh_state exclusive <$> previous)
  end.

(** [errors.Wrap...] of listing drive containers. *)
Definition listDriveContainers (cluster : Cluster) (l : res string (list Api.Container)) : res string (list Api.Container) :=
  match l with
  | Ok cs => Ok cs
  | Err e => Err (wrap (Sprintf "failed to list drive containers of cluster %s" [ArgS (cl_Name cluster)]) e)
  end.

(** [discoverTargets]: the exclusive and the sharing containers, after the node selector. *)
Definition discoverTargets (ans : answers) (cluster : Cluster)
    : res string (list migrationTarget * list migrationTarget) :=
  let? containers := listDriveContainers cluster (a_DriveContainers ans) in
  let? nodeFilter :=
    if decide (NodeSelector (a_Payload ans) = ∅) then Ok None
    else match a_SelectedNodes ans with
         | Ok nodes => Ok (Some nodes)
         | Err e => Err (wrap "failed to list nodes for nodeSelector" e)
         end in
  let selected := match nodeFilter with
                  | None => containers
                  | Some nodes => filter (fun c => GetNodeAffinity c ∈ nodes) containers
                  end in
  Ok (to_target <$> filter (fun c => container_UsesDriveSharing c = false) selected,
      to_target <$> filter (fun c => container_UsesDriveSharing c = true) selected).

(** ** The guards of [Plan] *)

Definition AnnotationSizingModeMigration : string := "weka.io/sizing-mode-migration".
Definition SizingModeMigrationDriveSharing : string := "drive-sharing".
Definition ActionMigrateToDriveSharing : string := "migrate-to-drive-sharing".
Definition WekaPolicyTypeSignDrives : string := "sign-drives".

(** [None]: the spec is flipped and the annotation set, or the campaign is complete. *)
Definition requireMigrationSpec (cluster : Cluster) (r : Result) : option string :=
  if decide (len (Containers r) > 0 /\ countMigrationDoneOrSkipped (Containers r) = len (Containers r)) then None
  else if negb (IsDriveSharing (cl_Spec cluster)) || UsesClusterCapacity (csp_Dynamic (cl_Spec cluster)) then
    Some (Sprintf "cluster %s is not in drive-sharing mode: edit spec.dynamicTemplate to drop the full-drives sizing and set containerCapacity (or numDrives + driveCapacity), and set annotation %s: %s in the same apply. clusterCapacity is not a supported migration target — switch to it after the migration completes"
      [ArgS (r_Cluster r); ArgS AnnotationSizingModeMigration; ArgS SizingModeMigrationDriveSharing])
  else if decide (SizingModeMigration cluster <> SizingModeMigrationDriveSharing) then
    Some (Sprintf "cluster %s is missing annotation %s: %s; set it to confirm the sizing-mode migration"
      [ArgS (r_Cluster r); ArgS AnnotationSizingModeMigration; ArgS SizingModeMigrationDriveSharing])
  else None.

(** Another migration that is neither terminal nor being deleted. *)
Definition running_campaign (own : string) (o : Operation) : bool :=
  bool_decide (op_UID o <> own) && bool_decide (op_Action o = ActionMigrateToDriveSharing) &&
  negb (bool_decide (op_Status o = "Done") || bool_decide (op_Status o = "Failed") || op_Deleted o).

Definition refuseIfAnotherCampaignRunning (own : string) (ans : answers) : option string :=
  match a_Operations ans with
  | Err e => Some (wrap "failed to list WekaManualOperations for cross-campaign exclusion" e)
  | Ok ops =>
      match find (running_campaign own) ops with
      | None => None
      | Some other => Some (Sprintf "another migrate-to-drive-sharing operation (%s/%s) exists and has not finished; only one may run at a time — delete one of them to continue"
          [ArgS (op_Namespace other); ArgS (op_Name other)])
      end
  end.

(** [labels.SelectorFromSet(sel).Matches(l)]. *)
Definition selector_matches (sel l : gmap string string) : bool := bool_decide (map_Forall (fun k v => l !! k = Some v) sel).

(** The labels of the nodes, up to the first that cannot be read. *)
Fixpoint read_labels (ans : answers) (nodes : list string) : res string (list (string * gmap string string)) :=
  match nodes with
  | [] => Ok []
  | name :: nodes =>
      match a_NodeLabels ans name with
      | Err e => Err (wrap (Sprintf "failed to get node %s for the sign-drives guard" [ArgS name]) e)
      | Ok l => let? rest := read_labels ans nodes in Ok ((name, l) :: rest)
      end
  end.

(** The node of the list that an exclusive sign-drives policy selects, if any. *)
Definition policy_spoils (nodeLabels : list (string * gmap string string)) (p : Policy) : option string :=
  if decide (po_Type p <> WekaPolicyTypeSignDrives) then None
  else match po_SignDrives p with
       | None | Some (true, _) => None
       | Some (false, selector) => fst <$> find (fun '(_, l) => selector_matches selector l) nodeLabels
       end.

Definition refuseIfSignPolicyMatches (ans : answers) (nodes : list string) : option string :=
  match nodes with
  | [] => None
  | _ :: _ =>
      match a_Policies ans with
      | Err e => Some (wrap "failed to list WekaPolicies for the sign-drives guard" e)
      | Ok policies =>
          match read_labels ans nodes with
          | Err e => Some e
          | Ok nodeLabels =>
              first_some (fun p =>
                (fun name => Sprintf "sign-drives WekaPolicy %s/%s selects node %s, which is still to be migrated; delete or narrow it before migrating, otherwise it re-signs the freed drives as exclusive"
                  [ArgS (po_Namespace p); ArgS (po_Name p); ArgS name]) <$> policy_spoils nodeLabels p) policies
          end
      end
  end.

Definition gibBytes : Z := Z.shiftl 1 30.

Definition rawBytesFromUsable (usableBytes : Z) (status : WekaStatus) : Z :=
  let raw := RawCapacityGiB (usableBytes `quot` gibBytes) (StripeWidth status) (RedundancyLevel status) (HotSpare status) in
  if decide (raw = 0) then usableBytes else raw * gibBytes.

Definition migrationNewTotalBytes (template : option WekaClusterTemplate) : Z :=
  match template with
  | None => 0
  | Some t =>
      let perContainerGiB := if decide (wt_ContainerCapacity t = 0) then wt_NumDrives t * wt_DriveCapacity t
                             else wt_ContainerCapacity t in
      wt_DriveContainers t * perContainerGiB * gibBytes
  end.

(** The result with its figures and the latch, and the error. *)
Definition checkCapacity (ans : answers) (cluster : Cluster) (r : Result) : Result * option string :=
  if CapacityChecked r then (r, None)
  else match a_WekaStatus ans with
  | Err e => (r, Some (wrap "failed to fetch weka status for the capacity sanity check" e))
  | Ok status =>
      if decide (StripeWidth status <= 0) then
        (r, Some "weka status reports no stripe width; cannot convert provisioned capacity to raw")
      else
        let newTotal := migrationNewTotalBytes (csp_Dynamic (cl_Spec cluster)) in
        let provisioned := rawBytesFromUsable (TotalBytes status - UnprovisionedBytes status) status in
        let oldTotal := rawBytesFromUsable (TotalBytes status) status in
        let r := r <| OldTotalBytes := oldTotal |> <| NewTotalBytes := newTotal |> <| ProvisionedBytes := provisioned |> in
        if decide (newTotal < provisioned) then
          (r, Some (Sprintf "the flipped sizing yields %d raw bytes of total capacity, less than the %d raw bytes already provisioned; raise spec.dynamicTemplate.containerCapacity (or numDrives x driveCapacity) before migrating"
                [ArgD newTotal; ArgD provisioned]))
        else (r <| CapacityChecked := true |>, None)
  end.

(** ** The machine *)

(** Who the operation is: its object, and the first [n] hex digits of the SHA-256 sum of a string. *)
Section operation.
Context (ownerUID ownerNamespace ownerName : string) (GetHash : string -> nat -> string).
Context (ans : answers).

(** [persist], and the outcome when it succeeds. *)
Definition persist_then (o : outcome) (m : machine) : machine * outcome :=
  match do_call (a_Call ans) (PersistProgress (results m)) m with
  | (None, m) => (m, o)
  | (Some e, m) => (m, PlainError (wrap "failed to persist migration progress" (error_text e)))
  end.

(** [*state = s], where [state] points to the [i]-th entry. *)
Definition put (i : nat) (s : ContainerState) (m : machine) : machine :=
  update (fun r => r <| Containers ::= fun l => <[i := s]> l |>) m.

Definition set_Current (node : string) (m : machine) : machine := update (fun r => r <| Current := node |>) m.
Definition set_Blocked (vs : list ClusterVerdict) (m : machine) : machine := update (fun r => r <| Blocked := vs |>) m.

(** [stamp_blocked]: BlockedSince of an entry that parks while pending, stamped once. *)
Definition stamp_blocked (s : ContainerState) : ContainerState :=
  if decide (Phase s = PhasePending /\ BlockedSince s = None) then s <| BlockedSince := Some (a_Now ans) |> else s.

Definition parkNode (i : nat) (s : ContainerState) (m : machine) : machine * outcome :=
  persist_then (WaitError (Reason s)) (put i (stamp_blocked s) m).

Definition parkOnErr (i : nat) (action err : string) (s : ContainerState) (m : machine) : machine * outcome :=
  parkNode i (s <| Reason := Sprintf "failed to %s: %s" [ArgS action; ArgS err] |>) m.

Definition enterSubPhase (i : nat) (subPhase why : string) (s : ContainerState) (m : machine) : machine * outcome :=
  persist_then (WaitError why) (put i (s <| SubPhase := subPhase |> <| Reason := "" |>) m).

Definition waitWithPersistedErr (err : string) (m : machine) : machine * outcome :=
  persist_then (WaitError err)
    (update (fun r => r <| r_Err := err |> <| r_BlockedSince ::= fun b => Some (default (a_Now ans) b) |>) m).

(** The owner is not failed here: a failed one is not reconciled. The answer of the callback is dropped. *)
Definition failTerminally (err : string) (m : machine) : machine * outcome :=
  let m := update (fun r => r <| r_Err := err |>) m in
  let '(_, m) := do_call (a_Call ans) (MarkFailed (results m)) m in (m, WaitError err).

(** *** Pending *)

(** The capacity of the serials, and the serials the annotation has no capacity for: the loop over the entries,
    each of which pays off its serial once. *)
Fixpoint sum_wanted (entries : list DriveEntry) (wanted : list string) : Z * list string :=
  match entries with
  | [] => (0, wanted)
  | e :: entries =>
      if decide (de_Serial e ∈ wanted /\ de_CapacityGiB e > 0) then
        let '(total, unpaid) := sum_wanted entries (filter (fun s => s <> de_Serial e) wanted) in
        (de_CapacityGiB e * gibBytes + total, unpaid)
      else sum_wanted entries wanted
  end.

Definition annotatedCapacityBytes (nodeName : string) (serials : list string) : res string Z :=
  match a_Node ans nodeName with
  | Err e => Err (wrap (Sprintf "failed to get node %s" [ArgS nodeName]) e)
  | Ok node =>
      match ReadDriveAnnotations (n_FullDrives node) with
      | Err e => Err (wrap (Sprintf "failed to read weka.io/weka-full-drives on node %s" [ArgS nodeName]) e)
      | Ok entries =>
          match sum_wanted entries (remove_dups serials) with
          | (total, []) => Ok total
          | (_, unpaid) => Err (Sprintf "weka.io/weka-full-drives on node %s has no capacity for serials [%s]"
                           [ArgS nodeName; ArgS (strings_Join (sort_strings unpaid) " ")])
          end
      end
  end.

Definition sum_drives (drives : list WekaDrive) : Z := foldl (fun total d => total + SizeBytes d) 0 drives.

(** The drives weka reports for a container that has joined. *)
Definition weka_drives (container : Api.Container) : res string (list WekaDrive) :=
  match cst_ClusterContainerID (cn_Status container) with
  | None => Ok []
  | Some id =>
      match a_ContainerDrives ans id with
      | Ok drives => Ok drives
      | Err e => Err (wrap (Sprintf "failed to list drives of weka container %d" [ArgD id]) e)
      end
  end.

(** The state with its inventory. *)
Definition recordDriveInventory (container : Api.Container) (s : ContainerState) : res string ContainerState :=
  if decide (len (Serials s) > 0) then Ok s
  else match cst_Allocations (cn_Status container) with
  | None => Err "drive container has no allocated drive serials in status.allocations.drives"
  | Some a =>
      let serials := ca_Drives a in
      if decide (len serials = 0) then Err "drive container has no allocated drive serials in status.allocations.drives"
      else
        let? drives := weka_drives container in
        let capacityBytes := sum_drives drives in
        let? inventory :=
          if decide (capacityBytes = 0) then
            let? annotated := annotatedCapacityBytes (Node s) serials in Ok (annotated, CapacityFromAnnotation)
          else Ok (capacityBytes, if decide (capacityBytes > 0) then CapacityFromWeka else "") in
        if decide (inventory.1 = 0) then
          Err (Sprintf "could not determine drive capacity for %s from weka or weka.io/weka-full-drives on node %s"
                 [ArgS (cn_Name container); ArgS (Node s)])
        else Ok (s <| Serials := serials |> <| DriveUuids := Uuid <$> drives |>
                   <| CapacityBytes := inventory.1 |> <| CapacitySource := inventory.2 |>)
  end.

(** An entry leaves Pending. *)
Definition start_entry (s : ContainerState) : ContainerState :=
  s <| StartedAt := Some (a_Now ans) |> <| BlockedSince := None |> <| Phase := PhaseInFlight |>
    <| SubPhase := SubPhaseDraining |> <| Reason := "" |>.

Definition startPending (i : nat) (s : ContainerState) (m : machine) : machine * outcome :=
  let m := set_Current (Node s) m in
  let s := s <| SubPhase := SubPhaseGate |> in
  match a_Container ans (Container s) with
  | Err e => parkOnErr i "get drive container" (error_text e) s m
  | Ok (container, _) =>
      match recordDriveInventory container s with
      | Err e => parkOnErr i "record drive inventory" e s m
      | Ok s =>
          let verdict := a_Gate ans "" in
          if negb (Allowed verdict) then
            parkNode i (s <| Reason := cv_Reason verdict |>) (set_Blocked [verdict] m)
          else
            match a_WekaStatus ans with
            | Err e => parkOnErr i "fetch weka status for capacity headroom" e s m
            | Ok status =>
                let headroom := rawBytesFromUsable (UnprovisionedBytes status) status in
                if decide (headroom < CapacityBytes s) then
                  parkNode i (s <| Reason := Sprintf "not enough headroom to phase out %s: %d raw bytes unprovisioned, %d needed for its drives"
                    [ArgS (Container s); ArgD headroom; ArgD (CapacityBytes s)] |>) m
                else
                  persist_then (WaitError "migration started, draining the drive container")
                    (put i (start_entry s) (set_Blocked [] m))
            end
      end
  end.

(** *** Draining *)

(** A delete that finds nothing has succeeded. *)
Definition ignore_not_found (r : option api_error) : option api_error :=
  match r with Some (NotFound _) => None | _ => r end.

Definition advanceDraining (i : nat) (s : ContainerState) (m : machine) : machine * outcome :=
  match a_Container ans (Container s) with
  | Err (NotFound _) =>
      enterSubPhase i SubPhaseSigning "drive container phased out, re-signing its drives for the proxy" s m
  | Err e => parkOnErr i "get drive container" (error_text e) s m
  | Ok (container, skipDrivesForceResign) =>
      let '(patched, m) := if skipDrivesForceResign then (None, m)
                           else do_call (a_Call ans) (PatchSkipForceResign (Container s)) m in
      match patched with
      | Some e => parkOnErr i "suppress the exclusive force-resign on the drive container" (error_text e) s m
      | None =>
          let '(deleted, m) := if cn_Deleted container then (None, m)
                               else do_call (a_Call ans) (DeleteContainer (Container s)) m in
          match ignore_not_found deleted with
          | Some e => parkOnErr i "delete drive container" (error_text e) s m
          | None => parkNode i (s <| Reason := Sprintf "waiting for drive container %s to phase out of the cluster"
                                   [ArgS (Container s)] |>) m
          end
      end
  end.

(** *** Signing *)

Definition maxChildOpNameLength : nat := 63.
Definition migrateDriveSharingSignRetryBackoff : Z := 60 * 1000000000.

Definition childSignOpName (opName container : string) : string :=
  let name := Sprintf "%s-sign-%s" [ArgS opName; ArgS container] in
  if decide (String.length name <= maxChildOpNameLength)%nat then name
  else
    let suffix := String.append "-" (GetHash name 8) in
    String.append (String.substring 0 (maxChildOpNameLength - String.length suffix) name) suffix.

(** [ReadNodeSharedDrives] of the node. *)
Definition nodeSharedDrives (nodeName : string) : res string (list SharedDriveInfo) :=
  match a_Node ans nodeName with
  | Err e => Err (wrap (Sprintf "failed to get node %s" [ArgS nodeName]) e)
  | Ok node =>
      match n_SharedDrives node with
      | Absent => Ok []
      | Malformed e => Err (wrap (Sprintf "failed to read weka.io/weka-shared-drives on node %s" [ArgS nodeName])
                              (wrap "failed to parse shared drives annotation" e))
      | Decoded drives => Ok drives
      end
  end.

Definition serialsMissingFromSharedDrives (s : ContainerState) : res string (list string) :=
  let? shared := nodeSharedDrives (Node s) in
  let signed := sd_Serial <$> filter (fun d => sd_PhysicalUUID d <> "") shared in
  Ok (filter (fun serial => serial ∉ signed) (Serials s)).

Definition buildChildSignOp (namespace name : string) (s : ContainerState) : ChildOp :=
  let options := default (mkSignOptions false false false false) (pl_SignOptions (a_Payload ans)) in
  mkChildOp namespace name (Serials s) true {[ "kubernetes.io/hostname" := Node s ]}
    (options <| AllowEraseWekaPartitions := true |>) (pl_DriveTypeOverrides (a_Payload ans))
    (bool_decide (ownerNamespace = namespace)).

Definition signDoneWithSerialsMissingReason (namespace name : string) (missing : list string) (node : string) : string :=
  Sprintf "sign-drives %s/%s reported Done but serials %s are still absent from weka.io/weka-shared-drives on node %s"
    [ArgS namespace; ArgS name; ArgS (strings_Join missing ", "); ArgS node].

Definition retryFailedSignOp (i : nat) (namespace name result : string) (s : ContainerState) (m : machine)
    : machine * outcome :=
  let s := s <| Reason := Sprintf "sign-drives operation %s/%s failed: %s" [ArgS namespace; ArgS name; ArgS result] |> in
  match SignFailedAt s with
  | None => parkNode i (s <| SignFailedAt := Some (a_Now ans) |>) m
  | Some t =>
      if decide (a_Now ans - t < migrateDriveSharingSignRetryBackoff) then parkNode i s m
      else
        let '(deleted, m) := do_call (a_Call ans) (DeleteSignOp namespace name) m in
        match ignore_not_found deleted with
        | Some e => parkOnErr i "delete the failed sign-drives operation" (error_text e) s m
        | None => parkNode i (s <| SignFailedAt := None |>) m
        end
  end.

(** The child operation of an entry whose drives are still to be signed: created, watched, or retried. *)
Definition sign_missing (i : nat) (namespace : string) (missing : list string) (s : ContainerState) (m : machine)
    : machine * outcome :=
  let name := childSignOpName ownerName (Container s) in
  let stuck := signDoneWithSerialsMissingReason namespace name missing (Node s) in
  if SignDone s then parkNode i (s <| Reason := stuck |>) m
  else
    let s := s <| SignOp := name |> in
    match a_Child ans name with
    | Err (NotFound _) =>
        let '(created, m) := do_call (a_Call ans) (CreateSignOp (buildChildSignOp namespace name s)) m in
        match created with
        | Some e => parkOnErr i "create the shared sign-drives operation" (error_text e) s m
        | None =>
            parkNode i (s <| SignAttempts ::= Z.succ |> <| SignFailedAt := None |>
                          <| Reason := Sprintf "created sign-drives operation %s/%s (attempt %d)"
                               [ArgS namespace; ArgS name; ArgD (Z.succ (SignAttempts s))] |>) m
        end
    | Err e => parkOnErr i "get the shared sign-drives operation" (error_text e) s m
    | Ok (status, result) =>
        if decide (status = "Done") then parkNode i (s <| SignDone := true |> <| Reason := stuck |>) m
        else if decide (status = "Failed") then retryFailedSignOp i namespace name result s m
        else parkNode i (s <| Reason := Sprintf "waiting for sign-drives operation %s/%s (status %q)"
                                [ArgS namespace; ArgS name; ArgS status] |>) m
    end.

Definition advanceSigning (i : nat) (s : ContainerState) (m : machine) : machine * outcome :=
  let '(removed, m) := do_call (a_Call ans) (RemoveFullDrives (Node s) (Serials s)) m in
  match removed with
  | Some e => parkOnErr i "remove the migrated serials from the node's full-drives inventory" (error_text e) s m
  | None =>
      match serialsMissingFromSharedDrives s with
      | Err e => parkOnErr i "verify the shared-drives annotation" e s m
      | Ok [] => enterSubPhase i SubPhaseProxy "drives re-signed for the proxy, checking the ssdproxy" s m
      | Ok missing =>
          match a_PodNamespace ans with
          | Err e => parkOnErr i "get operator namespace" e s m
          | Ok namespace => sign_missing i namespace missing s m
          end
      end
  end.

(** *** Proxy *)

Definition PodRunning : string := "Running".

(** [None]: running; otherwise why it is not. *)
Definition proxyPodRunning (proxy : Api.Container) : res string (option string) :=
  match a_Pod ans with
  | Err (NotFound _) => Ok (Some "waiting for the ssdproxy pod to be recreated")
  | Err e => Err (wrap (Sprintf "failed to get ssdproxy pod %s" [ArgS (cn_Name proxy)]) (error_text e))
  | Ok pod =>
      if decide (pod_Phase pod <> PodRunning) then
        Ok (Some (Sprintf "ssdproxy pod phase is %q, want %q" [ArgS (pod_Phase pod); ArgS PodRunning]))
      else if decide (cst_Status (cn_Status proxy) <> ContainerRunning) then
        Ok (Some (Sprintf "ssdproxy container status is %q, want %q"
                    [ArgS (cst_Status (cn_Status proxy)); ArgS ContainerRunning]))
      else Ok None
  end.

(** [resources.hugepagesMiB] *)
Definition container_hugepagesMiB (c : Api.Container) : Z :=
  if decide (cs_HugepagesSize (cn_Spec c) <> "1Gi") then default (cs_Hugepages (cn_Spec c)) (NamedHugepages2MiMiB (cn_Spec c))
  else cs_Hugepages (cn_Spec c).

(** The resource name and the quantity in bytes. *)
Definition HugepagesRequest (c : Api.Container) : string * Z :=
  let mib := container_hugepagesMiB c in
  if decide (cs_HugepagesSize (cn_Spec c) = "1Gi") then ("hugepages-1Gi", mib `quot` 1000 * 2 ^ 30)
  else ("hugepages-2Mi", mib * 2 ^ 20).

Definition proxyHugepagesDrifted (proxy : Api.Container) : res string bool :=
  match a_Pod ans with
  | Err (NotFound _) => Ok false
  | Err e => Err (wrap (Sprintf "failed to get ssdproxy pod %s" [ArgS (cn_Name proxy)]) (error_text e))
  | Ok pod =>
      match pod_Requests pod with
      | Err e => Err (wrap "failed to find the weka container in the ssdproxy pod" e)
      | Ok requests =>
          let '(name, want) := HugepagesRequest proxy in
          Ok (bool_decide (default 0 (requests !! name) < want))
      end
  end.

(** The physical UUIDs of the migrated drives, as far as they are signed. *)
Definition wanted_uuids (shared : list SharedDriveInfo) (serials : list string) : gset string :=
  list_to_set (sd_PhysicalUUID <$> filter (fun d => sd_Serial d ∈ serials /\ sd_PhysicalUUID d <> "") shared).

(** [None]: no restart. *)
Definition proxyRestartReason (s : ContainerState) (proxy : Api.Container) : res string (option string) :=
  let? shared := nodeSharedDrives (Node s) in
  match a_ProxyDrives ans with
  | Err e => Err (wrap "failed to list the ssdproxy's physical drives" e)
  | Ok physical =>
      let unseen := wanted_uuids shared (Serials s) ∖ list_to_set physical in
      if decide (unseen <> ∅) then
        Ok (Some (Sprintf "%d newly signed physical drive(s) are not visible to the running proxy" [ArgD (Z.of_nat (size unseen))]))
      else
        let? drifted := proxyHugepagesDrifted proxy in
        Ok (if drifted then
              Some (Sprintf "the pod runs on fewer hugepages than the container's spec.hugepages (%dMiB)" [ArgD (cs_Hugepages (cn_Spec proxy))])
            else None)
  end.

(** The proxy was already restarted: verify it came back. *)
Definition verify_restart (i : nat) (proxy : Api.Container) (s : ContainerState) (m : machine) : machine * outcome :=
  match proxyPodRunning proxy with
  | Err e => parkOnErr i "check the ssdproxy pod" e s m
  | Ok (Some reason) => parkNode i (s <| Reason := reason |>) m
  | Ok None =>
      match a_ProxyRecovered ans with
      | Err e => parkOnErr i "verify ssdproxy recovery" e s m
      | Ok verdicts =>
          match AllAllowed verdicts with
          | Some reason => parkNode i (s <| Reason := reason |>) (set_Blocked verdicts m)
          | None => enterSubPhase i SubPhaseRejoining "ssdproxy recovered" s (set_Blocked [] m)
          end
      end
  end.

(** The restart itself, the intent persisted first. *)
Definition restart_proxy (i : nat) (reason : string) (proxy : Api.Container) (s : ContainerState) (m : machine)
    : machine * outcome :=
  let s := s <| ProxyRestarted := true |> <| Reason := String.append "restarting the ssdproxy: " reason |> in
  let m := put i s m in
  match do_call (a_Call ans) (PersistProgress (results m)) m with
  | (Some e, m) => (m, PlainError (wrap "failed to persist migration progress" (error_text e)))
  | (None, m) =>
      let '(deleted, m) := do_call (a_Call ans) (DeleteProxyPod (cn_Namespace proxy) (cn_Name proxy)) m in
      match ignore_not_found deleted with
      | Some e => parkOnErr i "delete the ssdproxy pod" (error_text e) (s <| ProxyRestarted := false |>) m
      | None => (m, WaitError "ssdproxy pod deleted, waiting for it to come back")
      end
  end.

Definition advanceProxy (i : nat) (s : ContainerState) (m : machine) : machine * outcome :=
  match a_Proxy ans (Node s) with
  | Err SsdProxyNotFoundError =>
      enterSubPhase i SubPhaseRejoining "no ssdproxy on the node yet, waiting for the replacement drive container" s m
  | Err (ProxyLookupError e) => parkOnErr i "find the ssdproxy on the node" e s m
  | Ok proxy =>
      if ProxyRestarted s then verify_restart i proxy s m
      else match proxyRestartReason s proxy with
      | Err e => parkOnErr i "check whether the ssdproxy needs a restart" e s m
      | Ok None => enterSubPhase i SubPhaseRejoining "ssdproxy already sees the new drives" s m
      | Ok (Some reason) =>
          match a_ProxyGate ans with
          | Err e => parkOnErr i "evaluate the ssdproxy disruption gate" e s m
          | Ok verdicts =>
              match AllAllowed verdicts with
              | Some blockReason => parkNode i (s <| Reason := blockReason |>) (set_Blocked verdicts m)
              | None => restart_proxy i reason proxy s (set_Blocked [] m)
              end
          end
      end
  end.

(** *** Rejoining *)

(** The containers of the campaign and the replacements of the other entries. *)
Definition claimed_names (r : Result) (s : ContainerState) : list string :=
  (Container <$> Containers r) ++
  (Replacement <$> filter (fun s' => Replacement s' <> "" /\ Container s' <> Container s) (Containers r)).

(** A container that may be the replacement of an entry. *)
Definition eligible (r : Result) (s : ContainerState) (c : Api.Container) : bool :=
  container_UsesDriveSharing c && bool_decide (cn_Name c ∉ claimed_names r s) && negb (IsMarkedForDeletion c) &&
  bool_decide (GetNodeAffinity c <> "").

Definition created_after (s : ContainerState) (c : Api.Container) : bool :=
  match StartedAt s with None => false | Some t => bool_decide (t < cn_CreationTimestamp c) end.

(** The first eligible container on the node, else the first one elsewhere created after the start. *)
Definition pick_replacement (r : Result) (s : ContainerState) (containers : list Api.Container) : option Api.Container :=
  match find (fun c => eligible r s c && bool_decide (GetNodeAffinity c = Node s)) containers with
  | Some c => Some c
  | None => find (fun c => eligible r s c && created_after s c) containers
  end.

Definition findReplacement (cluster : Cluster) (r : Result) (s : ContainerState) : res string (option Api.Container) :=
  let? containers := listDriveContainers cluster (a_DriveContainersNow ans) in Ok (pick_replacement r s containers).

Definition advanceRejoining (cluster : Cluster) (i : nat) (s : ContainerState) (m : machine) : machine * outcome :=
  match findReplacement cluster (results m) s with
  | Err e => parkOnErr i "find the replacement drive container" e s m
  | Ok None =>
      parkNode i (s <| Reason := Sprintf "waiting for the cluster controller to place a sharing drive container on node %s"
                         [ArgS (Node s)] |>) m
  | Ok (Some replacement) =>
      let s := s <| Replacement := cn_Name replacement |> in
      if decide (cst_Status (cn_Status replacement) <> ContainerRunning) then
        parkNode i (s <| Reason := Sprintf "replacement %s status is %q, want %q"
          [ArgS (cn_Name replacement); ArgS (cst_Status (cn_Status replacement)); ArgS ContainerRunning] |>) m
      else if decide (ca_VirtualDrives <$> cst_Allocations (cn_Status replacement) ∈ [None; Some []]) then
        parkNode i (s <| Reason := Sprintf "replacement %s has no virtual drives allocated yet" [ArgS (cn_Name replacement)] |>) m
      else
        let verdict := a_Gate ans (GetNodeAffinity replacement) in
        if negb (Allowed verdict) then
          parkNode i (s <| Reason := cv_Reason verdict |>) (set_Blocked [verdict] m)
        else
          let s := s <| Phase := PhaseDone |> <| SubPhase := "" |> <| Reason := "" |> in
          let m := set_Current "" (put i s (set_Blocked [] m)) in
          let m := update (fun r => r <| Done := countMigrationDoneOrSkipped (Containers r) |>) m in
          persist_then (WaitError "drive container migrated, advancing to the next one") m
  end.

(** *** The pass *)

Definition advanceInFlight (cluster : Cluster) (i : nat) (s : ContainerState) (m : machine) : machine * outcome :=
  let m := set_Current (Node s) m in
  if decide (SubPhase s = SubPhaseDraining) then advanceDraining i s m
  else if decide (SubPhase s = SubPhaseSigning) then advanceSigning i s m
  else if decide (SubPhase s = SubPhaseProxy) then advanceProxy i s m
  else if decide (SubPhase s = SubPhaseRejoining) then advanceRejoining cluster i s m
  else parkNode i (s <| Reason := Sprintf "unknown sub-phase %q" [ArgS (SubPhase s)] |>) m.

Definition AdvanceOne (cluster : Cluster) (m : machine) : machine * outcome :=
  match indexOfMigrationPhase (Containers (results m)) PhaseInFlight with
  | Some (i, s) => advanceInFlight cluster i s m
  | None =>
      if Paused (a_Payload ans) then persist_then (WaitError "migration paused") (set_Current "" m)
      else match indexOfMigrationPhase (Containers (results m)) PhasePending with
      | None => (set_Current "" m, Proceed)
      | Some (i, s) => startPending i s m
      end
  end.

(** The cluster, when [Plan] returns nil. *)
Definition Plan (m : machine) : machine * (outcome + Cluster) :=
  let stop (e : string) (m : machine) := let '(m, o) := waitWithPersistedErr e m in (m, inl o) in
  let payload := a_Payload ans in
  if decide (ClusterName payload = "") then
    let '(m, o) := failTerminally "spec.payload.migrateToDriveSharingPayload.cluster.name is required" m in (m, inl o)
  else
    let name := Sprintf "%s/%s" [ArgS (ClusterNamespace payload); ArgS (ClusterName payload)] in
    let m := update (fun r => r <| r_Cluster := name |>) m in
    match a_Cluster ans with
    | Err e => stop (wrap (Sprintf "failed to get WekaCluster %s" [ArgS name]) e) m
    | Ok cluster =>
    match refuseIfAnotherCampaignRunning ownerUID ans with
    | Some e => stop e m
    | None =>
    match requireMigrationSpec cluster (results m) with
    | Some e => stop e m
    | None =>
    match discoverTargets ans cluster with
    | Err e => stop e m
    | Ok (exclusive, sharing) =>
    let planned := planMigrationContainers (Containers (results m)) exclusive sharing in
    let m := update (fun r => r <| Containers := planned |> <| Total := len planned |>) m in
    if decide (len planned = 0) then
      stop (Sprintf "no drive containers of %s match the payload nodeSelector; fix the selector or delete this operation" [ArgS name]) m
    else
    let m := update (fun r => r <| Done := countMigrationDoneOrSkipped planned |>) m in
    match find (fun s => bool_decide (Phase s = PhasePending /\ Node s = "")) planned with
    | Some s => stop (Sprintf "drive container %s has no resolvable node; it is probably unscheduled — wait for it to be placed, or exclude its node with the payload's nodeSelector" [ArgS (Container s)]) m
    | None =>
    match refuseIfSignPolicyMatches ans (pendingNodes planned) with
    | Some e => stop e m
    | None =>
    let '(r, err) := checkCapacity ans cluster (results m) in
    let m := update (fun _ => r) m in
    match err with
    | Some e => stop e m
    | None => (update (fun r => r <| r_Err := "" |> <| r_BlockedSince := None |>) m, inr cluster)
    end end end end end end end.

Definition finalize (cluster : Cluster) (m : machine) : machine * outcome :=
  let '(removed, m) := if decide (SizingModeMigration cluster = "") then (None, m)
                       else do_call (a_Call ans) (RemoveAnnotation (cl_Namespace cluster) (cl_Name cluster)) m in
  match removed with
  | Some e => (m, PlainError (wrap (Sprintf "failed to remove annotation %s from cluster %s"
                 [ArgS AnnotationSizingModeMigration; ArgS (r_Cluster (results m))]) (error_text e)))
  | None =>
      match do_call (a_Call ans) (MarkDone (results m)) m with
      | (None, m) => (m, Proceed)
      | (Some e, m) => (m, PlainError (error_text e))
      end
  end.

(** The steps of [GetSteps], on the result that was stored. *)
Definition pass (o : owner) : machine * outcome :=
  let m := mkMachine (default zero_result (ow_Result o)) [] in
  if terminal o then (m, Proceed)
  else match Plan m with
  | (m, inl e) => (m, e)
  | (m, inr cluster) =>
      match AdvanceOne cluster m with
      | (m, Proceed) => finalize cluster m
      | stopped => stopped
      end
  end.

End operation.

(** ** Runs *)

(** The names of the listed drive containers are distinct: they are objects of one namespace. *)
Definition names_unique (ans : answers) : Prop := forall cs, a_DriveContainers ans = Ok cs -> NoDup (cn_Name <$> cs).

(** A pass that may be cut short. *)
Definition campaign_step (uid namespace name : string) (hash : string -> nat -> string) : owner * log -> owner * log -> Prop :=
  cut_pass stored names_unique (fun ans o => calls (pass uid namespace name hash ans o).1).

End Migration.
