(* ===== verification/MigrationFacts.v ===== *)
(** * Facts on the migration to drive sharing

    The invariant of a campaign, what every call of a pass needs to have been persisted before, and that a
    campaign whose environment cooperates completes. *)

From coqutil Require Import Datatypes.RecordSetters.
From stdpp Require Import relations.
From S2P Require Import Prelude Fmt Types Sizing Ports Strategies VirtualDrives Api Nodes Templates Disruption Campaign Migration.
Import TriangleBracketNotations.
Import Migration.

(** ** Entries *)

(** How far an entry has come. *)
Definition rank (s : ContainerState) : Z :=
  if decide (Phase s = PhaseDone \/ Phase s = PhaseSkipped) then 5
  else if decide (Phase s = PhaseInFlight) then
    if decide (SubPhase s = SubPhaseRejoining) then 4
    else if decide (SubPhase s = SubPhaseProxy) then 3
    else if decide (SubPhase s = SubPhaseSigning) then 2 else 1
  else 0.

(** An entry in flight has recorded what it needs to go on; one that is pending has done nothing. *)
Record wf_state (s : ContainerState) : Prop := mkWf {
  wf_phase : Phase s ∈ [PhasePending; PhaseInFlight; PhaseDone; PhaseSkipped];
  wf_in_flight : Phase s = PhaseInFlight ->
    SubPhase s ∈ [SubPhaseDraining; SubPhaseSigning; SubPhaseProxy; SubPhaseRejoining] /\
    Serials s <> [] /\ CapacityBytes s <> 0 /\ StartedAt s <> None;
  wf_recorded : Serials s <> [] -> CapacityBytes s <> 0;
  wf_pending : Phase s = PhasePending ->
    Replacement s = "" /\ SignDone s = false /\ ProxyRestarted s = false /\ SignAttempts s = 0 }.

(** What one pass may do to an entry. *)
Record entry_step (s s' : ContainerState) : Prop := mkEntryStep {
  es_container : Container s' = Container s;
  es_rank : rank s <= rank s';
  es_node : 0 < rank s -> Node s' = Node s;
  es_serials : Serials s <> [] -> Serials s' = Serials s /\ DriveUuids s' = DriveUuids s /\ CapacityBytes s' = CapacityBytes s;
  es_sign_done : SignDone s = true -> SignDone s' = true;
  es_attempts : SignAttempts s <= SignAttempts s';
  es_closed : rank s = 5 -> Phase s' = Phase s /\ Replacement s' = Replacement s }.

#[export] Instance entry_step_refl : Reflexive entry_step.
Proof. intros s. by constructor. Qed.

Lemma rank_pending s : Phase s = PhasePending -> rank s = 0.
Proof. unfold rank. intros ->. done. Qed.

Lemma rank_closed s : done_or_skipped s = true <-> rank s = 5.
Proof. unfold done_or_skipped, rank. rewrite bool_decide_eq_true. repeat case_decide; split; done. Qed.

Lemma rank_bounds s : 0 <= rank s <= 5.
Proof. unfold rank. repeat case_decide; lia. Qed.

#[export] Instance entry_step_trans : Transitive entry_step.
Proof.
  intros a b c [Hc Hr Hn Hs Hd Ha Hl] [Hc' Hr' Hn' Hs' Hd' Ha' Hl']. constructor; try lia.
  - congruence.
  - intros. rewrite Hn', Hn; auto with lia.
  - intros Hne. destruct (Hs Hne) as (E1 & E2 & E3). rewrite <-E1, <-E2, <-E3. apply Hs'. by rewrite E1.
  - auto.
  - intros H5. destruct (Hl H5) as [<- <-]. apply Hl'. pose proof (rank_bounds b). lia.
Qed.

(** Storing a state changes nothing of this. *)
Lemma entry_step_stored s : entry_step s (stored_state s).
Proof. by constructor. Qed.

Lemma wf_stored s : wf_state s -> wf_state (stored_state s).
Proof.
  intros [H1 H2 H3 H4]. constructor; try done. intros Hf. destruct (H2 Hf) as (? & ? & ? & ?).
  split_and!; try done. change (json_time <$> StartedAt s <> None). by destruct (StartedAt s).
Qed.

(** ** Results *)

Definition in_flight (s : ContainerState) : Prop := Phase s = PhaseInFlight.
#[export] Instance in_flight_dec s : Decision (in_flight s) := decide _.

Definition replacements (l : list ContainerState) : list string := filter (fun x => x <> "") (Replacement <$> l).

(** The invariant: the entries are well-formed and named apart, at most one is in flight, no replacement is one
    of the campaign's containers, and no two entries share one. *)
Record wf_entries (l : list ContainerState) : Prop := mkWfEntries {
  we_states : Forall wf_state l;
  we_names : NoDup (Container <$> l);
  we_one : (length (filter in_flight l) <= 1)%nat;
  we_apart : Forall (fun x => x ∉ Container <$> l) (replacements l);
  we_distinct : NoDup (replacements l) }.

(** The entries the owner holds. *)
Definition held (o : owner) : list ContainerState := Containers (default zero_result (ow_Result o)).

(** A campaign that is not planned yet. *)
Definition fresh (s : ContainerState) : Prop :=
  exists node name phase reason, phase ∈ [PhasePending; PhaseSkipped] /\ s = new_state node name phase reason.

(** The entries [l'] come from [l]: the same ones in some order, each after a legal step, unless there were none. *)
Definition evolves (l l' : list ContainerState) : Prop :=
  exists base moved, (base = l \/ l = [] /\ Forall fresh base) /\ Forall2 entry_step base moved /\ moved ≡ₚ l'.

Lemma evolves_refl l : evolves l l.
Proof. exists l, l. split; [by left|]. split; [|done]. by induction l; constructor. Qed.

Lemma evolves_put l0 l i s s' : evolves l0 l -> l !! i = Some s -> entry_step s s' -> evolves l0 (<[i := s']> l).
Proof.
  intros (base & moved & Hb & Hf & Hp) Hi Hs.
  destruct (list_elem_of_lookup_1 moved s) as [j Hj]; [rewrite Hp; by eapply list_elem_of_lookup_2|].
  exists base, (<[j := s']> moved). split; [done|]. split.
  - apply Forall2_same_length_lookup. split.
    + rewrite length_insert. by eapply Forall2_length.
    + intros k x y Hx Hy. destruct (decide (j = k)) as [->|].
      * rewrite list_lookup_insert_eq in Hy by (by eapply lookup_lt_Some). injection Hy as <-.
        etrans; [|exact Hs]. eapply Forall2_lookup_lr; eauto.
      * rewrite list_lookup_insert_ne in Hy by done. eapply Forall2_lookup_lr; eauto.
  - rewrite (insert_delete_perm l i s), (insert_delete_perm moved j s) by done.
    f_equiv. apply (Permutation_cons_inv (a := s)). by rewrite <-!delete_Permutation.
Qed.

Lemma evolves_map f l0 l : (forall s, entry_step s (f s)) -> evolves l0 l -> evolves l0 (f <$> l).
Proof.
  intros Hs (base & moved & Hb & Hf & Hp). exists base, (f <$> moved). split; [done|]. split.
  - rewrite Forall2_fmap_r. eapply Forall2_impl; [exact Hf|]. intros x y Hxy. exact (transitivity Hxy (Hs y)).
  - by rewrite Hp.
Qed.

Lemma evolves_perm l0 l l' : evolves l0 l -> l ≡ₚ l' -> evolves l0 l'.
Proof. intros (base & moved & ? & ? & ?) Hl. exists base, moved. split_and!; try done. by etrans. Qed.

(** Whoever was held is still there, one legal step further. *)
Lemma evolves_elem l l' s : evolves l l' -> s ∈ l -> exists s', s' ∈ l' /\ entry_step s s'.
Proof.
  intros (base & moved & Hb & Hf & Hp) Hin. destruct Hb as [->|[-> _]]; [|by apply not_elem_of_nil in Hin].
  apply list_elem_of_lookup in Hin as [i Hi]. destruct (Forall2_lookup_l _ _ _ _ _ Hf Hi) as (s' & Hs' & He).
  exists s'. split; [|done]. rewrite <-Hp. by eapply list_elem_of_lookup_2.
Qed.

Lemma evolves_names l l' : l <> [] -> evolves l l' -> Container <$> l' ≡ₚ Container <$> l.
Proof.
  intros Hne (base & moved & Hb & Hf & Hp). destruct Hb as [->|[-> _]]; [|done]. rewrite <-Hp.
  replace (Container <$> moved) with (Container <$> l); [done|]. clear Hp Hne.
  induction Hf as [|x y xs ys Hxy _ IH]; [done|]. rewrite !fmap_cons, IH. by rewrite (es_container _ _ Hxy).
Qed.

#[export] Instance wf_entries_proper : Proper ((≡ₚ) ==> iff) wf_entries.
Proof.
  assert (forall l l', l ≡ₚ l' -> wf_entries l -> wf_entries l') as H.
  { intros l l' Hp [H1 H2 H3 H4 H5]. constructor; try (by rewrite <-Hp).
    - apply Forall_forall. intros x. unfold replacements. rewrite <-Hp. revert x. by apply Forall_forall.
    - unfold replacements. by rewrite <-Hp. }
  intros l l' Hp. split; apply H; by rewrite Hp.
Qed.

Lemma replacements_cons s l :
  replacements (s :: l) = if decide (Replacement s <> "") then Replacement s :: replacements l else replacements l.
Proof. unfold replacements. rewrite fmap_cons, filter_cons. done. Qed.

(** A new head keeps the invariant when it keeps the name, does not join another in flight, and has no
    replacement, the old one, or one that is free. *)
Lemma wf_entries_head s s' l :
  wf_entries (s :: l) -> wf_state s' -> Container s' = Container s ->
  (in_flight s' -> in_flight s \/ filter in_flight l = []) ->
  (Replacement s' = "" \/ Replacement s' = Replacement s \/
   (Replacement s' ∉ Container <$> (s :: l)) /\ (Replacement s' ∉ replacements l)) ->
  wf_entries (s' :: l).
Proof.
  intros [H1 H2 H3 H4 H5] Hwf Hc Hfl Hr. rewrite replacements_cons in H4, H5.
  assert (Container <$> (s' :: l) = Container <$> (s :: l)) as Hn by (by rewrite !fmap_cons, Hc).
  assert (Forall (fun x => x ∉ Container <$> (s :: l)) (replacements l) /\ NoDup (replacements l)) as [H4' H5'].
  { case_decide; [|done]. by inversion H4; inversion H5. }
  constructor.
  - constructor; [done|]. by inversion H1.
  - by rewrite Hn.
  - rewrite filter_cons in H3 |- *. destruct (decide (in_flight s')) as [Hs'|].
    + destruct (Hfl Hs') as [Hs| ->]; [|simpl; lia]. by rewrite decide_True in H3.
    + destruct (decide (in_flight s)); simpl in *; lia.
  - rewrite Hn, replacements_cons. destruct (decide (Replacement s' <> "")) as [Hne|]; [|done]. constructor; [|done].
    destruct Hr as [?|[E|[? _]]]; [done| |done]. rewrite E in Hne |- *. rewrite decide_True in H4 by done. by inversion H4.
  - rewrite replacements_cons. destruct (decide (Replacement s' <> "")) as [Hne|]; [|done]. constructor; [|done].
    destruct Hr as [?|[E|[_ ?]]]; [done| |done]. rewrite E in Hne |- *. rewrite decide_True in H5 by done. by inversion H5.
Qed.

(** ** What every call rests on *)

(** An entry of the owner's result that is in flight in a sub-phase. *)
Definition holds (o : owner) (sub : string) (P : ContainerState -> Prop) : Prop :=
  exists s, s ∈ held o /\ Phase s = PhaseInFlight /\ SubPhase s = sub /\ Serials s <> [] /\ P s.

(** What the owner's object must say before a call is made. *)
Definition intent (o : owner) (c : call) : Prop :=
  match c with
  | PersistProgress _ | MarkFailed _ => True
  | Act (PatchSkipForceResign name) | Act (DeleteContainer name) =>
      holds o SubPhaseDraining (fun s => Container s = name)
  | Act (RemoveFullDrives node serials) =>
      holds o SubPhaseSigning (fun s => Node s = node /\ Serials s = serials)
  | Act (CreateSignOp op) =>
      holds o SubPhaseSigning (fun s => SignDone s = false /\ co_DeviceSerials op = Serials s /\ co_Shared op = true /\
        co_NodeSelector op = {[ "kubernetes.io/hostname" := Node s ]} /\
        AllowEraseWekaPartitions (co_SignOptions op) = true)
  | Act (DeleteSignOp _ _) => holds o SubPhaseSigning (fun s => SignDone s = false /\ SignFailedAt s <> None)
  | Act (DeleteProxyPod _ _) => holds o SubPhaseProxy (fun s => ProxyRestarted s = true)
  | Act (RemoveAnnotation _ _) =>
      exists l, evolves (held o) l /\ l <> [] /\ Forall (fun s => done_or_skipped s = true) l
  | MarkDone r => Containers r <> [] /\ Forall (fun s => done_or_skipped s = true) (Containers r)
  end.

(** A result that may be written over the one the owner holds. *)
Definition may_write (o : owner) (l : list ContainerState) : Prop := wf_entries l /\ evolves (held o) l.

Definition writes (o : owner) (c : call) : Prop :=
  match c with
  | PersistProgress r | MarkDone r | MarkFailed r => may_write o (Containers r)
  | _ => True
  end.

(** A call that rests on what is stored. *)
Definition sound (o : owner) (c : call) : Prop := intent o c /\ writes o c.

(** ** One handler *)

(** The entry [i] of the result in memory, [old], may become [s]. *)
Record moves (o : owner) (r : Result) (i : nat) (old s : ContainerState) : Prop := mkMoves {
  mv_lookup : Containers r !! i = Some old;
  mv_wf : wf_entries (Containers r);
  mv_evolves : evolves (held o) (Containers r);
  mv_step : entry_step old s;
  mv_state : wf_state s;
  mv_flight : in_flight s -> in_flight old \/ filter in_flight (Containers r) = [];
  mv_replacement : Replacement s = "" \/ Replacement s = Replacement old \/ (Replacement s ∉ claimed_names r old) }.

Lemma moves_may_write o r i old s : moves o r i old s -> may_write o (<[i := s]> (Containers r)).
Proof.
  intros [Hi Hwf Hev Hst Hs Hfl Hr]. split; [|by eapply evolves_put].
  rewrite insert_delete_perm by exact Hi. rewrite (delete_Permutation _ _ _ Hi) in Hwf.
  eapply wf_entries_head; [exact Hwf|done|apply Hst|..].
  - intros Hf. destruct (Hfl Hf) as [?|E]; [by left|right].
    assert (filter in_flight (old :: delete i (Containers r)) ≡ₚ []) as E' by (by rewrite <-(delete_Permutation _ _ _ Hi), E).
    rewrite filter_cons in E'. destruct (decide (in_flight old)); apply Permutation_nil_r in E'; done.
  - destruct Hr as [?|[?|Hr]]; [by left|by right; left|right; right]. unfold claimed_names in Hr.
    rewrite not_elem_of_app, (delete_Permutation _ _ _ Hi) in Hr. destruct Hr as [Hr1 Hr2]. split; [done|].
    contradict Hr2. unfold replacements in Hr2. apply list_elem_of_filter in Hr2 as [Hne Hin].
    apply list_elem_of_fmap in Hin as (s1 & E & Hin). apply list_elem_of_fmap. exists s1. split; [done|].
    apply list_elem_of_filter. rewrite <-E. split; [split; [done|]|by right].
    pose proof (we_names _ Hwf) as Hnd. apply NoDup_cons in Hnd as [Hnd _].
    intros Ec. apply Hnd. rewrite <-Ec. by apply list_elem_of_fmap_2.
Qed.

(** The calls that [x] adds to those of [m] are all sound, [o] being the owner when it starts. *)
Definition handled (o : owner) (m : machine) (x : machine * outcome) : Prop :=
  exists l, calls x.1 = calls m ++ l /\ audit stored sound o l.

(** A constant that is in a list of constants. *)
Ltac member := apply (bool_decide_unpack _); vm_compute; exact I.

Section handlers.
Context (ownerUID ownerNamespace ownerName : string) (GetHash : string -> nat -> string) (ans : answers).

Lemma handled_persist o m r out :
  may_write o (Containers (results r)) -> calls r = calls m -> handled o m (persist_then ans out r).
Proof.
  destruct r as [r rl]. simpl. intros Hw ->. exists [(PersistProgress r, a_Call ans (calls m) (PersistProgress r))].
  split; [|by simpl]. unfold persist_then, do_call. simpl. by destruct (a_Call _ _ _).
Qed.

Lemma stamp_moves o r i old s : moves o r i old s -> moves o r i old (stamp_blocked ans s).
Proof.
  intros [H1 H2 H3 H4 H5 H6 H7]. unfold stamp_blocked. case_decide; [|done].
  constructor; try done; [|by destruct H5]. etrans; [exact H4|]. by constructor.
Qed.

Lemma handled_park o m i old s :
  moves o (results m) i old s -> handled o m (parkNode ans i s m).
Proof. intros Hm. apply handled_persist; [|done]. by apply (moves_may_write o (results m) i old), stamp_moves. Qed.

Lemma handled_park_blocked o m i old s vs :
  moves o (results m) i old s -> handled o m (parkNode ans i s (set_Blocked vs m)).
Proof. intros Hm. apply handled_persist; [|done]. by apply (moves_may_write o (results m) i old), stamp_moves. Qed.

Lemma handled_enter o m i old sub why s :
  moves o (results m) i old (s <| SubPhase := sub |> <| Reason := "" |>) -> handled o m (enterSubPhase ans i sub why s m).
Proof. intros Hm. apply handled_persist; [|done]. by apply (moves_may_write o (results m) i old). Qed.

Lemma handled_call o m c k :
  outside c -> intent o c ->
  (forall a m', results m' = results m -> handled o m' (k a m')) ->
  handled o m (let '(a, m') := do_call (a_Call ans) c m in k a m').
Proof.
  intros Hout Hi Hk. destruct m as [r lg]. unfold do_call. simpl.
  match goal with |- handled _ _ (k ?a ?m') => specialize (Hk a m' eq_refl); destruct Hk as (l & Hl & Ha) end.
  exists ((c, a_Call ans lg c) :: l). split; [rewrite Hl; simpl; by rewrite <-app_assoc|].
  simpl. split; [split; [done|by destruct c]|]. by destruct c.
Qed.

(** The machine is about to advance the entry in flight [s], which the owner holds. *)
Record ready (o : owner) (r : Result) (i : nat) (s : ContainerState) : Prop := mkReady {
  rd_lookup : Containers r !! i = Some s;
  rd_wf : wf_entries (Containers r);
  rd_evolves : evolves (held o) (Containers r);
  rd_flight : Phase s = PhaseInFlight;
  rd_held : s ∈ held o }.

(** What the handlers of an entry in flight leave alone. *)
Definition same_core (s s' : ContainerState) : Prop :=
  Container s' = Container s /\ Phase s' = Phase s /\ Node s' = Node s /\ Serials s' = Serials s /\
  DriveUuids s' = DriveUuids s /\ CapacityBytes s' = CapacityBytes s /\ StartedAt s' = StartedAt s /\
  Replacement s' = Replacement s.

Lemma ready_state o r i s : ready o r i s -> wf_state s.
Proof. intros H. eapply Forall_lookup_1; [apply (we_states _ (rd_wf _ _ _ _ H))|apply (rd_lookup _ _ _ _ H)]. Qed.

Lemma ready_holds o r i s sub (P : ContainerState -> Prop) :
  ready o r i s -> SubPhase s = sub -> P s -> holds o sub P.
Proof.
  intros H Hsub HP. exists s. destruct (wf_in_flight _ (ready_state _ _ _ _ H) (rd_flight _ _ _ _ H)) as (_ & ? & _).
  by destruct H.
Qed.

(** The entry keeps its core, gets a later sub-phase, and loses no latch. *)
Lemma moves_in_flight o r i s s' :
  ready o r i s -> same_core s s' -> rank s <= rank s' ->
  SubPhase s' ∈ [SubPhaseDraining; SubPhaseSigning; SubPhaseProxy; SubPhaseRejoining] ->
  (SignDone s = true -> SignDone s' = true) -> SignAttempts s <= SignAttempts s' ->
  moves o r i s s'.
Proof.
  intros Hrd (Ec & Ep & En & Es & Eu & Eb & Et & Er) Hr Hsub Hd Ha.
  pose proof (ready_state _ _ _ _ Hrd) as [H1 H2 H3 H4]. destruct Hrd as [Hi Hwf Hev Hf Hh].
  destruct (H2 Hf) as (_ & Hs & Hb & Ht). constructor; try done.
  - constructor; rewrite ?Ep, ?Es, ?Eb, ?Et; try done. by rewrite Hf.
  - by left.
  - right; left. done.
Qed.

Definition sub_rank (sub : string) : Z :=
  if decide (sub = SubPhaseRejoining) then 4
  else if decide (sub = SubPhaseProxy) then 3
  else if decide (sub = SubPhaseSigning) then 2 else 1.

Lemma rank_in_flight s : Phase s = PhaseInFlight -> rank s = sub_rank (SubPhase s).
Proof. unfold rank. by intros ->. Qed.

(** The entry keeps its sub-phase. *)
Lemma moves_stay o r i s s' :
  ready o r i s -> same_core s s' -> SubPhase s' = SubPhase s ->
  (SignDone s = true -> SignDone s' = true) -> SignAttempts s <= SignAttempts s' -> moves o r i s s'.
Proof.
  intros Hrd Hc Hsub Hd Ha. apply moves_in_flight; try done.
  - destruct Hc as (_ & Ep & _). rewrite !rank_in_flight; rewrite ?Ep; try apply (rd_flight _ _ _ _ Hrd). by rewrite Hsub.
  - rewrite Hsub. apply (wf_in_flight _ (ready_state _ _ _ _ Hrd) (rd_flight _ _ _ _ Hrd)).
Qed.

Lemma moves_enter o r i s sub :
  ready o r i s -> sub_rank (SubPhase s) <= sub_rank sub ->
  sub ∈ [SubPhaseDraining; SubPhaseSigning; SubPhaseProxy; SubPhaseRejoining] ->
  moves o r i s (s <| SubPhase := sub |> <| Reason := "" |>).
Proof.
  intros Hrd Hr Hin. pose proof (rd_flight _ _ _ _ Hrd) as Hf. apply moves_in_flight; try done.
  by rewrite !rank_in_flight.
Qed.

Lemma ready_same o r r' i s : Containers r' = Containers r -> ready o r i s -> ready o r' i s.
Proof. intros E []. constructor; by rewrite ?E. Qed.

(** Parking an entry in flight with another reason. *)
Ltac park := first [eapply handled_park | eapply handled_park_blocked];
  (eapply moves_stay; [eassumption|done|done|done|apply Z.le_refl]).
Ltac enter := eapply handled_enter; (apply moves_enter; [eassumption| |]).

Lemma handled_draining o m i s :
  ready o (results m) i s -> SubPhase s = SubPhaseDraining -> handled o m (advanceDraining ans i s m).
Proof.
  intros Hrd Hsub. unfold advanceDraining, parkOnErr.
  destruct (a_Container ans (Container s)) as [[c skip]|[]]; try park.
  2: { enter; [by rewrite Hsub|member]. }
  assert (forall m', results m' = results m ->
    handled o m' (let '(deleted, m) := if cn_Deleted c then (None, m') else do_call (a_Call ans) (DeleteContainer (Container s)) m' in
      match ignore_not_found deleted with
      | Some e => parkNode ans i (s <| Reason := Sprintf "failed to %s: %s" [ArgS "delete drive container"; ArgS (error_text e)] |>) m
      | None => parkNode ans i (s <| Reason := Sprintf "waiting for drive container %s to phase out of the cluster"
                                   [ArgS (Container s)] |>) m
      end)) as Hdel.
  { intros m' E. rewrite <-E in Hrd. destruct (cn_Deleted c); [park|].
    apply handled_call; [done|by eapply ready_holds|]. intros a m'' E'. rewrite <-E' in Hrd.
    destruct (ignore_not_found a); park. }
  destruct skip; [by apply Hdel|].
  apply handled_call; [done|by eapply ready_holds|]. intros [e|] m' E; [|by apply Hdel]. rewrite <-E in Hrd. park.
Qed.

Lemma handled_retry o m i namespace name result s :
  ready o (results m) i s -> SubPhase s = SubPhaseSigning -> SignDone s = false ->
  handled o m (retryFailedSignOp ans i namespace name result (s <| SignOp := childSignOpName GetHash ownerName (Container s) |>) m).
Proof.
  intros Hrd Hsub Hd. unfold retryFailedSignOp, parkOnErr. set (s1 := s <| SignOp := _ |>).
  change (SignFailedAt (s1 <| Reason := _ |>)) with (SignFailedAt s). destruct (SignFailedAt s) as [t|] eqn:Et; [|park].
  case_decide; [park|]. apply handled_call; [done| |].
  - eapply ready_holds; [done..|]. split; [done|]. by rewrite Et.
  - intros a m' E. rewrite <-E in Hrd. destruct (ignore_not_found a); park.
Qed.

Lemma handled_sign_missing o m i namespace missing s :
  ready o (results m) i s -> SubPhase s = SubPhaseSigning ->
  handled o m (sign_missing ownerNamespace ownerName GetHash ans i namespace missing s m).
Proof.
  intros Hrd Hsub. unfold sign_missing, parkOnErr. destruct (SignDone s) eqn:Hd; [park|].
  destruct (a_Child _ _) as [[status result]|[]]; try park.
  - case_decide; [|case_decide; [by apply handled_retry|park]].
    eapply handled_park, moves_stay; [eassumption|done..|apply Z.le_refl].
  - apply handled_call; [done| |].
    + eapply ready_holds; [done..|]. split_and!; try done.
    + intros [e|] m' E; rewrite <-E in Hrd; [park|].
      eapply handled_park, moves_stay; [eassumption|done..|]. change (SignAttempts s <= Z.succ (SignAttempts s)). lia.
Qed.

Lemma handled_signing o m i s :
  ready o (results m) i s -> SubPhase s = SubPhaseSigning ->
  handled o m (advanceSigning ownerNamespace ownerName GetHash ans i s m).
Proof.
  intros Hrd Hsub. unfold advanceSigning. apply handled_call; [done|by eapply ready_holds|].
  intros a m' E. rewrite <-E in Hrd. unfold parkOnErr. destruct a as [e|]; [park|].
  destruct (serialsMissingFromSharedDrives ans s) as [[|x missing]|]; [enter; [by rewrite Hsub|member]| |park].
  destruct (a_PodNamespace ans); [by apply handled_sign_missing|park].
Qed.

Lemma handled_verify o m i proxy s :
  ready o (results m) i s -> SubPhase s = SubPhaseProxy -> handled o m (verify_restart ans i proxy s m).
Proof.
  intros Hrd Hsub. unfold verify_restart, parkOnErr.
  destruct (proxyPodRunning ans proxy) as [[reason|]|]; [park| |park].
  destruct (a_ProxyRecovered ans) as [verdicts|]; [|park]. destruct (AllAllowed verdicts); [park|].
  apply (handled_enter o (set_Blocked [] m) i s). apply moves_enter; [by apply (ready_same o (results m))|by rewrite Hsub|member].
Qed.

(** What is stored is a legal step behind what is in memory. *)
Lemma evolves_unstored l : evolves (stored_state <$> l) l.
Proof.
  exists (stored_state <$> l), l. split; [by left|]. split; [|done].
  induction l; constructor; [by constructor|done].
Qed.

Lemma handled_restart o m i reason proxy s :
  ready o (results m) i s -> SubPhase s = SubPhaseProxy -> handled o m (restart_proxy ans i reason proxy s m).
Proof.
  intros Hrd Hsub. unfold restart_proxy. set (s1 := s <| ProxyRestarted := true |> <| Reason := _ |>).
  assert (moves o (results m) i s s1) as Hm by (eapply moves_stay; [eassumption|done..|apply Z.le_refl]).
  pose proof (moves_may_write _ _ _ _ _ Hm) as Hw. destruct m as [r lg]. unfold do_call at 1. simpl in Hm, Hw.
  set (r1 := results (put i s1 (mkMachine r lg))). change (calls (put i s1 (mkMachine r lg))) with lg.
  destruct (a_Call ans lg (PersistProgress r1)) as [e|].
  { exists [(PersistProgress r1, Some e)]. split; [done|]. by simpl. }
  set (m1 := mkMachine r1 (lg ++ [(PersistProgress r1, None)])).
  set (o1 := apply_call stored o (PersistProgress r1 : call, None)).
  assert (handled o1 m1 (let '(deleted, m0) := do_call (a_Call ans) (DeleteProxyPod (cn_Namespace proxy) (cn_Name proxy)) m1 in
      match ignore_not_found deleted with
      | Some e => parkOnErr ans i "delete the ssdproxy pod" (error_text e) (s1 <| ProxyRestarted := false |>) m0
      | None => (m0, WaitError "ssdproxy pod deleted, waiting for it to come back")
      end)) as (l & Hl & Ha).
  2: { exists ((PersistProgress r1, None) :: l). split; [|by simpl]. etrans; [exact Hl|]. simpl. by rewrite <-app_assoc. }
  assert (<[i := s1]> (Containers r) !! i = Some s1) as Hi.
  { apply list_lookup_insert_eq. eapply lookup_lt_Some, (mv_lookup _ _ _ _ _ Hm). }
  pose proof (mv_state _ _ _ _ _ Hm) as [W1 W2 W3 W4].
  apply handled_call; [done| |].
  - exists (stored_state s1). split.
    + change (stored_state s1 ∈ stored_state <$> <[i := s1]> (Containers r)). apply list_elem_of_fmap_2. by eapply list_elem_of_lookup_2.
    + pose proof (rd_flight _ _ _ _ Hrd) as Hf. destruct (W2 Hf) as (_ & ? & _). done.
  - intros a m' E. destruct (ignore_not_found a); [|by exists []; rewrite app_nil_r].
    eapply (handled_park o1 m' i s1). rewrite E. constructor; try done.
    + apply Hw.
    + apply evolves_unstored.
    + constructor; try done. intros Hp. change (Phase s = PhasePending) in Hp. by rewrite (rd_flight _ _ _ _ Hrd) in Hp.
    + by left.
    + by right; left.
Qed.

Lemma handled_proxy o m i s :
  ready o (results m) i s -> SubPhase s = SubPhaseProxy -> handled o m (advanceProxy ans i s m).
Proof.
  intros Hrd Hsub. unfold advanceProxy, parkOnErr.
  destruct (a_Proxy ans (Node s)) as [proxy|[]]; [|enter; [by rewrite Hsub|member]|park].
  destruct (ProxyRestarted s); [by apply handled_verify|].
  destruct (proxyRestartReason ans s proxy) as [[reason|]|]; [|enter; [by rewrite Hsub|member]|park].
  destruct (a_ProxyGate ans) as [verdicts|]; [|park]. destruct (AllAllowed verdicts); [park|].
  apply (handled_restart o (set_Blocked [] m)); [|done]. by apply (ready_same o (results m)).
Qed.

Lemma find_eligible r s P c l :
  find (fun c => eligible r s c && P c) l = Some c -> cn_Name c ∉ claimed_names r s.
Proof.
  intros Hf. apply find_some in Hf as [_ Hf]. apply andb_prop in Hf as [Hf _]. unfold eligible in Hf.
  apply andb_prop in Hf as [Hf _]. apply andb_prop in Hf as [Hf _]. apply andb_prop in Hf as [_ Hf].
  by apply bool_decide_eq_true in Hf.
Qed.

(** The replacement is none of the campaign's containers and no other entry's replacement. *)
Lemma pick_replacement_free r s l c : pick_replacement r s l = Some c -> cn_Name c ∉ claimed_names r s.
Proof.
  unfold pick_replacement. destruct (find _ l) eqn:E.
  - intros [= <-]. exact (find_eligible _ _ _ _ _ E).
  - intros E'. exact (find_eligible _ _ _ _ _ E').
Qed.

(** An entry in flight that takes a replacement, in flight or done. *)
Lemma moves_replaced o r i s s' :
  ready o r i s -> Replacement s' ∉ claimed_names r s ->
  Container s' = Container s -> Node s' = Node s -> Serials s' = Serials s -> DriveUuids s' = DriveUuids s ->
  CapacityBytes s' = CapacityBytes s -> StartedAt s' = StartedAt s -> SignDone s' = SignDone s ->
  SignAttempts s' = SignAttempts s -> rank s <= rank s' ->
  (Phase s' = PhaseInFlight /\ SubPhase s' = SubPhase s \/ Phase s' = PhaseDone) -> moves o r i s s'.
Proof.
  intros Hrd Hfree Ec En Es Eu Eb Et Ed Ea Hr Hp. pose proof (ready_state _ _ _ _ Hrd) as [W1 W2 W3 W4].
  destruct Hrd as [Hi Hwf Hev Hf Hh]. destruct (W2 Hf) as (W5 & W6 & W7 & W8).
  constructor; try done; [..|by left|by right; right].
  - constructor; try done; try lia; [congruence|].
    rewrite rank_in_flight by done. unfold sub_rank. repeat case_decide; discriminate.
  - constructor; rewrite ?Es, ?Eb, ?Et; destruct Hp as [[Hp Hq]|Hp]; rewrite ?Hp, ?Hq; try done; member.
Qed.

Lemma handled_rejoining o m i cluster s :
  ready o (results m) i s -> SubPhase s = SubPhaseRejoining -> handled o m (advanceRejoining ans cluster i s m).
Proof.
  intros Hrd Hsub. pose proof (rd_flight _ _ _ _ Hrd) as Hf. unfold advanceRejoining, parkOnErr, findReplacement.
  destruct (listDriveContainers cluster (a_DriveContainersNow ans)) as [cs|]; simpl; [|park].
  destruct (pick_replacement (results m) s cs) as [c|] eqn:Ep; [|park].
  apply pick_replacement_free in Ep.
  assert (forall s', Replacement s' = cn_Name c -> Phase s' = PhaseInFlight -> SubPhase s' = SubPhase s -> same_core (s <| Replacement := cn_Name c |>) s' ->
    SignDone s' = SignDone s -> SignAttempts s' = SignAttempts s -> moves o (results m) i s s') as Hstay.
  { intros s' Er Ep' Es (?&?&?&?&?&?&?&?) ??. eapply moves_replaced; try done; [by rewrite Er| |by left].
    by rewrite !rank_in_flight, Es. }
  case_decide; [eapply handled_park; by apply Hstay|]. case_decide; [eapply handled_park; by apply Hstay|].
  destruct (negb _); [eapply handled_park_blocked; by apply Hstay|].
  apply handled_persist; [|done].
  set (s' := s <| Replacement := cn_Name c |> <| Phase := PhaseDone |> <| SubPhase := "" |> <| Reason := "" |>).
  apply (moves_may_write o (results m) i s s'). eapply moves_replaced; try done; [|by right].
  rewrite rank_in_flight, Hsub by done. by vm_compute.
Qed.

Lemma handled_in_flight o m i cluster s :
  ready o (results m) i s ->
  handled o m (advanceInFlight ownerNamespace ownerName GetHash ans cluster i s m).
Proof.
  intros Hrd. unfold advanceInFlight. apply (ready_same _ _ (results (set_Current (Node s) m))) in Hrd; [|done].
  change (handled o m) with (handled o (set_Current (Node s) m)).
  case_decide; [by apply handled_draining|]. case_decide; [by apply handled_signing|].
  case_decide; [by apply handled_proxy|]. case_decide; [by apply handled_rejoining|park].
Qed.

(** What the gate may change of a pending entry. *)
Record gated (s s' : ContainerState) : Prop := mkGated {
  g_container : Container s' = Container s; g_node : Node s' = Node s; g_phase : Phase s' = Phase s;
  g_replacement : Replacement s' = Replacement s; g_sign_done : SignDone s' = SignDone s;
  g_restarted : ProxyRestarted s' = ProxyRestarted s; g_attempts : SignAttempts s' = SignAttempts s;
  g_serials : Serials s <> [] -> Serials s' = Serials s /\ DriveUuids s' = DriveUuids s /\ CapacityBytes s' = CapacityBytes s;
  g_recorded : Serials s' <> [] -> CapacityBytes s' <> 0 }.

Lemma recordDriveInventory_spec c s s' :
  (Serials s <> [] -> CapacityBytes s <> 0) -> recordDriveInventory ans c s = Ok s' ->
  gated s s' /\ Serials s' <> [] /\ CapacityBytes s' <> 0.
Proof.
  intros Hrec. unfold recordDriveInventory. destruct (decide (len (Serials s) > 0)) as [Hl|Hl].
  { intros [= <-]. assert (Serials s <> []) by (by destruct (Serials s)). split; [by constructor|auto]. }
  assert (Serials s = []) as Es by (destruct (Serials s); simpl in *; [done|lia]).
  destruct (cst_Allocations _) as [a|]; [|done]. case_decide as Ha; [done|].
  destruct (weka_drives ans c) as [drives|]; simpl; [|done].
  destruct (if decide (sum_drives drives = 0) then _ else _) as [inv|]; simpl; [|done].
  case_decide as Hz; [done|]. intros [= <-].
  assert (ca_Drives a <> []) by (by destruct (ca_Drives a)).
  split_and!; [|done..]. by constructor; rewrite ?Es.
Qed.

Lemma moves_pending o r i s s' :
  Containers r !! i = Some s -> wf_entries (Containers r) -> evolves (held o) (Containers r) ->
  filter in_flight (Containers r) = [] -> Phase s = PhasePending ->
  (gated s s' \/ exists s1, gated s s1 /\ Serials s1 <> [] /\ s' = start_entry ans s1) -> moves o r i s s'.
Proof.
  intros Hi Hwf Hev Hfl Hp Hs.
  pose proof (Forall_lookup_1 _ _ _ _ (we_states _ Hwf) Hi) as [W1 W2 W3 W4]. destruct (W4 Hp) as (E1 & E2 & E3 & E4).
  assert (0 <= rank s') by apply rank_bounds.
  assert (exists s1, gated s s1 /\ (s' = s1 \/ Serials s1 <> [] /\ s' = start_entry ans s1)) as (s1 & [] & Hs').
  { destruct Hs as [Hs|(s1 & Hg & H1)]; [by exists s'; auto|exists s1; auto]. }
  assert (Container s' = Container s1 /\ Node s' = Node s1 /\ Serials s' = Serials s1 /\ DriveUuids s' = DriveUuids s1 /\
    CapacityBytes s' = CapacityBytes s1 /\ SignAttempts s' = SignAttempts s1 /\ Replacement s' = Replacement s1)
    as (? & ? & Ese & ? & Eca & ? & ?) by (by destruct Hs' as [->|[_ ->]]).
  constructor; try done; try (by auto); [..|left; congruence].
  - constructor; rewrite ?(rank_pending s Hp); try done; try congruence; try lia.
    intros Hne. destruct (g_serials0 Hne) as (? & ? & ?). split_and!; congruence.
  - constructor; try (rewrite ?Ese, ?Eca; done); destruct Hs' as [->|[Hne ->]].
    + by rewrite g_phase0.
    + member.
    + by rewrite g_phase0, Hp.
    + intros _. split_and!; [member|done|by apply g_recorded0|done].
    + intros _. split_and!; congruence.
    + done.
Qed.

Lemma handled_start o m i s :
  Containers (results m) !! i = Some s -> wf_entries (Containers (results m)) ->
  evolves (held o) (Containers (results m)) -> filter in_flight (Containers (results m)) = [] ->
  Phase s = PhasePending -> handled o m (startPending ans i s m).
Proof.
  intros Hi Hwf Hev Hfl Hp.
  pose proof (Forall_lookup_1 _ _ _ _ (we_states _ Hwf) Hi) as Hs.
  assert (forall s1, gated s s1 -> moves o (results (set_Current (Node s) m)) i s s1) as Hpark
    by (intros s1 ?; apply moves_pending; auto).
  change (handled o m) with (handled o (set_Current (Node s) m)). unfold startPending, parkOnErr.
  set (m1 := set_Current (Node s) m) in *. pose proof (wf_recorded _ Hs) as Hrec.
  destruct (a_Container ans _) as [[c skip]|e]; [|eapply handled_park, Hpark; by constructor].
  destruct (recordDriveInventory ans c _) as [s1|e] eqn:Er; [|eapply handled_park, Hpark; by constructor].
  apply recordDriveInventory_spec in Er as (Hg & Hne & Hcap); [|done].
  assert (gated s s1) as Hg1 by (destruct Hg; constructor; done).
  assert (forall reason, gated s (s1 <| Reason := reason |>)) as Hgr by (intros; destruct Hg1; constructor; done).
  destruct (negb _); [eapply handled_park_blocked, Hpark, Hgr|].
  destruct (a_WekaStatus ans) as [status|]; [|eapply handled_park, Hpark, Hgr].
  case_decide; [eapply handled_park, Hpark, Hgr|].
  apply handled_persist; [|done]. apply (moves_may_write o (results m1) i s). apply moves_pending; auto.
  right. by exists s1.
Qed.

(** *** Planning *)

Lemma refresh_step exclusive s : entry_step s (refresh_state exclusive s).
Proof.
  unfold refresh_state. case_decide as Hp; [|done].
  destruct (find _ _); constructor; try done; rewrite ?(rank_pending s Hp); try done; by apply rank_bounds.
Qed.

Lemma refresh_state_cases exclusive s :
  (Phase s <> PhasePending /\ refresh_state exclusive s = s) \/
  (Phase s = PhasePending /\ Phase (refresh_state exclusive s) ∈ [PhasePending; PhaseSkipped] /\
   Replacement (refresh_state exclusive s) = Replacement s).
Proof.
  unfold refresh_state. case_decide as Hp; [right|by left]. split; [done|].
  destruct (find _ _); (split; [|done]); [|member]. change (Phase s ∈ [PhasePending; PhaseSkipped]). rewrite Hp. member.
Qed.

Lemma refresh_replacement exclusive s : Replacement (refresh_state exclusive s) = Replacement s.
Proof. destruct (refresh_state_cases exclusive s) as [[_ ->]|(_ & _ & ?)]; done. Qed.

Lemma refresh_in_flight exclusive s :
  in_flight (refresh_state exclusive s) <-> in_flight s.
Proof.
  unfold in_flight. destruct (refresh_state_cases exclusive s) as [[_ ->]|(Hp & Hq & _)]; [done|].
  rewrite Hp. split; [|done]. intros E. rewrite E in Hq. clear -Hq. set_solver.
Qed.

Lemma refresh_wf exclusive s : wf_state s -> wf_state (refresh_state exclusive s).
Proof.
  unfold refresh_state. case_decide as Hp; [|done]. intros [W1 W2 W3 W4]. destruct (find _ _); constructor; try done.
  all: try (intros E; change (Phase s = PhaseInFlight) in E; by rewrite Hp in E).
  member.
Qed.

Lemma plan_refresh exclusive l : wf_entries l -> wf_entries (refresh_state exclusive <$> l).
Proof.
  intros [H1 H2 H3 H4 H5].
  assert (Container <$> (refresh_state exclusive <$> l) = Container <$> l) as En.
  { rewrite <-list_fmap_compose. apply list_fmap_ext. intros _ s _. apply (es_container _ _ (refresh_step exclusive s)). }
  assert (replacements (refresh_state exclusive <$> l) = replacements l) as Er.
  { unfold replacements. f_equal. rewrite <-list_fmap_compose. apply list_fmap_ext. intros _ s _. apply refresh_replacement. }
  constructor; rewrite ?En, ?Er; try done.
  - rewrite Forall_fmap. eapply Forall_impl; [exact H1|]. intros s. apply refresh_wf.
  - replace (length (filter in_flight (refresh_state exclusive <$> l))) with (length (filter in_flight l)); [done|].
    clear H1 H2 H3 H4 H5 En Er. induction l as [|s l IH]; [done|]. rewrite fmap_cons, !filter_cons.
    destruct (decide (in_flight s)) as [Hs|Hs]; rewrite <-(refresh_in_flight exclusive) in Hs.
    + rewrite decide_True by done. simpl. by rewrite IH.
    + rewrite decide_False by done. done.
Qed.

Lemma fresh_replacement l : Forall fresh l -> replacements l = [].
Proof.
  induction 1 as [|s l (node & name & phase & reason & Hph & ->) _ IH]; [done|].
  rewrite replacements_cons, decide_False by (by intros H; apply H). done.
Qed.

Lemma plan_fresh l : Forall fresh l -> NoDup (Container <$> l) -> wf_entries l.
Proof.
  intros Hf Hn. constructor; rewrite ?(fresh_replacement l Hf); try done; try by constructor.
  - eapply Forall_impl; [exact Hf|]. intros s (node & name & phase & reason & Hph & ->).
    constructor; simpl; try done; [clear -Hph; set_solver|]. intros ->. clear -Hph. set_solver.
  - replace (filter in_flight l) with (@nil ContainerState); [simpl; lia|]. symmetry. apply list_filter_none.
    eapply Forall_impl; [exact Hf|]. intros s (node & name & phase & reason & Hph & ->) Hfl.
    unfold in_flight in Hfl. simpl in Hfl. subst. clear -Hph. set_solver.
Qed.

Lemma discoverTargets_names cluster exclusive sharing :
  names_unique ans -> discoverTargets ans cluster = Ok (exclusive, sharing) -> NoDup (t_name <$> (exclusive ++ sharing)).
Proof.
  intros Hu. unfold discoverTargets, listDriveContainers. destruct (a_DriveContainers ans) as [cs|] eqn:E; simpl; [|done].
  apply Hu in E. destruct (if decide (NodeSelector _ = ∅) then _ else _) as [nf|]; simpl; [|done]. intros [= <- <-].
  rewrite <-fmap_app, (Permutation_app_comm (filter _ _)), filter_split, <-list_fmap_compose. change (t_name ∘ to_target) with cn_Name.
  destruct nf as [nodes|]; [|done]. eapply sublist_NoDup; [exact E|]. apply fmap_sublist, sublist_filter.
Qed.

(** The planned entries: well-formed, legal, and nothing new in flight. *)
Record planned_ok (o : owner) (l : list ContainerState) : Prop := mkPlannedOk {
  pk_wf : wf_entries l;
  pk_evolves : evolves (held o) l;
  pk_held : forall s, s ∈ l -> Phase s = PhaseInFlight -> s ∈ held o }.

Lemma planMigrationContainers_ok o exclusive sharing :
  wf_entries (held o) -> NoDup (t_name <$> (exclusive ++ sharing)) ->
  planned_ok o (planMigrationContainers (held o) exclusive sharing).
Proof.
  intros Hwf Hn. unfold planMigrationContainers, sortMigrationStates. destruct (held o) as [|s0 l] eqn:Eh.
  - set (l := _ ++ _).
    assert (Forall fresh l) as Hf.
    { apply Forall_app. rewrite !Forall_fmap. split; apply Forall_true; intros t; simpl; do 4 eexists;
        (split; [|reflexivity]); member. }
    assert (NoDup (Container <$> l)) as Hnd.
    { unfold l. rewrite fmap_app, <-!list_fmap_compose. by rewrite fmap_app in Hn. }
    constructor.
    + rewrite sort_by_perm. by apply plan_fresh.
    + exists l, l. rewrite Eh. split; [by right|]. split; [|by rewrite sort_by_perm]. by induction l; constructor.
    + intros s Hin Hp. exfalso. rewrite sort_by_perm in Hin. eapply Forall_forall in Hf; [|exact Hin].
      destruct Hf as (node & name & phase & reason & Hph & ->). simpl in Hp. subst. clear -Hph. set_solver.
  - constructor.
    + rewrite sort_by_perm. by apply plan_refresh.
    + eapply evolves_perm; [|symmetry; apply sort_by_perm]. rewrite <-Eh.
      apply evolves_map; [apply refresh_step|apply evolves_refl].
    + intros s Hin Hp. rewrite sort_by_perm in Hin. apply list_elem_of_fmap in Hin as (s1 & -> & Hin). rewrite Eh.
      destruct (refresh_state_cases exclusive s1) as [[_ E]|(_ & Hq & _)]; [by rewrite E|].
      rewrite Hp in Hq. clear -Hq. set_solver.
Qed.

Lemma handled_stop o m1 m e :
  calls m1 = calls m -> may_write o (Containers (results m1)) ->
  handled o m (waitWithPersistedErr ans e m1).
Proof. intros. by apply handled_persist. Qed.

Lemma checkCapacity_containers cluster r : Containers (checkCapacity ans cluster r).1 = Containers r.
Proof.
  unfold checkCapacity. destruct (CapacityChecked r); [done|]. destruct (a_WekaStatus ans); [|done].
  case_decide; [done|]. by case_decide.
Qed.

Lemma planned_may_write o l : planned_ok o l -> may_write o l.
Proof. by intros []. Qed.

(** [Plan] either stops with one sound write or leaves planned entries in memory. *)
Lemma Plan_spec o r :
  Containers r = held o -> wf_entries (held o) -> names_unique ans ->
  match Plan ownerUID ans (mkMachine r []) with
  | (m, inl e) => handled o (mkMachine r []) (m, e)
  | (m, inr cluster) => calls m = [] /\ planned_ok o (Containers (results m)) /\ Containers (results m) <> []
  end.
Proof.
  destruct r as [rcl rt rd rcur rl rold rnew rprov rchk rblk rerr rsince]. simpl. intros Er Hwf Hu. subst rl.
  set (r := mkResult _ _ _ _ _ _ _ _ _ _ _ _).
  assert (may_write o (Containers r)) as Hw0 by (split; [done|apply evolves_refl]).
  assert (forall m1 e, calls m1 = [] -> may_write o (Containers (results m1)) ->
    match (let '(m, out) := waitWithPersistedErr ans e m1 in (m, inl (B := Cluster) out)) with
    | (m, inl e) => handled o (mkMachine r []) (m, e)
    | (m, inr cluster) => calls m = [] /\ planned_ok o (Containers (results m)) /\ Containers (results m) <> []
    end) as Hstop.
  { intros m1 e Hc Hw. pose proof (handled_stop o m1 (mkMachine r []) e Hc Hw) as H.
    by destruct (waitWithPersistedErr ans e m1). }
  unfold Plan. case_decide.
  { eexists [(MarkFailed _, _)]. split; [reflexivity|]. by simpl. }
  destruct (a_Cluster ans) as [cluster|]; [|by apply Hstop].
  destruct (refuseIfAnotherCampaignRunning ownerUID ans); [by apply Hstop|].
  destruct (requireMigrationSpec cluster _); [by apply Hstop|].
  destruct (discoverTargets ans cluster) as [[exclusive sharing]|] eqn:Ed; [|by apply Hstop].
  pose proof (planMigrationContainers_ok o exclusive sharing Hwf (discoverTargets_names _ _ _ Hu Ed)) as Hpl.
  simpl. set (planned := planMigrationContainers (held o) exclusive sharing) in *.
  apply planned_may_write in Hpl as Hpw.
  case_decide; [by apply Hstop|]. destruct (find _ planned); [by apply Hstop|].
  destruct (refuseIfSignPolicyMatches ans _); [by apply Hstop|].
  match goal with |- context [checkCapacity ans cluster ?r0] =>
    pose proof (checkCapacity_containers cluster r0) as Hcc; destruct (checkCapacity ans cluster r0) as [r1 [e|]] end;
    simpl in Hcc.
  - apply Hstop; [done|]. change (may_write o (Containers r1)). by rewrite Hcc.
  - split; [done|]. change (planned_ok o (Containers r1) /\ Containers r1 <> []). rewrite Hcc. split; [done|].
    by destruct planned.
Qed.

Lemma indexOf_none l phase : indexOfMigrationPhase l phase = None -> Forall (fun s => Phase s <> phase) l.
Proof. apply list_find_None. Qed.

Lemma indexOf_some l phase i s : indexOfMigrationPhase l phase = Some (i, s) -> l !! i = Some s /\ Phase s = phase.
Proof. intros H. by apply list_find_Some in H as (? & ? & _). Qed.

(** Every handler parks or fails: only [AdvanceOne] itself lets the pass go on. *)
Definition parks (x : machine * outcome) : Prop := x.2 <> Proceed.

Lemma persist_parks out m : out <> Proceed -> parks (persist_then ans out m).
Proof. intros Ho. unfold parks, persist_then. by destruct (do_call _ _ _) as [[]]. Qed.

Ltac parked := unfold parkOnErr, parkNode, enterSubPhase; repeat case_match; by first [apply persist_parks|unfold parks].

Lemma advanceInFlight_parks cluster i s m :
  parks (advanceInFlight ownerNamespace ownerName GetHash ans cluster i s m).
Proof.
  unfold advanceInFlight. repeat (case_decide; [|]).
  - unfold advanceDraining. parked.
  - unfold advanceSigning, sign_missing, retryFailedSignOp. parked.
  - unfold advanceProxy, verify_restart, restart_proxy. parked.
  - unfold advanceRejoining. parked.
  - parked.
Qed.

Lemma startPending_parks i s m : parks (startPending ans i s m).
Proof. unfold startPending. parked. Qed.

(** [AdvanceOne] makes sound calls, and lets the campaign end only when every entry is closed. *)
Lemma AdvanceOne_spec o m cluster :
  planned_ok o (Containers (results m)) ->
  let x := AdvanceOne ownerNamespace ownerName GetHash ans cluster m in
  handled o m x /\
  (x.2 = Proceed -> calls x.1 = calls m /\ Containers (results x.1) = Containers (results m) /\
    Forall (fun s => done_or_skipped s = true) (Containers (results m))).
Proof.
  intros [Hwf Hev Hh]. unfold AdvanceOne. destruct (indexOfMigrationPhase _ PhaseInFlight) as [[i s]|] eqn:Ei.
  - apply indexOf_some in Ei as [Hi Hp]. split.
    + apply handled_in_flight. constructor; try done. apply Hh; [by eapply list_elem_of_lookup_2|done].
    + intros E. by apply advanceInFlight_parks in E.
  - apply indexOf_none in Ei.
    assert (filter in_flight (Containers (results m)) = []) as Hnone by (by apply list_filter_none).
    destruct (Paused _).
    { split; [by apply handled_persist|]. intros E. by apply persist_parks in E. }
    destruct (indexOfMigrationPhase _ PhasePending) as [[i s]|] eqn:Ej.
    + apply indexOf_some in Ej as [Hi Hp]. split; [by apply handled_start|]. intros E. by apply startPending_parks in E.
    + apply indexOf_none in Ej. split; [by exists []; rewrite app_nil_r|]. intros _. split_and!; try done.
      rewrite Forall_forall. intros s Hs. rewrite Forall_forall in Ei, Ej. specialize (Ei s Hs). specialize (Ej s Hs).
      pose proof (we_states _ Hwf) as Hst. rewrite Forall_forall in Hst. pose proof (wf_phase _ (Hst s Hs)) as Hph.
      unfold done_or_skipped. apply bool_decide_eq_true. clear -Hph Ei Ej. set_solver.
Qed.

Lemma finalize_spec o m cluster :
  planned_ok o (Containers (results m)) -> Containers (results m) <> [] ->
  Forall (fun s => done_or_skipped s = true) (Containers (results m)) ->
  handled o m (finalize ans cluster m).
Proof.
  intros Hpl Hne Hall.
  assert (forall m', results m' = results m -> handled o m'
    match do_call (a_Call ans) (MarkDone (results m')) m' with
    | (None, m0) => (m0, Proceed)
    | (Some e, m0) => (m0, PlainError (error_text e))
    end) as Hmark.
  { intros m' E. exists [(MarkDone (results m'), a_Call ans (calls m') (MarkDone (results m')))]. rewrite E. split.
    - unfold do_call. by destruct (a_Call _ _ _).
    - apply planned_may_write in Hpl. by simpl. }
  unfold finalize. case_decide; [by apply Hmark|]. apply handled_call; [done| |].
  - exists (Containers (results m)). split; [apply Hpl|done].
  - intros [e|] m' E; [by exists []; rewrite app_nil_r|by apply Hmark].
Qed.

(** Every call of a pass is sound. *)
Lemma pass_audit o :
  wf_entries (held o) -> names_unique ans ->
  audit stored sound o (calls (pass ownerUID ownerNamespace ownerName GetHash ans o).1).
Proof.
  intros Hwf Hu. unfold pass. destruct (terminal o); [done|].
  pose proof (Plan_spec o (default zero_result (ow_Result o)) eq_refl Hwf Hu) as Hp.
  destruct (Plan _ _ _) as [m [e|cluster]].
  - destruct Hp as (l & -> & Hl). done.
  - destruct Hp as (Hc & Hpl & Hne). pose proof (AdvanceOne_spec o m cluster Hpl) as [(l & Hl & Ha) Hend].
    destruct (AdvanceOne _ _ _ _ _ _) as [m1 []]; simpl in Hl, Hend |- *; try by rewrite Hl, Hc.
    destruct Hend as (Hc1 & Hr1 & Hall); [done|]. rewrite <-Hr1 in Hpl, Hne, Hall.
    destruct (finalize_spec o m1 cluster Hpl Hne Hall) as (l' & -> & Hl'). by rewrite Hc1, Hc.
Qed.
End handlers.

(** ** Runs *)

Lemma wf_entries_stored l : wf_entries l -> wf_entries (stored_state <$> l).
Proof.
  intros [H1 H2 H3 H4 H5].
  assert (Container <$> (stored_state <$> l) = Container <$> l) as En by (by rewrite <-list_fmap_compose).
  assert (replacements (stored_state <$> l) = replacements l) as Er
    by (unfold replacements; by rewrite <-list_fmap_compose).
  constructor; rewrite ?En, ?Er; try done.
  - rewrite Forall_fmap. eapply Forall_impl; [exact H1|apply wf_stored].
  - replace (length (filter in_flight (stored_state <$> l))) with (length (filter in_flight l)); [done|].
    clear. induction l as [|s l IH]; [done|]. rewrite fmap_cons, !filter_cons.
    destruct (decide (in_flight s)) as [Hs|Hs]; [rewrite decide_True by exact Hs|rewrite decide_False by exact Hs; done].
    simpl. by rewrite IH.
Qed.

(** A sound call keeps the invariant, and moves the entries legally. *)
Lemma apply_call_ok o e :
  wf_entries (held o) -> writes o e.1 -> wf_entries (held (apply_call stored o e)) /\ evolves (held o) (held (apply_call stored o e)).
Proof.
  intros Hwf Hw. destruct e as [c [a|]]; destruct c; try (by split; [|apply evolves_refl]).
  all: destruct Hw as [Hw1 Hw2]; split; [by apply wf_entries_stored|].
  all: apply evolves_map; [apply entry_step_stored|exact Hw2].
Qed.

(** The entries are the same ones, each at least as far as before. *)
Definition follows (l l' : list ContainerState) : Prop :=
  (l <> [] -> Container <$> l' ≡ₚ Container <$> l) /\ (forall s, s ∈ l -> exists s', s' ∈ l' /\ entry_step s s').

#[export] Instance follows_refl : Reflexive follows.
Proof. split; [done|]. intros s Hs. by exists s. Qed.

#[export] Instance follows_trans : Transitive follows.
Proof.
  intros l1 l2 l3 [N1 E1] [N2 E2]. split.
  - intros Hne. assert (l2 <> []) as Hne2.
    { intros ->. specialize (N1 Hne). apply Permutation_length in N1. by destruct l1. }
    rewrite N2 by done. auto.
  - intros s Hs. destruct (E1 s Hs) as (s2 & Hs2 & H12). destruct (E2 s2 Hs2) as (s3 & Hs3 & H23).
    exists s3. split; [done|]. by etrans.
Qed.

Lemma evolves_follows l l' : evolves l l' -> follows l l'.
Proof. intros He. split; [intros; by apply evolves_names|intros; by eapply evolves_elem]. Qed.

#[export] Instance held_follows_preorder : PreOrder (fun o o' => follows (held o) (held o')).
Proof. split; [by intros o|]. intros o1 o2 o3 H12 H23. by etrans. Qed.

Lemma sound_step o e :
  wf_entries (held o) -> sound o e.1 ->
  wf_entries (held (apply_call stored o e)) /\ follows (held o) (held (apply_call stored o e)).
Proof. intros Hwf [_ Hw]. destruct (apply_call_ok o e Hwf Hw) as [? ?]. split; [done|by apply evolves_follows]. Qed.

Section campaign.
Context (uid namespace name : string) (hash : string -> nat -> string).

Lemma campaign_run o h o' h' :
  wf_entries (held o) -> rtc (campaign_step uid namespace name hash) (o, h) (o', h') ->
  wf_entries (held o') /\ follows (held o) (held o') /\
  exists l, audit stored sound o l /\ o' = apply_log stored o l /\ h' = h ++ l.
Proof.
  intros Hwf. eapply (cut_pass_run stored sound names_unique _ (fun o => wf_entries (held o)) (fun o o' => follows (held o) (held o')));
    [apply sound_step| |done]. intros ans o1 Hu Hw. by apply pass_audit.
Qed.

Lemma created_wf : wf_entries (held created).
Proof. constructor; simpl; try constructor. lia. Qed.
End campaign.

(** ** Completion *)

(** The steps a campaign still has to make. *)
Definition remaining (l : list ContainerState) : Z := sumZ ((fun s => 5 - rank s) <$> l).

Lemma remaining_nonneg l : 0 <= remaining l.
Proof. apply sumZ_nonneg, Forall_fmap, Forall_true. intros s. simpl. pose proof (rank_bounds s). lia. Qed.

Lemma remaining_evolves l l' : l <> [] -> evolves l l' -> remaining l' <= remaining l.
Proof.
  intros Hne (base & moved & Hb & Hf & Hp). destruct Hb as [->|[-> _]]; [|done]. unfold remaining.
  rewrite <-Hp. clear Hp Hne. induction Hf as [|x y xs ys Hxy _ IH]; [done|].
  rewrite !fmap_cons. simpl. pose proof (es_rank _ _ Hxy). lia.
Qed.

Lemma remaining_put l i s s' : l !! i = Some s -> remaining (<[i := s']> l) = remaining l - rank s' + rank s.
Proof. intros Hi. unfold remaining. rewrite (sumZ_fmap_insert _ _ _ _ _ Hi). lia. Qed.

Lemma remaining_stored l : remaining (stored_state <$> l) = remaining l.
Proof. unfold remaining. by rewrite <-list_fmap_compose. Qed.

Section completion.
Context (uid namespace name : string) (hash : string -> nat -> string).

(** The environment lets the entry [s] of a planned campaign take its next step. *)
Definition clear_for (ans : answers) (cluster : Cluster) (r : Result) (s : ContainerState) : Prop :=
  if decide (Phase s = PhasePending) then
    Paused (a_Payload ans) = false /\
    exists c skip s1 status, a_Container ans (Container s) = Ok (c, skip) /\
      recordDriveInventory ans c (s <| SubPhase := SubPhaseGate |>) = Ok s1 /\ Allowed (a_Gate ans "") = true /\
      a_WekaStatus ans = Ok status /\ CapacityBytes s1 <= rawBytesFromUsable (UnprovisionedBytes status) status
  else if decide (SubPhase s = SubPhaseDraining) then exists msg, a_Container ans (Container s) = Err (NotFound msg)
  else if decide (SubPhase s = SubPhaseSigning) then serialsMissingFromSharedDrives ans s = Ok []
  else if decide (SubPhase s = SubPhaseProxy) then
    a_Proxy ans (Node s) = Err SsdProxyNotFoundError \/
    exists proxy, a_Proxy ans (Node s) = Ok proxy /\
      (if ProxyRestarted s then proxyPodRunning ans proxy = Ok None /\
         exists verdicts, a_ProxyRecovered ans = Ok verdicts /\ AllAllowed verdicts = None
       else proxyRestartReason ans s proxy = Ok None)
  else exists c, findReplacement ans cluster r s = Ok (Some c) /\ cst_Status (cn_Status c) = ContainerRunning /\
    (ca_VirtualDrives <$> cst_Allocations (cn_Status c)) ∉ [None; Some []] /\ Allowed (a_Gate ans (GetNodeAffinity c)) = true.

(** The environment cooperates with a campaign at [o]: the plan goes through, calls succeed, and the entry that is
    next can take its step. *)
Record cooperates (ans : answers) (o : owner) : Prop := mkCooperates {
  co_names : names_unique ans;
  co_calls : forall l c, a_Call ans l c = None;
  co_pass : exists m cluster, Plan uid ans (mkMachine (default zero_result (ow_Result o)) []) = (m, inr cluster) /\
    (forall i s, indexOfMigrationPhase (Containers (results m)) PhaseInFlight = Some (i, s) ->
       clear_for ans cluster (results (set_Current (Node s) m)) s) /\
    (indexOfMigrationPhase (Containers (results m)) PhaseInFlight = None -> Paused (a_Payload ans) = false /\
     forall i s, indexOfMigrationPhase (Containers (results m)) PhasePending = Some (i, s) ->
       clear_for ans cluster (results m) s) }.

Lemma persisted_held ans o out m :
  (forall l c, a_Call ans l c = None) ->
  apply_log stored o (calls (persist_then ans out m).1) =
    apply_call stored (apply_log stored o (calls m)) (PersistProgress (results m) : call, None).
Proof.
  intros Hc. unfold persist_then, do_call. rewrite Hc. simpl. destruct m as [r l]. simpl.
  unfold apply_log. by rewrite foldl_app.
Qed.

(** A pass that stored the planned entries with the one at [i] further on. *)
Definition advanced (o : owner) (l : list ContainerState) (i : nat) (s : ContainerState) (x : machine) : Prop :=
  exists (l0 : log) r s', apply_log stored o (calls x) = apply_call stored (apply_log stored o l0) (PersistProgress r : call, None) /\
    Forall (fun e => outside e.1) l0 /\ Containers r = <[i := s']> l /\ rank s < rank s'.

Section passes.
Context (ans : answers) (Hcalls : forall l c, a_Call ans l c = None).

Lemma persist_advanced o out m l i s s' :
  Forall (fun e => outside e.1) (calls m) -> Containers (results m) = <[i := s']> l -> rank s < rank s' ->
  advanced o l i s (persist_then ans out m).1.
Proof. intros. exists (calls m), (results m), s'. by rewrite persisted_held. Qed.

Lemma enter_advanced o i sub why s m :
  Forall (fun e => outside e.1) (calls m) -> Phase s = PhaseInFlight -> sub_rank (SubPhase s) < sub_rank sub ->
  advanced o (Containers (results m)) i s (enterSubPhase ans i sub why s m).1.
Proof. intros Hl Hf Hr. eapply persist_advanced; [done|reflexivity|]. by rewrite !rank_in_flight. Qed.

Lemma advanceInFlight_advances o cluster i s m :
  calls m = [] -> wf_state s -> Phase s = PhaseInFlight -> clear_for ans cluster (results (set_Current (Node s) m)) s ->
  advanced o (Containers (results m)) i s (advanceInFlight namespace name hash ans cluster i s m).1.
Proof.
  intros Hm Hwf Hf. unfold clear_for. rewrite Hf, decide_False by done. destruct (wf_in_flight _ Hwf Hf) as [Hsub _].
  unfold advanceInFlight. set (m1 := set_Current (Node s) m).
  assert (calls m1 = []) as Hm1 by done. change (Containers (results m)) with (Containers (results m1)).
  case_decide as E; [|case_decide as E2; [|case_decide as E3; [|]]].
  - intros [msg Hc]. unfold advanceDraining. rewrite Hc. apply enter_advanced; [rewrite Hm1; apply Forall_nil_2|done|by rewrite E].
  - intros Hs. unfold advanceSigning, do_call. rewrite Hcalls, Hs.
    set (m2 := mkMachine (results m1) (calls m1 ++ [(act (RemoveFullDrives (Node s) (Serials s)), None)])).
    change (Containers (results m1)) with (Containers (results m2)). apply enter_advanced; [|done|by rewrite E2].
    change (Forall (fun e => outside e.1) (calls m1 ++ [(act (RemoveFullDrives (Node s) (Serials s)), None)])).
    rewrite Hm1. by repeat constructor.
  - unfold advanceProxy. intros [->|(proxy & -> & Hp)]; [apply enter_advanced; [rewrite Hm1; apply Forall_nil_2|done|by rewrite E3]|].
    destruct (ProxyRestarted s).
    + destruct Hp as (Hp & verdicts & Hv & Ha). unfold verify_restart. rewrite Hp, Hv, Ha.
      change (Containers (results m1)) with (Containers (results (set_Blocked [] m1))).
      apply enter_advanced; [|done|by rewrite E3].
      change (Forall (fun e => outside e.1) (calls m1)). rewrite Hm1. apply Forall_nil_2.
    + rewrite Hp. apply enter_advanced; [rewrite Hm1; apply Forall_nil_2|done|by rewrite E3].
  - rewrite decide_True by (clear -Hsub E E2 E3; set_solver).
    intros (c & Hfind & Hst & Hvd & Hg). unfold advanceRejoining. rewrite Hfind, decide_False by (by intros ?).
    rewrite decide_False by done. rewrite Hg. simpl negb. cbv iota.
    eapply persist_advanced; [|reflexivity|].
    { change (Forall (fun e => outside e.1) (calls m1)). rewrite Hm1. apply Forall_nil_2. }
    rewrite rank_in_flight by done.
    unfold sub_rank. by repeat case_decide.
Qed.

Lemma startPending_advances o cluster i s m :
  calls m = [] -> Phase s = PhasePending -> clear_for ans cluster (results m) s ->
  advanced o (Containers (results m)) i s (startPending ans i s m).1.
Proof.
  intros Hm Hp. unfold clear_for. rewrite decide_True by done.
  intros (_ & c & skip & s1 & status & Hc & Hr & Hg & Hst & Hcap). unfold startPending.
  change (Container (s <| SubPhase := SubPhaseGate |>)) with (Container s). rewrite Hc, Hr, Hg, Hst. simpl negb. cbv iota.
  rewrite decide_False by lia. eapply persist_advanced; [|reflexivity|by rewrite rank_pending].
  change (Forall (fun e => outside e.1) (calls m)). rewrite Hm. apply Forall_nil_2.
Qed.
End passes.

(** The owner after a whole pass. *)
Definition after_pass (ans : answers) (o : owner) : owner := apply_log stored o (calls (pass uid namespace name hash ans o).1).

Lemma advanced_owner o l i s x :
  l !! i = Some s -> evolves (held o) l -> held o <> [] -> terminal o = false -> advanced o l i s x ->
  terminal (apply_log stored o (calls x)) = false /\ held (apply_log stored o (calls x)) <> [] /\
  remaining (held (apply_log stored o (calls x))) < remaining (held o).
Proof.
  intros Hi Hev Hne Ht (l0 & r & s' & -> & Hl0 & Hr & Hrk). rewrite (outside_log stored o l0 Hl0).
  assert (held (apply_call stored o (PersistProgress r : call, None)) = stored_state <$> <[i := s']> l) as -> by (by rewrite <-Hr).
  split_and!.
  - unfold terminal in *. simpl. destruct (decide (ow_Status o = "")); [done|exact Ht].
  - intros E. apply (f_equal length) in E. rewrite length_fmap, length_insert in E. apply lookup_lt_Some in Hi. simpl in E. lia.
  - rewrite remaining_stored, (remaining_put _ _ _ _ Hi). pose proof (remaining_evolves _ _ Hne Hev). lia.
Qed.

Lemma finalize_done ans o cluster m :
  (forall l c, a_Call ans l c = None) -> ow_Status (apply_log stored o (calls (finalize ans cluster m).1)) = "Done".
Proof.
  intros Hc. unfold finalize, do_call. destruct m as [r l].
  case_decide; rewrite ?Hc; simpl; unfold apply_log; by rewrite !foldl_app.
Qed.

(** A pass the environment cooperates with ends the campaign or brings it strictly closer to the end. *)
Lemma pass_progress ans o :
  wf_entries (held o) -> held o <> [] -> terminal o = false -> cooperates ans o ->
  ow_Status (after_pass ans o) = "Done" \/
  terminal (after_pass ans o) = false /\ held (after_pass ans o) <> [] /\
  remaining (held (after_pass ans o)) < remaining (held o).
Proof.
  intros Hwf Hne Ht [Hu Hcalls (m & cluster & Hplan & Hfl & Hpe)]. unfold after_pass, pass. rewrite Ht.
  pose proof (Plan_spec uid ans o (default zero_result (ow_Result o)) eq_refl Hwf Hu) as Hp. rewrite Hplan in Hp |- *.
  destruct Hp as (Hc & Hpl & _). pose proof (AdvanceOne_spec namespace name hash ans o m cluster Hpl) as [_ Hend].
  destruct Hpl as [Hwf' Hev Hh]. unfold AdvanceOne in *.
  destruct (indexOfMigrationPhase (Containers (results m)) PhaseInFlight) as [[i s]|] eqn:Ei.
  - apply indexOf_some in Ei as [Hi Hph]. specialize (Hfl i s eq_refl). right.
    pose proof (Forall_lookup_1 _ _ _ _ (we_states _ Hwf') Hi) as Hs.
    pose proof (advanceInFlight_advances ans Hcalls o cluster i s m Hc Hs Hph Hfl) as Ha.
    pose proof (advanceInFlight_parks namespace name hash ans cluster i s m) as Hpk. unfold parks in Hpk.
    destruct (advanceInFlight _ _ _ _ _ _ _ _) as [m1 []]; [done| |]; by apply (advanced_owner o _ i s m1 Hi).
  - destruct (Hpe eq_refl) as [Hpa Hst]. rewrite Hpa in *.
    destruct (indexOfMigrationPhase (Containers (results m)) PhasePending) as [[i s]|] eqn:Ej.
    + apply indexOf_some in Ej as [Hi Hph]. specialize (Hst i s eq_refl). right.
      pose proof (startPending_advances ans Hcalls o cluster i s m Hc Hph Hst) as Ha.
      pose proof (startPending_parks ans i s m) as Hpk. unfold parks in Hpk.
      destruct (startPending _ _ _ _) as [m1 []]; [done| |]; by apply (advanced_owner o _ i s m1 Hi).
    + left. by apply finalize_done.
Qed.

Lemma after_pass_wf ans o : wf_entries (held o) -> names_unique ans -> wf_entries (held (after_pass ans o)).
Proof.
  intros Hwf Hu. eapply (audit_log stored sound (fun o => wf_entries (held o)) (fun o o' => follows (held o) (held o')));
    [apply sound_step|done|by apply pass_audit].
Qed.

Lemma after_pass_terminal ans o : terminal o = true -> after_pass ans o = o.
Proof. intros Ht. unfold after_pass, pass. by rewrite Ht. Qed.
End completion.
