(* ===== verification/MigrationRuns.v ===== *)
(** * Theorems on campaigns of the migration to drive sharing, with concrete runs

    A campaign is a run of passes, each possibly cut short, from the object just created. *)

From coqutil Require Import Datatypes.RecordSetters.
From stdpp Require Import relations.
From S2P Require Import Prelude Fmt Types Sizing Ports Strategies VirtualDrives Api Nodes Templates Disruption Campaign Migration MigrationFacts.
Import TriangleBracketNotations.
Import Migration.

Section theorems.
Context (uid namespace name : string) (hash : string -> nat -> string).
Local Abbreviation step := (campaign_step uid namespace name hash).
Local Abbreviation run := (passes (after_pass uid namespace name hash)).

(** C13: Whatever the environment answers and wherever passes are cut short, the stored result of a campaign stays
    well-formed: at most one drive container is in flight, in a known sub-phase and with its serials, capacity and
    start recorded; pending ones have done nothing; no replacement is a container of the campaign or is claimed twice. *)
Theorem campaign_invariant o h : rtc step (created, []) (o, h) -> wf_entries (held o).
Proof. intros Hr. apply (campaign_run _ _ _ _ _ _ _ _ created_wf Hr). Qed.


(** C14: A campaign only moves forward: the set of containers is frozen once planned, and along any run every entry keeps
    its recorded serials, drives and capacity, never returns to an earlier phase or sub-phase, never loses the sign
    latch, and never changes its outcome once it is done or skipped. *)
Theorem campaign_forward o h o' h' :
  rtc step (created, []) (o, h) -> rtc step (o, h) (o', h') -> follows (held o) (held o').
Proof.
  intros H1 H2. destruct (campaign_run _ _ _ _ _ _ _ _ created_wf H1) as [Hwf _]. by apply (campaign_run _ _ _ _ _ _ _ _ Hwf H2).
Qed.

End theorems.

(** ** A cluster with one exclusive drive container *)

Definition mg_spec : ClusterSpec := {|
  csp_Dynamic := Some (zero_template <| wt_DriveContainers := 1 |> <| wt_ContainerCapacity := 2000 |>);
  csp_StripeWidth := 3; csp_RedundancyLevel := 2; csp_HotSpare := 1; csp_CpuPolicy := ""; csp_Image := "weka:4.4";
  csp_NodeSelector := ∅; csp_RoleNodeSelector := Build_RoleNodeSelector None None None None None None;
  csp_FailureDomain := None; csp_Overrides := None |}.

Definition mg_container (name node : string) (created capacity : Z) (serials : list string) (vds : list VirtualDrive)
    : Api.Container := {|
  cn_Name := name; cn_Namespace := "ns"; cn_CreationTimestamp := created; cn_Deleted := false; cn_OwnerReferences := [];
  cn_Spec := {| cs_Mode := WekaContainerModeDrive; cs_Image := "weka:4.4"; cs_State := ContainerStateActive;
    cs_CpuPolicy := ""; cs_NumCores := 1; cs_ExtraCores := 0; cs_Resources := None; cs_Hugepages := 1000;
    cs_HugepagesOffset := 0; cs_HugepagesSize := "2Mi"; cs_NumDrives := 0; cs_DriveCapacity := 0;
    cs_ContainerCapacity := capacity; cs_DriveTypesRatio := None; cs_NodeAffinity := node; cs_RotatePod := false;
    cs_NodeSelector := ∅; cs_DpdkBaseMemoryMb := 0 |};
  cn_Status := {| cst_Status := "Running"; cst_ManagementIps := []; cst_NodeAffinity := node;
    cst_LastAppliedImage := "weka:4.4"; cst_ClusterContainerID := None; cst_PodOutdated := false;
    cst_Allocations := Some (mkAllocations serials (mkPortAlloc 0 0) vds) |} |}.

Definition mg_old : Api.Container := mg_container "d1" "n1" 1 0 ["S1"] [].
Definition mg_new : Api.Container :=
  mg_container "d2" "n1" 200000000000 2000 [] [mkVirtual "V1" "" "P1" 1000 "S1" "TLC"].
Definition mg_proxy : Api.Container := mg_container "proxy" "n1" 1 0 [] [].

Definition mg_node (shared : annotation (list SharedDriveInfo)) : Nodes.Node := {|
  n_Name := "n1"; n_Labels := ∅; n_Unschedulable := false; n_Taints := []; n_Conditions := []; n_AllocatableCpuMilli := 0;
  n_AllocatableHugepages2Mi := 0; n_AllocatableMemory := 0; n_Discovery := Absent;
  n_FullDrives := Decoded [mkEntry "S1" 1000]; n_BlockedDrives := Absent; n_SharedDrives := shared;
  n_BlockedPhysicalUuids := Absent |}.

Definition mg_allow : ClusterVerdict := mkVerdict "ns" "c" "g" true "".
Definition mg_status : WekaStatus := mkWekaStatus 3 2 1 (1000 * gibBytes) (900 * gibBytes).

(** The old container is there, everybody cooperates. *)
Definition mg_start : answers := {|
  a_Payload := mkPayload "ns" "c" ∅ false None None; a_Now := 100500000000;
  a_Cluster := Ok (mkCluster "ns" "c" mg_spec SizingModeMigrationDriveSharing); a_Operations := Ok [];
  a_DriveContainers := Ok [mg_old]; a_SelectedNodes := Ok []; a_Policies := Ok []; a_NodeLabels := fun _ => Ok ∅;
  a_WekaStatus := Ok mg_status; a_Container := fun _ => Ok (mg_old, false); a_ContainerDrives := fun _ => Ok [];
  a_Node := fun _ => Ok (mg_node Absent); a_Gate := fun _ => mg_allow; a_PodNamespace := Ok "operator";
  a_Child := fun _ => Err (NotFound "no such operation"); a_Proxy := fun _ => Ok mg_proxy;
  a_Pod := Ok (mkPod "Running" (Ok {[ "hugepages-2Mi" := 1000 * 2 ^ 20 ]}));
  a_ProxyDrives := Ok ["P1"]; a_ProxyGate := Ok [mg_allow]; a_ProxyRecovered := Ok [mg_allow];
  a_DriveContainersNow := Ok [mg_new]; a_Call := fun _ _ => None |}.

(** The old container is gone, its drive is not signed for the proxy. *)
Definition mg_gone : answers :=
  mg_start <| a_DriveContainers := Ok [] |> <| a_Container := fun _ => Err (NotFound "no such container") |>.

(** Its drive is signed. *)
Definition mg_signed : answers := mg_gone <| a_Node := fun _ => Ok (mg_node (Decoded [mkShared "P1" "S1" 1000 "TLC"])) |>.

(** The running proxy does not see the drive. *)
Definition mg_unseen : answers := mg_signed <| a_ProxyDrives := Ok [] |>.

Definition mg_hash (s : string) (n : nat) : string := String.substring 0 n s.
Abbreviation mg_pass := (after_pass "u" "operator" "op" mg_hash).
Abbreviation mg_calls ans o := (calls (pass "u" "operator" "op" mg_hash ans o).1).

(** The owner and the history after the passes with these answers. *)
Definition mg_passes (l : list answers) : owner * log :=
  whole_passes stored (fun ans o => mg_calls ans o) l (created, []).
Definition mg_run (l : list answers) : owner := (mg_passes l).1.
Definition mg_history (l : list answers) : log := (mg_passes l).2.

Lemma mg_reachable l :
  Forall names_unique l ->
  rtc (campaign_step "u" "operator" "op" mg_hash) (created, []) (mg_run l, mg_history l).
Proof. intros Hu. unfold mg_run, mg_history. rewrite <-surjective_pairing. by apply whole_passes_cut. Qed.

(** A whole pass or a cut one, as a step. *)
Lemma mg_step k ans o h :
  names_unique ans -> campaign_step "u" "operator" "op" mg_hash (o, h)
    (apply_log stored o (take k (mg_calls ans o)), h ++ take k (mg_calls ans o)).
Proof. exact (cut_pass_intro stored names_unique (fun ans o => mg_calls ans o) ans k o h). Qed.

Lemma mg_unique ans : a_DriveContainers ans = Ok [mg_old] \/ a_DriveContainers ans = Ok [] \/ a_DriveContainers ans = Ok [mg_new] ->
  names_unique ans.
Proof. intros H cs E. rewrite E in H. destruct H as [[= ->]|[[= ->]|[= ->]]]; repeat constructor; by apply not_elem_of_nil. Qed.

(** The passes from the creation to Done. *)
Definition mg_campaign : list answers :=
  [mg_start; mg_start; mg_gone; mg_gone; mg_signed; mg_unseen; mg_signed; mg_signed; mg_signed].

Lemma mg_campaign_unique k : Forall names_unique (take k mg_campaign).
Proof. apply Forall_take. repeat constructor; apply mg_unique; by auto. Qed.

Lemma campaign_invariant_witness :
  (exists s, held (mg_run (take 6 mg_campaign)) = [s] /\ in_flight s /\ ProxyRestarted s = true) /\
  wf_entries (held (mg_run (take 6 mg_campaign))).
Proof.
  split; [eexists; split_and!; vm_compute; reflexivity|].
  exact (campaign_invariant "u" "operator" "op" mg_hash _ _ (mg_reachable _ (mg_campaign_unique 6))).
Defined.


Lemma campaign_forward_witness :
  follows (held (mg_run (take 1 mg_campaign))) (held (mg_run (take 1 mg_campaign ++ [mg_start]))).
Proof.
  apply (campaign_forward "u" "operator" "op" mg_hash _ (mg_history (take 1 mg_campaign)) _
           (mg_history (take 1 mg_campaign) ++ mg_calls mg_start (mg_run (take 1 mg_campaign)))).
  - apply mg_reachable, mg_campaign_unique.
  - apply rtc_once. pose proof (mg_step 9 mg_start (mg_run (take 1 mg_campaign)) (mg_history (take 1 mg_campaign))) as Hs.
    rewrite !(firstn_all2 (n := 9)) in Hs by (vm_compute; lia). apply Hs, mg_unique. by auto.
Defined.

Lemma mg_plan ans o m cluster :
  Plan "u" ans (mkMachine (default zero_result (ow_Result o)) []) = (m, inr cluster) ->
  names_unique ans -> (forall l c, a_Call ans l c = None) -> Paused (a_Payload ans) = false ->
  (forall i s, indexOfMigrationPhase (Containers (results m)) PhaseInFlight = Some (i, s) ->
     clear_for ans cluster (results (set_Current (Node s) m)) s) ->
  indexOfMigrationPhase (Containers (results m)) PhasePending = None -> cooperates "u" ans o.
Proof.
  intros Hp Hu Hc Hpa Hf Hn. constructor; [done..|]. exists m, cluster. split_and!; [done..|]. intros _. split; [done|].
  intros i s E. by rewrite Hn in E.
Qed.

(** From the drain on, an environment that answers like [mg_signed]. *)
Definition mg_calm (n : nat) : answers := mg_signed.
Definition mg_at (n : nat) : owner := passes (after_pass "u" "operator" "op" mg_hash) mg_calm n (mg_run [mg_start]).

Lemma mg_cooperates n : (n <= 4)%nat -> cooperates "u" (mg_calm n) (mg_at n).
Proof.
  intros Hn. destruct n as [|[|[|[|[|n]]]]]; [clear Hn..|lia].
  all: eapply mg_plan; [vm_compute; reflexivity|apply mg_unique; by auto|done|done| |vm_compute; reflexivity].
  all: intros i s E; vm_compute in E; simplify_eq; unfold clear_for; simpl.
  - by exists "no such container".
  - vm_compute. reflexivity.
  - right. exists mg_proxy. split; [done|vm_compute; reflexivity].
  - exists mg_new. split_and!; [vm_compute; reflexivity|done| |done]. apply (bool_decide_unpack _). vm_compute. exact I.
Qed.


(** ** What can go wrong *)

(** The campaign just before the proxy is checked, and after a pass that was cut short between the stored
    intent to restart the proxy and the restart. *)
Definition mg_before : owner := mg_run (take 5 mg_campaign).
Definition mg_cut : owner := apply_log stored mg_before (take 1 (mg_calls mg_unseen mg_before)).
Definition mg_cut_history : log :=
  mg_history (take 5 mg_campaign) ++ take 1 (mg_calls mg_unseen mg_before) ++ mg_calls mg_unseen mg_cut.


(** The restart of the proxy can be lost: when the operator stops between storing the intent and deleting the pod,
    the next pass finds the intent and the old pod running, and goes on to wait for the replacement, although the
    proxy still does not see the migrated drives and was never restarted. *)
Theorem restart_can_be_lost :
  exists o h s, rtc (campaign_step "u" "operator" "op" mg_hash) (created, []) (o, h) /\
    held o = [s] /\ SubPhase s = SubPhaseRejoining /\ ProxyRestarted s = true /\
    Forall (fun e => match e.1 with Act (DeleteProxyPod _ _) => False | _ => True end) h /\
    proxyRestartReason mg_unseen s mg_proxy =
      Ok (Some "1 newly signed physical drive(s) are not visible to the running proxy").
Proof.
  assert (names_unique mg_unseen) as Hu by (apply mg_unique; auto).
  set (k := length (mg_calls mg_unseen mg_cut)).
  exists (apply_log stored mg_cut (take k (mg_calls mg_unseen mg_cut))).
  exists ((mg_history (take 5 mg_campaign) ++ take 1 (mg_calls mg_unseen mg_before)) ++ take k (mg_calls mg_unseen mg_cut)).
  eexists. split; [|split_and!; [vm_compute; reflexivity..| |vm_compute; reflexivity]].
  - eapply rtc_r; [|by apply mg_step]. eapply rtc_r; [|by apply mg_step]. apply mg_reachable, mg_campaign_unique.
  - vm_compute. repeat constructor.
Qed.

(** *** The annotation *)

Definition all_closed (l : list ContainerState) : Prop :=
  len l > 0 /\ countMigrationDoneOrSkipped l = len l.

Lemma no_annotation_stuck uid namespace name hash ans o :
  ~ all_closed (held o) ->
  (forall cluster, a_Cluster ans = Ok cluster -> SizingModeMigration cluster <> SizingModeMigrationDriveSharing) ->
  ow_Status o <> "Done" ->
  ow_Status (after_pass uid namespace name hash ans o) <> "Done" /\
  (held (after_pass uid namespace name hash ans o) = held o \/
   held (after_pass uid namespace name hash ans o) = stored_state <$> held o).
Proof.
  intros Hnc Ha Hnd. unfold after_pass, pass. destruct (terminal o) eqn:Ht; [by split; [|left]|].
  set (r := default zero_result (ow_Result o)).
  assert (forall e m, calls m = [] -> Containers (results m) = held o ->
    let x := let '(m, out) := waitWithPersistedErr ans e m in (m, inl (B := Cluster) out) in
    let l := calls (match x with
      | (m, inl e) => (m, e)
      | (m, inr cluster) => match AdvanceOne namespace name hash ans cluster m with
                            | (m, Proceed) => finalize ans cluster m | stopped => stopped end end).1 in
    ow_Status (apply_log stored o l) <> "Done" /\ (held (apply_log stored o l) = held o \/ held (apply_log stored o l) = stored_state <$> held o)) as Hstop.
  { intros e m Hm Hc. unfold waitWithPersistedErr, persist_then, do_call. destruct m as [rm lm]. simpl in Hm, Hc. subst lm. simpl.
    destruct (a_Call ans [] _); simpl; [by split; [|left]|]. split.
    - by destruct (decide (ow_Status o = "")).
    - right. by rewrite <-Hc. }
  unfold Plan. simpl. case_decide.
  { unfold failTerminally, do_call. simpl. destruct (a_Call ans [] _); simpl; [by split; [|left]|split; [done|by right]]. }
  destruct (a_Cluster ans) as [cluster|] eqn:Ec; [|by apply Hstop].
  destruct (refuseIfAnotherCampaignRunning uid ans); [by apply Hstop|].
  match goal with |- context [requireMigrationSpec cluster ?r] =>
    assert (exists e, requireMigrationSpec cluster r = Some e) as [e ->] end; [|by apply Hstop].
  unfold requireMigrationSpec. rewrite decide_False by exact Hnc.
  destruct (_ || _); [by eexists|]. rewrite decide_True by (by apply Ha). by eexists.
Qed.

Lemma all_closed_stored l : all_closed (stored_state <$> l) <-> all_closed l.
Proof.
  unfold all_closed, countMigrationDoneOrSkipped. rewrite length_fmap.
  assert (length (filter (fun s => done_or_skipped s = true) (stored_state <$> l)) =
          length (filter (fun s => done_or_skipped s = true) l)) as ->; [|done].
  induction l as [|s l IH]; [done|]. rewrite fmap_cons, !filter_cons.
  change (done_or_skipped (stored_state s)) with (done_or_skipped s). case_decide; simpl; by rewrite IH.
Qed.

(** An unfinished campaign whose cluster has lost the annotation never ends. *)
Lemma no_annotation_never_done uid namespace name hash env n o :
  ~ all_closed (held o) -> ow_Status o <> "Done" ->
  (forall k cluster, a_Cluster (env k) = Ok cluster -> SizingModeMigration cluster <> SizingModeMigrationDriveSharing) ->
  ow_Status (passes (after_pass uid namespace name hash) env n o) <> "Done" /\ ~ all_closed (held (passes (after_pass uid namespace name hash) env n o)).
Proof.
  intros Hc Hd Ha. induction n as [|n [IH1 IH2]]; [done|]. simpl.
  destruct (no_annotation_stuck uid namespace name hash (env n) _ IH2 (Ha n) IH1) as [H1 H2].
  split; [done|]. destruct H2 as [->| ->]; by rewrite ?all_closed_stored.
Qed.

(** Every drive container already shares drives, and the last status update is refused once. *)
Definition mg_refused : answers :=
  mg_start <| a_DriveContainers := Ok [mg_new] |>
           <| a_Call := fun _ c => match c with MarkDone _ => Some (Conflict "the object has been modified") | _ => None end |>.

(** The completion of a campaign can be lost: a pass that closes the last entries while planning does not store them
    before it removes the annotation from the cluster. When the status update that follows is refused, or the operator
    stops in between, every later pass asks for the annotation again and the operation is never Done, unless the user
    sets it once more. *)
Theorem completion_can_be_lost :
  exists r, mg_calls mg_refused created =
    [(act (RemoveAnnotation "ns" "c"), None); (MarkDone r, Some (Conflict "the object has been modified"))] /\
  Forall (fun s => done_or_skipped s = true) (Containers r) /\
  forall env n,
    (forall k cluster, a_Cluster (env k) = Ok cluster -> SizingModeMigration cluster <> SizingModeMigrationDriveSharing) ->
    ow_Status (passes (after_pass "u" "operator" "op" mg_hash) env n (mg_pass mg_refused created)) <> "Done".
Proof.
  eexists. split_and!; [vm_compute; reflexivity|by repeat constructor|]. intros env n Ha.
  assert (mg_pass mg_refused created = created) as -> by (vm_compute; reflexivity).
  apply (no_annotation_never_done _ _ _ _ env n created); [|done|done]. intros [H _]. by simpl in H.
Qed.

(** ** The gate before the drain *)

(** A handler of an entry in flight touches that entry only. *)
Lemma advanceInFlight_others namespace name hash ans cluster i s m k :
  k <> i -> Containers (results (advanceInFlight namespace name hash ans cluster i s m).1) !! k = Containers (results m) !! k.
Proof.
  intros Hk. unfold advanceInFlight, advanceDraining, advanceSigning, sign_missing, retryFailedSignOp, advanceProxy, verify_restart,
    restart_proxy, advanceRejoining, parkOnErr, parkNode, enterSubPhase, persist_then, do_call.
  repeat (case_match; simplify_eq; simpl); rewrite ?list_lookup_insert_ne by done; try done.
Qed.

Lemma startPending_others ans i s m k :
  k <> i -> Containers (results (startPending ans i s m).1) !! k = Containers (results m) !! k.
Proof.
  intros Hk. unfold startPending, parkOnErr, parkNode, persist_then, do_call.
  repeat (case_match; simplify_eq; simpl); rewrite ?list_lookup_insert_ne by done; try done.
Qed.

Lemma recordDriveInventory_phase ans c s s1 : recordDriveInventory ans c s = Ok s1 -> Phase s1 = Phase s.
Proof.
  unfold recordDriveInventory. case_decide; [by intros [= <-]|]. destruct (cst_Allocations _); [|done].
  case_decide; [done|]. destruct (weka_drives ans c); simpl; [|done].
  destruct (if decide (sum_drives _ = 0) then _ else _); simpl; [|done]. case_decide; [done|]. by intros [= <-].
Qed.

Lemma startPending_gate ans i s m s' :
  (i < length (Containers (results m)))%nat -> Phase s = PhasePending ->
  Containers (results (startPending ans i s m).1) !! i = Some s' -> Phase s' = PhaseInFlight ->
  Allowed (a_Gate ans "") = true /\ (exists c, a_Container ans (Container s) = Ok c) /\
  exists status, a_WekaStatus ans = Ok status /\
    CapacityBytes s' <= rawBytesFromUsable (UnprovisionedBytes status) status.
Proof.
  destruct m as [[] lm]. intros Hi Hp. simpl in Hi. unfold startPending, parkOnErr.
  assert (forall s1 m1, Phase s1 = PhasePending -> (i < length (Containers (results m1)))%nat ->
    Containers (results (parkNode ans i s1 m1).1) !! i = Some s' -> Phase s' <> PhaseInFlight) as Hpark.
  { intros s1 [[] l1] Hs1 Hlen. simpl in Hlen. unfold parkNode, persist_then, do_call. destruct (a_Call _ _ _); simpl.
    all: rewrite list_lookup_insert_eq by lia; intros [= <-]; unfold stamp_blocked; case_decide;
      change (Phase s1 <> PhaseInFlight); by rewrite Hs1. }
  change (Container (s <| SubPhase := SubPhaseGate |>)) with (Container s).
  destruct (a_Container ans (Container s)) as [[c skip]|e]; [|intros H1 H2; by apply Hpark in H1].
  destruct (recordDriveInventory ans c _) as [s1|e] eqn:Er; [|intros H1 H2; by apply Hpark in H1].
  assert (Phase s1 = PhasePending) as Hs1 by (by rewrite (recordDriveInventory_phase _ _ _ _ Er)).
  destruct (Allowed (a_Gate ans "")) eqn:Eg; [|intros H1 H2; by apply Hpark in H1].
  destruct (a_WekaStatus ans) as [status|] eqn:Ew; [|intros H1 H2; by apply Hpark in H1].
  simpl. case_decide as Hh; [intros H1 H2; by apply Hpark in H1|].
  unfold persist_then, do_call. intros H1 _. split; [done|]. split; [by eexists|]. exists status. split; [done|].
  assert (s' = start_entry ans s1) as ->.
  { destruct (a_Call _ _ _); simpl in H1; rewrite list_lookup_insert_eq in H1 by lia; by injection H1. }
  change (CapacityBytes s1 <= rawBytesFromUsable (UnprovisionedBytes status) status). lia.
Qed.

(** An entry that was left alone is still pending. *)
Ltac still Hi Hp := let H1 := fresh in let H2 := fresh in let E := fresh in intros H1 H2;
  assert (E := eq_trans (eq_sym H1) Hi); injection E as ->; by rewrite Hp in H2.

(** C16: A drive container leaves Pending only in a pass in which no other one is in flight, the campaign is not paused,
    the cluster's disruption gate allows it, and the unprovisioned capacity of the cluster, as raw capacity, covers
    the capacity of the drives that are about to be drained. *)
Theorem started_only_when_safe namespace name hash ans cluster m i s s' :
  Containers (results m) !! i = Some s -> Phase s = PhasePending ->
  Containers (results (AdvanceOne namespace name hash ans cluster m).1) !! i = Some s' -> Phase s' = PhaseInFlight ->
  Forall (fun x => Phase x <> PhaseInFlight) (Containers (results m)) /\ Paused (a_Payload ans) = false /\
  Allowed (a_Gate ans "") = true /\
  exists status, a_WekaStatus ans = Ok status /\
    CapacityBytes s' <= rawBytesFromUsable (UnprovisionedBytes status) status.
Proof.
  intros Hi Hp. unfold AdvanceOne.
  destruct (indexOfMigrationPhase (Containers (results m)) PhaseInFlight) as [[j x]|] eqn:Ej.
  { apply indexOf_some in Ej as [Hj Hx]. rewrite advanceInFlight_others by (intros ->; simplify_eq; by rewrite Hp in Hx). still Hi Hp. }
  apply indexOf_none in Ej. destruct (Paused (a_Payload ans)).
  { unfold persist_then, do_call. destruct (a_Call _ _ _); simpl; still Hi Hp. }
  destruct (indexOfMigrationPhase (Containers (results m)) PhasePending) as [[j x]|] eqn:Ek.
  - apply indexOf_some in Ek as [Hj Hx]. destruct (decide (j = i)) as [->|Hne].
    + simplify_eq. intros H1 H2. split; [done|]. split; [done|].
      destruct (startPending_gate ans i s m s') as (? & _ & ?); try done. by eapply lookup_lt_Some.
    + rewrite startPending_others by done. still Hi Hp.
  - simpl. still Hi Hp.
Qed.

Lemma started_only_when_safe_witness :
  Allowed (a_Gate mg_start "") = true /\ 1073741824000 <= rawBytesFromUsable (UnprovisionedBytes mg_status) mg_status.
Proof.
  set (s := new_state "n1" "d1" PhasePending "").
  set (m := (mkMachine (zero_result <| Containers := [s] |>) [] : machine)).
  destruct (Containers (results (AdvanceOne "operator" "op" mg_hash mg_start (mkCluster "ns" "c" mg_spec "drive-sharing") m).1) !! 0%nat)
    as [s'|] eqn:E; [|vm_compute in E; discriminate].
  destruct (started_only_when_safe "operator" "op" mg_hash mg_start (mkCluster "ns" "c" mg_spec "drive-sharing") m 0 s s')
    as (_ & _ & Hg & status & Hst & Hcap); [reflexivity|reflexivity|exact E|vm_compute in E; injection E as <-; reflexivity|].
  split; [exact Hg|]. injection Hst as <-. vm_compute in E. injection E as <-. exact Hcap.
Defined.
