(* ===== verification/Rotation.v ===== *)
(** * The rotation of the ssdproxy image (operations/rotate_ssdproxy.go, rotate_ssdproxy_types.go, operations.go)

    A manual operation that moves the ssdproxy of every targeted node to a new image, one node at a time, with
    the gate of Disruption.v before each restart and its counterpart after it. A reconcile is one pass of
    [Plan], [AdvanceOne] and [finalize] over the result stored in the operation's status. What the API server,
    the pods and the gates answer is an argument ([answers]); events and logging are left out. *)

From coqutil Require Import Datatypes.RecordSetters.
From stdpp Require Import relations.
From S2P Require Import Prelude Fmt Types Sizing Ports Strategies VirtualDrives Api Nodes Templates Disruption Campaign.
Import TriangleBracketNotations.

Module Rotation.

(** ** The state of the campaign *)

Definition PhasePending : string := "Pending".
Definition PhaseInFlight : string := "InFlight".
Definition PhaseDone : string := "Done".
Definition PhaseSkipped : string := "Skipped".

(** [RotateSsdProxyNodeState]; times are in nanoseconds, [None] for the nil pointer. *)
Record NodeState : Type := mkNodeState {
  Node : string;
  ProxyName : string;
  Phase : string;
  PreviousImage : string;
  Image : string;
  StartedAt : option Z;
  BlockedSince : option Z;
  Reason : string }.

(** [RotateSsdProxyResult] *)
Record Result : Type := mkResult {
  TargetImage : string;
  Total : Z;
  Done : Z;
  CurrentNode : string;
  Nodes : list NodeState;
  Blocked : list ClusterVerdict;
  r_Err : string;
  r_BlockedSince : option Z }.

Definition zero_result : Result := mkResult "" 0 0 "" [] [] "" None.

(** What JSON keeps of a result. *)
Definition stored_state (s : NodeState) : NodeState :=
  s <| StartedAt ::= fmap json_time |> <| BlockedSince ::= fmap json_time |>.
Definition stored (r : Result) : Result :=
  r <| Nodes ::= fmap stored_state |> <| r_BlockedSince ::= fmap json_time |>.

(** ** What a pass is told *)

Record Payload : Type := mkPayload { pl_TargetImage : string; NodeSelector : gmap string string; Paused : bool }.

(** A live proxy: its container and its internal status. *)
Record Proxy : Type := mkProxy { px_Container : Api.Container; InternalStatus : string }.

(** The only change outside the operation: the image of a proxy. *)
Inductive action : Type :=
  | PatchImage (namespace name image : string).

Abbreviation call := (campaign_call Result action).
Abbreviation log := (campaign_log Result action).
Abbreviation machine := (campaign_machine Result action).
Abbreviation owner := (campaign_owner Result).

(** [a_Override]: the image of the operator's configuration; [a_Pod]: the image of the weka container of a
    proxy's pod, an error when the pod has none; [a_Gate] and [a_Recovered]: the two gates on a node. *)
Record answers : Type := mkAnswers {
  a_Payload : Payload;
  a_Override : string;
  a_Now : Z;
  a_Operations : res string (list Operation);
  a_PodNamespace : res string string;
  a_Proxies : res string (list Api.Container);
  a_SelectedNodes : res string (list string);
  a_Proxy : string -> res string Proxy;
  a_Pod : string -> res api_error (res string string);
  a_Gate : string -> res string (list ClusterVerdict);
  a_Recovered : string -> res string (list ClusterVerdict);
  a_Call : log -> call -> option api_error }.

(** ** Planning *)

Definition targetProxies (ans : answers) : res string (list targetProxy) :=
  resolveTargetProxies (a_PodNamespace ans) (a_Proxies ans) (NodeSelector (a_Payload ans)) (a_SelectedNodes ans).

Definition resolveTargetImage (payloadImage overrideImage : string) : string :=
  if decide (payloadImage <> "") then payloadImage else overrideImage.

Definition ActionRotateSsdProxy : string := "rotate-ssdproxy".

(** Another rotation that is neither terminal nor being deleted. *)
Definition contender (own : string) (o : Operation) : bool :=
  bool_decide (op_UID o <> own) && bool_decide (op_Action o = ActionRotateSsdProxy) &&
  negb (bool_decide (op_Status o = "Done") || bool_decide (op_Status o = "Failed") || op_Deleted o).

Definition refuseIfAnotherCampaignRunning (own : string) (ans : answers) : option string :=
  match a_Operations ans with
  | Err e => Some (wrap "failed to list WekaManualOperations for cross-campaign exclusion" e)
  | Ok ops =>
      (fun other => Sprintf "another rotate-ssdproxy operation (%s/%s) exists and has not finished; only one may run at a time — delete one of them to continue"
          [ArgS (op_Namespace other); ArgS (op_Name other)]) <$> find (contender own) ops
  end.

(** [priorByNode[node]]: the last previous entry of the node. *)
Definition priorByNode (previous : list NodeState) (node : string) : option NodeState :=
  find (fun n => bool_decide (Node n = node)) (reverse previous).

(** The entry of one target. *)
Definition merge_target (previous : list NodeState) (targetImage : string) (t : targetProxy) : NodeState :=
  let state := default (mkNodeState (t_node t) "" PhasePending "" "" None None "") (priorByNode previous (t_node t)) in
  let image := cs_Image (cn_Spec (t_container t)) in
  let state := state <| ProxyName := cn_Name (t_container t) |> <| Image := image |> in
  if decide (image = targetImage /\ PreviousImage state = "") then
    state <| Phase := PhaseSkipped |> <| Reason := "" |> <| BlockedSince := None |>
  else if decide (Phase state = PhaseSkipped) then state <| Phase := PhasePending |>
  else state.

(** The entries of the targets, and the previous entries past Pending that are targeted no more. *)
Definition mergeCampaignNodes (previous : list NodeState) (targets : list targetProxy) (targetImage : string)
    : list NodeState * list NodeState :=
  (merge_target previous targetImage <$> targets,
   filter (fun n => Node n ∉ (t_node <$> targets) /\ Phase n <> PhasePending) previous).

Definition countDoneOrSkipped (nodes : list NodeState) : Z :=
  len (filter (fun n => Phase n = PhaseDone \/ Phase n = PhaseSkipped) nodes).

(** The index and the entry there, [None] for -1. *)
Definition indexOfPhase (nodes : list NodeState) (phase : string) : option (nat * NodeState) :=
  list_find (fun n => Phase n = phase) nodes.

Definition sort_nodes (nodes : list NodeState) : list NodeState := sort_by (fun a b => str_lt (Node a) (Node b)) nodes.

(** [fmt] of a map with [%v]: the keys in order. *)
Definition show_map (m : gmap string string) : string :=
  let show_key k := String.append k (String.append ":" (default "" (m !! k))) in
  Sprintf "map[%s]" [ArgS (strings_Join (show_key <$> sort_strings (map_to_list m).*1) " ")].

(** ** The machine *)

(** The UID of the operation. *)
Section operation.
Context (ownerUID : string) (ans : answers).

(** [persist] *)
Definition persist (m : machine) : option string * machine :=
  match do_call (a_Call ans) (PersistProgress (results m)) m with
  | (None, m) => (None, m)
  | (Some e, m) => (Some (wrap "failed to persist rotation progress" (error_text e)), m)
  end.

(** [persist], and the outcome when it succeeds. *)
Definition persist_then (o : outcome) (m : machine) : machine * outcome :=
  match persist m with (None, m) => (m, o) | (Some e, m) => (m, PlainError e) end.

(** [*node = s], where [node] points to the [i]-th entry. *)
Definition put (i : nat) (s : NodeState) (m : machine) : machine :=
  update (fun r => r <| Nodes ::= fun l => <[i := s]> l |>) m.

Definition set_CurrentNode (node : string) (m : machine) : machine := update (fun r => r <| CurrentNode := node |>) m.
Definition set_Blocked (vs : list ClusterVerdict) (m : machine) : machine := update (fun r => r <| Blocked := vs |>) m.

(** BlockedSince of an entry that parks while pending, stamped once. *)
Definition stamp_blocked (s : NodeState) : NodeState :=
  if decide (Phase s = PhasePending /\ BlockedSince s = None) then s <| BlockedSince := Some (a_Now ans) |> else s.

Definition parkNode (i : nat) (s : NodeState) (m : machine) : machine * outcome :=
  persist_then (WaitError (Reason s)) (put i (stamp_blocked s) m).

Definition parkOnErr (i : nat) (action err : string) (s : NodeState) (m : machine) : machine * outcome :=
  parkNode i (s <| Reason := Sprintf "failed to %s: %s" [ArgS action; ArgS err] |>) m.

Definition waitWithPersistedErr (err : string) (m : machine) : machine * outcome :=
  persist_then (WaitError err)
    (update (fun r => r <| r_Err := err |> <| r_BlockedSince ::= fun b => Some (default (a_Now ans) b) |>) m).

(** The owner is not failed here: a failed one is not reconciled. The answer of the callback is dropped. *)
Definition failTerminally (err : string) (m : machine) : machine * outcome :=
  let m := update (fun r => r <| r_Err := err |>) m in
  let '(_, m) := do_call (a_Call ans) (MarkFailed (results m)) m in (m, WaitError err).

(** *** The handlers *)

Definition liveProxy (proxyName : string) : res string Proxy :=
  match a_PodNamespace ans with
  | Err e => Err (wrap "failed to get operator namespace" e)
  | Ok _ => match a_Proxy ans proxyName with
            | Err e => Err (wrap "failed to get proxy container" e)
            | Ok proxy => Ok proxy
            end
  end.

(** The proxy and its pod, [None] when there is none. *)
Definition liveProxyAndPod (proxyName : string) : res string (Proxy * option (res string string)) :=
  let? proxy := liveProxy proxyName in
  match a_Pod ans proxyName with
  | Ok pod => Ok (proxy, Some pod)
  | Err (NotFound _) => Ok (proxy, None)
  | Err e => Err (wrap "failed to get proxy pod" (error_text e))
  end.

(** Whether the gate blocks, with the entry and the machine as it leaves them. *)
Definition evaluateGate (s : NodeState) (m : machine) : res string (bool * NodeState * machine) :=
  match a_Gate ans (Node s) with
  | Err e => Err e
  | Ok verdicts =>
      match AllAllowed verdicts with
      | Some blockReason => Ok (true, s <| Reason := blockReason |>, set_Blocked verdicts m)
      | None => Ok (false, s <| Reason := "" |>, set_Blocked [] m)
      end
  end.

Definition patchProxyImage (proxy : Proxy) (m : machine) : option string * machine :=
  let c := px_Container proxy in
  match do_call (a_Call ans) (Act (PatchImage (cn_Namespace c) (cn_Name c) (TargetImage (results m)))) m with
  | (None, m) => (None, m)
  | (Some e, m) => (Some (wrap (Sprintf "failed to patch proxy %s" [ArgS (cn_Name c)]) (error_text e)), m)
  end.

(** Whether the gate blocks the re-patch, with the entry and the machine as they are left. *)
Definition applyTargetImage (proxy : Proxy) (s : NodeState) (m : machine) : res string bool * NodeState * machine :=
  match evaluateGate s m with
  | Err e => (Err e, s, m)
  | Ok (true, s, m) => (Ok true, s, m)
  | Ok (false, s, m) =>
      match patchProxyImage proxy m with
      | (Some e, m) => (Err e, s, m)
      | (None, m) => (Ok false, s, m)
      end
  end.

(** The empty string when ready. *)
Definition podAndProxyReady (proxy : Proxy) (pod : res string string) (targetImage : string) : res string string :=
  match pod with
  | Err e => Err (wrap "failed to find weka container in pod" e)
  | Ok image =>
      let status := cst_Status (cn_Status (px_Container proxy)) in
      if decide (image <> targetImage) then
        Ok (Sprintf "pod not yet recreated on target image (running %q, want %q)" [ArgS image; ArgS targetImage])
      else if decide (status <> ContainerRunning) then
        Ok (Sprintf "proxy status is %q, want %q" [ArgS status; ArgS ContainerRunning])
      else if decide (InternalStatus proxy <> "READY") then
        Ok (Sprintf "proxy internal status is %q, want %q" [ArgS (InternalStatus proxy); ArgS "READY"])
      else Ok ""
  end.

(** The blocking verdicts and reason, the empty string when the node is complete. *)
Definition verifyNodeComplete (proxy : Proxy) (pod : res string string) (targetImage node : string)
    : res string (list ClusterVerdict * string) :=
  let? reason := podAndProxyReady proxy pod targetImage in
  if decide (reason <> "") then Ok ([], reason)
  else match a_Recovered ans node with
  | Err e => Err (wrap "failed to verify node recovery" e)
  | Ok verdicts => match AllAllowed verdicts with
                   | Some blockReason => Ok (verdicts, blockReason)
                   | None => Ok ([], "")
                   end
  end.

Definition advanceInFlight (i : nat) (s : NodeState) (m : machine) : machine * outcome :=
  let m := set_CurrentNode (Node s) m in
  match liveProxyAndPod (ProxyName s) with
  | Err e => parkOnErr i "fetch live proxy/pod state" e s m
  | Ok (proxy, pod) =>
      if decide (cs_Image (cn_Spec (px_Container proxy)) <> TargetImage (results m)) then
        match applyTargetImage proxy s m with
        | (Err e, s, m) => parkOnErr i "re-apply target image" e s m
        | (Ok true, s, m) => parkNode i s m
        | (Ok false, s, m) => persist_then (WaitError "re-applied target image, waiting for pod restart") (put i s m)
        end
      else match pod with
      | None => parkNode i (s <| Reason := "pod deleted, waiting for recreation" |>) m
      | Some pod =>
          match verifyNodeComplete proxy pod (TargetImage (results m)) (Node s) with
          | Err e => parkOnErr i "verify rotation completion" e s m
          | Ok (verdicts, blockReason) =>
              if decide (blockReason <> "") then parkNode i (s <| Reason := blockReason |>) (set_Blocked verdicts m)
              else
                let s := s <| Phase := PhaseDone |> <| Reason := "" |> in
                let m := set_CurrentNode "" (put i s (set_Blocked [] m)) in
                let m := update (fun r => r <| Done := countDoneOrSkipped (Nodes r) |>) m in
                persist_then (WaitError "node completed, advancing to next node") m
          end
      end
  end.

(** An entry leaves Pending. *)
Definition start_rotation (proxy : Proxy) (s : NodeState) : NodeState :=
  s <| PreviousImage ::= fun p => if decide (p = "") then cs_Image (cn_Spec (px_Container proxy)) else p |>
    <| StartedAt := Some (a_Now ans) |> <| BlockedSince := None |> <| Phase := PhaseInFlight |> <| Reason := "" |>.

Definition advancePending (i : nat) (s : NodeState) (m : machine) : machine * outcome :=
  let m := set_CurrentNode (Node s) m in
  match liveProxy (ProxyName s) with
  | Err e => parkOnErr i "get proxy container" e s m
  | Ok proxy =>
      match evaluateGate s m with
      | Err e => parkOnErr i "evaluate disruption gate" e s m
      | Ok (true, s, m) => parkNode i s m
      | Ok (false, s, m) =>
          let s := start_rotation proxy s in
          match persist (put i s (set_Blocked [] m)) with
          | (Some e, m) => (m, PlainError e)
          | (None, m) =>
              match patchProxyImage proxy m with
              | (Some e, m) => parkOnErr i "patch proxy image" e s m
              | (None, m) => (m, WaitError "rotation started, waiting for pod restart and health verification")
              end
          end
      end
  end.

Definition AdvanceOne (m : machine) : machine * outcome :=
  if decide (r_Err (results m) <> "") then (m, PlainError (r_Err (results m)))
  else match indexOfPhase (Nodes (results m)) PhaseInFlight with
  | Some (i, s) => advanceInFlight i s m
  | None =>
      if Paused (a_Payload ans) then persist_then (WaitError "rotation paused") (set_CurrentNode "" m)
      else match indexOfPhase (Nodes (results m)) PhasePending with
      | None => (set_CurrentNode "" m, Proceed)
      | Some (i, s) => advancePending i s m
      end
  end.

(** *** The pass *)

Definition rehydrateFrom (previous : option Result) (r : Result) : Result :=
  match previous with
  | None => r
  | Some p => r <| TargetImage := TargetImage p |> <| Nodes := Nodes p |> <| Total := Total p |>
                <| Done := countDoneOrSkipped (Nodes p) |> <| r_BlockedSince := r_BlockedSince p |>
  end.

(** [None] when [Plan] returns nil. *)
Definition Plan (previous : option Result) (m : machine) : machine * option outcome :=
  let stop (x : machine * outcome) := (x.1, Some x.2) in
  let payload := a_Payload ans in
  let m := update (rehydrateFrom previous) m in
  let targetImage := resolveTargetImage (pl_TargetImage payload) (a_Override ans) in
  let planned := default "" (TargetImage <$> previous) in
  if decide (targetImage = "") then
    stop (failTerminally "no target image: set spec.payload.rotateSsdProxyPayload.targetImage on the WekaManualOperation, or the operator's driveSharing.ssdProxy.imageOverride Helm value (env SSD_PROXY_IMAGE_OVERRIDE)" m)
  else if decide (planned <> "" /\ planned <> targetImage) then
    stop (failTerminally (Sprintf "targetImage is immutable once a campaign has planned (was %q, now %q); delete this WekaManualOperation and create a new one to rotate to a different image"
      [ArgS planned; ArgS targetImage]) m)
  else
    let m := update (fun r => r <| TargetImage := targetImage |>) m in
    match refuseIfAnotherCampaignRunning ownerUID ans with
    | Some e => stop (waitWithPersistedErr e m)
    | None =>
    match targetProxies ans with
    | Err e => stop (waitWithPersistedErr e m)
    | Ok targets =>
    if decide (NodeSelector payload <> ∅ /\ targets = []) then
      stop (waitWithPersistedErr (Sprintf "nodeSelector %s matched no nodes with an ssdproxy; check the node labels"
        [ArgS (show_map (NodeSelector payload))]) m)
    else
      let nodes := sort_nodes (mergeCampaignNodes (default [] (Nodes <$> previous)) targets targetImage).1 in
      (update (fun r => r <| Nodes := nodes |> <| Total := len nodes |> <| Done := countDoneOrSkipped nodes |>
                          <| r_Err := "" |> <| r_BlockedSince := None |>) m, None)
    end end.

Definition finalize (m : machine) : machine * outcome :=
  match do_call (a_Call ans) (MarkDone (results m)) m with
  | (None, m) => (m, Proceed)
  | (Some e, m) => (m, PlainError (error_text e))
  end.

(** The steps of [GetSteps]. *)
Definition pass (o : owner) : machine * outcome :=
  let m := mkMachine zero_result [] in
  if terminal o then (m, Proceed)
  else match Plan (ow_Result o) m with
  | (m, Some e) => (m, e)
  | (m, None) => match AdvanceOne m with
                 | (m, Proceed) => finalize m
                 | stopped => stopped
                 end
  end.

End operation.

(** ** Runs *)

(** What the API server answers about the proxies: no two of a listing are on one node, a proxy is found under its
    name, and it has an image. *)
Record proxies_sound (ans : answers) : Prop := mkProxiesSound {
  ps_apart : forall cs, a_Proxies ans = Ok cs ->
    NoDup (GetNodeAffinity <$> filter (fun c => GetNodeAffinity c <> "") cs);
  ps_name : forall name proxy, a_Proxy ans name = Ok proxy -> cn_Name (px_Container proxy) = name;
  ps_image : forall name proxy, a_Proxy ans name = Ok proxy -> cs_Image (cn_Spec (px_Container proxy)) <> "" }.

(** A pass that may be cut short. *)
Definition rotation_step (uid : string) : owner * log -> owner * log -> Prop :=
  cut_pass stored proxies_sound (fun ans o => calls (pass uid ans o).1).

(** ** Warnings on parked nodes *)

Definition minute : Z := 60 * 1000000000.

(** The threshold and the period of a warning, in nanoseconds. *)
Record parkedWarnSignal : Type := mkSignal { threshold : Z; repeat_every : Z }.

Definition blockedWarnSignal : parkedWarnSignal := mkSignal (15 * minute) (30 * minute).
Definition stuckWarnSignal : parkedWarnSignal := mkSignal (5 * minute) (10 * minute).
Definition campaignParkedWarnSignal : parkedWarnSignal := mkSignal (15 * minute) (30 * minute).
Definition campaignParkedInFlightWarnSignal : parkedWarnSignal := mkSignal (5 * minute) (10 * minute).
Definition rotateSsdProxyParkedWarnWindow : Z := 30 * 1000000000.
Definition rotateSsdProxyWaitDuration : Z := 15 * 1000000000.

Definition shouldWarn (s : parkedWarnSignal) (elapsed : Z) : bool :=
  if decide (elapsed < threshold s) then false
  else bool_decide ((elapsed - threshold s) `rem` repeat_every s < rotateSsdProxyParkedWarnWindow).

End Rotation.
