(* ===== verification/RotationFacts.v ===== *)
(** * Facts on the rotation of the ssdproxy image

    The invariant of a campaign, what every call of a pass rests on, and the progress of a pass. *)

From coqutil Require Import Datatypes.RecordSetters.
From stdpp Require Import relations.
From S2P Require Import Prelude Fmt Types Sizing Ports Strategies VirtualDrives Api Nodes Templates Disruption Campaign Rotation.
Import TriangleBracketNotations.
Import Rotation.

(** ** Entries *)

Definition in_flight (s : NodeState) : Prop := Phase s = PhaseInFlight.
#[export] Instance rotation_in_flight_dec s : Decision (in_flight s) := decide _.

Definition closed (s : NodeState) : Prop := Phase s = PhaseDone \/ Phase s = PhaseSkipped.
#[export] Instance closed_dec s : Decision (closed s) := decide _.

(** An entry that was started keeps the image it had before; one that was not has none. *)
Record wf_node (s : NodeState) : Prop := mkWfNode {
  wn_phase : Phase s ∈ [PhasePending; PhaseInFlight; PhaseDone; PhaseSkipped];
  wn_started : Phase s = PhaseInFlight \/ Phase s = PhaseDone -> PreviousImage s <> "" /\ StartedAt s <> None;
  wn_untouched : Phase s = PhasePending \/ Phase s = PhaseSkipped -> PreviousImage s = "" }.

(** The invariant: one entry per node, at most one in flight, and none without a target image. *)
Record wf_rotation (target : string) (l : list NodeState) : Prop := mkWfRotation {
  wr_nodes : Forall wf_node l;
  wr_distinct : NoDup (Node <$> l);
  wr_one : (length (filter in_flight l) <= 1)%nat;
  wr_target : Exists in_flight l -> target <> "" }.

(** What the owner holds. *)
Definition held_result (o : owner) : Result := default zero_result (ow_Result o).
Definition held (o : owner) : list NodeState := Nodes (held_result o).
Definition held_target (o : owner) : string := TargetImage (held_result o).

#[export] Instance wf_rotation_proper : Proper ((=) ==> (≡ₚ) ==> iff) wf_rotation.
Proof.
  assert (forall t l l', l ≡ₚ l' -> wf_rotation t l -> wf_rotation t l') as H.
  { intros t l l' Hp [H1 H2 H3 H4]. constructor; by rewrite <-Hp. }
  intros t ? <- l l' Hp. split; apply H; by rewrite Hp.
Qed.

(** The same entry but for what it reports. *)
Record same_core (s s' : NodeState) : Prop := mkSameCore {
  sc_node : Node s' = Node s;
  sc_phase : Phase s' = Phase s;
  sc_previous : PreviousImage s' = PreviousImage s;
  sc_started : StartedAt s' = None <-> StartedAt s = None }.

Lemma same_core_wf s s' : same_core s s' -> wf_node s -> wf_node s'.
Proof. intros [H1 H2 H3 H4] [W1 W2 W3]. constructor; rewrite ?H2, ?H3, ?H4; done. Qed.

(** An entry replaced by a well-formed one of the same node. *)
Lemma wf_rotation_insert t l i s s' :
  wf_rotation t l -> l !! i = Some s -> wf_node s' -> Node s' = Node s ->
  (in_flight s' -> in_flight s \/ filter in_flight l = [] /\ t <> "") -> wf_rotation t (<[i := s']> l).
Proof.
  intros Hwf Hi Hs Hn Hf. rewrite insert_delete_perm by exact Hi. rewrite (delete_Permutation _ _ _ Hi) in Hwf.
  destruct Hwf as [H1 H2 H3 H4]. rewrite Forall_cons in H1. rewrite fmap_cons in H2. rewrite Exists_cons in H4.
  assert (in_flight s' -> ~ in_flight s -> filter in_flight (delete i l) = []) as Hnone.
  { intros Hs' Hns. destruct (Hf Hs') as [?|[E _]]; [done|].
    assert (filter in_flight (s :: delete i l) ≡ₚ []) as E' by (by rewrite <-(delete_Permutation _ _ _ Hi), E).
    rewrite filter_cons, decide_False in E' by done. by apply Permutation_nil_r in E'. }
  constructor.
  - constructor; [done|apply H1].
  - by rewrite fmap_cons, Hn.
  - rewrite filter_cons in H3 |- *. destruct (decide (in_flight s')) as [Hs'|], (decide (in_flight s)) as [|Hns]; simpl in *; try lia.
    rewrite (Hnone Hs' Hns). simpl. lia.
  - rewrite Exists_cons. intros [Hs'|]; [|by apply H4; right]. destruct (Hf Hs') as [?|[_ ?]]; [apply H4; by left|done].
Qed.

(** Storing a result changes nothing of this. *)
Lemma same_core_stored s : same_core s (stored_state s).
Proof. constructor; try done. change (json_time <$> StartedAt s = None <-> StartedAt s = None). by destruct (StartedAt s). Qed.

Lemma wf_rotation_stored t l : wf_rotation t l -> wf_rotation t (stored_state <$> l).
Proof.
  intros [H1 H2 H3 H4]. constructor.
  - apply Forall_fmap. eapply Forall_impl; [exact H1|]. intros s Hs. exact (same_core_wf _ _ (same_core_stored s) Hs).
  - by rewrite <-list_fmap_compose.
  - etrans; [|exact H3]. clear. induction l as [|s l IH]; [done|]. rewrite fmap_cons, !filter_cons.
    destruct (decide (in_flight s)) as [Hs|Hs]; [rewrite decide_True by exact Hs|rewrite decide_False by exact Hs; done].
    simpl. lia.
  - intros H. apply H4. clear -H. induction l as [|s l IH]; [by inversion H|]. rewrite fmap_cons, Exists_cons in H.
    rewrite Exists_cons. destruct H as [H|H]; [by left|right; auto].
Qed.

(** ** Planning *)

Lemma priorByNode_some previous node s : priorByNode previous node = Some s -> s ∈ previous /\ Node s = node.
Proof.
  unfold priorByNode. intros H. apply find_some in H as [Hin He]. apply bool_decide_eq_true in He.
  split; [clear He|done]. apply list_elem_of_In in Hin. revert Hin. apply elem_of_reverse.
Qed.

Lemma merge_node previous image t : Node (merge_target previous image t) = t_node t.
Proof.
  unfold merge_target. destruct (priorByNode previous (t_node t)) as [s|] eqn:E; simpl.
  - apply priorByNode_some in E as [_ <-]. by repeat case_decide.
  - by repeat case_decide.
Qed.

Lemma merge_wf previous image t : Forall wf_node previous -> wf_node (merge_target previous image t).
Proof.
  intros Hw. unfold merge_target.
  set (s := default _ _). assert (wf_node s) as [H1 H2 H3].
  { unfold s. destruct (priorByNode previous (t_node t)) as [p|] eqn:E; simpl.
    - apply priorByNode_some in E as [Hin _]. by eapply Forall_forall in Hw.
    - constructor; simpl; [set_solver|by intros [?|?]|done]. }
  clearbody s. case_decide as Es; [|case_decide as Es2].
  - constructor; simpl; [set_solver|by intros [?|?]|intros _; apply Es].
  - constructor; simpl; [set_solver|by intros [?|?]|intros _; apply H3; by right].
  - by constructor.
Qed.

(** An entry in flight was in flight before. *)
Lemma merge_in_flight previous image t :
  in_flight (merge_target previous image t) ->
  exists s, s ∈ previous /\ in_flight s /\ Node s = t_node t /\ PreviousImage (merge_target previous image t) = PreviousImage s.
Proof.
  unfold merge_target. destruct (priorByNode previous (t_node t)) as [s|] eqn:E; simpl.
  - apply priorByNode_some in E as [Hin Hn]. intros H. exists s. revert H. repeat case_decide; try done.
  - repeat case_decide; done.
Qed.

Lemma mergeCampaignNodes_wf target image previous targets :
  wf_rotation target previous -> NoDup (t_node <$> targets) -> image <> "" ->
  wf_rotation image (mergeCampaignNodes previous targets image).1.
Proof.
  intros [H1 H2 H3 H4] Ht Hi. simpl. set (l := merge_target previous image <$> targets).
  assert (Node <$> l = t_node <$> targets) as Hn.
  { unfold l. rewrite <-list_fmap_compose. apply list_fmap_ext. intros _ t _. apply merge_node. }
  assert (NoDup (Node <$> l)) as Hd by (by rewrite Hn). constructor; [|done| |done].
  - apply Forall_fmap, Forall_forall. intros t _. by apply merge_wf.
  - etrans; [|exact H3]. rewrite <-(length_fmap Node (filter in_flight l)), <-(length_fmap Node (filter in_flight previous)).
    apply submseteq_length, NoDup_submseteq.
    + eapply sublist_NoDup; [exact Hd|]. apply fmap_sublist, sublist_filter.
    + intros n (s & -> & Hs)%list_elem_of_fmap. apply list_elem_of_filter in Hs as [Hf Hs].
      unfold l in Hs. apply list_elem_of_fmap in Hs as (t & -> & _).
      destruct (merge_in_flight _ _ _ Hf) as (s0 & Hs0 & Hf0 & Hn0 & _). rewrite merge_node, <-Hn0.
      apply list_elem_of_fmap_2, list_elem_of_filter. done.
Qed.

Lemma resolveTargetProxies_apart ans targets :
  proxies_sound ans -> targetProxies ans = Ok targets -> NoDup (t_node <$> targets).
Proof.
  intros [Hp _ _]. unfold targetProxies, resolveTargetProxies. destruct (a_PodNamespace ans); [|done].
  destruct (a_Proxies ans) as [cs|] eqn:E; [|done]. destruct (if decide _ then _ else _) as [f|]; simpl; [|done].
  intros [= <-]. rewrite <-list_fmap_compose.
  rewrite (list_filter_iff _ (fun c => targeted f (GetNodeAffinity c) = true /\ GetNodeAffinity c <> "")).
  - rewrite <-list_filter_filter. eapply sublist_NoDup; [exact (Hp cs eq_refl)|]. apply fmap_sublist, sublist_filter.
  - intros c. unfold targeted. case_bool_decide; naive_solver.
Qed.

(** ** What every call rests on *)

(** What may be written over what the owner holds: the target image is kept once there is one. *)
Definition may_write (o : owner) (target : string) (l : list NodeState) : Prop :=
  wf_rotation target l /\ (held_target o <> "" -> target = held_target o).

(** The gate on a node was asked and let go. *)
Definition gate_open (ans : answers) (node : string) : Prop :=
  exists verdicts, a_Gate ans node = Ok verdicts /\ AllAllowed verdicts = None.

(** A proxy is patched only to the stored target image, while its node is stored as in flight with the image it had;
    it is the proxy of the node, and the gate on the node is open. *)
Definition patch_sound (ans : answers) (o : owner) (name image : string) : Prop :=
  exists s targets t, s ∈ held o /\ in_flight s /\ PreviousImage s <> "" /\ image = held_target o /\ image <> "" /\
    targetProxies ans = Ok targets /\ t ∈ targets /\ t_node t = Node s /\ cn_Name (t_container t) = name /\
    gate_open ans (Node s).

Definition sound (ans : answers) (o : owner) (c : call) : Prop :=
  match c with
  | PersistProgress r | MarkFailed r => may_write o (TargetImage r) (Nodes r)
  | MarkDone r => may_write o (TargetImage r) (Nodes r) /\ Forall closed (Nodes r)
  | Act (PatchImage _ name image) => patch_sound ans o name image
  end.

Section handlers.
Context (ownerUID : string) (ans : answers) (Hps : proxies_sound ans).

(** The calls that [x] adds to those of [m] are all sound, [o] being the owner when it starts. *)
Definition handled (o : owner) (m : machine) (x : machine * outcome) : Prop :=
  exists l, calls x.1 = calls m ++ l /\ audit stored (sound ans) o l.

Lemma rotation_handled_persist o m r out :
  may_write o (TargetImage (results r)) (Nodes (results r)) -> calls r = calls m -> handled o m (persist_then ans out r).
Proof.
  destruct r as [r rl]. simpl. intros Hw ->. exists [(PersistProgress r, a_Call ans (calls m) (PersistProgress r))].
  split; [|by simpl]. unfold persist_then, persist, do_call. simpl. by destruct (a_Call _ _ _).
Qed.

(** The entry [i] of a result that may be written. *)
Record at_entry (o : owner) (r : Result) (i : nat) (s : NodeState) : Prop := mkAtEntry {
  ae_lookup : Nodes r !! i = Some s;
  ae_write : may_write o (TargetImage r) (Nodes r) }.

Lemma at_entry_write o r i s s' :
  at_entry o r i s -> wf_node s' -> Node s' = Node s ->
  (in_flight s' -> in_flight s \/ filter in_flight (Nodes r) = [] /\ TargetImage r <> "") ->
  may_write o (TargetImage r) (<[i := s']> (Nodes r)).
Proof. intros [Hi [Hwf Ht]] Hs Hn Hf. split; [|done]. by eapply wf_rotation_insert. Qed.

Lemma at_entry_core o r i s s' :
  at_entry o r i s -> same_core s s' -> may_write o (TargetImage r) (<[i := s']> (Nodes r)).
Proof.
  intros Ha Hc. pose proof Ha as [Hi [[Hw _ _ _] _]]. eapply Forall_lookup_1 in Hw; [|exact Hi].
  destruct Hc as [H1 H2 H3 H4] eqn:E. eapply at_entry_write; [exact Ha|by eapply same_core_wf|done|].
  unfold in_flight. rewrite H2. auto.
Qed.

Lemma stamp_core s s' : same_core s s' -> same_core s (stamp_blocked ans s').
Proof. intros [H1 H2 H3 H4]. unfold stamp_blocked. by case_decide. Qed.

Lemma rotation_handled_park o m m' i s s' :
  at_entry o (results m) i s -> same_core s s' ->
  Nodes (results m') = Nodes (results m) -> TargetImage (results m') = TargetImage (results m) -> calls m' = calls m ->
  handled o m (parkNode ans i s' m').
Proof.
  intros Ha Hc Hn Ht Hm. apply rotation_handled_persist; [|done].
  change (may_write o (TargetImage (results m')) (<[i := stamp_blocked ans s']> (Nodes (results m')))).
  rewrite Hn, Ht. by apply (at_entry_core o _ i s), stamp_core.
Qed.

(** Storing progress and going on: when it is granted, the owner holds what was stored. *)
Lemma handled_persist_next o m r k :
  may_write o (TargetImage (results r)) (Nodes (results r)) -> calls r = calls m ->
  (forall m', results m' = results r ->
     handled (apply_call stored o (PersistProgress (results r) : call, None)) m' (k m')) ->
  handled o m (match persist ans r with (Some e, m) => (m, PlainError e) | (None, m) => k m end).
Proof.
  intros Hw Hm Hk. unfold persist, do_call. rewrite Hm. set (a := a_Call _ _ _). destruct a as [e|].
  - exists [(PersistProgress (results r) : call, Some e)]. by split.
  - destruct (Hk (mkMachine (results r) (calls m ++ [(PersistProgress (results r) : call, None)])) eq_refl) as (l & Hl & Ha).
    exists ((PersistProgress (results r) : call, None) :: l). split; [rewrite Hl; simpl; by rewrite <-app_assoc|]. by split.
Qed.

(** Patching a proxy and going on. *)
Lemma handled_patch_next o m proxy k1 k2 :
  patch_sound ans o (cn_Name (px_Container proxy)) (TargetImage (results m)) ->
  (forall e m', results m' = results m -> handled o m' (k1 e m')) ->
  (forall m', results m' = results m -> handled o m' (k2 m')) ->
  handled o m (match patchProxyImage ans proxy m with (Some e, m) => k1 e m | (None, m) => k2 m end).
Proof.
  intros Hs H1 H2. unfold patchProxyImage, do_call. set (c := Act (PatchImage _ _ _)). set (a := a_Call _ _ _).
  assert (forall x, handled o (mkMachine (results m) (calls m ++ [(c, a)])) x -> handled o m x) as Hx.
  { intros x (l & Hl & Ha). exists ((c, a) :: l). split; [rewrite Hl; simpl; by rewrite <-app_assoc|]. by split. }
  apply Hx. clearbody a. destruct a; [by apply H1|by apply H2].
Qed.

Lemma same_core_refl s : same_core s s.
Proof. by constructor. Qed.

Lemma evaluateGate_cases s m :
  match evaluateGate ans s m with
  | Err _ => True
  | Ok (blocked, s', m') =>
      same_core s s' /\ Nodes (results m') = Nodes (results m) /\ TargetImage (results m') = TargetImage (results m) /\
      calls m' = calls m /\ (blocked = false -> gate_open ans (Node s) /\ s' = s <| Reason := "" |> /\ m' = set_Blocked [] m)
  end.
Proof.
  unfold evaluateGate, gate_open. destruct (a_Gate ans (Node s)) as [vs|]; [|done].
  destruct (AllAllowed vs) eqn:E; (split_and!; [by constructor|done..|]); [done|]. intros _. split; [by exists vs|done].
Qed.

(** The plan of a pass: the entries of the targets, merged with what is held. *)
Record planned (o : owner) (r : Result) (targets : list targetProxy) : Prop := mkPlanned {
  pl_targets : targetProxies ans = Ok targets;
  pl_nodes : Nodes r ≡ₚ merge_target (held o) (TargetImage r) <$> targets;
  pl_image : TargetImage r <> "";
  pl_err : r_Err r = "";
  pl_write : may_write o (TargetImage r) (Nodes r) }.

Lemma planned_target o r targets s :
  planned o r targets -> s ∈ Nodes r ->
  exists t, t ∈ targets /\ t_node t = Node s /\ cn_Name (t_container t) = ProxyName s /\ s = merge_target (held o) (TargetImage r) t.
Proof.
  intros [_ Hn _ _ _] Hs. rewrite Hn in Hs. apply list_elem_of_fmap in Hs as (t & -> & Ht). exists t.
  split_and!; [done|by rewrite merge_node| |done]. unfold merge_target. by repeat case_decide.
Qed.

Lemma liveProxy_name name proxy : liveProxy ans name = Ok proxy -> cn_Name (px_Container proxy) = name.
Proof.
  unfold liveProxy. destruct (a_PodNamespace ans); [|done]. destruct (a_Proxy ans name) eqn:E; [|done].
  intros [= <-]. by apply (ps_name _ Hps).
Qed.

(** The patch of a proxy whose entry is stored as in flight. *)
Lemma held_patch_sound o r targets s s0 proxy :
  planned o r targets -> s ∈ Nodes r -> liveProxy ans (ProxyName s) = Ok proxy -> gate_open ans (Node s) ->
  forall o', s0 ∈ held o' -> in_flight s0 -> Node s0 = Node s -> PreviousImage s0 <> "" -> held_target o' = TargetImage r ->
  patch_sound ans o' (cn_Name (px_Container proxy)) (TargetImage r).
Proof.
  intros Hpl Hs Hpx Hg o' H0 Hf Hn Hp Ht. destruct (planned_target _ _ _ _ Hpl Hs) as (t & Hin & Htn & Hname & _).
  exists s0, targets, t. rewrite Hn, (liveProxy_name _ _ Hpx), Ht. split_and!; try done; apply Hpl.
Qed.

Lemma handled_reapply o m i s targets proxy :
  wf_rotation (held_target o) (held o) -> planned o (results m) targets -> Nodes (results m) !! i = Some s -> in_flight s ->
  liveProxy ans (ProxyName s) = Ok proxy ->
  handled o m (match applyTargetImage ans proxy s (set_CurrentNode (Node s) m) with
    | (Err e, s, m) => parkOnErr ans i "re-apply target image" e s m
    | (Ok true, s, m) => parkNode ans i s m
    | (Ok false, s, m) => persist_then ans (WaitError "re-applied target image, waiting for pod restart") (put i s m)
    end).
Proof.
  intros Hwf Hpl Hi Hf Hpx. assert (at_entry o (results m) i s) as Hat by (by constructor; [|apply Hpl]).
  assert (s ∈ Nodes (results m)) as Hin by (by eapply list_elem_of_lookup_2).
  unfold applyTargetImage. pose proof (evaluateGate_cases s (set_CurrentNode (Node s) m)) as Hg.
  destruct (evaluateGate _ _ _) as [[[blocked s'] m']|e]; [|by apply (rotation_handled_park o m _ i s); [|by constructor|..]].
  destruct Hg as (Hc & Hn & Ht & Hm & Hopen). destruct blocked; [by apply (rotation_handled_park o m _ i s)|].
  destruct (Hopen eq_refl) as (Hg & -> & ->). clear Hn Ht Hm Hopen.
  destruct (planned_target _ _ _ _ Hpl Hin) as (t & _ & _ & _ & Es).
  assert (in_flight (merge_target (held o) (TargetImage (results m)) t)) as Hfm by (by rewrite <-Es).
  destruct (merge_in_flight _ _ _ Hfm) as (s0 & H0 & Hf0 & Hn0 & _).
  assert (held_target o <> "") as Hne by (apply (wr_target _ _ Hwf), Exists_exists; by exists s0).
  assert (TargetImage (results m) = held_target o) as Eti by (by apply Hpl).
  assert (wf_node s0) as Hw0 by (pose proof (wr_nodes _ _ Hwf) as Hall; by eapply Forall_forall in Hall).
  assert (patch_sound ans o (cn_Name (px_Container proxy)) (TargetImage (results m))) as Hps0.
  { eapply (held_patch_sound o (results m) targets s s0); try done; [|apply (wn_started _ Hw0); by left].
    rewrite Hn0, Es. by rewrite merge_node. }
  assert (handled o (set_Blocked [] (set_CurrentNode (Node s) m))
    (match patchProxyImage ans proxy (set_Blocked [] (set_CurrentNode (Node s) m)) with
     | (Some e, m') => parkOnErr ans i "re-apply target image" e (s <| Reason := "" |>) m'
     | (None, m') => persist_then ans (WaitError "re-applied target image, waiting for pod restart") (put i (s <| Reason := "" |>) m')
     end)) as H.
  { apply handled_patch_next; [exact Hps0|intros e m' Em|intros m' Em]; change (results m' = (results m) <| CurrentNode := Node s |> <| Blocked := [] |>) in Em.
    - assert (at_entry o (results m') i s) as Hat' by (by rewrite Em; constructor; apply Hat). by apply (rotation_handled_park o m' m' i s).
    - apply rotation_handled_persist; [|done]. assert (at_entry o (results m') i s) as Hat' by (by rewrite Em; constructor; apply Hat).
      by apply (at_entry_core o (results m') i s). }
  by destruct (patchProxyImage ans proxy _) as [[e|] m'].
Qed.

Lemma rotation_handled_in_flight o m i s targets :
  wf_rotation (held_target o) (held o) -> planned o (results m) targets -> Nodes (results m) !! i = Some s -> in_flight s ->
  handled o m (advanceInFlight ans i s m).
Proof.
  intros Hwf Hpl Hi Hf. assert (at_entry o (results m) i s) as Hat by (by constructor; [|apply Hpl]).
  unfold advanceInFlight, liveProxyAndPod. destruct (liveProxy ans (ProxyName s)) as [proxy|] eqn:Hpx; simpl;
    [|by apply (rotation_handled_park o m _ i s); [|by constructor|..]].
  set (pod := match a_Pod ans (ProxyName s) with Ok _ => _ | Err _ => _ end). destruct pod as [[px pd]|] eqn:Epod;
    [|by apply (rotation_handled_park o m _ i s); [|by constructor|..]].
  assert (px = proxy) as ->.
  { unfold pod in Epod. destruct (a_Pod ans _) as [|[]]; by simplify_eq. }
  case_decide; [by eapply handled_reapply|]. destruct pd as [pd|]; [|by apply (rotation_handled_park o m _ i s); [|by constructor|..]].
  destruct (verifyNodeComplete _ _ _ _ _) as [[vs reason]|]; [|by apply (rotation_handled_park o m _ i s); [|by constructor|..]].
  case_decide; [by apply (rotation_handled_park o m _ i s); [|by constructor|..]|].
  apply rotation_handled_persist; [|done].
  assert (wf_node s) as [H1 H2 H3].
  { destruct Hat as [_ [[Hall _ _ _] _]]. by eapply Forall_lookup_1 in Hall. }
  apply (at_entry_write o (results m) i s); [done| |done|done].
  constructor; simpl; [set_solver|intros _; apply H2; by left|by intros [?|?]].
Qed.

Lemma start_wf proxy s :
  wf_node s -> Phase s = PhasePending -> cs_Image (cn_Spec (px_Container proxy)) <> "" ->
  wf_node (start_rotation ans proxy s) /\ PreviousImage (start_rotation ans proxy s) <> "".
Proof.
  intros [H1 H2 H3] Hp Hi.
  assert (PreviousImage (start_rotation ans proxy s) = cs_Image (cn_Spec (px_Container proxy))) as E.
  { unfold start_rotation. change (match decide (PreviousImage s = "") with left _ => cs_Image (cn_Spec (px_Container proxy)) | right _ => PreviousImage s end = cs_Image (cn_Spec (px_Container proxy))).
    rewrite decide_True; [done|]. apply H3. by left. }
  split; [|by rewrite E]. constructor; [|intros _; by rewrite E|by intros [?|?]].
  change (PhaseInFlight ∈ [PhasePending; PhaseInFlight; PhaseDone; PhaseSkipped]). set_solver.
Qed.

Lemma handled_pending o m i s targets :
  planned o (results m) targets -> Nodes (results m) !! i = Some s -> Phase s = PhasePending ->
  filter in_flight (Nodes (results m)) = [] ->
  handled o m (advancePending ans i s m).
Proof.
  intros Hpl Hi Hp Hnone. assert (at_entry o (results m) i s) as Hat by (by constructor; [|apply Hpl]).
  assert (s ∈ Nodes (results m)) as Hin by (by eapply list_elem_of_lookup_2).
  unfold advancePending. destruct (liveProxy ans (ProxyName s)) as [proxy|] eqn:Hpx;
    [|by apply (rotation_handled_park o m _ i s); [|by constructor|..]].
  pose proof (evaluateGate_cases s (set_CurrentNode (Node s) m)) as Hg.
  destruct (evaluateGate _ _ _) as [[[blocked s'] m']|e]; [|by apply (rotation_handled_park o m _ i s); [|by constructor|..]].
  destruct Hg as (Hc & Hn & Ht & Hm & Hopen). destruct blocked; [by apply (rotation_handled_park o m _ i s)|].
  destruct (Hopen eq_refl) as (Hg & -> & ->). clear Hn Ht Hm Hopen.
  assert (wf_node s) as Hws by (destruct Hat as [_ [[Hall _ _ _] _]]; by eapply Forall_lookup_1 in Hall).
  assert (cs_Image (cn_Spec (px_Container proxy)) <> "") as Hne.
  { unfold liveProxy in Hpx. destruct (a_PodNamespace ans); [|done]. destruct (a_Proxy ans _) eqn:E; [|done].
    injection Hpx as ->. by eapply (ps_image _ Hps). }
  set (s1 := start_rotation ans proxy (s <| Reason := "" |>)).
  assert (wf_node s1 /\ PreviousImage s1 <> "") as [Hw1 Hp1].
  { apply start_wf; [|done|done]. by apply (same_core_wf s). }
  set (m1 := put i s1 (set_Blocked [] (set_Blocked [] (set_CurrentNode (Node s) m)))).
  assert (i < length (Nodes (results m)))%nat as Hlen by (by eapply lookup_lt_Some).
  assert (may_write o (TargetImage (results m1)) (Nodes (results m1))) as Hw.
  { apply (at_entry_write o (results m) i s); [done..|]. intros _. right. split; [done|apply Hpl]. }
  apply handled_persist_next; [exact Hw|done|]. intros m2 E2.
  set (o1 := apply_call stored o (PersistProgress (results m1) : call, None)).
  assert (at_entry o1 (results m2) i s1) as Hat1.
  { rewrite E2. constructor; [by apply list_lookup_insert_eq|]. split; [apply Hw|done]. }
  apply handled_patch_next.
  - rewrite E2. apply (held_patch_sound o (results m) targets s (stored_state s1)); try done.
    change (stored_state s1 ∈ stored_state <$> <[i := s1]> (Nodes (results m))). apply list_elem_of_fmap_2.
    apply (list_elem_of_lookup_2 _ i). by apply list_lookup_insert_eq.
  - intros e m' E'. rewrite <-E' in Hat1. by apply (rotation_handled_park o1 m' m' i s1).
  - intros m' _. exists []. by rewrite app_nil_r.
Qed.

Lemma indexOfPhase_none l phase : indexOfPhase l phase = None -> Forall (fun s => Phase s <> phase) l.
Proof. apply list_find_None. Qed.

Lemma indexOfPhase_some l phase i s : indexOfPhase l phase = Some (i, s) -> l !! i = Some s /\ Phase s = phase.
Proof. intros H. by apply list_find_Some in H as (? & ? & _). Qed.

(** Every handler parks or fails: only [AdvanceOne] itself lets the pass go on. *)
Definition parks (x : machine * outcome) : Prop := x.2 <> Proceed.

Lemma rotation_persist_parks out m : out <> Proceed -> parks (persist_then ans out m).
Proof. intros Ho. unfold parks, persist_then. by destruct (persist ans m) as [[] ?]. Qed.

Ltac parked := unfold parkOnErr, parkNode; repeat case_match; by first [apply rotation_persist_parks|unfold parks].

Lemma rotation_advanceInFlight_parks i s m : parks (advanceInFlight ans i s m).
Proof. unfold advanceInFlight. parked. Qed.

Lemma advancePending_parks i s m : parks (advancePending ans i s m).
Proof. unfold advancePending. parked. Qed.

Lemma none_in_flight l : Forall (fun s => Phase s <> PhaseInFlight) l -> filter in_flight l = [].
Proof. apply list_filter_none. Qed.

(** [AdvanceOne] makes sound calls, and lets the campaign end only when every entry is closed. *)
Lemma rotation_AdvanceOne_spec o m targets :
  wf_rotation (held_target o) (held o) -> planned o (results m) targets ->
  handled o m (AdvanceOne ans m) /\
  ((AdvanceOne ans m).2 = Proceed -> calls (AdvanceOne ans m).1 = calls m /\
    TargetImage (results (AdvanceOne ans m).1) = TargetImage (results m) /\
    Nodes (results (AdvanceOne ans m).1) = Nodes (results m) /\ Forall closed (Nodes (results m))).
Proof.
  intros Hwf Hpl. unfold AdvanceOne. case_decide; [by split; [exists []; rewrite app_nil_r|]|].
  destruct (indexOfPhase _ PhaseInFlight) as [[i s]|] eqn:Ei.
  - apply indexOfPhase_some in Ei as [Hi Hp]. split; [by eapply rotation_handled_in_flight|]. intros E. by apply rotation_advanceInFlight_parks in E.
  - apply indexOfPhase_none in Ei. destruct (Paused _).
    { split; [apply rotation_handled_persist; [apply Hpl|done]|]. intros E. by apply rotation_persist_parks in E. }
    destruct (indexOfPhase _ PhasePending) as [[i s]|] eqn:Ej.
    + apply indexOfPhase_some in Ej as [Hi Hp]. split; [by eapply handled_pending; [..|by apply none_in_flight]|].
      intros E. by apply advancePending_parks in E.
    + apply indexOfPhase_none in Ej. split; [by exists []; rewrite app_nil_r|]. intros _. split_and!; try done.
      pose proof (wr_nodes _ _ (proj1 (pl_write _ _ _ Hpl))) as Hw. rewrite Forall_forall in Ei, Ej, Hw |- *.
      intros s Hs. specialize (Ei s Hs). specialize (Ej s Hs). pose proof (wn_phase _ (Hw s Hs)) as Hph.
      unfold closed. clear -Hph Ei Ej. set_solver.
Qed.

(** Without a stored result nothing is held. *)
Lemma rehydrate_held o :
  Nodes (rehydrateFrom (ow_Result o) zero_result) = held o /\
  TargetImage (rehydrateFrom (ow_Result o) zero_result) = held_target o.
Proof. unfold held, held_target, held_result. by destruct (ow_Result o). Qed.

Lemma previous_held o :
  default [] (Nodes <$> ow_Result o) = held o /\ default "" (TargetImage <$> ow_Result o) = held_target o.
Proof. unfold held, held_target, held_result. by destruct (ow_Result o). Qed.

(** A plan either makes sound calls and stops, or leaves the planned entries. *)
Lemma rotation_Plan_spec o :
  wf_rotation (held_target o) (held o) ->
  match Plan ownerUID ans (ow_Result o) (mkMachine zero_result []) with
  | (m, Some _) => audit stored (sound ans) o (calls m)
  | (m, None) => calls m = [] /\ exists targets, planned o (results m) targets
  end.
Proof.
  intros Hwf. destruct (rehydrate_held o) as [Hn Ht]. destruct (previous_held o) as [Hpn Hpt].
  unfold Plan. rewrite Hpn, Hpt.
  set (m1 := update (rehydrateFrom (ow_Result o)) _). set (image := resolveTargetImage _ _).
  assert (forall t, t <> "" -> wf_rotation t (held o)) as Hany.
  { intros t Htne. destruct Hwf. by constructor. }
  assert (forall err, audit stored (sound ans) o (calls (failTerminally ans err m1).1)) as Hfail.
  { intros err. unfold failTerminally, do_call. simpl. split; [|done].
    change (may_write o (TargetImage (results m1)) (Nodes (results m1))). unfold m1. simpl. rewrite Hn, Ht. by split. }
  case_decide as E1; [apply Hfail|]. case_decide as E2; [apply Hfail|].
  assert (held_target o <> "" -> image = held_target o) as Hkeep.
  { intros Hne. destruct (decide (image = held_target o)); [done|]. by destruct E2. }
  set (m2 := update (fun r => r <| TargetImage := image |>) m1).
  assert (forall err, audit stored (sound ans) o (calls (waitWithPersistedErr ans err m2).1)) as Hwait.
  { intros err. destruct (rotation_handled_persist o m2 (update (fun r => r <| r_Err := err |> <| r_BlockedSince ::= fun b => Some (default (a_Now ans) b) |>) m2)
      (WaitError err)) as (l & Hl & Ha); [|done|unfold waitWithPersistedErr; by rewrite Hl].
    change (may_write o image (Nodes (results m1))). unfold m1. simpl. rewrite Hn. split; [by apply Hany|done]. }
  destruct (refuseIfAnotherCampaignRunning _ _); [apply Hwait|].
  destruct (targetProxies ans) as [targets|] eqn:Et; [|apply Hwait]. case_decide; [apply Hwait|].
  split; [done|]. exists targets.
  assert (Hp : sort_nodes (mergeCampaignNodes (held o) targets image).1 ≡ₚ merge_target (held o) image <$> targets) by apply sort_by_perm.
  constructor; [done|exact Hp|exact E1|done|]. split; [|exact Hkeep].
  change (wf_rotation image (sort_nodes (mergeCampaignNodes (held o) targets image).1)). rewrite Hp.
  apply (mergeCampaignNodes_wf (held_target o)); [done|by eapply resolveTargetProxies_apart|done].
Qed.

(** Every call of a pass is sound. *)
Lemma rotation_pass_audit o :
  wf_rotation (held_target o) (held o) -> audit stored (sound ans) o (calls (pass ownerUID ans o).1).
Proof.
  intros Hwf. unfold pass. destruct (terminal o); [done|]. pose proof (rotation_Plan_spec o Hwf) as Hp.
  destruct (Plan _ _ _ _) as [m [e|]]; [done|]. destruct Hp as (Hc & targets & Hpl).
  pose proof (rotation_AdvanceOne_spec o m targets Hwf Hpl) as [(l & Hl & Ha) Hend].
  destruct (AdvanceOne ans m) as [m1 []]; simpl in Hl, Hend |- *; try by rewrite Hl, Hc.
  destruct Hend as (Hc1 & Ht1 & Hr1 & Hall); [done|].
  unfold finalize, do_call. rewrite Hc1, Hc. simpl.
  assert (sound ans o (MarkDone (results m1))) as Hs.
  { simpl. rewrite Ht1, Hr1. split; [apply Hpl|done]. }
  by destruct (a_Call _ _ _).
Qed.
End handlers.

(** ** Runs *)

(** A call is sound in some environment. *)
Definition some_sound (o : owner) (c : call) : Prop := exists ans, proxies_sound ans /\ sound ans o c.

Definition wf_owner (o : owner) : Prop := wf_rotation (held_target o) (held o).

(** Once there is a target image it stays. *)
Definition same_target (o o' : owner) : Prop := held_target o <> "" -> held_target o' = held_target o.

#[export] Instance same_target_preorder : PreOrder same_target.
Proof. split; [by intros o|]. intros a b c Hab Hbc Ha. rewrite Hbc, Hab; [done..|]. by rewrite Hab. Qed.

Lemma rotation_sound_step o e :
  wf_owner o -> some_sound o e.1 -> wf_owner (apply_call stored o e) /\ same_target o (apply_call stored o e).
Proof.
  intros Hwf (ans & _ & Hs).
  assert (forall st r, may_write o (TargetImage r) (Nodes r) ->
    wf_owner (mkOwner st (Some (stored r))) /\ same_target o (mkOwner st (Some (stored r)))) as H.
  { intros st r [Hw Ht]. split; [by apply wf_rotation_stored|exact Ht]. }
  destruct e as [c [a|]]; destruct c; try done; by apply H; first [apply Hs|destruct Hs].
Qed.

Lemma rotation_run uid o h o' h' :
  wf_owner o -> rtc (rotation_step uid) (o, h) (o', h') ->
  wf_owner o' /\ same_target o o' /\ exists l, audit stored some_sound o l /\ o' = apply_log stored o l /\ h' = h ++ l.
Proof.
  intros Hwf. eapply (cut_pass_run stored some_sound proxies_sound _ wf_owner same_target); [apply rotation_sound_step| |done].
  intros ans o1 Hps Hw. eapply audit_impl; [|by apply rotation_pass_audit]. intros o2 c Hc. by exists ans.
Qed.

Lemma rotation_created_wf : wf_owner created.
Proof. constructor; simpl; try constructor; [lia|]. intros H. by inversion H. Qed.

(** ** Completion *)

(** The passes an entry still needs. *)
Definition weight (s : NodeState) : Z := if decide (closed s) then 0 else if decide (in_flight s) then 1 else 2.

Definition remaining (l : list NodeState) : Z := sumZ (weight <$> l).

Lemma weight_nonneg s : 0 <= weight s.
Proof. unfold weight. repeat case_decide; lia. Qed.

Lemma rotation_remaining_nonneg l : 0 <= remaining l.
Proof. apply sumZ_nonneg, Forall_fmap, Forall_true. intros s. apply weight_nonneg. Qed.

Lemma weight_phase s s' : Phase s' = Phase s -> weight s' = weight s.
Proof.
  intros E. unfold weight. rewrite (decide_ext (closed s') (closed s)) by (unfold closed; by rewrite E).
  by rewrite (decide_ext (in_flight s') (in_flight s)) by (unfold in_flight; by rewrite E).
Qed.

Lemma rotation_remaining_stored l : remaining (stored_state <$> l) = remaining l.
Proof. unfold remaining. rewrite <-list_fmap_compose. done. Qed.

Lemma weight_closed s : closed s -> weight s = 0.
Proof. intros H. unfold weight. by rewrite decide_True. Qed.

Lemma priorByNode_in l s : NoDup (Node <$> l) -> s ∈ l -> priorByNode l (Node s) = Some s.
Proof.
  intros Hd Hs. destruct (priorByNode l (Node s)) as [s'|] eqn:E.
  - apply priorByNode_some in E as [Hs' Hn]. f_equal.
    apply list_elem_of_lookup in Hs as [i Hi], Hs' as [j Hj].
    assert (i = j) as ->; [|congruence]. eapply NoDup_lookup; [exact Hd|by rewrite list_lookup_fmap, Hi|].
    by rewrite list_lookup_fmap, Hj, <-Hn.
  - exfalso. unfold priorByNode in E. pose proof (find_none _ _ E s) as Hf. rewrite bool_decide_eq_false in Hf.
    apply Hf; [|done]. apply list_elem_of_In. by apply elem_of_reverse.
Qed.

(** The listing holds nodes of the campaign only, and no skipped one has left the target image. *)
Definition listing_stable (o : owner) (targets : list targetProxy) : Prop :=
  forall t, t ∈ targets -> exists s, s ∈ held o /\ Node s = t_node t /\
    (Phase s = PhaseSkipped -> cs_Image (cn_Spec (t_container t)) = held_target o).

Lemma remaining_merge o targets :
  wf_owner o -> NoDup (t_node <$> targets) -> listing_stable o targets ->
  remaining (merge_target (held o) (held_target o) <$> targets) <= remaining (held o).
Proof.
  intros [Hw Hd _ _] Ht Hs. unfold remaining. rewrite <-list_fmap_compose. unfold compose.
  apply (sumZ_cover t_node Node); [done|apply Forall_true, weight_nonneg|].
  intros t Hin. destruct (Hs t Hin) as (s & Hsin & Hn & Hsk). exists s. split_and!; [done..|].
  unfold merge_target. rewrite <-Hn, (priorByNode_in _ _ Hd Hsin). simpl.
  pose proof (Forall_forall wf_node (held o)) as [Hall _]. specialize (Hall Hw s Hsin).
  case_decide as E1; [|case_decide as E2].
  - rewrite weight_closed by (by right). apply weight_nonneg.
  - destruct E1. split; [by apply Hsk|]. apply (wn_untouched _ Hall). by right.
  - by rewrite (weight_phase s).
Qed.

(** The node in flight is found on the target image, ready and recovered. *)
Definition confirmed (ans : answers) (target : string) (s : NodeState) : Prop :=
  exists proxy pod, liveProxyAndPod ans (ProxyName s) = Ok (proxy, Some pod) /\
    cs_Image (cn_Spec (px_Container proxy)) = target /\ verifyNodeComplete ans proxy pod target (Node s) = Ok ([], "").

(** The environment cooperates with a campaign at [o]: the plan goes through on the nodes it knows, calls succeed, and
    the entry that is next can take its step. *)
Record cooperates (uid : string) (ans : answers) (o : owner) : Prop := mkCooperates {
  co_sound : proxies_sound ans;
  co_calls : forall l c, a_Call ans l c = None;
  co_pass : exists m targets, Plan uid ans (ow_Result o) (mkMachine zero_result []) = (m, None) /\
    targetProxies ans = Ok targets /\ listing_stable o targets /\ TargetImage (results m) = held_target o /\
    (forall i s, indexOfPhase (Nodes (results m)) PhaseInFlight = Some (i, s) -> confirmed ans (held_target o) s) /\
    (indexOfPhase (Nodes (results m)) PhaseInFlight = None -> Paused (a_Payload ans) = false /\
     forall i s, indexOfPhase (Nodes (results m)) PhasePending = Some (i, s) ->
       (exists proxy, liveProxy ans (ProxyName s) = Ok proxy) /\ gate_open ans (Node s)) }.

Section completion.
Context (uid : string).

(** The owner after a whole pass. *)
Definition after_pass (ans : answers) (o : owner) : owner := apply_log stored o (calls (pass uid ans o).1).

Lemma rotation_after_pass_terminal ans o : terminal o = true -> after_pass ans o = o.
Proof. intros Ht. unfold after_pass, pass. by rewrite Ht. Qed.

Lemma rotation_after_pass_wf ans o : wf_owner o -> proxies_sound ans -> wf_owner (after_pass ans o).
Proof.
  intros Hwf Hps. eapply (audit_log stored some_sound wf_owner same_target); [apply rotation_sound_step|done|].
  eapply audit_impl; [|by apply rotation_pass_audit]. intros o2 c Hc. by exists ans.
Qed.

(** The pass stored the planned entries, the one at [i] with less to do. *)
Lemma stored_progress o l i s s' r (x : machine) :
  l !! i = Some s -> remaining l <= remaining (held o) -> terminal o = false -> Nodes r = <[i := s']> l -> weight s' < weight s ->
  apply_log stored o (calls x) = apply_call stored o (PersistProgress r : call, None) ->
  terminal (apply_log stored o (calls x)) = false /\
  remaining (held (apply_log stored o (calls x))) < remaining (held o).
Proof.
  intros Hi Hle Ht Hr Hw ->. split.
  - unfold terminal in *. simpl. destruct (decide (ow_Status o = "")); [done|exact Ht].
  - change (held (apply_call stored o (PersistProgress r : call, None))) with (stored_state <$> Nodes r).
    rewrite rotation_remaining_stored, Hr. unfold remaining in *. rewrite (sumZ_fmap_insert _ _ _ _ _ Hi). lia.
Qed.

Section passes.
Context (ans : answers) (Hps : proxies_sound ans) (Hcalls : forall l c, a_Call ans l c = None).

Lemma persist_ok m : persist ans m = (None, mkMachine (results m) (calls m ++ [(PersistProgress (results m) : call, None)])).
Proof. unfold persist, do_call. by rewrite Hcalls. Qed.

Lemma persist_calls out m :
  calls (persist_then ans out m).1 = calls m ++ [(PersistProgress (results m) : call, None)].
Proof. unfold persist_then. by rewrite persist_ok. Qed.

Lemma patch_ok proxy m :
  exists c, outside c /\ patchProxyImage ans proxy m = (None, mkMachine (results m) (calls m ++ [(c, None)])).
Proof. eexists. split; [|unfold patchProxyImage, do_call; by rewrite Hcalls]. done. Qed.

Lemma in_flight_progress o m i s :
  calls m = [] -> terminal o = false -> Nodes (results m) !! i = Some s -> in_flight s ->
  remaining (Nodes (results m)) <= remaining (held o) -> confirmed ans (TargetImage (results m)) s ->
  terminal (apply_log stored o (calls (advanceInFlight ans i s m).1)) = false /\
  remaining (held (apply_log stored o (calls (advanceInFlight ans i s m).1))) < remaining (held o).
Proof.
  intros Hc Ht Hi Hf Hle (proxy & pod & Hl & Himg & Hv). unfold advanceInFlight.
  change (TargetImage (results (set_CurrentNode (Node s) m))) with (TargetImage (results m)).
  rewrite Hl, decide_False by (intros H; by apply H). rewrite Hv, decide_False by (intros H; by apply H).
  set (s1 := s <| Phase := PhaseDone |> <| Reason := "" |>). set (m1 := update _ (set_CurrentNode "" _)).
  eapply (stored_progress o (Nodes (results m)) i s s1 (results m1)); [done..| |].
  - unfold weight. rewrite decide_True by (by left). rewrite decide_False; [by rewrite decide_True|].
    unfold closed, in_flight in *. rewrite Hf. by intros [?|?].
  - rewrite persist_calls. change (calls m1) with (calls m). rewrite Hc. done.
Qed.

Lemma pending_progress o m i s :
  calls m = [] -> terminal o = false -> Nodes (results m) !! i = Some s -> Phase s = PhasePending ->
  remaining (Nodes (results m)) <= remaining (held o) ->
  (exists proxy, liveProxy ans (ProxyName s) = Ok proxy) -> gate_open ans (Node s) ->
  terminal (apply_log stored o (calls (advancePending ans i s m).1)) = false /\
  remaining (held (apply_log stored o (calls (advancePending ans i s m).1))) < remaining (held o).
Proof.
  intros Hc Ht Hi Hp Hle [proxy Hl] (vs & Hg & Hall). unfold advancePending, evaluateGate. rewrite Hl, Hg, Hall.
  set (s1 := start_rotation _ _ _). set (m1 := put i s1 _). rewrite persist_ok.
  destruct (patch_ok proxy (mkMachine (results m1) (calls m1 ++ [(PersistProgress (results m1) : call, None)]))) as (c & Hout & ->).
  cbn [fst calls]. change (calls m1) with (calls m). rewrite Hc.
  eapply (stored_progress o (Nodes (results m)) i s s1 (results m1) (mkMachine (results m1) _)); [done..| |].
  - unfold weight. rewrite (decide_False (P := closed s)); [|unfold closed; rewrite Hp; by intros [?|?]].
    rewrite (decide_False (P := in_flight s)) by (unfold in_flight; by rewrite Hp). by repeat case_decide.
  - cbn [calls]. by destruct c.
Qed.

(** A pass the environment cooperates with ends the campaign or brings it strictly closer to the end. *)
Lemma rotation_pass_progress o :
  wf_owner o -> terminal o = false -> cooperates uid ans o ->
  ow_Status (after_pass ans o) = "Done" \/
  terminal (after_pass ans o) = false /\ remaining (held (after_pass ans o)) < remaining (held o).
Proof.
  intros Hwf Ht [_ _ (m & targets & Hplan & Het & Hst & Hti & Hfl & Hpe)]. unfold after_pass, pass. rewrite Ht.
  pose proof (rotation_Plan_spec uid ans Hps o Hwf) as Hp. rewrite Hplan in Hp |- *. destruct Hp as (Hc & targets' & Hpl).
  assert (targets' = targets) as -> by (pose proof (pl_targets _ _ _ _ Hpl); congruence).
  assert (remaining (Nodes (results m)) <= remaining (held o)) as Hle.
  { unfold remaining at 1. rewrite (pl_nodes _ _ _ _ Hpl), Hti.
    by apply remaining_merge; [|by eapply resolveTargetProxies_apart|]. }
  unfold AdvanceOne. rewrite decide_False by (intros H; apply H, Hpl). rewrite <-Hti in Hfl.
  destruct (indexOfPhase (Nodes (results m)) PhaseInFlight) as [[i s]|] eqn:Ei.
  - pose proof (indexOfPhase_some _ _ _ _ Ei) as [Hi Hf]. right. pose proof (rotation_advanceInFlight_parks ans i s m) as Hpk. unfold parks in Hpk.
    pose proof (in_flight_progress o m i s Hc Ht Hi Hf Hle (Hfl i s eq_refl)) as Hx.
    by destruct (advanceInFlight ans i s m) as [m1 []].
  - destruct (Hpe eq_refl) as [Hpa Hgo]. rewrite Hpa.
    destruct (indexOfPhase (Nodes (results m)) PhasePending) as [[i s]|] eqn:Ej.
    + pose proof (indexOfPhase_some _ _ _ _ Ej) as [Hi Hf]. right. destruct (Hgo i s eq_refl) as [Hl Hg].
      pose proof (advancePending_parks ans i s m) as Hpk. unfold parks in Hpk.
      pose proof (pending_progress o m i s Hc Ht Hi Hf Hle Hl Hg) as Hx.
      by destruct (advancePending ans i s m) as [m1 []].
    + left. unfold finalize, do_call. rewrite Hcalls. simpl. by rewrite Hc.
Qed.
End passes.
End completion.
