(* ===== verification/RotationRuns.v ===== *)
(** * Theorems on campaigns of the ssdproxy rotation, with concrete runs

    A campaign is a run of passes, each possibly cut short, from the object just created. *)

From coqutil Require Import Datatypes.RecordSetters.
From stdpp Require Import relations.
From S2P Require Import Prelude Fmt Types Sizing Ports Strategies VirtualDrives Api Nodes Templates Disruption DisruptionFacts Campaign Rotation RotationFacts.
Import TriangleBracketNotations.
Import Rotation.

Section theorems.
Context (uid : string).
Local Abbreviation step := (rotation_step uid).

(** C18: Whatever the environment answers and wherever passes are cut short, a rotation campaign stores one entry per node
    and at most one in flight, what it started it remembers the image of, and its target image never changes. *)
Theorem rotation_invariant o h o' h' :
  rtc step (created, []) (o, h) -> rtc step (o, h) (o', h') ->
  wf_rotation (held_target o') (held o') /\ (held_target o <> "" -> held_target o' = held_target o).
Proof.
  intros H1 H2. destruct (rotation_run _ _ _ _ _ rotation_created_wf H1) as [Hwf _].
  destruct (rotation_run _ _ _ _ _ Hwf H2) as (Hwf' & Ht & _). by split.
Qed.

(** C17: Wherever a campaign has come, a pass patches a proxy only to the stored target image, while the object holds the
    node as in flight with the image it had before, the proxy being the one listed for that node, and after the
    disruption gate of the node was asked in the same pass and allowed the restart; and it marks the operation done only
    when every entry is done or skipped. *)
Theorem patch_only_when_safe o h ans l1 c a l2 :
  rtc step (created, []) (o, h) -> proxies_sound ans -> calls (pass uid ans o).1 = l1 ++ (c, a) :: l2 ->
  sound ans (apply_log stored o l1) c.
Proof.
  intros Hr Hps Hl. destruct (rotation_run _ _ _ _ _ rotation_created_wf Hr) as [Hwf _].
  pose proof (rotation_pass_audit uid ans Hps o Hwf) as Ha. rewrite Hl in Ha. apply audit_app in Ha as [_ [Ha _]]. exact Ha.
Qed.

(** C20: A campaign whose environment cooperates completes: after one pass for the start and one for the verification of
    every node that is left, and one more, the operation is Done. *)
Theorem rotation_completes env o h :
  rtc step (created, []) (o, h) -> terminal o = false ->
  (forall n, (n <= Z.to_nat (remaining (held o)))%nat -> terminal (passes (after_pass uid) env n o) = false ->
     cooperates uid (env n) (passes (after_pass uid) env n o)) ->
  ow_Status (passes (after_pass uid) env (S (Z.to_nat (remaining (held o)))) o) = "Done".
Proof.
  intros Hr Ht Hco. destruct (rotation_run _ _ _ _ _ rotation_created_wf Hr) as [Hwf _].
  apply (passes_complete _ wf_owner (fun o => remaining (held o)) (cooperates uid));
    [intros; apply rotation_remaining_nonneg|by apply rotation_after_pass_terminal| |done..].
  intros ans o1 Hw Ht1 Hc. destruct (rotation_pass_progress uid ans (co_sound _ _ _ Hc) (co_calls _ _ _ Hc) o1 Hw Ht1 Hc) as [?|[? ?]]; [by left|right].
  split_and!; try done. apply rotation_after_pass_wf; [done|apply Hc].
Qed.
End theorems.

(** ** A node is done only when it has recovered *)

Lemma persist_results ans m : results (persist ans m).2 = results m.
Proof. unfold persist, do_call. by destruct (a_Call _ _ _). Qed.

Lemma patch_results ans proxy m : results (patchProxyImage ans proxy m).2 = results m.
Proof. unfold patchProxyImage, do_call. by destruct (a_Call _ _ _). Qed.

Lemma persist_then_results ans out m : results (persist_then ans out m).1 = results m.
Proof. unfold persist_then, persist, do_call. by destruct (a_Call _ _ _). Qed.

Lemma parkNode_phase ans i s m s' :
  Nodes (results (parkNode ans i s m).1) !! i = Some s' -> Phase s' = Phase s.
Proof.
  unfold parkNode. rewrite persist_then_results. change (Nodes (results (put i ?x m))) with (<[i := x]> (Nodes (results m))).
  intros H. apply list_lookup_insert_Some in H as [(_ & <- & _)|[? _]]; [|done]. unfold stamp_blocked. by case_decide.
Qed.

Lemma advanceInFlight_done ans i s m s' :
  Phase s <> PhaseDone -> Nodes (results (advanceInFlight ans i s m).1) !! i = Some s' -> Phase s' = PhaseDone ->
  exists proxy pod vs, liveProxyAndPod ans (ProxyName s) = Ok (proxy, Some pod) /\
    cs_Image (cn_Spec (px_Container proxy)) = TargetImage (results m) /\
    verifyNodeComplete ans proxy pod (TargetImage (results m)) (Node s) = Ok (vs, "").
Proof.
  intros Hs. unfold advanceInFlight, parkOnErr.
  assert (forall s1 m1, Phase s1 = Phase s -> Nodes (results (parkNode ans i s1 m1).1) !! i = Some s' -> Phase s' <> PhaseDone) as Hpark.
  { intros s1 m1 H1 H2. apply parkNode_phase in H2. by rewrite H2, H1. }
  destruct (liveProxyAndPod ans (ProxyName s)) as [[proxy pod]|]; [|intros H1 H2; by apply Hpark in H1].
  change (TargetImage (results (set_CurrentNode (Node s) m))) with (TargetImage (results m)). case_decide as E.
  - unfold applyTargetImage. pose proof (evaluateGate_cases ans s (set_CurrentNode (Node s) m)) as Hg.
    destruct (evaluateGate _ _ _) as [[[blocked s1] m1]|]; [|intros H1 H2; by apply Hpark in H1].
    destruct Hg as ([_ Hph _ _] & _). destruct blocked; [intros H1 H2; by apply Hpark in H1|].
    destruct (patchProxyImage ans proxy m1) as [[e|] m2]; [intros H1 H2; by apply Hpark in H1|].
    rewrite persist_then_results. intros H1 H2.
    apply list_lookup_insert_Some in H1 as [(_ & <- & _)|[? _]]; [|done]. congruence.
  - destruct pod as [pod|]; [|intros H1 H2; by apply Hpark in H1].
    destruct (verifyNodeComplete _ _ _ _ _) as [[vs reason]|] eqn:Ev; [|intros H1 H2; by apply Hpark in H1].
    case_decide as Er; [intros H1 H2; by apply Hpark in H1|]. subst reason. intros _ _.
    by exists proxy, pod, vs.
Qed.

(** What leaves the entry [k] of [m] alone. *)
Definition keeps (k : nat) (m m' : machine) : Prop := Nodes (results m') !! k = Nodes (results m) !! k.

Lemma keeps_put k i s m m' : k <> i -> keeps k m m' -> keeps k m (put i s m').
Proof. intros Hk H. unfold keeps. rewrite <-H. by apply list_lookup_insert_ne. Qed.

Lemma keeps_persist ans k m m' out : keeps k m m' -> keeps k m (persist_then ans out m').1.
Proof. unfold keeps. by rewrite persist_then_results. Qed.

Lemma keeps_park ans k i s m m' : k <> i -> keeps k m m' -> keeps k m (parkNode ans i s m').1.
Proof. intros. by apply keeps_persist, keeps_put. Qed.

Lemma keeps_gate ans k m s m' :
  keeps k m m' -> match evaluateGate ans s m' with Ok (_, _, m'') => keeps k m m'' | Err _ => True end.
Proof.
  intros H. pose proof (evaluateGate_cases ans s m') as Hg. destruct (evaluateGate ans s m') as [[[b s1] m1]|]; [|done].
  destruct Hg as (_ & Hn & _). unfold keeps. by rewrite Hn.
Qed.

Lemma keeps_patch ans k m proxy m' : keeps k m m' -> keeps k m (patchProxyImage ans proxy m').2.
Proof. unfold keeps. by rewrite patch_results. Qed.

Lemma keeps_persisted ans k m m' : keeps k m m' -> keeps k m (persist ans m').2.
Proof. unfold keeps. by rewrite persist_results. Qed.

(** A handler of one entry touches that entry only. *)
Lemma rotation_advanceInFlight_others ans i s m k : k <> i -> keeps k m (advanceInFlight ans i s m).1.
Proof.
  intros Hk. assert (keeps k m (set_CurrentNode (Node s) m)) as H0 by done. unfold advanceInFlight, parkOnErr, applyTargetImage.
  destruct (liveProxyAndPod _ _) as [[proxy pod]|]; [|by apply keeps_park]. case_decide.
  - pose proof (keeps_gate ans k m s _ H0) as Hg. destruct (evaluateGate _ _ _) as [[[[] s1] m1]|]; try by apply keeps_park.
    pose proof (keeps_patch ans k m proxy m1 Hg) as Hp. destruct (patchProxyImage ans proxy m1) as [[e|] m2]; [by apply keeps_park|].
    by apply keeps_persist, keeps_put.
  - destruct pod; [|by apply keeps_park]. destruct (verifyNodeComplete _ _ _ _ _) as [[vs reason]|]; [|by apply keeps_park].
    case_decide; [by apply keeps_park|]. by apply keeps_persist, (keeps_put k i _ m (set_Blocked [] (set_CurrentNode (Node s) m))).
Qed.

Lemma advancePending_others ans i s m k : k <> i -> keeps k m (advancePending ans i s m).1.
Proof.
  intros Hk. assert (keeps k m (set_CurrentNode (Node s) m)) as H0 by done. unfold advancePending, parkOnErr.
  destruct (liveProxy _ _) as [proxy|]; [|by apply keeps_park].
  pose proof (keeps_gate ans k m s _ H0) as Hg. destruct (evaluateGate _ _ _) as [[[[] s1] m1]|]; try by apply keeps_park.
  assert (keeps k m (put i (start_rotation ans proxy s1) (set_Blocked [] m1))) as H1 by (by apply keeps_put).
  pose proof (keeps_persisted ans k m _ H1) as H2. destruct (persist ans _) as [[e|] m2]; [done|].
  pose proof (keeps_patch ans k m proxy m2 H2) as Hp. destruct (patchProxyImage ans proxy m2) as [[e|] m3]; [by apply keeps_park|done].
Qed.

Lemma advancePending_not_done ans i s m s' :
  Phase s = PhasePending -> (i < length (Nodes (results m)))%nat ->
  Nodes (results (advancePending ans i s m).1) !! i = Some s' -> Phase s' <> PhaseDone.
Proof.
  intros Hs Hi. unfold advancePending, parkOnErr.
  assert (forall s1 m1, Phase s1 <> PhaseDone -> Nodes (results (parkNode ans i s1 m1).1) !! i = Some s' -> Phase s' <> PhaseDone) as Hpark.
  { intros s1 m1 H1 H2. apply parkNode_phase in H2. by rewrite H2. }
  assert (Phase s <> PhaseDone) as Hnd by (by rewrite Hs).
  destruct (liveProxy ans _) as [proxy|]; [|by apply Hpark].
  pose proof (evaluateGate_cases ans s (set_CurrentNode (Node s) m)) as Hg.
  destruct (evaluateGate _ _ _) as [[[blocked s1] m1]|]; [|by apply Hpark].
  destruct Hg as ([_ Hph _ _] & Hn & _). destruct blocked; [apply Hpark; by rewrite Hph|].
  set (s2 := start_rotation ans proxy s1). set (m2 := put i s2 (set_Blocked [] m1)).
  assert (Nodes (results m2) !! i = Some s2) as H2.
  { apply (list_lookup_insert_eq (Nodes (results m1))). by rewrite Hn. }
  assert (Phase s2 <> PhaseDone) as Hs2 by done.
  assert (forall m3 : machine, results m3 = results m2 -> Nodes (results m3) !! i = Some s' -> Phase s' <> PhaseDone) as Hkeep.
  { intros m3 -> H1. rewrite H2 in H1. by injection H1 as <-. }
  pose proof (persist_results ans m2) as Hr. destruct (persist ans m2) as [[e|] m3]; [by apply Hkeep|].
  pose proof (patch_results ans proxy m3) as Hr'. destruct (patchProxyImage ans proxy m3) as [[e|] m4]; [by apply Hpark|].
  apply Hkeep. exact (eq_trans Hr' Hr).
Qed.

(** C19: A node becomes Done only from in flight, and only in a pass that found its proxy on the target image, its pod
    running that image, the proxy running and ready, and, with the recovery gate in place, every cluster that depends
    on the node healthy and all its drives there active again. *)
Theorem done_only_when_recovered dp cp (g : string -> gate_answers) ans m i s s' :
  (forall node, a_Recovered ans node = VerifyNodeRecovered dp cp (g node) node) -> distinct_clusters (g (Node s)) ->
  Nodes (results m) !! i = Some s -> Phase s <> PhaseDone ->
  Nodes (results (AdvanceOne ans m).1) !! i = Some s' -> Phase s' = PhaseDone ->
  Phase s = PhaseInFlight /\
  (exists proxy, liveProxy ans (ProxyName s) = Ok proxy /\ cs_Image (cn_Spec (px_Container proxy)) = TargetImage (results m) /\
     a_Pod ans (ProxyName s) = Ok (Ok (TargetImage (results m))) /\
     cst_Status (cn_Status (px_Container proxy)) = ContainerRunning /\ InternalStatus proxy = "READY") /\
  forall c, depends (g (Node s)) (Node s) c ->
    exists containers, found_healthy dp cp (g (Node s)) c containers /\ recovered (g (Node s)) (Node s) c containers.
Proof.
  intros Hg Hd Hi Hnd. unfold AdvanceOne.
  assert (forall s1, Nodes (results m) !! i = Some s1 -> Phase s1 <> PhaseDone) as Hsame by (intros; by simplify_eq).
  case_decide; [by intros ?%Hsame|].
  destruct (indexOfPhase _ PhaseInFlight) as [[j x]|] eqn:Ej.
  - apply indexOfPhase_some in Ej as [Hj Hx]. destruct (decide (i = j)) as [->|Hne];
      [|rewrite (rotation_advanceInFlight_others ans j x m i Hne); by intros ?%Hsame].
    simplify_eq. intros H1 H2. destruct (advanceInFlight_done _ _ _ _ _ Hnd H1 H2) as (proxy & pod & vs & Hl & Himg & Hv).
    split; [done|]. revert Hl Hv. unfold liveProxyAndPod, verifyNodeComplete, podAndProxyReady.
    destruct (liveProxy ans (ProxyName s)) as [px|]; simpl; [|done].
    destruct (a_Pod ans (ProxyName s)) as [pd|[]]; [|done..]. intros [= -> ->].
    destruct pod as [image|]; simpl; [|done].
    case_decide as E1; simpl; [done|]. case_decide as E2; simpl; [done|]. case_decide as E3; simpl; [done|]. rewrite Hg.
    destruct (VerifyNodeRecovered dp cp (g (Node s)) (Node s)) as [verdicts|] eqn:Er; [|done]. intros Hv.
    assert (AllAllowed verdicts = None) as Hall.
    { pose proof (recovery_reasons _ _ _ _ _ Er). destruct (AllAllowed verdicts); [|done]. congruence. }
    split; [exists proxy; split_and!; congruence|].
    intros c Hc. apply evaluateNodeRecovery_allowed. by eapply (evaluateDependents_allowed _ _ _ _ Hd Er).
  - destruct (Paused _); [rewrite persist_then_results; by intros ?%Hsame|].
    destruct (indexOfPhase _ PhasePending) as [[j x]|] eqn:Ek; [|by intros ?%Hsame].
    apply indexOfPhase_some in Ek as [Hj Hx]. destruct (decide (i = j)) as [->|Hne];
      [|rewrite (advancePending_others ans j x m i Hne); by intros ?%Hsame].
    simplify_eq. intros H1 H2. exfalso. apply (advancePending_not_done ans j s m s' Hx (lookup_lt_Some _ _ _ Hi) H1 H2).
Qed.

(** ** A fleet of two nodes *)

Definition rt_container (name node image : string) : Api.Container := {|
  cn_Name := name; cn_Namespace := "operator"; cn_CreationTimestamp := 1; cn_Deleted := false; cn_OwnerReferences := [];
  cn_Spec := {| cs_Mode := "ssdproxy"; cs_Image := image; cs_State := ContainerStateActive;
    cs_CpuPolicy := ""; cs_NumCores := 1; cs_ExtraCores := 0; cs_Resources := None; cs_Hugepages := 1000;
    cs_HugepagesOffset := 0; cs_HugepagesSize := "2Mi"; cs_NumDrives := 0; cs_DriveCapacity := 0;
    cs_ContainerCapacity := 0; cs_DriveTypesRatio := None; cs_NodeAffinity := node; cs_RotatePod := false;
    cs_NodeSelector := ∅; cs_DpdkBaseMemoryMb := 0 |};
  cn_Status := {| cst_Status := "Running"; cst_ManagementIps := []; cst_NodeAffinity := node;
    cst_LastAppliedImage := image; cst_ClusterContainerID := None; cst_PodOutdated := false; cst_Allocations := None |} |}.

(** The images of the two proxies. *)
Definition rt_fleet (i1 i2 : string) : list Api.Container := [rt_container "p1" "n1" i1; rt_container "p2" "n2" i2].

(** Everybody cooperates; the gates are those of two healthy clusters. *)
Definition rt_answers (i1 i2 : string) : answers := {|
  a_Payload := mkPayload "new" ∅ false; a_Override := ""; a_Now := 100500000000; a_Operations := Ok [];
  a_PodNamespace := Ok "operator"; a_Proxies := Ok (rt_fleet i1 i2); a_SelectedNodes := Ok [];
  a_Proxy := fun name => match find (fun c => bool_decide (cn_Name c = name)) (rt_fleet i1 i2) with
                         | Some c => Ok (mkProxy c "READY") | None => Err "no such container" end;
  a_Pod := fun name => Ok (Ok (if decide (name = "p1") then i1 else i2));
  a_Gate := fun node => EvaluateNodeDisruption 90 90 (gt_answers 4) node;
  a_Recovered := fun node => VerifyNodeRecovered 90 90 (gt_answers 4) node;
  a_Call := fun _ _ => None |}.

(** The node n1 is not listed, or its recovery cannot be verified. *)
Definition rt_unlisted (i1 i2 : string) : answers := (rt_answers i1 i2) <| a_Proxies := Ok [rt_container "p2" "n2" i2] |>.
Definition rt_unverified (ans : answers) : answers :=
  ans <| a_Recovered := fun node => if decide (node = "n1") then Err "drives are missing" else Ok [] |>.

Lemma rt_sound ans i1 i2 :
  i1 <> "" -> i2 <> "" -> a_Proxy ans = a_Proxy (rt_answers i1 i2) ->
  (exists cs, a_Proxies ans = Ok cs /\ cs ∈ [rt_fleet i1 i2; [rt_container "p2" "n2" i2]]) -> proxies_sound ans.
Proof.
  intros H1 H2 Hp (cs & Hcs & Hin). split.
  - rewrite Hcs. intros cs' [= <-]. set_unfold in Hin. apply (bool_decide_unpack _).
    destruct Hin as [->|[->|[]]]; vm_compute; exact I.
  - rewrite Hp. intros name proxy. simpl. repeat case_bool_decide; intros [= <-]; done.
  - rewrite Hp. intros name proxy. simpl. repeat case_bool_decide; intros [= <-]; done.
Qed.

Lemma rt_answers_sound i1 i2 : i1 <> "" -> i2 <> "" -> proxies_sound (rt_answers i1 i2).
Proof. intros H1 H2. apply (rt_sound _ i1 i2); try done. eexists. split; [done|set_solver]. Qed.

Abbreviation rt_calls ans o := (calls (pass "u" ans o).1).

Definition rt_passes (l : list answers) : owner * log := whole_passes stored (fun ans o => rt_calls ans o) l (created, []).
Definition rt_run (l : list answers) : owner := (rt_passes l).1.
Definition rt_history (l : list answers) : log := (rt_passes l).2.

Lemma rt_reachable l : Forall proxies_sound l -> rtc (rotation_step "u") (created, []) (rt_run l, rt_history l).
Proof. intros Hu. unfold rt_run, rt_history. rewrite <-surjective_pairing. by apply whole_passes_cut. Qed.

(** The passes from the creation to Done. *)
Definition rt_campaign : list answers :=
  [rt_answers "old" "old"; rt_answers "new" "old"; rt_answers "new" "old"; rt_answers "new" "new"; rt_answers "new" "new"].

Lemma rt_campaign_sound k : Forall proxies_sound (take k rt_campaign).
Proof. apply Forall_take. unfold rt_campaign. rewrite !Forall_cons. split_and!; try apply Forall_nil_2; by apply rt_answers_sound. Qed.

Lemma rotation_invariant_witness :
  (exists s1 s2, held (rt_run (take 3 rt_campaign)) = [s1; s2] /\ Phase s1 = PhaseDone /\ in_flight s2) /\
  wf_rotation (held_target (rt_run (take 3 rt_campaign))) (held (rt_run (take 3 rt_campaign))) /\
  held_target (rt_run (take 3 rt_campaign)) = "new".
Proof.
  split; [do 2 eexists; split_and!; vm_compute; reflexivity|].
  destruct (rotation_invariant "u" (rt_run (take 1 rt_campaign)) (rt_history (take 1 rt_campaign))
    (rt_run (take 3 rt_campaign)) (rt_history (take 3 rt_campaign))) as [H1 H2].
  - apply rt_reachable, rt_campaign_sound.
  - unfold rt_run, rt_history. rewrite <-!surjective_pairing. unfold rt_passes.
    apply (whole_passes_cut stored proxies_sound (fun ans o => rt_calls ans o) (drop 1 (take 3 rt_campaign)) (rt_passes (take 1 rt_campaign))).
    apply Forall_drop, rt_campaign_sound.
  - split; [exact H1|]. apply H2. vm_compute. discriminate.
Defined.

Lemma patch_only_when_safe_witness :
  exists r, rt_calls (rt_answers "old" "old") created =
    [(PersistProgress r, None); (Act (PatchImage "operator" "p1" "new"), None)] /\
    patch_sound (rt_answers "old" "old") (apply_log stored created [(PersistProgress r : call, None)]) "p1" "new".
Proof.
  eexists. split; [vm_compute; reflexivity|].
  apply (patch_only_when_safe "u" created [] (rt_answers "old" "old") _ (Act (PatchImage "operator" "p1" "new")) None []);
    [apply rtc_refl|by apply rt_answers_sound|vm_compute; reflexivity].
Defined.

Lemma listing_stable_check o targets :
  Forall (fun t => Exists (fun s => Node s = t_node t /\
    (Phase s = PhaseSkipped -> cs_Image (cn_Spec (t_container t)) = held_target o)) (held o)) targets ->
  listing_stable o targets.
Proof. intros H t Ht. eapply Forall_forall in H; [|exact Ht]. apply Exists_exists in H as (s & ? & ? & ?). by exists s. Qed.

(** The answers that follow the start on the first node. *)
Definition rt_env (n : nat) : answers := nth n (drop 1 rt_campaign) (rt_answers "new" "new").
Definition rt_at (n : nat) : owner := passes (after_pass "u") rt_env n (rt_run (take 1 rt_campaign)).

Lemma rt_cooperates n : (n <= 3)%nat -> cooperates "u" (rt_env n) (rt_at n).
Proof.
  intros Hn. destruct n as [|[|[|[|n]]]]; [clear Hn..|lia].
  all: constructor; [by apply rt_answers_sound|done|].
  all: do 2 eexists; split_and!; [vm_compute; reflexivity|vm_compute; reflexivity| |vm_compute; reflexivity|..].
  all: try (apply listing_stable_check; apply (bool_decide_unpack _); vm_compute; exact I).
  all: try (intros i s E; vm_compute in E; simplify_eq; do 2 eexists; split_and!; vm_compute; reflexivity).
  all: intros _; split; [reflexivity|].
  all: intros i s E; vm_compute in E; simplify_eq; (split; [eexists|eexists; split]; vm_compute; reflexivity).
Qed.

Lemma rotation_completes_witness : ow_Status (rt_at 4) = "Done".
Proof.
  assert (Z.to_nat (remaining (held (rt_run (take 1 rt_campaign)))) = 3%nat) as E by (vm_compute; reflexivity).
  unfold rt_at. rewrite <-E.
  apply (rotation_completes "u" rt_env (rt_run (take 1 rt_campaign)) (rt_history (take 1 rt_campaign))).
  - apply rt_reachable, rt_campaign_sound.
  - vm_compute. reflexivity.
  - intros n Hn _. apply rt_cooperates. by rewrite E in Hn.
Defined.

Lemma done_only_when_recovered_witness :
  exists containers, found_healthy 90 90 (gt_answers 4) gt_a containers /\ recovered (gt_answers 4) "n1" gt_a containers.
Proof.
  set (m := (Plan "u" (rt_answers "new" "old") (ow_Result (rt_run (take 1 rt_campaign))) (mkMachine zero_result [])).1).
  destruct (Nodes (results m) !! 0%nat) as [s|] eqn:Es; [|vm_compute in Es; discriminate].
  destruct (Nodes (results (AdvanceOne (rt_answers "new" "old") m).1) !! 0%nat) as [s'|] eqn:Es'; [|vm_compute in Es'; discriminate].
  destruct (done_only_when_recovered 90 90 (fun _ => gt_answers 4) (rt_answers "new" "old") m 0 s s') as (_ & _ & H);
    [reflexivity|apply gt_distinct|exact Es| |exact Es'| |].
  - vm_compute in Es. injection Es as <-. discriminate.
  - vm_compute in Es'. injection Es' as <-. reflexivity.
  - assert (Node s = "n1") as En by (vm_compute in Es; injection Es as <-; reflexivity). rewrite En in H. apply H, gt_depends.
Defined.

(** ** A node that is forgotten *)

Definition rt_forgetful : list answers :=
  rt_unverified <$> [rt_answers "old" "old"; rt_unlisted "new" "old"; rt_answers "new" "new"; rt_answers "new" "new"].

(** A node in flight whose proxy is missing from one listing is dropped, and the next node is started at once; when
    the proxy is listed again, it is on the target image and was, for all that is remembered, never touched, so it is
    skipped: the campaign ends Done with both proxies restarted and the first never verified. *)
Theorem in_flight_can_be_forgotten :
  Forall (fun ans => proxies_sound ans /\ a_Recovered ans "n1" = Err "drives are missing") rt_forgetful /\
  ow_Status (rt_run rt_forgetful) = "Done" /\
  Phase <$> held (rt_run rt_forgetful) = [PhaseSkipped; PhaseDone] /\
  omap (fun e => match e.1 with Act (PatchImage _ name _) => Some name | _ => None end) (rt_history rt_forgetful) = ["p1"; "p2"].
Proof.
  split_and!; [|vm_compute; reflexivity..]. unfold rt_forgetful. simpl. rewrite !Forall_cons.
  split_and!; try apply Forall_nil_2; try reflexivity.
  - by apply (rt_sound _ "old" "old"); [..|eexists; split; [done|set_solver]].
  - by apply (rt_sound _ "new" "old"); [..|eexists; split; [done|set_solver]].
  - by apply (rt_sound _ "new" "new"); [..|eexists; split; [done|set_solver]].
  - by apply (rt_sound _ "new" "new"); [..|eexists; split; [done|set_solver]].
Qed.

(** ** Warnings *)

(** Reconciles no further apart than the warning window cannot step over a warning: from before the threshold on, every
    period has a reconcile that warns. *)
Theorem warned_every_period sig (tick : nat -> Z) n k :
  sig ∈ [blockedWarnSignal; stuckWarnSignal; campaignParkedWarnSignal; campaignParkedInFlightWarnSignal] -> (forall j, tick j <= tick (S j) <= tick j + rotateSsdProxyParkedWarnWindow) ->
  0 <= k -> tick 0%nat <= threshold sig + k * repeat_every sig -> threshold sig + k * repeat_every sig <= tick n ->
  exists j, threshold sig + k * repeat_every sig <= tick j < threshold sig + k * repeat_every sig + rotateSsdProxyParkedWarnWindow /\
    shouldWarn sig (tick j) = true.
Proof.
  intros Hsig Hstep Hk H0 Hn. set (b := threshold sig + k * repeat_every sig) in *.
  assert (exists j, b <= tick j < b + rotateSsdProxyParkedWarnWindow) as [j Hj].
  { induction n as [|n IH]; [exists 0%nat; unfold rotateSsdProxyParkedWarnWindow; lia|].
    destruct (decide (b <= tick n)); [auto|]. exists (S n). specialize (Hstep n). lia. }
  exists j. split; [done|].
  assert (threshold sig > 0 /\ repeat_every sig > rotateSsdProxyParkedWarnWindow) as [Ht Hr].
  { set_unfold in Hsig. destruct Hsig as [->|[->|[->|[->|[]]]]]; by vm_compute. }
  unfold shouldWarn. rewrite decide_False by (unfold b in *; nia). apply bool_decide_eq_true.
  replace (tick j - threshold sig) with ((tick j - b) + k * repeat_every sig) by (unfold b; lia).
  rewrite Z.rem_mod_nonneg by (unfold rotateSsdProxyParkedWarnWindow in *; nia).
  rewrite Z.mod_add by lia. rewrite Z.mod_small by lia. lia.
Qed.
