(* ===== verification/VidSync.v ===== *)
(** * Virtual drives on the proxy (wekacontainer/funcs_virtual_drives.go)

    How a drive container in drive-sharing mode creates the virtual drives of its allocation on the ssdproxy of
    its node, and removes them. A virtual drive of an allocation has a label; its VID is the label itself
    (legacy), or is given by the proxy when the drive is added by label and then stored. What the API server and
    the proxy answer is an argument; the calls that change something are recorded in a log. *)

From coqutil Require Import Datatypes.RecordSetters.
From S2P Require Import Prelude Fmt Types Sizing Ports Strategies VirtualDrives Api.
Import TriangleBracketNotations.

Module VidSync.

(** ** What is read and called *)

(** The calls: to the proxy, and the update of the container's status with these virtual drives. *)
Inductive vid_call : Type :=
  | AddByLabel (label physical guid : string) (sizeGiB : Z)
  | AddByUuid (vid physical guid : string) (sizeGiB : Z)
  | RemoveVid (vid : string)
  | RemoveByLabel (label physical : string)
  | UpdateStatus (vds : list VirtualDrive).

(** A call is answered with an error or a string, which is the VID for [AddByLabel]. *)
Definition vid_log : Type := list (vid_call * res string string).

(** The reads; [n] in [v_Physical] and [v_Listing] tells the queries of one pass apart. *)
Record vid_answers : Type := mkVidAnswers {
  v_ClusterID : string;
  v_SkipRemoval : bool;
  v_OwnerCluster : res string string;
  v_Proxy : res string unit;
  v_AgentPod : res string unit;
  v_Token : res string unit;
  v_Physical : nat -> res string (list string);
  v_Listing : nat -> string -> res string (list string);
  v_BlockedVids : res string (list string);
  v_BlockedPhysical : res string (list string);
  v_Call : vid_log -> vid_call -> res string string }.

(** Nil, a wait, or an error. *)
Inductive vid_outcome : Type :=
  | VidOk
  | VidWait (why : string)
  | VidErr (msg : string).

Definition call (ans : vid_answers) (c : vid_call) (l : vid_log) : res string string * vid_log :=
  let r := v_Call ans l c in (r, l ++ [(c, r)]).

Definition wrapf (msg err : string) : string := Sprintf "%s: %s" [ArgS msg; ArgS err].

(** [%v] of a list of errors. *)
Definition show_errs (errs : list string) : string := Sprintf "[%s]" [ArgS (strings_Join errs " ")].

(** A pending virtual drive is added and removed through its label. *)
Definition vidPending (vd : VirtualDrive) : bool := bool_decide (vd_Label vd <> "" /\ vd_VirtualUUID vd = "").

(** Its VID was given by the proxy, so it cannot be created again. *)
Definition vidLost (vd : VirtualDrive) : bool :=
  bool_decide (vd_Label vd <> "" /\ vd_VirtualUUID vd <> "" /\ vd_VirtualUUID vd <> vd_Label vd).

(** A read failure blocks nothing. *)
Definition blockedVirtualUuidSet (ans : vid_answers) : list string :=
  match v_BlockedVids ans with Ok vids => vids | Err _ => [] end.

Definition proxyPhysicalUuids (ans : vid_answers) (n : nat) : res string (list string) :=
  match v_Physical ans n with
  | Ok drives => Ok drives
  | Err e => Err (wrapf "failed to list physical drives" e)
  end.

(** The VIDs on the physical drives that the proxy still has, one query per allocated virtual drive. *)
Fixpoint query_physical (ans : vid_answers) (n : nat) (node : string) (onProxy physical : list string) : res string (list string) :=
  match physical with
  | [] => Ok []
  | p :: physical =>
      if decide (p ∉ onProxy) then query_physical ans n node onProxy physical
      else match v_Listing ans n p with
      | Err e => Err (wrapf (Sprintf "failed to list virtual drives for physical drive %s on node %s" [ArgS p; ArgS node]) e)
      | Ok vids => let? rest := query_physical ans n node onProxy physical in Ok (vids ++ rest)
      end
  end.

Definition getAddedVirtualDrives (ans : vid_answers) (n : nat) (node : string) (vds : list VirtualDrive)
    : res string (list string) :=
  match vds with
  | [] => Ok []
  | _ :: _ =>
      let? onProxy := proxyPhysicalUuids ans n in
      query_physical ans n node onProxy (vd_PhysicalUUID <$> vds)
  end.

(** ** Adding *)

(** The state of the loop: the drives so far, the errors, whether a VID was given, and the log. *)
Record add_state : Type := mkAddState {
  as_Drives : list VirtualDrive; as_Errs : list string; as_Changed : bool; as_Log : vid_log }.

Definition add_err (msg err : string) (vd : VirtualDrive) (st : add_state) (l : vid_log) : add_state :=
  mkAddState (as_Drives st ++ [vd]) (as_Errs st ++ [wrapf msg err]) (as_Changed st) l.

(** One turn of the loop. *)
Definition add_one (ans : vid_answers) (guid : string) (added blockedPhysical : list string) (st : add_state) (vd : VirtualDrive)
    : add_state :=
  let keep (l : vid_log) := mkAddState (as_Drives st ++ [vd]) (as_Errs st) (as_Changed st) l in
  if decide (vd_VirtualUUID vd ∈ blockedVirtualUuidSet ans) then keep (as_Log st)
  else if decide (vd_PhysicalUUID vd ∈ blockedPhysical) then keep (as_Log st)
  else if decide (vd_VirtualUUID vd ∈ added) then keep (as_Log st)
  else if vidPending vd then
    match call ans (AddByLabel (vd_Label vd) (vd_PhysicalUUID vd) guid (vd_CapacityGiB vd)) (as_Log st) with
    | (Err e, l) => add_err (Sprintf "failed to add virtual drive with label %s" [ArgS (vd_Label vd)]) e vd st l
    | (Ok vid, l) => mkAddState (as_Drives st ++ [vd <| vd_VirtualUUID := vid |>]) (as_Errs st) true l
    end
  else if vidLost vd then
    mkAddState (as_Drives st ++ [vd])
      (as_Errs st ++ [Sprintf "VID %s of label %s is missing on the proxy; re-adding it by virtualUuid would not recreate the label-derived VID; block the VID to replace it"
                        [ArgS (vd_VirtualUUID vd); ArgS (vd_Label vd)]]) (as_Changed st) (as_Log st)
  else
    match call ans (AddByUuid (vd_VirtualUUID vd) (vd_PhysicalUUID vd) guid (vd_CapacityGiB vd)) (as_Log st) with
    | (Err e, l) => add_err (Sprintf "failed to add virtual drive %s" [ArgS (vd_VirtualUUID vd)]) e vd st l
    | (Ok _, l) => keep l
    end.

(** The drive is on the proxy, or is not to be there. *)
Definition settled (ans : vid_answers) (added blockedPhysical : list string) (vd : VirtualDrive) : bool :=
  bool_decide (vd_VirtualUUID vd ∈ added \/ vd_VirtualUUID vd ∈ blockedVirtualUuidSet ans \/ vd_PhysicalUUID vd ∈ blockedPhysical).

(** The loop, the update of the status and the outcome. *)
Definition add_missing (ans : vid_answers) (guid : string) (added blockedPhysical : list string) (vds : list VirtualDrive)
    : vid_log * vid_outcome :=
  let st := foldl (add_one ans guid added blockedPhysical) (mkAddState [] [] false []) vds in
  let '(errs, l) :=
    if as_Changed st then
      match call ans (UpdateStatus (as_Drives st)) (as_Log st) with
      | (Err e, l) => (as_Errs st ++ [wrapf "failed to persist VIDs returned by ssdproxy" e], l)
      | (Ok _, l) => (as_Errs st, l)
      end
    else (as_Errs st, as_Log st) in
  (l, if decide (errs = []) then VidOk else VidErr (Sprintf "errors while adding virtual drives: %s" [ArgS (show_errs errs)])).

Definition virtual_drives (c : Container) : list VirtualDrive :=
  match cst_Allocations (cn_Status c) with None => [] | Some a => ca_VirtualDrives a end.

Definition AddVirtualDrives (ans : vid_answers) (c : Container) : vid_log * vid_outcome :=
  if negb (container_UsesDriveSharing c) then ([], VidOk)
  else if decide (virtual_drives c = []) then ([], VidOk)
  else if decide (v_ClusterID ans = "") then ([], VidWait "cluster ID is not set, cannot sign virtual drives")
  else match v_OwnerCluster ans with
  | Err e => ([], VidErr (wrapf "failed to get owner cluster" e))
  | Ok guid =>
  if decide (guid = "") then ([], VidWait "owner cluster UUID is not set, cannot add virtual drives")
  else match v_Proxy ans with
  | Err e => ([], VidErr (wrapf "failed to find ssdproxy container on node" e))
  | Ok _ =>
  match v_AgentPod ans with
  | Err e => ([], VidErr e)
  | Ok _ =>
  match v_Token ans with
  | Err e => ([], VidErr e)
  | Ok _ =>
  match getAddedVirtualDrives ans 0 (GetNodeAffinity c) (virtual_drives c) with
  | Err e => ([], VidErr (wrapf "failed to get list of added virtual drives" e))
  | Ok added =>
  match v_BlockedPhysical ans with
  | Err e => ([], VidErr (wrapf "failed to get blocked drive UUIDs from node" e))
  | Ok blockedPhysical =>
      if forallb (settled ans added blockedPhysical) (virtual_drives c) then ([], VidOk)
      else add_missing ans guid added blockedPhysical (virtual_drives c)
  end end end end end end.

(** ** Removing *)

(** The state of the loop: the physical drives once listed, the VIDs whose removal was asked for, the errors, the log. *)
Record remove_state : Type := mkRemoveState {
  rs_OnProxy : option (list string); rs_Attempted : list string; rs_Errs : list string; rs_Log : vid_log }.

Definition removeVidByLabel (ans : vid_answers) (onProxy : list string) (vd : VirtualDrive) (l : vid_log) : option string * vid_log :=
  if decide (vd_PhysicalUUID vd ∉ onProxy) then (None, l)
  else match call ans (RemoveByLabel (vd_Label vd) (vd_PhysicalUUID vd)) l with
       | (Ok _, l) => (None, l)
       | (Err e, l) => (Some e, l)
       end.

(** One turn of the loop; [inr] when the pass returns at once. *)
Definition remove_one (ans : vid_answers) (existing : list string) (st : remove_state) (vd : VirtualDrive)
    : remove_state + (vid_log * string) :=
  if vidPending vd then
    match (match rs_OnProxy st with Some p => Ok p | None => proxyPhysicalUuids ans 1 end) with
    | Err e => inr (rs_Log st, e)
    | Ok onProxy =>
        let '(err, l) := removeVidByLabel ans onProxy vd (rs_Log st) in
        inl (mkRemoveState (Some onProxy) (rs_Attempted st)
               (match err with
                | None => rs_Errs st
                | Some e => rs_Errs st ++ [wrapf (Sprintf "failed to remove virtual drive with label %s" [ArgS (vd_Label vd)]) e]
                end) l)
    end
  else if decide (vd_VirtualUUID vd ∉ existing) then inl st
  else match call ans (RemoveVid (vd_VirtualUUID vd)) (rs_Log st) with
  | (Err e, l) => inl (mkRemoveState (rs_OnProxy st) (rs_Attempted st)
                         (rs_Errs st ++ [wrapf (Sprintf "failed to remove virtual drive %s" [ArgS (vd_VirtualUUID vd)]) e]) l)
  | (Ok _, l) => inl (mkRemoveState (rs_OnProxy st) (rs_Attempted st ++ [vd_VirtualUUID vd]) (rs_Errs st) l)
  end.

Fixpoint remove_all (ans : vid_answers) (existing : list string) (vds : list VirtualDrive) (st : remove_state)
    : remove_state + (vid_log * string) :=
  match vds with
  | [] => inl st
  | vd :: vds => match remove_one ans existing st vd with inl st => remove_all ans existing vds st | inr x => inr x end
  end.

(** The errors of the query that verifies the removals. *)
Definition verify_removed (ans : vid_answers) (node : string) (vds : list VirtualDrive) (attempted : list string) : list string :=
  match attempted with
  | [] => []
  | _ :: _ =>
      match getAddedVirtualDrives ans 2 node vds with
      | Err e => [wrapf "could not verify VD removals via query" e]
      | Ok still => (fun vid => Sprintf "virtual drive %s still exists after deletion" [ArgS vid]) <$>
                      filter (fun vid => vid ∈ still) attempted
      end
  end.

Definition RemoveVirtualDrives (ans : vid_answers) (c : Container) : vid_log * vid_outcome :=
  if v_SkipRemoval ans then ([], VidOk)
  else if negb (container_UsesDriveSharing c) then ([], VidOk)
  else if decide (virtual_drives c = []) then ([], VidOk)
  else if decide (GetNodeAffinity c = "") then ([], VidOk)
  else match v_Proxy ans with
  | Err e => ([], VidErr (wrapf "failed to find SSDProxy container for virtual drive removal" e))
  | Ok _ =>
  match v_AgentPod ans with
  | Err e => ([], VidErr (wrapf "failed to get node agent pod for virtual drive removal" e))
  | Ok _ =>
  match v_Token ans with
  | Err e => ([], VidErr (wrapf "failed to get node agent token for virtual drive removal" e))
  | Ok _ =>
  match getAddedVirtualDrives ans 0 (GetNodeAffinity c) (virtual_drives c) with
  | Err e => ([], VidErr (wrapf "failed to query existing virtual drives" e))
  | Ok existing =>
  match remove_all ans existing (virtual_drives c) (mkRemoveState None [] [] []) with
  | inr (l, e) => (l, VidErr e)
  | inl st =>
      let errs := rs_Errs st ++ verify_removed ans (GetNodeAffinity c) (virtual_drives c) (rs_Attempted st) in
      (rs_Log st, if decide (errs = []) then VidOk else VidErr (Sprintf "errors while removing virtual drives: %s" [ArgS (show_errs errs)]))
  end end end end end.

End VidSync.
