(* ===== verification/StaleDrives.v ===== *)
(** * The clean-up of stale virtual drives (operations/stale_virtual_drives.go)

    A scan of the virtual drives on every targeted ssdproxy finds those no allocation claims. They are removed
    only on request, after the same set was found twice in a row, and only those still unclaimed in a list of the
    containers read afresh. The proxies, the node agent and the API server answer through [answers]; the hash of
    the fingerprint is a parameter; events and logging are left out. *)

From coqutil Require Import Datatypes.RecordSetters.
From stdpp Require Import relations.
From S2P Require Import Prelude Float64 Fmt Types Sizing Ports Strategies VirtualDrives Api Campaign VidSync.
Import TriangleBracketNotations.
Import VidSync(virtual_drives).

Module StaleDrives.

(** ** Data *)

(** [ssdproxy.VirtualDrive] *)
Record ProxyDrive : Type := mkProxyDrive {
  pd_VirtualUUID : string; pd_PhysicalUUID : string; pd_ClusterGUID : string; pd_SizeGB : Z }.

Record scannedVID : Type := mkScanned { sv_node : string; sv_vd : ProxyDrive }.

Definition StaleVidCategoryDeadCluster : string := "dead_cluster".
Definition StaleVidCategoryLiveClusterUnclaimed : string := "live_cluster_unclaimed".

Record StaleVirtualDriveInfo : Type := mkStale {
  si_Node : string; si_PhysicalUUID : string; si_VirtualUUID : string; si_OwnerClusterGUID : string;
  si_SizeGB : Z; si_Category : string }.

Record StaleVirtualDrivesResult : Type := mkResult {
  ScannedNodes : Z;
  StaleCount : Z;
  StaleTiB : float64;
  SkippedPendingCount : Z;
  Fingerprint : string;
  DeletionEligible : bool;
  StaleVids : list StaleVirtualDriveInfo;
  Deleted : list string;
  r_Err : string }.

Definition zero_result : StaleVirtualDrivesResult := mkResult 0 0 f_zero 0 "" false [] [] "".

Record CleanStaleVirtualDrivesPayload : Type := mkPayload {
  NodeSelector : gmap string string; OnlyNonExistingClusters : bool; DeleteStaleVids : bool }.

(** The only change outside: a virtual drive removed from a proxy through the agent of a node. *)
Inductive action : Type :=
  | RemoveVirtualDrive (node proxyUID vid : string).

Abbreviation call := (campaign_call StaleVirtualDrivesResult action).
Abbreviation log := (campaign_log StaleVirtualDrivesResult action).
Abbreviation machine := (campaign_machine StaleVirtualDrivesResult action).
Abbreviation owner := (campaign_owner StaleVirtualDrivesResult).

(** What is read: by [Scan], and again by [MaybeDelete] ([s_Again...]). A proxy is known by the UID of its container. *)
Record answers : Type := mkAnswers {
  s_Payload : CleanStaleVirtualDrivesPayload;
  s_PodNamespace : res string string;
  s_Proxies : res string (list Container);
  s_SelectedNodes : res string (list string);
  s_UID : Container -> string;
  s_Containers : res string (list Container);
  s_ClusterIDs : res string (list string);
  s_Token : res string unit;
  s_AgentPod : string -> res string unit;
  s_Listing : string -> res string (list ProxyDrive);
  s_AgainContainers : res string (list Container);
  s_AgainToken : res string unit;
  s_AgainAgentPod : string -> res string unit;
  s_Call : log -> call -> option api_error }.

(** ** The decisions *)

(** The VIDs the drives of allocations claim, and the physical drives of those that have no VID yet. *)
Definition claimed_vids (vds : list VirtualDrive) : list string :=
  vd_VirtualUUID <$> filter (fun vd => vd_VirtualUUID vd <> "") vds.
Definition pending_physical (vds : list VirtualDrive) : list string :=
  vd_PhysicalUUID <$> filter (fun vd => vd_VirtualUUID vd = "") vds.

(** The virtual drives of all containers, of any state. *)
Definition all_virtual_drives (cs : list Container) : list VirtualDrive := concat (virtual_drives <$> cs).

Definition buildClaimedSet (containers : res string (list Container)) : res string (list string * list string) :=
  match containers with
  | Err e => Err (wrap "failed to list WekaContainers (uncached)" e)
  | Ok cs => Ok (claimed_vids (all_virtual_drives cs), pending_physical (all_virtual_drives cs))
  end.

Definition buildLiveClusterGUIDs (ids : res string (list string)) : res string (list string) :=
  match ids with
  | Err e => Err (wrap "failed to list WekaClusters (uncached)" e)
  | Ok ids => Ok (filter (fun guid => guid <> "") ids)
  end.

Definition category (liveGUIDs : list string) (d : ProxyDrive) : string :=
  if decide (pd_ClusterGUID d ∈ liveGUIDs) then StaleVidCategoryLiveClusterUnclaimed else StaleVidCategoryDeadCluster.

Definition stale_before (a b : StaleVirtualDriveInfo) : bool :=
  if decide (si_Node a = si_Node b) then str_lt (si_VirtualUUID a) (si_VirtualUUID b) else str_lt (si_Node a) (si_Node b).

(** The loop, before the sort. [sort.Slice] leaves the order of entries with one node and VID open; here they keep theirs. *)
Fixpoint collect_stale (scanned : list scannedVID) (claimed pendingPhysical liveGUIDs : list string) (onlyNonExisting : bool)
    : list StaleVirtualDriveInfo * Z :=
  match scanned with
  | [] => ([], 0)
  | s :: scanned =>
      let d := sv_vd s in
      let '(stale, skippedPending) := collect_stale scanned claimed pendingPhysical liveGUIDs onlyNonExisting in
      if decide (pd_VirtualUUID d ∈ claimed) then (stale, skippedPending)
      else if decide (pd_PhysicalUUID d ∈ pendingPhysical) then (stale, skippedPending + 1)
      else if onlyNonExisting && negb (bool_decide (category liveGUIDs d = StaleVidCategoryDeadCluster)) then (stale, skippedPending)
      else (mkStale (sv_node s) (pd_PhysicalUUID d) (pd_VirtualUUID d) (pd_ClusterGUID d) (pd_SizeGB d) (category liveGUIDs d) :: stale,
            skippedPending)
  end.

Definition computeStaleVids (scanned : list scannedVID) (claimed pendingPhysical liveGUIDs : list string) (onlyNonExisting : bool)
    : list StaleVirtualDriveInfo * Z :=
  let '(stale, skippedPending) := collect_stale scanned claimed pendingPhysical liveGUIDs onlyNonExisting in
  (sort_by stale_before stale, skippedPending).

Definition deletionEligible (staleCount : Z) (currentFingerprint previousFingerprint : string) : bool :=
  bool_decide (staleCount > 0 /\ currentFingerprint <> "" /\ currentFingerprint = previousFingerprint).

(** The line of one drive in what is hashed. *)
Definition newline : string := String (Ascii.ascii_of_nat 10) EmptyString.
Definition fingerprint_line (s : StaleVirtualDriveInfo) : string :=
  String.append (si_Node s) (String.append "|" (String.append (si_VirtualUUID s) (String.append "|"
    (String.append (si_OwnerClusterGUID s) newline)))).

Definition fingerprint_text (stale : list StaleVirtualDriveInfo) : string :=
  foldr (fun s text => String.append (fingerprint_line s) text) "" stale.

(** ** The operation *)

(** [hash]: the hex digits of the SHA-256 sum. [manual]: there is a progress callback. *)
Section operation.
Context (hash : string -> string) (manual : bool) (ans : answers).

Definition fingerprintStaleVids (stale : list StaleVirtualDriveInfo) : string :=
  match stale with [] => "" | _ :: _ => hash (fingerprint_text stale) end.

(** What the scan has found so far: the nodes, the proxy of each VID, the drives and the errors. *)
Record scan_state : Type := mkScan {
  sc_Nodes : gset string; sc_Proxy : gmap string string; sc_Scanned : list scannedVID; sc_Errs : list string }.

Definition scan_target (st : scan_state) (t : targetProxy) : scan_state :=
  let uid := s_UID ans (t_container t) in
  let failed (e : string) := mkScan (sc_Nodes st) (sc_Proxy st) (sc_Scanned st)
                               (sc_Errs st ++ [Sprintf "node %s: %s" [ArgS (t_node t); ArgS e]]) in
  match s_AgentPod ans (t_node t) with
  | Err e => failed e
  | Ok _ =>
      match s_Listing ans uid with
      | Err e => failed e
      | Ok vids => mkScan ({[ t_node t ]} ∪ sc_Nodes st)
                     (foldl (fun m d => <[pd_VirtualUUID d := uid]> m) (sc_Proxy st) vids)
                     (sc_Scanned st ++ (mkScanned (t_node t) <$> vids)) (sc_Errs st)
      end
  end.

Definition scan_targets (targets : list targetProxy) : scan_state := foldl scan_target (mkScan ∅ ∅ [] []) targets.

(** The result of a scan and the proxies of the VIDs, or the error it returns. *)
Definition Scan : res string (StaleVirtualDrivesResult * gmap string string) :=
  let? targets := resolveTargetProxies (s_PodNamespace ans) (s_Proxies ans) (NodeSelector (s_Payload ans)) (s_SelectedNodes ans) in
  let? claims := buildClaimedSet (s_Containers ans) in
  let? liveGUIDs := buildLiveClusterGUIDs (s_ClusterIDs ans) in
  let? _ := match s_Token ans with Ok t => Ok t | Err e => Err (wrap "failed to get node agent token" e) end in
  let st := scan_targets targets in
  let '(stale, skippedPending) :=
    computeStaleVids (sc_Scanned st) claims.1 claims.2 liveGUIDs (OnlyNonExistingClusters (s_Payload ans)) in
  let totalGB := foldl (fun total s => total + si_SizeGB s) 0 stale in
  Ok (mkResult (Z.of_nat (size (sc_Nodes st))) (len stale) (f_div (f_of_int totalGB) (f_of_int 1024)) skippedPending
        (fingerprintStaleVids stale) false stale []
        (if decide (sc_Errs st <> []) then String.append "scan errors: " (strings_Join (sc_Errs st) "; ") else ""),
      sc_Proxy st).

Definition EvaluateStability (previous : option StaleVirtualDrivesResult) (r : StaleVirtualDrivesResult) : StaleVirtualDrivesResult :=
  if decide (r_Err r <> "") then r
  else r <| DeletionEligible := deletionEligible (StaleCount r) (Fingerprint r) (default "" (Fingerprint <$> previous)) |>.

(** The loop over the stale drives: those removed and the errors. *)
Fixpoint remove_stale (claimed pendingPhysical : list string) (proxyOf : gmap string string) (stale : list StaleVirtualDriveInfo)
    (m : machine) : list string * list string * machine :=
  match stale with
  | [] => ([], [], m)
  | s :: stale =>
      let vid := si_VirtualUUID s in
      let failed (e : string) (m : machine) :=
        let '(deleted, errs, m) := remove_stale claimed pendingPhysical proxyOf stale m in
        (deleted, Sprintf "%s: %s" [ArgS vid; ArgS e] :: errs, m) in
      if decide (vid ∈ claimed) then remove_stale claimed pendingPhysical proxyOf stale m
      else if decide (si_PhysicalUUID s ∈ pendingPhysical) then remove_stale claimed pendingPhysical proxyOf stale m
      else
        let uid := default "" (proxyOf !! vid) in
        if decide (uid = "") then failed "no scanned proxy UID" m
        else match s_AgainAgentPod ans (si_Node s) with
        | Err e => failed (Sprintf "node agent pod: %s" [ArgS e]) m
        | Ok _ =>
            match do_call (s_Call ans) (Act (RemoveVirtualDrive (si_Node s) uid vid)) m with
            | (Some e, m) => failed (error_text e) m
            | (None, m) =>
                let '(deleted, errs, m) := remove_stale claimed pendingPhysical proxyOf stale m in (vid :: deleted, errs, m)
            end
        end
  end.

Definition MaybeDelete (proxyOf : gmap string string) (m : machine) : machine * outcome :=
  let r := results m in
  if negb (DeleteStaleVids (s_Payload ans)) || bool_decide (StaleCount r = 0) || bool_decide (r_Err r <> "") then (m, Proceed)
  else if negb (DeletionEligible r) then
    if manual then
      match do_call (s_Call ans) (PersistProgress r) m with
      | (Some e, m) => (m, PlainError (wrap "failed to persist intermediate stale-VID result" (error_text e)))
      | (None, m) => (m, WaitError "stale virtual drive set not yet stable; re-confirming next cycle")
      end
    else (m, Proceed)
  else match buildClaimedSet (s_AgainContainers ans) with
  | Err e => (m, PlainError (wrap "failed to re-validate claimed set before removal" e))
  | Ok (claimed, pendingPhysical) =>
      match s_AgainToken ans with
      | Err e => (m, PlainError (wrap "failed to get node agent token for removal" e))
      | Ok _ =>
          let '(deleted, errs, m) := remove_stale claimed pendingPhysical proxyOf (StaleVids r) m in
          let m := update (fun r => r <| Deleted := deleted |>) m in
          (if decide (errs <> []) then
             update (fun r => r <| r_Err := String.append "removal errors: " (strings_Join errs "; ") |>) m else m, Proceed)
      end
  end.

(** The steps of [GetSteps]. *)
Definition pass (o : owner) : machine * outcome :=
  if decide (ow_Status o = "Done") then (mkMachine zero_result [], Proceed)
  else match Scan with
  | Err e => (mkMachine zero_result [], PlainError e)
  | Ok (r, proxyOf) =>
      match MaybeDelete proxyOf (mkMachine (EvaluateStability (ow_Result o) r) []) with
      | (m, Proceed) =>
          match do_call (s_Call ans) (MarkDone (results m)) m with
          | (None, m) => (m, Proceed)
          | (Some e, m) => (m, PlainError (error_text e))
          end
      | stopped => stopped
      end
  end.
End operation.

(** Node names and UUIDs hold neither of the separators of the fingerprint. *)
Fixpoint clean (s : string) : bool :=
  match s with
  | EmptyString => true
  | String c s => negb (Ascii.eqb c (Ascii.ascii_of_nat 124)) && negb (Ascii.eqb c (Ascii.ascii_of_nat 10)) && clean s
  end.

Definition clean_answers (ans : answers) : Prop :=
  (forall cs c, s_Proxies ans = Ok cs -> c ∈ cs -> clean (GetNodeAffinity c) = true) /\
  forall uid ds d, s_Listing ans uid = Ok ds -> d ∈ ds -> clean (pd_VirtualUUID d) = true /\ clean (pd_ClusterGUID d) = true.

(** A pass of the manual operation that may be cut short; what is stored is read back as it was. *)
Definition cleanup_step (hash : string -> string) : owner * log -> owner * log -> Prop :=
  cut_pass (fun r => r) clean_answers (fun ans o => calls (pass hash true ans o).1).

End StaleDrives.
