(* ===== verification/StaleFacts.v ===== *)
(** * Facts on virtual drives and their clean-up

    A virtual drive is removed by the clean-up only when it was found stale twice, and never while an allocation
    owns it or will own it, however the containers create and drop drives meanwhile; and a successful pass of a
    container leaves its virtual drives on the proxy. *)

From coqutil Require Import Datatypes.RecordSetters.
From stdpp Require Import relations.
From S2P Require Import Prelude Float64 Fmt Types Sizing Ports Strategies VirtualDrives Api Campaign VidSync StaleDrives.
Import TriangleBracketNotations.
Import VidSync(virtual_drives).
Import StaleDrives.

(** ** What is stale *)

Definition stale_info (liveGUIDs : list string) (s : scannedVID) : StaleVirtualDriveInfo :=
  let d := sv_vd s in
  mkStale (sv_node s) (pd_PhysicalUUID d) (pd_VirtualUUID d) (pd_ClusterGUID d) (pd_SizeGB d) (category liveGUIDs d).

(** Unclaimed, not on a physical drive that waits for a VID, and of a dead cluster where only those count. *)
Definition is_stale (claimed pending liveGUIDs : list string) (only : bool) (s : scannedVID) : Prop :=
  (pd_VirtualUUID (sv_vd s) ∉ claimed) /\ (pd_PhysicalUUID (sv_vd s) ∉ pending) /\
  (only = true -> pd_ClusterGUID (sv_vd s) ∉ liveGUIDs).
#[export] Instance is_stale_dec claimed pending liveGUIDs only s : Decision (is_stale claimed pending liveGUIDs only s).
Proof. unfold is_stale. apply _. Defined.

Lemma category_dead liveGUIDs d : category liveGUIDs d = StaleVidCategoryDeadCluster <-> pd_ClusterGUID d ∉ liveGUIDs.
Proof. unfold category. by case_decide. Qed.

Lemma collect_stale_spec scanned claimed pending liveGUIDs only :
  collect_stale scanned claimed pending liveGUIDs only =
    (stale_info liveGUIDs <$> filter (is_stale claimed pending liveGUIDs only) scanned,
     len (filter (fun s => (pd_VirtualUUID (sv_vd s) ∉ claimed) /\ pd_PhysicalUUID (sv_vd s) ∈ pending) scanned)).
Proof.
  induction scanned as [|s l IH]; [done|]. simpl collect_stale. rewrite IH, !filter_cons.
  destruct (decide (pd_VirtualUUID (sv_vd s) ∈ claimed)) as [H1|H1].
  { rewrite !decide_False; [done|by intros [? _]|by intros [? _]]. }
  destruct (decide (pd_PhysicalUUID (sv_vd s) ∈ pending)) as [H2|H2].
  { rewrite decide_False by (by intros (_ & ? & _)). rewrite decide_True by done. rewrite length_cons. f_equal. lia. }
  rewrite (decide_False (P := _ /\ _)) by (by intros [_ ?]).
  destruct (decide (is_stale claimed pending liveGUIDs only s)) as [(_ & _ & H3)|H3].
  - case_match eqn:E; [|done]. apply andb_true_iff in E as [-> E]. rewrite negb_true_iff, bool_decide_eq_false in E.
    by destruct E; apply category_dead, H3.
  - case_match eqn:E; [done|]. destruct H3. split_and!; [done..|]. intros ->. simpl in E.
    apply negb_false_iff, bool_decide_eq_true in E. by apply category_dead.
Qed.

(** The scan reports just the scanned drives that are stale, in order. *)
Lemma computeStaleVids_elem scanned claimed pending liveGUIDs only x :
  x ∈ (computeStaleVids scanned claimed pending liveGUIDs only).1 <->
  exists s, s ∈ scanned /\ is_stale claimed pending liveGUIDs only s /\ x = stale_info liveGUIDs s.
Proof.
  unfold computeStaleVids. rewrite collect_stale_spec. simpl. rewrite elem_of_sort_by, list_elem_of_fmap.
  split; [intros (s & -> & [? ?]%list_elem_of_filter)|intros (s & ? & ? & ->)]; exists s; [done|].
  split; [done|]. by apply list_elem_of_filter.
Qed.

(** ** The fingerprint tells stale sets apart *)

Definition stale_key (s : StaleVirtualDriveInfo) : string * string * string := (si_Node s, si_VirtualUUID s, si_OwnerClusterGUID s).

Definition clean_stale (s : StaleVirtualDriveInfo) : Prop :=
  clean (si_Node s) = true /\ clean (si_VirtualUUID s) = true /\ clean (si_OwnerClusterGUID s) = true.

Lemma append_assoc a b c : String.append (String.append a b) c = String.append a (String.append b c).
Proof. induction a as [|x a IH]; [done|]. exact (f_equal (String x) IH). Qed.

(** A clean string ends where the separator is. *)
Lemma split_clean sep a b x y :
  sep = Ascii.ascii_of_nat 124 \/ sep = Ascii.ascii_of_nat 10 -> clean a = true -> clean b = true ->
  String.append a (String sep x) = String.append b (String sep y) -> a = b /\ x = y.
Proof.
  intros Hs. revert b. induction a as [|c a IH]; intros [|d b] Ha Hb; simpl in *.
  - by intros [= ->].
  - intros [= <- _]. rewrite !andb_true_iff, !negb_true_iff, !Ascii.eqb_neq in Hb. destruct Hs; tauto.
  - intros [= -> _]. rewrite !andb_true_iff, !negb_true_iff, !Ascii.eqb_neq in Ha. destruct Hs; tauto.
  - intros [= -> E]. apply andb_true_iff in Ha as [_ Ha]. apply andb_true_iff in Hb as [_ Hb].
    destruct (IH b Ha Hb E) as [-> ->]. done.
Qed.

Lemma fingerprint_cons s l :
  fingerprint_text (s :: l) = String.append (si_Node s) (String (Ascii.ascii_of_nat 124) (String.append (si_VirtualUUID s)
    (String (Ascii.ascii_of_nat 124) (String.append (si_OwnerClusterGUID s) (String (Ascii.ascii_of_nat 10) (fingerprint_text l)))))).
Proof. simpl. unfold fingerprint_line. by rewrite !append_assoc. Qed.

Lemma fingerprint_text_inj l l' :
  Forall clean_stale l -> Forall clean_stale l' -> fingerprint_text l = fingerprint_text l' -> stale_key <$> l = stale_key <$> l'.
Proof.
  intros Hl. revert l'. induction Hl as [|s l (H1 & H2 & H3) _ IH]; intros [|s' l'] Hl'.
  - done.
  - rewrite fingerprint_cons. by destruct (si_Node s').
  - rewrite fingerprint_cons. by destruct (si_Node s).
  - apply Forall_cons in Hl' as [(H1' & H2' & H3') Hl']. rewrite !fingerprint_cons. intros E.
    apply split_clean in E as [En E]; [|by left|done..]. apply split_clean in E as [Ev E]; [|by left|done..].
    apply split_clean in E as [Eg E]; [|by right|done..]. rewrite !fmap_cons, (IH l') by done.
    unfold stale_key. by rewrite En, Ev, Eg.
Qed.

(** ** What a pass removes *)

(** A drive of the stale set that is still unclaimed in the later list. *)
Definition removable (claimed pending : list string) (stale : list StaleVirtualDriveInfo) (proxyOf : gmap string string) (c : call) : Prop :=
  match c with
  | Act (RemoveVirtualDrive node uid vid) =>
      uid <> "" /\ proxyOf !! vid = Some uid /\
      exists s, s ∈ stale /\ si_Node s = node /\ si_VirtualUUID s = vid /\ (vid ∉ claimed) /\ (si_PhysicalUUID s ∉ pending)
  | _ => False
  end.

Lemma removable_cons claimed pending s stale proxyOf c :
  removable claimed pending stale proxyOf c -> removable claimed pending (s :: stale) proxyOf c.
Proof.
  destruct c as [| | |[node uid vid]]; try done. intros (? & ? & s' & ? & ?). split_and!; [done..|]. exists s'. split; [by right|done].
Qed.

Lemma remove_stale_calls ans claimed pending proxyOf stale m :
  let x := remove_stale ans claimed pending proxyOf stale m in
  results x.2 = results m /\
  exists l, calls x.2 = calls m ++ l /\ Forall (fun e => removable claimed pending stale proxyOf e.1) l.
Proof.
  simpl. revert m. induction stale as [|s stale IH]; intros m; [split; [done|]; by exists []; rewrite app_nil_r|].
  assert (forall m1, results m1 = results m /\
    (exists l, calls m1 = calls m ++ l /\ Forall (fun e => removable claimed pending (s :: stale) proxyOf e.1) l) ->
    let x := remove_stale ans claimed pending proxyOf stale m1 in
    results x.2 = results m /\
    exists l, calls x.2 = calls m ++ l /\ Forall (fun e => removable claimed pending (s :: stale) proxyOf e.1) l) as Hrest.
  { intros m1 (Hr & l1 & Hl1 & Hf1). destruct (IH m1) as (Hr2 & l2 & Hl2 & Hf2). simpl. split; [by rewrite Hr2|].
    exists (l1 ++ l2). split; [by rewrite Hl2, Hl1, app_assoc|]. apply Forall_app. split; [done|].
    eapply Forall_impl; [exact Hf2|]. intros e. apply removable_cons. }
  assert (results m = results m /\
    exists l, calls m = calls m ++ l /\ Forall (fun e => removable claimed pending (s :: stale) proxyOf e.1) l) as H0.
  { split; [done|]. exists []. by rewrite app_nil_r. }
  pose proof (Hrest m H0) as Hm. simpl in Hm. simpl remove_stale.
  case_decide as E1; [done|]. case_decide as E2; [done|]. case_decide as E3; [by destruct (remove_stale _ _ _ _ _ m) as [[? ?] ?]|].
  destruct (s_AgainAgentPod ans (si_Node s)); [|by destruct (remove_stale _ _ _ _ _ m) as [[? ?] ?]].
  unfold do_call. set (c := Act _). set (m1 := mkMachine _ _).
  assert (removable claimed pending (s :: stale) proxyOf c) as Hc.
  { destruct (proxyOf !! si_VirtualUUID s) as [uid|] eqn:Eu; [|done]. split; [done|]. split; [done|].
    exists s. split_and!; try done. by left. }
  assert (let x := remove_stale ans claimed pending proxyOf stale m1 in
    results x.2 = results m /\
    exists l, calls x.2 = calls m ++ l /\ Forall (fun e => removable claimed pending (s :: stale) proxyOf e.1) l) as Hm1.
  { apply Hrest. split; [done|]. eexists. split; [reflexivity|]. by apply Forall_singleton. }
  simpl in Hm1. destruct (s_Call ans (calls m) c); by destruct (remove_stale _ _ _ _ _ m1) as [[? ?] ?].
Qed.

(** A removal in a pass: deletion was asked for, the scan was complete, its fingerprint is the stored one, and the drive
    is stale and still unclaimed. *)
Lemma pass_removal hash manual ans o node uid vid a :
  (Act (RemoveVirtualDrive node uid vid), a) ∈ calls (pass hash manual ans o).1 ->
  exists r proxyOf prev cs,
    Scan hash ans = Ok (r, proxyOf) /\ r_Err r = "" /\ DeleteStaleVids (s_Payload ans) = true /\
    ow_Result o = Some prev /\ Fingerprint prev = Fingerprint r /\ Fingerprint r <> "" /\ s_AgainContainers ans = Ok cs /\
    removable (claimed_vids (all_virtual_drives cs)) (pending_physical (all_virtual_drives cs)) (StaleVids r) proxyOf
      (Act (RemoveVirtualDrive node uid vid)).
Proof.
  unfold pass. case_decide; [by intros ?%not_elem_of_nil|]. destruct (Scan hash ans) as [[r proxyOf]|]; [|by intros ?%not_elem_of_nil].
  assert (forall m : machine, Forall (fun e => match e.1 with Act _ => False | _ => True end) (calls m) ->
    (Act (RemoveVirtualDrive node uid vid), a) ∉
      calls (match do_call (s_Call ans) (MarkDone (results m)) m with (None, m) => (m, Proceed) | (Some e, m) => (m, PlainError (error_text e)) end).1) as Hno.
  { intros m Hm Hin. unfold do_call in Hin.
    assert ((Act (RemoveVirtualDrive node uid vid), a) ∈ calls m ++ [(MarkDone (results m) : call, s_Call ans (calls m) (MarkDone (results m)))]) as Hin'.
    { by destruct (s_Call ans (calls m) _). }
    apply elem_of_app in Hin' as [Hin'|Hin']; [rewrite Forall_forall in Hm; exact (Hm _ Hin')|]. by apply list_elem_of_singleton in Hin'. }
  unfold MaybeDelete. simpl results. set (r1 := EvaluateStability _ _).
  destruct (negb _ || _ || _) eqn:Eg; [intros Hin; exfalso; eapply Hno; [|exact Hin]; constructor|].
  apply orb_false_iff in Eg as [Eg Ee]. apply orb_false_iff in Eg as [Ed Ec]. apply negb_false_iff in Ed.
  apply bool_decide_eq_false in Ee. apply dec_stable in Ee.
  destruct (DeletionEligible r1) eqn:Eel; simpl negb; cbn iota.
  2: { destruct manual; [|intros Hin; exfalso; eapply Hno; [|exact Hin]; constructor]. unfold do_call.
       destruct (s_Call ans _ _); simpl; intros ?%list_elem_of_singleton; done. }
  assert (r_Err r = "" /\ DeletionEligible r1 = deletionEligible (StaleCount r) (Fingerprint r) (default "" (Fingerprint <$> ow_Result o)) /\
    StaleVids r1 = StaleVids r) as (Hre & Hel & Hsv).
  { unfold r1, EvaluateStability in *. case_decide; [by destruct r|]. by destruct r. }
  rewrite Hel in Eel. unfold deletionEligible in Eel. apply bool_decide_eq_true in Eel as (_ & Hfne & Hfp).
  destruct (ow_Result o) as [prev|] eqn:Eo; [|by destruct Hfne].
  destruct (buildClaimedSet (s_AgainContainers ans)) as [[claimed pending]|] eqn:Ecl; [|by intros ?%not_elem_of_nil].
  destruct (s_AgainToken ans); [|by intros ?%not_elem_of_nil].
  pose proof (remove_stale_calls ans claimed pending proxyOf (StaleVids r1) (mkMachine r1 [])) as (_ & l & Hl & Hf).
  destruct (remove_stale _ _ _ _ _ _) as [[deleted errs] m1]. simpl in Hl, Hf. intros Hin.
  set (m2 := if decide (errs <> []) then _ else _) in Hin.
  assert (calls m2 = l) as Hm2 by (unfold m2; rewrite <-Hl; by destruct (decide (errs <> []))).
  assert ((Act (RemoveVirtualDrive node uid vid), a) ∈ l) as Hinl.
  { unfold do_call in Hin. rewrite Hm2 in Hin.
    assert ((Act (RemoveVirtualDrive node uid vid), a) ∈ l ++ [(MarkDone (results m2) : call, s_Call ans l (MarkDone (results m2)))]) as Hin'.
    { by destruct (s_Call ans l _). }
    apply elem_of_app in Hin' as [?|Hin']; [done|]. by apply list_elem_of_singleton in Hin'. }
  unfold buildClaimedSet in Ecl. destruct (s_AgainContainers ans) as [cs|]; [|done]. injection Ecl as <- <-.
  exists r, proxyOf, prev, cs. split_and!; try done. rewrite <-Hsv. by eapply Forall_forall in Hf; [|exact Hinl].
Qed.

(** ** The scan *)

(** What is scanned was listed by the proxy of a target. *)
Lemma scan_targets_scanned ans targets s :
  s ∈ sc_Scanned (scan_targets ans targets) ->
  exists t ds, t ∈ targets /\ sv_node s = t_node t /\ s_Listing ans (s_UID ans (t_container t)) = Ok ds /\ sv_vd s ∈ ds.
Proof.
  unfold scan_targets. induction targets as [|t targets IH] using rev_ind; [by intros ?%not_elem_of_nil|].
  rewrite foldl_app. simpl. intros Hs.
  assert (s ∈ sc_Scanned (foldl (scan_target ans) (mkScan ∅ ∅ [] []) targets) \/
    exists ds, s_Listing ans (s_UID ans (t_container t)) = Ok ds /\ s ∈ mkScanned (t_node t) <$> ds) as H.
  { unfold scan_target in Hs at 1. destruct (s_AgentPod ans (t_node t)); [|by left].
    destruct (s_Listing ans (s_UID ans (t_container t))) as [ds|]; [|by left]. simpl in Hs.
    apply elem_of_app in Hs as [Hs|Hs]; [by left|right]. by exists ds. }
  destruct H as [H|(ds & Hds & H)].
  - destruct (IH H) as (t' & ds & Ht & Hrest). exists t', ds. split; [set_solver|done].
  - apply list_elem_of_fmap in H as (d & -> & Hd). exists t, ds. split; [set_solver|done].
Qed.

Lemma targets_listed podNamespace proxies selector selected targets t :
  resolveTargetProxies podNamespace proxies selector selected = Ok targets -> t ∈ targets ->
  exists cs, proxies = Ok cs /\ t_container t ∈ cs /\ t_node t = GetNodeAffinity (t_container t).
Proof.
  unfold resolveTargetProxies. destruct podNamespace; [|done]. destruct proxies as [cs|]; [|done].
  destruct (if decide _ then _ else _); simpl; [|done]. intros [= <-] (c & -> & [_ Hc]%list_elem_of_filter)%list_elem_of_fmap.
  by exists cs.
Qed.

(** A stale drive was listed by a proxy of the node it is reported on, and was unclaimed. *)
Lemma Scan_stale hash ans r proxyOf s :
  Scan hash ans = Ok (r, proxyOf) -> s ∈ StaleVids r ->
  exists uid ds d cs c, s_Listing ans uid = Ok ds /\ d ∈ ds /\ s_Proxies ans = Ok cs /\ c ∈ cs /\
    si_Node s = GetNodeAffinity c /\ si_VirtualUUID s = pd_VirtualUUID d /\ si_PhysicalUUID s = pd_PhysicalUUID d /\
    si_OwnerClusterGUID s = pd_ClusterGUID d.
Proof.
  unfold Scan. destruct (resolveTargetProxies _ _ _ _) as [targets|] eqn:Et; simpl; [|done].
  destruct (buildClaimedSet _) as [[claimed pending]|]; simpl; [|done]. destruct (buildLiveClusterGUIDs _) as [live|]; simpl; [|done].
  destruct (match s_Token ans with Ok _ => _ | Err _ => _ end); simpl; [|done].
  pose proof (computeStaleVids_elem (sc_Scanned (scan_targets ans targets)) claimed pending live
    (OnlyNonExistingClusters (s_Payload ans)) s) as Hx.
  destruct (computeStaleVids _ _ _ _ _) as [stale skipped]. simpl in Hx. intros [= <- <-]. simpl. rewrite Hx.
  intros (x & Hs & _ & ->). destruct (scan_targets_scanned _ _ _ Hs) as (t & ds & Ht & Hn & Hl & Hd).
  destruct (targets_listed _ _ _ _ _ _ Et Ht) as (cs & Hcs & Hc & Hna).
  exists (s_UID ans (t_container t)), ds, (sv_vd x), cs, (t_container t). split_and!; try done. simpl. by rewrite Hn.
Qed.

Lemma Scan_fingerprint hash ans r proxyOf :
  Scan hash ans = Ok (r, proxyOf) -> Fingerprint r = fingerprintStaleVids hash (StaleVids r).
Proof.
  unfold Scan. destruct (resolveTargetProxies _ _ _ _) as [targets|]; simpl; [|done].
  destruct (buildClaimedSet _); simpl; [|done]. destruct (buildLiveClusterGUIDs _); simpl; [|done].
  destruct (match s_Token ans with Ok _ => _ | Err _ => _ end); simpl; [|done].
  destruct (computeStaleVids _ _ _ _ _) as [stale skipped]. by intros [= <- <-].
Qed.

Lemma Scan_clean hash ans r proxyOf : clean_answers ans -> Scan hash ans = Ok (r, proxyOf) -> Forall clean_stale (StaleVids r).
Proof.
  intros [Hc1 Hc2] Hs. apply Forall_forall. intros s Hin.
  destruct (Scan_stale _ _ _ _ _ Hs Hin) as (uid & ds & d & cs & c & Hl & Hd & Hcs & Hc & E1 & E2 & _ & E3).
  destruct (Hc2 _ _ _ Hl Hd) as [Hv Hg]. unfold clean_stale. rewrite E1, E2, E3. split_and!; eauto.
Qed.

(** ** Runs *)

(** A result whose fingerprint is that of its stale set, of clean strings. *)
Definition fingerprinted (hash : string -> string) (r : StaleVirtualDrivesResult) : Prop :=
  Fingerprint r = fingerprintStaleVids hash (StaleVids r) /\ Forall clean_stale (StaleVids r).

Definition stores (hash : string -> string) (_ : owner) (c : call) : Prop :=
  match c with PersistProgress r | MarkDone r => fingerprinted hash r | MarkFailed _ => False | Act _ => True end.

Definition holds_fingerprinted (hash : string -> string) (o : owner) : Prop :=
  forall r, ow_Result o = Some r -> fingerprinted hash r.

Lemma MaybeDelete_stores hash manual ans proxyOf m o :
  fingerprinted hash (results m) -> calls m = [] ->
  fingerprinted hash (results (MaybeDelete manual ans proxyOf m).1) /\
  Forall (fun e => stores hash o e.1) (calls (MaybeDelete manual ans proxyOf m).1).
Proof.
  intros Hf Hm. unfold MaybeDelete. destruct (_ || _ || _); [simpl; by rewrite Hm|]. destruct (negb _).
  { destruct manual; [|simpl; by rewrite Hm]. unfold do_call. rewrite Hm. destruct (s_Call ans _ _); simpl; by rewrite Forall_singleton. }
  destruct (buildClaimedSet _) as [[claimed pending]|]; [|simpl; by rewrite Hm]. destruct (s_AgainToken ans); [|simpl; by rewrite Hm].
  pose proof (remove_stale_calls ans claimed pending proxyOf (StaleVids (results m)) m) as (Hr & l & Hl & Hrem).
  destruct (remove_stale _ _ _ _ _ _) as [[deleted errs] m1]. simpl in Hr, Hl. rewrite Hm in Hl.
  assert (Forall (fun e => stores hash o e.1) (calls m1)) as Hst.
  { rewrite Hl. eapply Forall_impl; [exact Hrem|]. intros [c b]. by destruct c. }
  rewrite <-Hr in Hf. destruct m1 as [[] l1], (decide (errs <> [])); by split.
Qed.

Lemma pass_stores hash manual ans o :
  clean_answers ans -> Forall (fun e => stores hash o e.1) (calls (pass hash manual ans o).1).
Proof.
  intros Hc. unfold pass. case_decide; [done|]. destruct (Scan hash ans) as [[r proxyOf]|] eqn:Es; [|done].
  assert (fingerprinted hash r) as Hf.
  { split; [by eapply Scan_fingerprint|by eapply Scan_clean]. }
  assert (fingerprinted hash (EvaluateStability (ow_Result o) r)) as Hf1 by (unfold EvaluateStability; by case_decide; [|destruct r]).
  pose proof (MaybeDelete_stores hash manual ans proxyOf (mkMachine (EvaluateStability (ow_Result o) r) []) o Hf1 eq_refl) as [Hr Hl].
  destruct (MaybeDelete _ _ _ _) as [m []]; [|done..]. unfold do_call.
  assert (Forall (fun e => stores hash o e.1) (calls m ++ [(MarkDone (results m) : call, s_Call ans (calls m) (MarkDone (results m)))])) as Hall.
  { apply Forall_app. split; [done|]. by apply Forall_singleton. }
  by destruct (s_Call ans (calls m) _).
Qed.

Lemma stores_audit hash o (l : log) : Forall (fun e => stores hash o e.1) l -> audit (fun r => r) (stores hash) o l.
Proof.
  revert o. induction l as [|e l IH]; intros o; [done|]. rewrite Forall_cons. intros [He Hl]. split; [done|]. by apply IH.
Qed.

#[local] Instance any_preorder : PreOrder (fun _ _ : owner => True).
Proof. by split. Qed.

Lemma cleanup_run hash o h :
  rtc (cleanup_step hash) (created, []) (o, h) ->
  holds_fingerprinted hash o /\ audit (fun r => r) (stores hash) created h /\ o = apply_log (fun r => r) created h.
Proof.
  intros Hr.
  assert (holds_fingerprinted hash o /\ True /\ exists l, audit (fun r => r) (stores hash) created l /\
    o = apply_log (fun r => r) created l /\ h = [] ++ l) as (Hi & _ & l & Ha & Ho & Hh); [|by simpl in Hh; subst l].
  eapply (cut_pass_run (fun r => r) (stores hash) clean_answers _ (holds_fingerprinted hash) (fun _ _ => True)); [..|exact Hr].
  - intros o1 [c [a|]] Hi Hs; (split; [|done]); [by destruct c|]. destruct c; simpl in *; try done; intros ? [= <-]; exact Hs.
  - intros ans o1 Hc _. by apply stores_audit, pass_stores.
  - done.
Qed.

(** What is stored in an operation that is not done was stored as progress. *)
Lemma cleanup_stored_progress hash (l : log) r :
  audit (fun r => r) (stores hash) created l -> ow_Status (apply_log (fun r => r) created l) <> "Done" ->
  ow_Result (apply_log (fun r => r) created l) = Some r -> (PersistProgress r : call, None) ∈ l.
Proof.
  induction l as [|[c a] l IH] using rev_ind; [done|]. rewrite audit_app. unfold apply_log in *. rewrite foldl_app.
  intros [Ha [Hc _]]. simpl in Hc |- *. destruct c as [r'|r'|r'|x]; [..|done|]; destruct a as [a|]; simpl; intros Hs Hr;
    try (apply elem_of_app; left; by apply IH); try done. injection Hr as ->. apply elem_of_app. right. by apply list_elem_of_singleton.
Qed.

(** Two stale sets with a fingerprint are the same drives when it is the same. *)
Lemma same_fingerprint hash r r' :
  (forall x y, hash x = hash y -> x = y) -> fingerprinted hash r -> fingerprinted hash r' ->
  Fingerprint r = Fingerprint r' -> Fingerprint r <> "" -> stale_key <$> StaleVids r = stale_key <$> StaleVids r'.
Proof.
  intros Hinj [Hf Hc] [Hf' Hc'] E Hne. apply fingerprint_text_inj; [done..|]. apply Hinj. rewrite E in Hne. rewrite Hf, Hf' in E.
  rewrite Hf' in Hne. unfold fingerprintStaleVids in *. destruct (StaleVids r), (StaleVids r'); try done.
Qed.

(** C24: In every run of the manual clean-up, whatever its passes are answered and wherever they are cut short, a pass
    removes a virtual drive only when deletion was asked for, its scan was complete, an earlier pass stored a scan
    that found the same stale drives on the same nodes of the same owners, and the drive is stale in this scan and
    neither claimed nor on a physical drive that waits for a VID in the list of containers read after it. SHA-256 is
    taken to have no collisions. *)
Theorem removal_confirmed_twice hash o h ans node uid vid a :
  (forall x y, hash x = hash y -> x = y) ->
  rtc (cleanup_step hash) (created, []) (o, h) -> clean_answers ans ->
  (Act (RemoveVirtualDrive node uid vid), a) ∈ calls (pass hash true ans o).1 ->
  exists r proxyOf prev cs s,
    Scan hash ans = Ok (r, proxyOf) /\ r_Err r = "" /\ DeleteStaleVids (s_Payload ans) = true /\
    ow_Result o = Some prev /\ (PersistProgress prev, None) ∈ h /\
    stale_key <$> StaleVids prev = stale_key <$> StaleVids r /\
    s ∈ StaleVids r /\ si_Node s = node /\ si_VirtualUUID s = vid /\ proxyOf !! vid = Some uid /\
    s_AgainContainers ans = Ok cs /\ (vid ∉ claimed_vids (all_virtual_drives cs)) /\
    (si_PhysicalUUID s ∉ pending_physical (all_virtual_drives cs)).
Proof.
  intros Hinj Hrun Hc Hin. destruct (cleanup_run _ _ _ Hrun) as (Hi & Ha & Ho).
  assert (ow_Status o <> "Done") as Hnd.
  { intros E. unfold pass in Hin. rewrite decide_True in Hin by done. by apply not_elem_of_nil in Hin. }
  destruct (pass_removal _ _ _ _ _ _ _ _ Hin) as (r & proxyOf & prev & cs & Hs & He & Hd & Hp & Hfp & Hne & Hcs & Hu & Hpx & s & Hx).
  exists r, proxyOf, prev, cs, s. destruct Hx as (Hsin & Hn & Hv & Hncl & Hnp). split_and!; try done.
  - subst o. by eapply cleanup_stored_progress.
  - apply (same_fingerprint hash); try done; [by apply Hi| |by rewrite Hfp].
    split; [by eapply Scan_fingerprint|by eapply Scan_clean].
Qed.

(** ** A scan of one proxy *)

(** The container of a proxy, or of drives with these virtual drives. *)
Definition sd_container (name : string) (vds : list VirtualDrive) : Container := {|
  cn_Name := name; cn_Namespace := "operator"; cn_CreationTimestamp := 1; cn_Deleted := false; cn_OwnerReferences := [];
  cn_Spec := {| cs_Mode := if decide (vds = []) then "ssdproxy" else "drive"; cs_Image := "image"; cs_State := ContainerStateActive;
    cs_CpuPolicy := ""; cs_NumCores := 1; cs_ExtraCores := 0; cs_Resources := None; cs_Hugepages := 1000;
    cs_HugepagesOffset := 0; cs_HugepagesSize := "2Mi"; cs_NumDrives := len vds; cs_DriveCapacity := 100;
    cs_ContainerCapacity := 0; cs_DriveTypesRatio := None; cs_NodeAffinity := "n1"; cs_RotatePod := false;
    cs_NodeSelector := ∅; cs_DpdkBaseMemoryMb := 0 |};
  cn_Status := {| cst_Status := "Running"; cst_ManagementIps := []; cst_NodeAffinity := "n1";
    cst_LastAppliedImage := "image"; cst_ClusterContainerID := None; cst_PodOutdated := false;
    cst_Allocations := Some (mkAllocations [] (mkPortAlloc 0 0) vds) |} |}.

(** The proxy has three drives: one is claimed, one is of no allocation, and one is on the physical drive of an
    allocation that waits for its VID. *)
Definition sd_answers (cs : list Container) : answers := {|
  s_Payload := mkPayload ∅ false true; s_PodNamespace := Ok "operator"; s_Proxies := Ok [sd_container "proxy" []];
  s_SelectedNodes := Ok []; s_UID := fun _ => "uid"; s_Containers := Ok cs; s_ClusterIDs := Ok ["guid"];
  s_Token := Ok tt; s_AgentPod := fun _ => Ok tt;
  s_Listing := fun _ => Ok [mkProxyDrive "v1" "p1" "guid" 100; mkProxyDrive "v2" "p1" "guid" 100; mkProxyDrive "l3" "p3" "guid" 100];
  s_AgainContainers := Ok cs; s_AgainToken := Ok tt; s_AgainAgentPod := fun _ => Ok tt; s_Call := fun _ _ => None |}.

Definition sd_claims : list VirtualDrive := [mkVirtual "v1" "v1" "p1" 100 "" "TLC"; mkVirtual "" "l3" "p3" 100 "" "TLC"].
Definition sd_cluster : list Container := [sd_container "drives" sd_claims].

Lemma sd_clean cs : clean_answers (sd_answers cs).
Proof.
  split; [by intros ? c [= <-] ->%list_elem_of_singleton|]. intros uid ds d [= <-] Hd.
  set_unfold in Hd. by destruct Hd as [->|[->|[->|[]]]].
Qed.

Definition sd_pass (hash : string -> string) (o : owner) : log := calls (pass hash true (sd_answers sd_cluster) o).1.
Definition sd_run : owner * log :=
  whole_passes (fun r => r) (fun ans o => calls (pass (fun s => s) true ans o).1) [sd_answers sd_cluster] (created, []).

Lemma removal_confirmed_twice_witness :
  (Act (RemoveVirtualDrive "n1" "uid" "v2") : call, None) ∈ sd_pass (fun s => s) sd_run.1 /\
  exists prev, (PersistProgress prev : call, None) ∈ sd_run.2 /\ length (StaleVids prev) = 1%nat.
Proof.
  assert ((Act (RemoveVirtualDrive "n1" "uid" "v2") : call, None) ∈ sd_pass (fun s => s) sd_run.1) as Hin by (vm_compute; constructor).
  split; [exact Hin|].
  destruct (removal_confirmed_twice (fun s => s) sd_run.1 sd_run.2 (sd_answers sd_cluster) "n1" "uid" "v2" None) as
    (r & proxyOf & prev & cs & s & Hs & _ & _ & _ & Hp & Hk & _).
  - done.
  - rewrite <-surjective_pairing. apply whole_passes_cut. apply Forall_singleton, sd_clean.
  - apply sd_clean.
  - exact Hin.
  - exists prev. split; [exact Hp|]. apply (f_equal length) in Hk. rewrite !length_fmap in Hk. rewrite Hk.
    vm_compute in Hs. by injection Hs as <- _.
Defined.
