(* ===== verification/OwnedDrives.v ===== *)
(** * Who owns a virtual drive on a proxy

    The containers that create and drop virtual drives run beside the clean-up that removes the stale ones. Here
    their steps are interleaved call by call, and the clean-up is shown to spare every drive an allocation owns or
    comes to own; and a successful pass of a container leaves each of its virtual drives on the proxy, stored under
    the VID the proxy gave it. *)

From coqutil Require Import Datatypes.RecordSetters.
From stdpp Require Import relations.
From S2P Require Import Prelude Float64 Fmt Types Sizing Ports Strategies VirtualDrives Api Campaign VidSync StaleDrives StaleFacts.
Import TriangleBracketNotations.
Import VidSync.

(** ** The calls of a container *)

(** A drive as it was, or with the VID the proxy gave it when it was added by its label. *)
Definition filled (l : vid_log) (e e' : VirtualDrive) : Prop :=
  e' = e \/ exists guid size vid, vd_VirtualUUID e = "" /\
    (AddByLabel (vd_Label e) (vd_PhysicalUUID e) guid size, Ok vid) ∈ l /\ e' = e <| vd_VirtualUUID := vid |>.

(** The call is for a drive of the allocation. *)
Definition call_for (vds : list VirtualDrive) (c : vid_call) : Prop :=
  match c with
  | AddByLabel label physical _ _ => exists e, e ∈ vds /\ vd_VirtualUUID e = "" /\ vd_Label e = label /\ vd_PhysicalUUID e = physical
  | AddByUuid vid physical _ _ => exists e, e ∈ vds /\ vidPending e = false /\ vd_VirtualUUID e = vid /\ vd_PhysicalUUID e = physical
  | _ => False
  end.

(** The drive is where it should be after the loop: on the proxy already, blocked, or added; and stored with its VID. *)
Definition placed (ans : vid_answers) (added blocked : list string) (l : vid_log) (drives : list VirtualDrive) (e : VirtualDrive) : Prop :=
  settled ans added blocked e = true \/
  (exists guid size r, (AddByUuid (vd_VirtualUUID e) (vd_PhysicalUUID e) guid size, Ok r) ∈ l) \/
  (exists guid size vid, (AddByLabel (vd_Label e) (vd_PhysicalUUID e) guid size, Ok vid) ∈ l /\ e <| vd_VirtualUUID := vid |> ∈ drives).

Lemma filled_mono l l' e e' : l ⊆ l' -> filled l e e' -> filled l' e e'.
Proof. intros Hl [->|(g & s & v & Hv & Hin & ->)]; [by left|]. right. exists g, s, v. split_and!; [done|by apply Hl|done]. Qed.

Lemma placed_mono ans added blocked l l' d d' e : l ⊆ l' -> d ⊆ d' -> placed ans added blocked l d e -> placed ans added blocked l' d' e.
Proof.
  intros Hl Hd [?|[(g & s & r & H)|(g & s & v & H & H')]]; [by left|right; left|right; right].
  - exists g, s, r. by apply Hl.
  - exists g, s, v. split; [by apply Hl|by apply Hd].
Qed.

Lemma call_for_mono vds vds' c : vds ⊆ vds' -> call_for vds c -> call_for vds' c.
Proof. intros Hv. destruct c; simpl; try done; intros (e & ? & ?); exists e; (split; [by apply Hv|done]). Qed.

(** The call got this answer. *)
Definition answered (ans : vid_answers) (x : vid_call * res string string) : Prop := exists l, v_Call ans l x.1 = x.2.

(** A drive was added by its label. *)
Definition given (l : vid_log) : bool := existsb (fun x => match x with (AddByLabel _ _ _ _, Ok _) => true | _ => false end) l.

(** What one turn adds: the drive, perhaps with a VID; calls for this drive; an error, or the drive is placed. *)
Lemma add_one_spec ans guid added blocked st e :
  exists e' l errs, let st' := add_one ans guid added blocked st e in
    as_Drives st' = as_Drives st ++ [e'] /\ as_Log st' = as_Log st ++ l /\ as_Errs st' = as_Errs st ++ errs /\
    as_Changed st' = as_Changed st || given l /\
    filled l e e' /\ Forall (fun x => call_for [e] x.1 /\ answered ans x) l /\ (errs = [] -> placed ans added blocked l [e'] e).
Proof.
  unfold add_one.
  destruct (decide (vd_VirtualUUID e ∈ blockedVirtualUuidSet ans)) as [H1|H1];
    [|destruct (decide (vd_PhysicalUUID e ∈ blocked)) as [H2|H2]; [|destruct (decide (vd_VirtualUUID e ∈ added)) as [H3|H3]]].
  1-3: exists e, [], []; simpl; rewrite !app_nil_r, orb_false_r; split_and!; try done; [by left|];
    intros _; left; unfold settled; apply bool_decide_eq_true; tauto.
  destruct (vidPending e) eqn:Ep; [|destruct (vidLost e)].
  - apply bool_decide_eq_true in Ep as [Hl Hv]. unfold call. set (c := AddByLabel _ _ _ _).
    assert (call_for [e] c) as Hc by (exists e; split_and!; set_solver).
    destruct (v_Call ans (as_Log st) c) as [vid|err] eqn:Ec; simpl.
    + exists (e <| vd_VirtualUUID := vid |>), [(c, Ok vid)], []. simpl. rewrite app_nil_r, orb_true_r.
      split_and!; try done; [right|apply Forall_singleton; split; [done|by exists (as_Log st)]|].
      * exists guid, (vd_CapacityGiB e), vid. split_and!; [done|by left|done].
      * intros _. right. right. exists guid, (vd_CapacityGiB e), vid. split; by left.
    + exists e, [(c, Err err)]. eexists [_]. simpl. rewrite orb_false_r. split_and!; try done; [by left|apply Forall_singleton; split; [done|by exists (as_Log st)]].
  - exists e, []. eexists [_]. simpl. rewrite app_nil_r, orb_false_r. split_and!; try done. by left.
  - unfold call. set (c := AddByUuid _ _ _ _). assert (call_for [e] c) as Hc by (exists e; split_and!; set_solver).
    destruct (v_Call ans (as_Log st) c) as [r|err] eqn:Ec; simpl.
    + exists e, [(c, Ok r)], []. simpl. rewrite app_nil_r, orb_false_r. split_and!; try done; [by left|apply Forall_singleton; split; [done|by exists (as_Log st)]|].
      intros _. right. left. exists guid, (vd_CapacityGiB e), r. by left.
    + exists e, [(c, Err err)]. eexists [_]. simpl. rewrite orb_false_r. split_and!; try done; [by left|apply Forall_singleton; split; [done|by exists (as_Log st)]].
Qed.

Lemma add_loop_spec ans guid added blocked vds :
  let st := foldl (add_one ans guid added blocked) (mkAddState [] [] false []) vds in
  Forall2 (filled (as_Log st)) vds (as_Drives st) /\ Forall (fun x => call_for vds x.1 /\ answered ans x) (as_Log st) /\
  as_Changed st = given (as_Log st) /\
  (as_Errs st = [] -> Forall (placed ans added blocked (as_Log st) (as_Drives st)) vds).
Proof.
  simpl. induction vds as [|e vds (IH1 & IH2 & IH3 & IH4)] using rev_ind; [done|]. rewrite foldl_app. simpl.
  set (st := foldl _ _ vds) in *. destruct (add_one_spec ans guid added blocked st e) as (e' & l & errs & Hd & Hl & He & Hc & Hf & Hall & Hp).
  rewrite Hd, Hl, He, Hc, IH3. split_and!.
  - apply Forall2_app; [|apply Forall2_cons; split; [|done]].
    + eapply Forall2_impl; [exact IH1|]. intros x y. apply filled_mono. set_solver.
    + eapply filled_mono; [|exact Hf]. set_solver.
  - apply Forall_app. split; (eapply Forall_impl; [eassumption|]); intros x [Hx ?]; (split; [|done]); (eapply call_for_mono; [|exact Hx]); set_solver.
  - unfold given. by rewrite existsb_app.
  - intros [E1 E2]%app_nil. apply Forall_app. split; [|apply Forall_singleton; eapply placed_mono; [..|by apply Hp]; set_solver].
    eapply Forall_impl; [by apply IH4|]. intros x. apply placed_mono; set_solver.
Qed.

(** A pass stops before the loop and has called nothing, or knows what is on the proxy. *)
Lemma AddVirtualDrives_inv ans c :
  ((AddVirtualDrives ans c).1 = [] /\
   ((AddVirtualDrives ans c).2 = VidOk -> container_UsesDriveSharing c = false \/ virtual_drives c = [])) \/
  exists guid added blocked,
    getAddedVirtualDrives ans 0 (GetNodeAffinity c) (virtual_drives c) = Ok added /\ v_BlockedPhysical ans = Ok blocked /\
    AddVirtualDrives ans c =
      if forallb (settled ans added blocked) (virtual_drives c) then ([], VidOk)
      else add_missing ans guid added blocked (virtual_drives c).
Proof.
  unfold AddVirtualDrives. destruct (container_UsesDriveSharing c); simpl negb; cbn iota; [|left; auto].
  case_decide; [left; auto|]. case_decide; [by left|]. destruct (v_OwnerCluster ans) as [guid|]; [|by left].
  case_decide; [by left|]. destruct (v_Proxy ans); [|by left]. destruct (v_AgentPod ans); [|by left].
  destruct (v_Token ans); [|by left]. destruct (getAddedVirtualDrives _ _ _ _) as [added|]; [|by left].
  destruct (v_BlockedPhysical ans) as [blocked|]; [|by left]. right. by exists guid, added, blocked.
Qed.

(** The end of the pass: the drives are stored when one of them was given a VID. *)
Lemma add_missing_spec ans guid added blocked vds :
  let st := foldl (add_one ans guid added blocked) (mkAddState [] [] false []) vds in
  exists l, (add_missing ans guid added blocked vds).1 = as_Log st ++ l /\
    (forall x r, (x, r) ∈ l -> x = UpdateStatus (as_Drives st) /\ answered ans (x, r)) /\
    ((add_missing ans guid added blocked vds).2 = VidOk ->
       as_Errs st = [] /\ (as_Changed st = true -> exists r, (UpdateStatus (as_Drives st), Ok r) ∈ l)).
Proof.
  simpl. unfold add_missing. set (st := foldl _ _ vds). destruct (as_Changed st) eqn:Ec.
  - unfold call. destruct (v_Call ans _ _) as [r|err] eqn:Ev; simpl.
    + exists [(UpdateStatus (as_Drives st), Ok r)]. split_and!; [done|intros x r' [= -> ->]%list_elem_of_singleton; split; [done|by eexists]|].
      case_decide; [|done]. intros _. split; [done|]. intros _. exists r. by left.
    + exists [(UpdateStatus (as_Drives st), Err err)]. split_and!; [done|intros x r' [= -> ->]%list_elem_of_singleton; split; [done|by eexists]|].
      rewrite decide_False; [done|]. by intros [_ ?]%app_nil.
  - exists []. simpl. split_and!; [by rewrite app_nil_r|by intros x r ?%not_elem_of_nil|]. by case_decide.
Qed.

(** Every call of a pass is for a drive of the allocation, or stores the drives with the VIDs given. *)
Lemma AddVirtualDrives_calls ans c x r :
  (x, r) ∈ (AddVirtualDrives ans c).1 ->
  answered ans (x, r) /\
  (call_for (virtual_drives c) x \/ exists vds, x = UpdateStatus vds /\ Forall2 (filled (AddVirtualDrives ans c).1) (virtual_drives c) vds).
Proof.
  destruct (AddVirtualDrives_inv ans c) as [[-> _]|(guid & added & blocked & _ & _ & ->)]; [by intros ?%not_elem_of_nil|].
  case_match; [by intros ?%not_elem_of_nil|].
  destruct (add_missing_spec ans guid added blocked (virtual_drives c)) as (l & Hl & Hx & _).
  destruct (add_loop_spec ans guid added blocked (virtual_drives c)) as (Hf & Hc & _).
  rewrite Hl. intros [Hin|Hin]%elem_of_app.
  - eapply Forall_forall in Hc as [? ?]; [|exact Hin]. split; [done|by left].
  - destruct (Hx _ _ Hin) as [-> Ha]. split; [done|]. right. eexists. split; [done|].
    eapply Forall2_impl; [exact Hf|]. intros e e'. apply filled_mono. set_solver.
Qed.

(** C25: When [AddVirtualDrives] returns without an error, for a container in drive-sharing mode, every virtual drive of
    its allocation is on the proxy already, is blocked, or was added by this pass: by its VID, or by its label, and then
    the status was stored with the VID the proxy answered. *)
Theorem AddVirtualDrives_complete ans c l :
  container_UsesDriveSharing c = true -> AddVirtualDrives ans c = (l, VidOk) ->
  virtual_drives c = [] \/
  exists added blocked,
    getAddedVirtualDrives ans 0 (GetNodeAffinity c) (virtual_drives c) = Ok added /\ v_BlockedPhysical ans = Ok blocked /\
    forall e, e ∈ virtual_drives c ->
      (vd_VirtualUUID e ∈ added \/ vd_VirtualUUID e ∈ blockedVirtualUuidSet ans \/ vd_PhysicalUUID e ∈ blocked) \/
      (exists guid size r, (AddByUuid (vd_VirtualUUID e) (vd_PhysicalUUID e) guid size, Ok r) ∈ l) \/
      (exists guid size vid vds r, (AddByLabel (vd_Label e) (vd_PhysicalUUID e) guid size, Ok vid) ∈ l /\
         (UpdateStatus vds, Ok r) ∈ l /\ e <| vd_VirtualUUID := vid |> ∈ vds).
Proof.
  intros Hu H. destruct (AddVirtualDrives_inv ans c) as [[_ Hn]|(guid & added & blocked & Ha & Hb & E)].
  { rewrite H in Hn. destruct (Hn eq_refl) as [Hn'|?]; [by rewrite Hu in Hn'|by left]. }
  right. exists added, blocked. split_and!; [done..|]. intros e He. rewrite H in E.
  destruct (forallb _ _) eqn:Es.
  { left. rewrite forallb_forall in Es. specialize (Es e (proj1 (list_elem_of_In _ _) He)). by apply bool_decide_eq_true in Es. }
  destruct (add_missing_spec ans guid added blocked (virtual_drives c)) as (l' & Hl & _ & Hok).
  destruct (add_loop_spec ans guid added blocked (virtual_drives c)) as (_ & _ & Hc & Hp).
  rewrite <-E in Hl, Hok. simpl in Hl, Hok. set (st := foldl _ _ _) in *. clearbody st. destruct (Hok eq_refl) as [Herr Hst]. subst l.
  specialize (Hp Herr). rewrite Forall_forall in Hp. destruct (Hp e He) as [Hs|[(g & s & r & Hin)|(g & s & v & Hin & Hd)]].
  - left. by apply bool_decide_eq_true in Hs.
  - right; left. exists g, s, r. apply elem_of_app. by left.
  - right; right. destruct Hst as [r Hr]; [rewrite Hc; apply existsb_exists; eexists; split; [by apply list_elem_of_In|done]|].
    exists g, s, v, (as_Drives st), r. split_and!; [apply elem_of_app; by left|apply elem_of_app; by right|exact Hd].
Qed.

(** ** Containers and proxies side by side *)

(** The virtual drives stored in the containers' statuses by name, all that were ever stored, the VIDs ever used,
    and the physical drive of each VID on the proxies. *)
Record world : Type := mkWorld {
  w_Stored : gmap string (list VirtualDrive); w_Ever : list VirtualDrive; w_Issued : gset string; w_Proxy : gmap string string }.

(** [derive]: the VID a proxy makes of a label. *)
Section ownership.
Context (derive : string -> string).

(** The VID that a virtual drive of an allocation has or will have. *)
Definition vid_of (e : VirtualDrive) : string := if decide (vd_VirtualUUID e = "") then derive (vd_Label e) else vd_VirtualUUID e.

(** The VIDs a proxy gives are those of the labels. *)
Definition derives (ans : vid_answers) : Prop :=
  forall l label physical guid size vid, v_Call ans l (AddByLabel label physical guid size) = Ok vid -> vid = derive label.

(** A new virtual drive has a label, whose VID was not used before. *)
Definition fresh (w : world) (e : VirtualDrive) : Prop := vd_Label e <> "" /\ vid_of e ∉ w_Issued w.

Definition store (name : string) (vds : list VirtualDrive) (w : world) : world :=
  mkWorld (<[name := vds]> (w_Stored w)) (vds ++ w_Ever w) (list_to_set (vid_of <$> vds) ∪ w_Issued w) (w_Proxy w).
Definition put (vid physical : string) (w : world) : world :=
  mkWorld (w_Stored w) (w_Ever w) (w_Issued w) (<[vid := physical]> (w_Proxy w)).

(** What a call that succeeded changes, made for the container of this name. *)
Definition apply_vid_call (name : string) (c : vid_call) (answer : string) (w : world) : world :=
  match c with
  | AddByLabel _ physical _ _ => put answer physical w
  | AddByUuid vid physical _ _ => put vid physical w
  | UpdateStatus vds => store name vds w
  | RemoveVid _ | RemoveByLabel _ _ => w
  end.

(** The steps: an allocation that keeps, drops and adds virtual drives; a container deleted; a drive gone from a proxy;
    and one call of a container's pass. The pass may rest on an old status, except when it stores a new one, which the
    API server takes only when the status is the one read. *)
Inductive world_step : world -> world -> Prop :=
  | step_allocate w name vds :
      (forall e, e ∈ vds -> e ∈ default [] (w_Stored w !! name) \/ fresh w e) -> NoDup (vid_of <$> vds) ->
      world_step w (store name vds w)
  | step_delete w name : world_step w (mkWorld (delete name (w_Stored w)) (w_Ever w) (w_Issued w) (w_Proxy w))
  | step_gone w vid : world_step w (mkWorld (w_Stored w) (w_Ever w) (w_Issued w) (delete vid (w_Proxy w)))
  | step_call w name ans c x answer :
      derives ans -> virtual_drives c ⊆ w_Ever w -> (x, Ok answer) ∈ (AddVirtualDrives ans c).1 ->
      (forall vds, x = UpdateStatus vds -> w_Stored w !! name = Some (virtual_drives c)) ->
      world_step w (apply_vid_call name x answer w).

(** Before the first allocation; the proxies may have anything. *)
Definition initial (w : world) : Prop := w_Stored w = ∅ /\ w_Ever w = [] /\ dom (w_Proxy w) ⊆ w_Issued w.

(** No two drives with one VID are on different physical drives, whether of allocations or on the proxies. *)
Record coherent (w : world) : Prop := {
  co_stored name vds : w_Stored w !! name = Some vds -> vds ⊆ w_Ever w;
  co_ever e : e ∈ w_Ever w -> vd_Label e <> "" /\ vid_of e ∈ w_Issued w;
  co_proxy vid : vid ∈ dom (w_Proxy w) -> vid ∈ w_Issued w;
  co_placed e p : e ∈ w_Ever w -> w_Proxy w !! vid_of e = Some p -> p = vd_PhysicalUUID e;
  co_physical e e' : e ∈ w_Ever w -> e' ∈ w_Ever w -> vid_of e = vid_of e' -> vd_PhysicalUUID e = vd_PhysicalUUID e' }.

Lemma initial_coherent w : initial w -> coherent w.
Proof.
  intros (Hs & He & Hp). split; rewrite ?Hs, ?He; try by intros ? ?%not_elem_of_nil.
  - intros name vds. by rewrite lookup_empty.
  - intros vid. apply Hp.
  - by intros e p ?%not_elem_of_nil.
  - by intros e e' ?%not_elem_of_nil.
Qed.

(** A drive that is stored anew is like one stored before, or is fresh. *)
Definition like (e e' : VirtualDrive) : Prop :=
  vd_Label e = vd_Label e' /\ vid_of e = vid_of e' /\ vd_PhysicalUUID e = vd_PhysicalUUID e'.

Lemma store_coherent name vds w :
  coherent w -> (forall e, e ∈ vds -> (exists e', e' ∈ w_Ever w /\ like e e') \/ fresh w e) ->
  (forall e e', e ∈ vds -> e' ∈ vds -> vid_of e = vid_of e' -> vd_PhysicalUUID e = vd_PhysicalUUID e') ->
  coherent (store name vds w).
Proof.
  intros [C1 C2 C3 C4 C5] Hv Hd. split; simpl.
  - intros n vds'. rewrite lookup_insert. case_decide; [intros [= <-]; set_solver|]. intros ?%C1. set_solver.
  - intros e [He|He]%elem_of_app; [|destruct (C2 e He); set_solver]. split; [|set_solver].
    destruct (Hv e He) as [(e' & He' & -> & _)|[? _]]; [by apply C2|done].
  - intros vid ?%C3. set_solver.
  - intros e p [He|He]%elem_of_app Hp; [|by eapply C4]. destruct (Hv e He) as [(e' & He' & _ & Ev & ->)|[_ Hf]].
    + rewrite Ev in Hp. by eapply C4.
    + destruct Hf. apply C3. by eapply elem_of_dom_2.
  - assert (forall e e', e ∈ vds -> e' ∈ w_Ever w -> vid_of e = vid_of e' -> vd_PhysicalUUID e = vd_PhysicalUUID e') as Hmix.
    { intros e e' He He' E. destruct (Hv e He) as [(e1 & He1 & _ & Ev & ->)|[_ Hf]]; [apply C5; congruence|].
      destruct Hf. rewrite E. by apply C2. }
    intros e e' [He|He]%elem_of_app [He'|He']%elem_of_app E; [by apply Hd|by apply Hmix|symmetry; by apply Hmix|by apply C5].
Qed.

Lemma put_coherent vid physical w e :
  coherent w -> e ∈ w_Ever w -> vid_of e = vid -> vd_PhysicalUUID e = physical -> coherent (put vid physical w).
Proof.
  intros [C1 C2 C3 C4 C5] He <- <-. split; simpl; [done..| | |done].
  - intros vid. rewrite dom_insert. intros [->%elem_of_singleton|?]%elem_of_union; [by apply C2|by apply C3].
  - intros e' p He'. rewrite lookup_insert. case_decide as E; [|by apply C4]. intros [= <-]. by apply C5.
Qed.

Lemma filled_like ans c e e' : derives ans -> filled (AddVirtualDrives ans c).1 e e' -> like e' e.
Proof.
  intros Hd [->|(g & s & vid & Hv & Hin & ->)]; [done|]. destruct (AddVirtualDrives_calls _ _ _ _ Hin) as [[l0 Hc] _]. apply Hd in Hc.
  destruct e as [v label physical capacity serial type]; simpl in *. unfold like, vid_of. simpl.
  split_and!; [done| |done]. unfold constant. repeat case_decide; congruence.
Qed.

(** What a later world has of a VID used before goes back to what had it. *)
Record inherits (w w' : world) : Prop := {
  in_issued : w_Issued w ⊆ w_Issued w';
  in_ever e : e ∈ w_Ever w' -> vid_of e ∈ w_Issued w -> exists e', e' ∈ w_Ever w /\ like e e';
  in_stored name vds e : w_Stored w' !! name = Some vds -> e ∈ vds -> vid_of e ∈ w_Issued w ->
    exists vds' e', w_Stored w !! name = Some vds' /\ e' ∈ vds' /\ vid_of e = vid_of e' }.

#[local] Instance inherits_preorder : PreOrder inherits.
Proof.
  split.
  - intros w. split; [done| |]; [intros e ? _; by exists e|intros name vds e ? ? _; by exists vds, e].
  - intros w1 w2 w3 [I1 E1 S1] [I2 E2 S2]. split; [by etrans| |].
    + intros e He Hv. destruct (E2 e He (I1 _ Hv)) as (e2 & He2 & L1 & V1 & P1). rewrite V1 in Hv.
      destruct (E1 e2 He2 Hv) as (e1 & He1 & L2 & V2 & P2). exists e1. split; [done|]. split_and!; by etrans.
    + intros name vds e Hn He Hv. destruct (S2 _ _ _ Hn He (I1 _ Hv)) as (vds2 & e2 & Hn2 & He2 & V2). rewrite V2 in Hv.
      destruct (S1 _ _ _ Hn2 He2 Hv) as (vds1 & e1 & Hn1 & He1 & V1). exists vds1, e1. split_and!; [done..|congruence].
Qed.

Lemma inherits_shrink w w' :
  w_Ever w' = w_Ever w -> w_Issued w' = w_Issued w -> w_Stored w' ⊆ w_Stored w -> inherits w w'.
Proof.
  intros He Hi Hs. split; [by rewrite Hi| |].
  - rewrite He. intros e ? _. by exists e.
  - intros name vds e Hn ? _. exists vds, e. split_and!; [by eapply lookup_weaken|done..].
Qed.

Lemma inherits_store name vds w :
  (forall e, e ∈ vds -> (exists old e', w_Stored w !! name = Some old /\ e' ∈ old /\ e' ∈ w_Ever w /\ like e e') \/ fresh w e) ->
  inherits w (store name vds w).
Proof.
  intros Hv. split; simpl; [set_solver| |].
  - intros e [He|He]%elem_of_app Hi; [|by exists e]. destruct (Hv e He) as [(old & e' & _ & _ & ? & ?)|[_ ?]]; [by exists e'|done].
  - intros n vds' e. rewrite lookup_insert. case_decide as En; [intros [= <-] He Hi; subst n|intros ? ? _; by exists vds', e].
    destruct (Hv e He) as [(old & e' & ? & ? & _ & _ & ? & _)|[_ ?]]; [by exists old, e'|done].
Qed.

Lemma allocate_step w name vds :
  coherent w -> (forall e, e ∈ vds -> e ∈ default [] (w_Stored w !! name) \/ fresh w e) -> NoDup (vid_of <$> vds) ->
  coherent (store name vds w) /\ inherits w (store name vds w).
Proof.
  intros C Hv Hnd.
  assert (forall e, e ∈ vds -> (exists old e', w_Stored w !! name = Some old /\ e' ∈ old /\ e' ∈ w_Ever w /\ like e e') \/ fresh w e) as Hv'.
  { intros e He. destruct (Hv e He) as [Hold|?]; [left|by right].
    destruct (w_Stored w !! name) as [old|] eqn:Eo; [|by apply not_elem_of_nil in Hold].
    exists old, e. split_and!; [done..| |done]. by eapply co_stored. }
  split; [|by apply inherits_store]. apply store_coherent; [done| |].
  - intros e He. destruct (Hv' e He) as [(old & e' & _ & _ & ? & ?)|?]; [left; by exists e'|by right].
  - intros e e' He He' E. apply list_elem_of_lookup in He as [i Hi]. apply list_elem_of_lookup in He' as [j Hj].
    assert (i = j) as <-; [|by simplify_eq]. eapply (NoDup_lookup _ _ _ (vid_of e)); [exact Hnd|..].
    { rewrite list_lookup_fmap. exact (f_equal (fmap vid_of) Hi). }
    rewrite list_lookup_fmap, E. exact (f_equal (fmap vid_of) Hj).
Qed.

Lemma call_step w name ans c x answer :
  coherent w -> derives ans -> virtual_drives c ⊆ w_Ever w -> (x, Ok answer) ∈ (AddVirtualDrives ans c).1 ->
  (forall vds, x = UpdateStatus vds -> w_Stored w !! name = Some (virtual_drives c)) ->
  coherent (apply_vid_call name x answer w) /\ inherits w (apply_vid_call name x answer w).
Proof.
  intros C Hd Hever Hin Hst. destruct (AddVirtualDrives_calls _ _ _ _ Hin) as [[l0 Ha] [Hc|(vds & -> & Hf)]].
  - destruct x as [label physical guid size|vid physical guid size|?|? ?|?]; try done; simpl in Hc, Ha;
      (split; [|by apply inherits_shrink]).
    + destruct Hc as (e & He & Hv & <- & Hp). apply (put_coherent _ _ _ e); [done|by apply Hever| |done].
      apply Hd in Ha as ->. unfold vid_of. by rewrite decide_True.
    + destruct Hc as (e & He & Hpend & <- & Hp). apply (put_coherent _ _ _ e); [done|by apply Hever| |done].
      unfold vid_of. rewrite decide_False; [done|]. intros E. apply bool_decide_eq_false in Hpend. destruct Hpend.
      split; [|done]. by apply (co_ever _ C), Hever.
  - assert (forall e, e ∈ vds -> exists e', e' ∈ virtual_drives c /\ like e e') as Hlike.
    { intros e [i Hi]%list_elem_of_lookup. destruct (Forall2_lookup_r _ _ _ _ _ Hf Hi) as (e' & He' & Hfe).
      exists e'. split; [by eapply list_elem_of_lookup_2|]. by eapply filled_like. }
    split.
    + apply store_coherent; [done| |].
      * intros e He. destruct (Hlike e He) as (e' & ? & ?). left. exists e'. split; [by apply Hever|done].
      * intros e e' He He' E. destruct (Hlike e He) as (e1 & H1 & _ & V1 & ->). destruct (Hlike e' He') as (e2 & H2 & _ & V2 & ->).
        apply (co_physical _ C); [by apply Hever..|congruence].
    + apply inherits_store. intros e He. destruct (Hlike e He) as (e' & ? & ?). left. exists (virtual_drives c), e'.
      split_and!; [by eapply Hst|done|by apply Hever|done..].
Qed.

Lemma world_run w w' : coherent w -> rtc world_step w w' -> coherent w' /\ inherits w w'.
Proof.
  intros C Hr. induction Hr as [w|w w1 w' Hs _ IH]; [done|].
  assert (coherent w1 /\ inherits w w1) as [C1 I1]; [|destruct (IH C1); split; [done|by etrans]].
  destruct Hs as [w name vds Hv Hnd|w name|w vid|w name ans c x answer Hd Hever Hin Hst];
    [by apply allocate_step| | |by eapply call_step]; (split; [|apply inherits_shrink; try done; apply delete_subseteq]);
    destruct C as [C1 C2 C3 C4 C5]; split; try done; simpl.
  - intros n vds. rewrite lookup_delete_Some. intros [_ ?]. by eapply C1.
  - intros v. rewrite dom_delete. intros [? _]%elem_of_difference. by apply C3.
  - intros e p He. rewrite lookup_delete_Some. intros [_ ?]. by apply C4.
Qed.

(** The listings of the scan, each of its own moment before the containers are read again, and that complete read. *)
Definition observed (w0 w2 : world) (ans : StaleDrives.answers) : Prop :=
  (forall u ds d, StaleDrives.s_Listing ans u = Ok ds -> d ∈ ds ->
     exists w1, rtc world_step w0 w1 /\ rtc world_step w1 w2 /\
       w_Proxy w1 !! StaleDrives.pd_VirtualUUID d = Some (StaleDrives.pd_PhysicalUUID d)) /\
  forall cs name vds, StaleDrives.s_AgainContainers ans = Ok cs -> w_Stored w2 !! name = Some vds ->
    exists c, c ∈ cs /\ virtual_drives c = vds.

(** C23: However the containers allocate, add, store and drop virtual drives while the clean-up runs, one call at a time and
    resting on old statuses, the clean-up removes no virtual drive that an allocation owns when it is removed or comes to
    own later, its VID stored or still to be given by the proxy. *)
Theorem cleanup_spares_owned hash manual ans o node uid vid a w0 w2 w3 :
  initial w0 -> rtc world_step w0 w2 -> rtc world_step w2 w3 -> observed w0 w2 ans ->
  (Act (StaleDrives.RemoveVirtualDrive node uid vid), a) ∈ calls (StaleDrives.pass hash manual ans o).1 ->
  forall name vds e, w_Stored w3 !! name = Some vds -> e ∈ vds -> vid_of e <> vid.
Proof.
  intros H0 H02 H23 [Hlist Hcs] Hin.
  destruct (pass_removal _ _ _ _ _ _ _ _ Hin) as (r & proxyOf & _ & cs & Hs & _ & _ & _ & _ & _ & Hc & _ & _ & s & Hsin & _ & Hv & Hncl & Hnp).
  destruct (Scan_stale _ _ _ _ _ Hs Hsin) as (u & ds & d & _ & _ & Hl & Hd & _ & _ & _ & Ev & Ep & _).
  destruct (Hlist _ _ _ Hl Hd) as (w1 & H01 & H12 & Hp). rewrite <-Ev, Hv, <-Ep in Hp.
  pose proof (initial_coherent _ H0) as C0. destruct (world_run _ _ C0 H01) as [C1 _]. destruct (world_run _ _ C1 H12) as [C2 I12].
  destruct (world_run _ _ C2 H23) as [_ I23].
  assert (vid ∈ w_Issued w1) as Hi1 by (apply (co_proxy _ C1); by eapply elem_of_dom_2).
  intros name3 vds3 e3 Hn3 He3 E3. destruct (in_stored _ _ I23 _ _ _ Hn3 He3) as (vds & e & Hn & He & E).
  { rewrite E3. by apply (in_issued _ _ I12). }
  rewrite E3 in E. destruct (Hcs _ _ _ Hc Hn) as (c & Hcin & <-).
  assert (e ∈ StaleDrives.all_virtual_drives cs) as Hall.
  { apply list_elem_of_In, in_concat. exists (virtual_drives c). split; apply list_elem_of_In; [|done]. apply list_elem_of_fmap. by exists c. }
  destruct (in_ever _ _ I12 e) as (e1 & He1 & _ & V1 & P1); [by apply (co_stored _ C2 _ _ Hn)|by rewrite <-E|].
  destruct (decide (vd_VirtualUUID e = "")) as [Ee|Ee].
  - destruct Hnp. rewrite V1 in E. rewrite E in Hp. rewrite (co_placed _ C1 _ _ He1 Hp), <-P1.
    apply list_elem_of_fmap. exists e. split; [done|]. by apply list_elem_of_filter.
  - destruct Hncl. apply list_elem_of_fmap. exists e. split; [|by apply list_elem_of_filter].
    rewrite E. unfold vid_of. by rewrite decide_False.
Qed.
End ownership.

(** ** A container with two virtual drives beside a stale one *)

Definition od_answers : vid_answers := {|
  v_ClusterID := "guid"; v_SkipRemoval := false; v_OwnerCluster := Ok "guid"; v_Proxy := Ok tt; v_AgentPod := Ok tt;
  v_Token := Ok tt; v_Physical := fun _ => Ok ["p1"; "p3"]; v_Listing := fun _ _ => Ok ["v2"]; v_BlockedVids := Ok [];
  v_BlockedPhysical := Ok []; v_Call := fun _ c => match c with AddByLabel label _ _ _ => Ok label | _ => Ok "" end |}.

Definition od_container : Container := sd_container "drives" sd_claims.

(** The drives once the proxy has given the second its VID. *)
Definition od_stored : list VirtualDrive := [mkVirtual "v1" "v1" "p1" 100 "" "TLC"; mkVirtual "l3" "l3" "p3" 100 "" "TLC"].

Definition od_log : vid_log :=
  [(AddByUuid "v1" "p1" "guid" 100, Ok ""); (AddByLabel "l3" "p3" "guid" 100, Ok "l3"); (UpdateStatus od_stored, Ok "")].

Lemma od_calls : AddVirtualDrives od_answers od_container = (od_log, VidOk).
Proof. vm_compute. reflexivity. Qed.

Lemma AddVirtualDrives_complete_witness :
  exists vds r, (UpdateStatus vds, Ok r) ∈ od_log /\ mkVirtual "l3" "l3" "p3" 100 "" "TLC" ∈ vds.
Proof.
  destruct (AddVirtualDrives_complete od_answers od_container od_log) as [H|(added & blocked & Ha & Hb & H)];
    [vm_compute; reflexivity|exact od_calls|discriminate|].
  vm_compute in Ha. injection Ha as <-. injection Hb as <-.
  destruct (H (mkVirtual "" "l3" "p3" 100 "" "TLC")) as [Hs|[(g & s & r & Hs)|(g & s & vid & vds & r & H1 & H2 & H3)]].
  - by right; left.
  - exfalso. simpl in Hs. destruct Hs as [Hs|[Hs|Hs]]; set_unfold in Hs; naive_solver.
  - exfalso. unfold od_log in Hs. rewrite !elem_of_cons in Hs. by destruct Hs as [?|[?|[?|?%not_elem_of_nil]]].
  - exists vds, r. split; [exact H2|]. assert (vid = "l3") as ->; [|exact H3].
    unfold od_log in H1. rewrite !elem_of_cons in H1. destruct H1 as [H1|[H1|[H1|H1%not_elem_of_nil]]]; simplify_eq; done.
Defined.

(** The stale drive is there before the allocation; then the first two calls, then the third. *)
Definition od_w0 : world := mkWorld ∅ [] {["v2"]} {["v2" := "p1"]}.
Definition od_w2 : world := put "l3" "p3" (put "v1" "p1" (store (fun s => s) "drives" sd_claims od_w0)).
Definition od_w3 : world := store (fun s => s) "drives" od_stored od_w2.

Lemma od_call w x answer :
  w_Ever w = sd_claims -> w_Stored w !! "drives" = Some sd_claims -> (x, Ok answer) ∈ od_log ->
  world_step (fun s => s) w (apply_vid_call (fun s => s) "drives" x answer w).
Proof.
  intros He Hs Hin. apply (step_call _ w "drives" od_answers od_container).
  - by intros l label p g s vid [= <-].
  - by rewrite He.
  - by rewrite od_calls.
  - intros vds _. by rewrite Hs.
Qed.

Lemma od_allocated : rtc (world_step (fun s => s)) od_w0 od_w2.
Proof.
  eapply rtc_l; [apply (step_allocate _ od_w0 "drives" sd_claims)|].
  - intros e He. right. set_unfold in He. destruct He as [->|[->|[]]]; (split; [done|]); vm_compute; discriminate.
  - apply (bool_decide_unpack _). vm_compute. exact I.
  - eapply rtc_l; [apply (od_call _ (AddByUuid "v1" "p1" "guid" 100) ""); [done..|by left]|].
    apply rtc_once. apply (od_call _ (AddByLabel "l3" "p3" "guid" 100) "l3"); [done..|]. by right; left.
Qed.

Lemma cleanup_spares_owned_witness :
  (Act (StaleDrives.RemoveVirtualDrive "n1" "uid" "v2"), None) ∈ sd_pass (fun s => s) sd_run.1 /\
  forall e, e ∈ od_stored -> vid_of (fun s => s) e <> "v2".
Proof.
  assert ((Act (StaleDrives.RemoveVirtualDrive "n1" "uid" "v2"), None) ∈ sd_pass (fun s => s) sd_run.1) as Hin
    by (vm_compute; constructor).
  split; [exact Hin|]. intros e He.
  apply (cleanup_spares_owned (fun s => s) (fun s => s) true (sd_answers sd_cluster) sd_run.1 "n1" "uid" "v2" None od_w0 od_w2 od_w3)
    with (name := "drives") (vds := od_stored).
  - split_and!; [done..|]. vm_compute. set_solver.
  - exact od_allocated.
  - apply rtc_once. apply (od_call od_w2 (UpdateStatus od_stored) ""); [done..|]. by right; right; left.
  - split.
    + intros u ds d [= <-] Hd. exists od_w2. split; [exact od_allocated|]. split; [reflexivity|].
      set_unfold in Hd. by destruct Hd as [->|[->|[->|[]]]].
    + intros cs name vds [= <-] Hn. exists (sd_container "drives" sd_claims). split; [by left|].
      simpl in Hn. destruct (decide (name = "drives")) as [->|Hne].
      * vm_compute in Hn. by injection Hn as <-.
      * unfold od_w2, store, od_w0 in Hn. simpl in Hn. rewrite lookup_insert_ne in Hn by done. by rewrite lookup_empty in Hn.
  - exact Hin.
  - reflexivity.
  - exact He.
Defined.
